(** * falcon-exchange: a limit-order-book matching engine

    Shallow embedding of [order.hpp], [price_level.hpp], [order_book.hpp],
    [event_queue.hpp] and [matching_engine.hpp], followed by the properties
    of the matching core.

    Modelling conventions.
    - [int64_t] prices and quantities are integers in [Z].  Signed overflow
      is undefined behaviour in C++, so the model describes the executions
      that stay in range: the sums of quantities are taken in [Z], and a
      theorem that needs a total to be a value of [int64_t] says so by a
      hypothesis on the quantities submitted ([submitted_quantity]).  The
      difference of two prices in [spread], which two prices of the range
      can take out of it, is taken back into the range by [i64].
    - [uint64_t] counters are [Z] with the wrap-around [u64] written out.
    - [std::deque<std::shared_ptr<Order>>] is a [list Order], oldest first.
      Every order handed to the engine is taken to be an object of its own
      (the data model requires unique ids), so a write through a pointer is
      modelled by storing the updated record at the position the pointer
      was read from.
    - [std::map<int64_t, PriceLevel>] is an association list kept in
      ascending key order; a pointer or iterator to a map node is modelled
      by the node's key.
    - The callbacks and the writes to the [status] field of the (shared)
      order objects are the observable effects of the engine; they are
      recorded as traces.  The order update callback is called only when
      one is installed, which the state of the engine records; the trace
      of the trades lists the trades [execute_trade] makes, each of which
      it hands to the trade callback when one is installed.
    - The time stamps taken from [steady_clock] play no part in the logic
      and are left out.
    - The two [while] loops of the matcher are unrolled a bounded number
      of times; the bound is computed from the book and is shown to be
      no restriction ([limit_loop_exit], [limit_loop_fuel]).
    - The engine is modelled as what its worker does with the events it
      pops.  The calls that enqueue an event and the loop of [run] are
      modelled for one thread at a time; the threads themselves, [start]
      and [stop] are left out.
    - [mid_price] computes in [double] and is left out, as is the setter
      of the trade callback. *)

From Stdlib Require Import ZArith List Bool Lia String Sorted.
Import ListNotations.
Open Scope Z_scope.

(** ** order.hpp *)

Inductive OrderSide : Set := BUY | SELL.
Inductive OrderType : Set := LIMIT | MARKET.
Inductive OrderStatus : Set :=
  NEW | PARTIALLY_FILLED | FILLED | CANCELLED | REJECTED.

Record Order : Set := mkOrder {
  id : Z;
  symbol : string;
  side : OrderSide;
  type : OrderType;
  price : Z;
  quantity : Z;
  filled_quantity : Z;
  status : OrderStatus;
  sequence_number : Z
}.

(** The wrap-around of a [uint64_t]. *)
Definition u64 (x : Z) : Z := x mod 2 ^ 64.

(** The range of an [int64_t], and the value of that type a result
    outside of it is taken to (two's complement). *)
Definition INT64_MAX : Z := 2 ^ 63 - 1.
Definition INT64_MIN : Z := - 2 ^ 63.
Definition i64 (x : Z) : Z := (x + 2 ^ 63) mod 2 ^ 64 - 2 ^ 63.

(** [Order::Order(id, symbol, side, type, price, quantity)] *)
Definition new_order (i : Z) (sym : string) (sd : OrderSide) (ty : OrderType)
    (p q : Z) : Order :=
  mkOrder i sym sd ty p q 0 NEW 0.

Definition remaining_quantity (o : Order) : Z :=
  quantity o - filled_quantity o.

Definition is_filled (o : Order) : bool :=
  filled_quantity o >=? quantity o.

Definition is_active (o : Order) : bool :=
  match status o with
  | NEW | PARTIALLY_FILLED => true
  | _ => false
  end.

(** Field assignments through a pointer to an order. *)
Definition with_status (o : Order) (s : OrderStatus) : Order :=
  mkOrder (id o) (symbol o) (side o) (type o) (price o) (quantity o)
          (filled_quantity o) s (sequence_number o).

Definition with_filled_quantity (o : Order) (f : Z) : Order :=
  mkOrder (id o) (symbol o) (side o) (type o) (price o) (quantity o)
          f (status o) (sequence_number o).

Definition with_sequence_number (o : Order) (n : Z) : Order :=
  mkOrder (id o) (symbol o) (side o) (type o) (price o) (quantity o)
          (filled_quantity o) (status o) n.


(** One assignment [order->status = v]: the object as it is just before
    the assignment, and the value assigned. *)
Record StatusWrite : Set := mkWrite {
  sw_order : Order;
  sw_new : OrderStatus
}.

Definition sw_old (w : StatusWrite) : OrderStatus := status (sw_order w).
Definition sw_result (w : StatusWrite) : Order :=
  with_status (sw_order w) (sw_new w).

Definition OrderType_eqb (a b : OrderType) : bool :=
  match a, b with
  | LIMIT, LIMIT | MARKET, MARKET => true
  | _, _ => false
  end.

(** ** price_level.hpp *)

Module PriceLevel.

(** [total_quantity_] is an [int64_t].  [add_order], [remove_order],
    [update_total_quantity] and [update_order_quantity] add to it and
    subtract from it in [Z]: they describe the calls whose results are
    values of [int64_t] (see [level_in_range] and [book_in_range]). *)
Record t : Set := mk {
  price_ : Z;
  total_quantity_ : Z;
  orders_ : list Order
}.

(** [PriceLevel(int64_t price)] *)
Definition make (p : Z) : t := mk p 0 [].

Definition add_order (l : t) (order : Order) : t :=
  mk (price_ l)
     (total_quantity_ l + remaining_quantity order)
     (orders_ l ++ [order]).

(** The loop of [remove_order]: the first order with the given id, and
    the deque without it. *)
Fixpoint erase_first (order_id : Z) (os : list Order)
    : option (Order * list Order) :=
  match os with
  | [] => None
  | o :: os' =>
      if id o =? order_id then Some (o, os')
      else match erase_first order_id os' with
           | Some (found, rest) => Some (found, o :: rest)
           | None => None
           end
  end.

Definition remove_order (l : t) (order : Order) : t :=
  match erase_first (id order) (orders_ l) with
  | Some (found, rest) =>
      mk (price_ l) (total_quantity_ l - remaining_quantity found) rest
  | None => l
  end.

Definition front_order (l : t) : option Order := hd_error (orders_ l).

Definition empty (l : t) : bool :=
  match orders_ l with
  | [] => true
  | _ :: _ => false
  end.

Definition total_quantity (l : t) : Z := total_quantity_ l.
Definition price (l : t) : Z := price_ l.
Definition order_count (l : t) : nat := List.length (orders_ l).

Definition update_total_quantity (l : t) (delta : Z) : t :=
  mk (price_ l) (total_quantity_ l + delta) (orders_ l).

Fixpoint find_in (order_id : Z) (os : list Order) : option Order :=
  match os with
  | [] => None
  | o :: os' => if id o =? order_id then Some o else find_in order_id os'
  end.

Definition find_order (l : t) (order_id : Z) : option Order :=
  find_in order_id (orders_ l).

(** The object returned by [front_order] is shared with the deque: after
    it has been written through the pointer, the front of the deque is
    the updated object. *)
Definition store_front (l : t) (o : Order) : t :=
  match orders_ l with
  | [] => l
  | _ :: os => mk (price_ l) (total_quantity_ l) (o :: os)
  end.



Definition get_orders (l : t) : list Order := orders_ l.

End PriceLevel.

(** ** order_book.hpp *)

Module OrderBook.

(** [std::map<int64_t, PriceLevel>], in ascending key order. *)
Definition SideMap : Set := list (Z * PriceLevel.t).

Fixpoint find (m : SideMap) (k : Z) : option PriceLevel.t :=
  match m with
  | [] => None
  | (k', l) :: m' => if k' =? k then Some l else find m' k
  end.

(** [emplace]: a new node at its place in key order; nothing happens
    when the key is present. *)
Fixpoint emplace (m : SideMap) (k : Z) (l : PriceLevel.t) : SideMap :=
  match m with
  | [] => [(k, l)]
  | (k', l') :: m' =>
      if k <? k' then (k, l) :: m
      else if k =? k' then m
      else (k', l') :: emplace m' k l
  end.

(** A mutation [it->second.f(...)] of the node with key [k]. *)
Fixpoint modify (m : SideMap) (k : Z) (f : PriceLevel.t -> PriceLevel.t)
    : SideMap :=
  match m with
  | [] => []
  | (k', l) :: m' =>
      if k' =? k then (k', f l) :: m' else (k', l) :: modify m' k f
  end.

Fixpoint erase (m : SideMap) (k : Z) : SideMap :=
  match m with
  | [] => []
  | (k', l) :: m' => if k' =? k then m' else (k', l) :: erase m' k
  end.

(** [rbegin()] of a non-empty map. *)
Fixpoint last_error {A : Type} (l : list A) : option A :=
  match l with
  | [] => None
  | [a] => Some a
  | _ :: l' => last_error l'
  end.

Record t : Set := mk {
  symbol_ : string;
  bids_ : SideMap;
  asks_ : SideMap;
  sequence_counter_ : Z
}.

(** [OrderBook(const std::string& symbol)] *)
Definition make (sym : string) : t := mk sym [] [] 0.

Definition with_bids (b : t) (m : SideMap) : t :=
  mk (symbol_ b) m (asks_ b) (sequence_counter_ b).

Definition with_asks (b : t) (m : SideMap) : t :=
  mk (symbol_ b) (bids_ b) m (sequence_counter_ b).

Definition add_to_side (sd : SideMap) (order : Order) : SideMap * bool :=
  let sd' :=
    match find sd (price order) with
    | None => emplace sd (price order) (PriceLevel.make (price order))
    | Some _ => sd
    end in
  (modify sd' (price order) (fun l => PriceLevel.add_order l order), true).

Definition remove_from_side (sd : SideMap) (order : Order)
    : SideMap * bool :=
  match find sd (price order) with
  | Some l =>
      let l' := PriceLevel.remove_order l order in
      (if PriceLevel.empty l' then erase sd (price order)
       else modify sd (price order) (fun _ => l'), true)
  | None => (sd, false)
  end.

(** [add_order] writes the sequence number into the order: the updated
    order is returned with the book. *)
Definition add_order (b : t) (order : Order) : t * Order * bool :=
  if negb (String.eqb (symbol order) (symbol_ b)) then (b, order, false)
  else
    let n := u64 (sequence_counter_ b + 1) in
    let order' := with_sequence_number order n in
    let b' := mk (symbol_ b) (bids_ b) (asks_ b) n in
    match side order' with
    | BUY =>
        let '(m, r) := add_to_side (bids_ b') order' in
        (with_bids b' m, order', r)
    | SELL =>
        let '(m, r) := add_to_side (asks_ b') order' in
        (with_asks b' m, order', r)
    end.

Definition remove_order (b : t) (order : Order) : t * bool :=
  match side order with
  | BUY =>
      let '(m, r) := remove_from_side (bids_ b) order in (with_bids b m, r)
  | SELL =>
      let '(m, r) := remove_from_side (asks_ b) order in (with_asks b m, r)
  end.

(** One of the two search loops of [cancel_order], over the nodes in
    iteration order.  [Some] stands for [return true]; it carries the
    map after the removal and the write [order->status = CANCELLED]. *)
Fixpoint cancel_in_side (m : SideMap) (order_id : Z)
    : option (SideMap * StatusWrite) :=
  match m with
  | [] => None
  | (k, l) :: m' =>
      match PriceLevel.find_order l order_id with
      | Some order =>
          let w := mkWrite order CANCELLED in
          let l' := PriceLevel.remove_order l (sw_result w) in
          Some (if PriceLevel.empty l' then m' else (k, l') :: m', w)
      | None =>
          match cancel_in_side m' order_id with
          | Some (m'', w) => Some ((k, l) :: m'', w)
          | None => None
          end
      end
  end.

(** [cancel_order]: [Some w] stands for [true], [None] for [false]. *)
Definition cancel_order (b : t) (order_id : Z) : t * option StatusWrite :=
  match cancel_in_side (bids_ b) order_id with
  | Some (m, w) => (with_bids b m, Some w)
  | None =>
      match cancel_in_side (asks_ b) order_id with
      | Some (m, w) => (with_asks b m, Some w)
      | None => (b, None)
      end
  end.

Definition best_bid (b : t) : option Z :=
  option_map fst (last_error (bids_ b)).

Definition best_ask (b : t) : option Z :=
  option_map fst (hd_error (asks_ b)).

(** The pointers returned by [get_best_bid_level] and
    [get_best_ask_level]: the key of the node and the level it holds. *)
Definition get_best_bid_level (b : t) : option (Z * PriceLevel.t) :=
  last_error (bids_ b).

Definition get_best_ask_level (b : t) : option (Z * PriceLevel.t) :=
  hd_error (asks_ b).

Definition bid_levels (b : t) : nat := List.length (bids_ b).
Definition ask_levels (b : t) : nat := List.length (asks_ b).

(** The orders resting in the book, bids first, each side in key order. *)
Definition side_orders (m : SideMap) : list Order :=
  flat_map (fun kl => PriceLevel.orders_ (snd kl)) m.

Definition book_orders (b : t) : list Order :=
  side_orders (bids_ b) ++ side_orders (asks_ b).

(** [return *ask - *bid;] is a subtraction of [int64_t]: the difference
    of a low bid and a high ask can leave the range, and is then taken
    back into it by [i64]. *)
Definition spread (b : t) : option Z :=
  match best_bid b, best_ask b with
  | Some bid, Some ask => Some (i64 (ask - bid))
  | _, _ => None
  end.

Module TopOfBook.

Record t : Set := mk {
  bid_price : option Z;
  bid_quantity : option Z;
  ask_price : option Z;
  ask_quantity : option Z
}.

End TopOfBook.

Definition get_top_of_book (b : t) : TopOfBook.t :=
  let top := TopOfBook.mk None None None None in
  let top :=
    match last_error (bids_ b) with
    | Some (_, best_bid_level) =>
        TopOfBook.mk (Some (PriceLevel.price best_bid_level))
                     (Some (PriceLevel.total_quantity best_bid_level))
                     (TopOfBook.ask_price top) (TopOfBook.ask_quantity top)
    | None => top
    end in
  match hd_error (asks_ b) with
  | Some (_, best_ask_level) =>
      TopOfBook.mk (TopOfBook.bid_price top) (TopOfBook.bid_quantity top)
                   (Some (PriceLevel.price best_ask_level))
                   (Some (PriceLevel.total_quantity best_ask_level))
  | None => top
  end.

Module DepthLevel.

Record t : Set := mk {
  price : Z;
  quantity : Z;
  order_count : nat
}.

End DepthLevel.

(** The loop of [get_bid_depth] and [get_ask_depth]: one entry for each
    of the first [max_levels] nodes, in the order of the iteration. *)
Fixpoint depth_loop (max_levels : nat) (nodes : SideMap)
    : list DepthLevel.t :=
  match max_levels, nodes with
  | S n, (_, l) :: nodes' =>
      DepthLevel.mk (PriceLevel.price l) (PriceLevel.total_quantity l)
                    (PriceLevel.order_count l)
      :: depth_loop n nodes'
  | _, _ => []
  end.

(** The bids are read from [rbegin()] to [rend()]. *)
Definition get_bid_depth (b : t) (max_levels : nat) : list DepthLevel.t :=
  depth_loop max_levels (rev (bids_ b)).

Definition get_ask_depth (b : t) (max_levels : nat) : list DepthLevel.t :=
  depth_loop max_levels (asks_ b).

Definition symbol (b : t) : string := symbol_ b.

End OrderBook.

(** ** event_queue.hpp *)

Inductive EventType : Set := NEW_ORDER | CANCEL_ORDER | REPLACE_ORDER | SHUTDOWN.

Module OrderEvent.

(** [order] is a [shared_ptr], which may be null. *)
Record t : Set := mk {
  type : EventType;
  order : option Order;
  cancel_order_id : Z;
  new_price : Z;
  new_quantity : Z
}.

End OrderEvent.

(** [LockFreeQueue<Size>], as seen by one thread at a time: the atomic
    loads and stores are plain reads and writes of [head_] and [tail_]. *)
Module LockFreeQueue.

Record t : Set := mk {
  head_ : Z;
  tail_ : Z;
  buffer_ : list OrderEvent.t
}.

(** The condition of the [static_assert] in the constructor. *)
Definition size_accepted (Size : Z) : bool :=
  Z.land Size (u64 (Size - 1)) =? 0.

(** [buffer_[i] = e]; an index outside the array is undefined behaviour
    in C++ and leaves the list as it is here. *)
Fixpoint array_set (b : list OrderEvent.t) (i : nat) (e : OrderEvent.t)
    : list OrderEvent.t :=
  match b, i with
  | [], _ => []
  | _ :: b', O => e :: b'
  | x :: b', S i' => x :: array_set b' i' e
  end.

Section WithSize.

Variable Size : Z.

(** The constructor: both indices at 0; [filler] stands for the
    default-constructed slots of [buffer_]. *)
Definition make (filler : OrderEvent.t) : t :=
  mk 0 0 (repeat filler (Z.to_nat Size)).

Definition push (q : t) (event : OrderEvent.t) : t * bool :=
  let current_tail := tail_ q in
  let next_tail := Z.land (u64 (current_tail + 1)) (u64 (Size - 1)) in
  if next_tail =? head_ q then (q, false)
  else
    (mk (head_ q) next_tail
        (array_set (buffer_ q) (Z.to_nat current_tail) event),
     true).

(** [Some e] stands for [return true] with [event = e]; reading a slot
    outside the array is undefined behaviour in C++. *)
Definition pop (q : t) : t * option OrderEvent.t :=
  let current_head := head_ q in
  if current_head =? tail_ q then (q, None)
  else
    (mk (Z.land (u64 (current_head + 1)) (u64 (Size - 1)))
        (tail_ q) (buffer_ q),
     nth_error (buffer_ q) (Z.to_nat current_head)).

Definition empty (q : t) : bool := head_ q =? tail_ q.

Definition size (q : t) : Z :=
  Z.land (u64 (tail_ q - head_ q)) (u64 (Size - 1)).

End WithSize.

End LockFreeQueue.

(** [using EventQueue = LockFreeQueue<65536>] *)
Definition EventQueue_Size : Z := 65536.

(** ** matching_engine.hpp *)

Module Trade.

Record t : Set := mk {
  trade_id : Z;
  symbol : string;
  buy_order_id : Z;
  sell_order_id : Z;
  price : Z;
  quantity : Z
}.

End Trade.

Module MatchResult.

Record t : Set := mk {
  matched : bool;
  price : Z;
  quantity : Z;
  resting_order : option Order
}.

End MatchResult.

Module MatchingEngine.

Record Statistics : Set := mkStatistics {
  orders_processed : Z;
  trades_executed : Z;
  orders_cancelled : Z
}.

(** The state owned by the worker thread.  Three fields are the traces
    of its effects, oldest first: [trades] holds the [Trade] objects
    that [execute_trade] makes (each is handed to [trade_callback_] when
    one is installed), [order_updates] the orders handed to
    [order_update_callback_], and [status_writes] the assignments to the
    [status] field of orders.  [order_update_callback_] tells whether
    the [std::function] of that name holds a function: it is empty until
    [set_order_update_callback] installs one. *)
Record t : Set := mk {
  symbol_ : string;
  order_book_ : OrderBook.t;
  trade_id_counter_ : Z;
  stats_ : Statistics;
  trades : list Trade.t;
  order_updates : list Order;
  status_writes : list StatusWrite;
  order_update_callback_ : bool
}.

(** [MatchingEngine(const std::string& symbol)] *)
Definition make (sym : string) : t :=
  mk sym (OrderBook.make sym) 0 (mkStatistics 0 0 0) [] [] [] false.

(** [set_order_update_callback]; [callback] tells whether the function
    object handed over holds a function. *)
Definition set_order_update_callback (e : t) (callback : bool) : t :=
  mk (symbol_ e) (order_book_ e) (trade_id_counter_ e) (stats_ e) (trades e)
     (order_updates e) (status_writes e) callback.

Definition with_book (e : t) (b : OrderBook.t) : t :=
  mk (symbol_ e) b (trade_id_counter_ e) (stats_ e) (trades e)
     (order_updates e) (status_writes e) (order_update_callback_ e).

Definition with_stats (e : t) (s : Statistics) : t :=
  mk (symbol_ e) (order_book_ e) (trade_id_counter_ e) s (trades e)
     (order_updates e) (status_writes e) (order_update_callback_ e).

Definition log_write (e : t) (w : StatusWrite) : t :=
  mk (symbol_ e) (order_book_ e) (trade_id_counter_ e) (stats_ e)
     (trades e) (order_updates e) (status_writes e ++ [w])
     (order_update_callback_ e).

Definition log_update (e : t) (o : Order) : t :=
  mk (symbol_ e) (order_book_ e) (trade_id_counter_ e) (stats_ e)
     (trades e) (order_updates e ++ [o]) (status_writes e)
     (order_update_callback_ e).

(** The guarded call at the end of [process_new_order]: the callback
    receives the order only when one is installed. *)
Definition notify_update (e : t) (o : Order) : t :=
  if order_update_callback_ e then log_update e o else e.

Definition can_match (e : t) (order : Order) : bool :=
  match side order with
  | BUY =>
      match OrderBook.best_ask (order_book_ e) with
      | None => false
      | Some best_ask =>
          OrderType_eqb (type order) MARKET || (price order >=? best_ask)
      end
  | SELL =>
      match OrderBook.best_bid (order_book_ e) with
      | None => false
      | Some best_bid =>
          OrderType_eqb (type order) MARKET || (price order <=? best_bid)
      end
  end.

(** [execute_trade]: the engine afterwards, and the two orders as they
    are after the writes through their pointers. *)
Definition execute_trade (e : t) (buy_order sell_order : Order)
    (price quantity : Z) : t * Order * Order :=
  let buy1 :=
    with_filled_quantity buy_order (filled_quantity buy_order + quantity) in
  let sell1 :=
    with_filled_quantity sell_order (filled_quantity sell_order + quantity) in
  let wb :=
    mkWrite buy1 (if is_filled buy1 then FILLED else PARTIALLY_FILLED) in
  let ws :=
    mkWrite sell1 (if is_filled sell1 then FILLED else PARTIALLY_FILLED) in
  let tid := u64 (trade_id_counter_ e + 1) in
  let trade :=
    Trade.mk tid (symbol_ e) (id buy_order) (id sell_order) price quantity in
  (mk (symbol_ e) (order_book_ e) tid
      (mkStatistics (orders_processed (stats_ e))
                    (u64 (trades_executed (stats_ e) + 1))
                    (orders_cancelled (stats_ e)))
      (trades e ++ [trade])
      (order_updates e)
      (status_writes e ++ [wb; ws])
      (order_update_callback_ e),
   sw_result wb, sw_result ws).

Definition no_match : MatchResult.t := MatchResult.mk false 0 0 None.

(** [try_match]: the engine afterwards, the incoming order after the
    writes through its pointer, and the result. *)
Definition try_match (e : t) (incoming_order : Order)
    : t * Order * MatchResult.t :=
  match side incoming_order with
  | BUY =>
      match OrderBook.get_best_ask_level (order_book_ e) with
      | None => (e, incoming_order, no_match)
      | Some (k, ask_level) =>
          if PriceLevel.empty ask_level then (e, incoming_order, no_match)
          else
            let best_ask := PriceLevel.price ask_level in
            if OrderType_eqb (type incoming_order) LIMIT
               && (price incoming_order <? best_ask)
            then (e, incoming_order, no_match)
            else
              match PriceLevel.front_order ask_level with
              | None => (e, incoming_order, no_match)
              | Some resting_order =>
                  if negb (is_active resting_order)
                  then (e, incoming_order, no_match)
                  else
                    let match_price := price resting_order in
                    let match_quantity :=
                      Z.min (remaining_quantity incoming_order)
                            (remaining_quantity resting_order) in
                    let '(e1, incoming', resting') :=
                      execute_trade e incoming_order resting_order
                                    match_price match_quantity in
                    let b1 :=
                      OrderBook.with_asks (order_book_ e1)
                        (OrderBook.modify (OrderBook.asks_ (order_book_ e1)) k
                           (fun l =>
                              PriceLevel.update_total_quantity
                                (PriceLevel.store_front l resting')
                                (- match_quantity))) in
                    let b2 :=
                      if is_filled resting'
                      then fst (OrderBook.remove_order b1 resting')
                      else b1 in
                    (with_book e1 b2, incoming',
                     MatchResult.mk true match_price match_quantity
                                    (Some resting'))
              end
      end
  | SELL =>
      match OrderBook.get_best_bid_level (order_book_ e) with
      | None => (e, incoming_order, no_match)
      | Some (k, bid_level) =>
          if PriceLevel.empty bid_level then (e, incoming_order, no_match)
          else
            let best_bid := PriceLevel.price bid_level in
            if OrderType_eqb (type incoming_order) LIMIT
               && (price incoming_order >? best_bid)
            then (e, incoming_order, no_match)
            else
              match PriceLevel.front_order bid_level with
              | None => (e, incoming_order, no_match)
              | Some resting_order =>
                  if negb (is_active resting_order)
                  then (e, incoming_order, no_match)
                  else
                    let match_price := price resting_order in
                    let match_quantity :=
                      Z.min (remaining_quantity incoming_order)
                            (remaining_quantity resting_order) in
                    let '(e1, resting', incoming') :=
                      execute_trade e resting_order incoming_order
                                    match_price match_quantity in
                    let b1 :=
                      OrderBook.with_bids (order_book_ e1)
                        (OrderBook.modify (OrderBook.bids_ (order_book_ e1)) k
                           (fun l =>
                              PriceLevel.update_total_quantity
                                (PriceLevel.store_front l resting')
                                (- match_quantity))) in
                    let b2 :=
                      if is_filled resting'
                      then fst (OrderBook.remove_order b1 resting')
                      else b1 in
                    (with_book e1 b2, incoming',
                     MatchResult.mk true match_price match_quantity
                                    (Some resting'))
              end
      end
  end.

(** The book at three places of a match made by [try_match]: when
    [execute_trade] has written the fills into the two orders and calls
    the trade callback; after [update_total_quantity]; and after the
    [remove_order] of a resting order that is filled, which is the book
    [try_match] leaves.  [None] when [try_match] returns without a
    match. *)
Definition match_stages (e : t) (incoming_order : Order)
    : option (OrderBook.t * OrderBook.t * OrderBook.t) :=
  match side incoming_order with
  | BUY =>
      match OrderBook.get_best_ask_level (order_book_ e) with
      | None => None
      | Some (k, ask_level) =>
          if PriceLevel.empty ask_level then None
          else
            let best_ask := PriceLevel.price ask_level in
            if OrderType_eqb (type incoming_order) LIMIT
               && (price incoming_order <? best_ask)
            then None
            else
              match PriceLevel.front_order ask_level with
              | None => None
              | Some resting_order =>
                  if negb (is_active resting_order) then None
                  else
                    let match_price := price resting_order in
                    let match_quantity :=
                      Z.min (remaining_quantity incoming_order)
                            (remaining_quantity resting_order) in
                    let '(e1, incoming', resting') :=
                      execute_trade e incoming_order resting_order
                                    match_price match_quantity in
                    let b0 :=
                      OrderBook.with_asks (order_book_ e1)
                        (OrderBook.modify (OrderBook.asks_ (order_book_ e1)) k
                           (fun l => PriceLevel.store_front l resting')) in
                    let b1 :=
                      OrderBook.with_asks b0
                        (OrderBook.modify (OrderBook.asks_ b0) k
                           (fun l =>
                              PriceLevel.update_total_quantity l
                                (- match_quantity))) in
                    let b2 :=
                      if is_filled resting'
                      then fst (OrderBook.remove_order b1 resting')
                      else b1 in
                    Some (b0, b1, b2)
              end
      end
  | SELL =>
      match OrderBook.get_best_bid_level (order_book_ e) with
      | None => None
      | Some (k, bid_level) =>
          if PriceLevel.empty bid_level then None
          else
            let best_bid := PriceLevel.price bid_level in
            if OrderType_eqb (type incoming_order) LIMIT
               && (price incoming_order >? best_bid)
            then None
            else
              match PriceLevel.front_order bid_level with
              | None => None
              | Some resting_order =>
                  if negb (is_active resting_order) then None
                  else
                    let match_price := price resting_order in
                    let match_quantity :=
                      Z.min (remaining_quantity incoming_order)
                            (remaining_quantity resting_order) in
                    let '(e1, resting', incoming') :=
                      execute_trade e resting_order incoming_order
                                    match_price match_quantity in
                    let b0 :=
                      OrderBook.with_bids (order_book_ e1)
                        (OrderBook.modify (OrderBook.bids_ (order_book_ e1)) k
                           (fun l => PriceLevel.store_front l resting')) in
                    let b1 :=
                      OrderBook.with_bids b0
                        (OrderBook.modify (OrderBook.bids_ b0) k
                           (fun l =>
                              PriceLevel.update_total_quantity l
                                (- match_quantity))) in
                    let b2 :=
                      if is_filled resting'
                      then fst (OrderBook.remove_order b1 resting')
                      else b1 in
                    Some (b0, b1, b2)
              end
      end
  end.

(** The [while] loop of [match_limit_order], unrolled at most [fuel]
    times. *)
Fixpoint limit_loop (fuel : nat) (e : t) (order : Order) : t * Order :=
  match fuel with
  | O => (e, order)
  | S fuel' =>
      if is_active order && can_match e order then
        let '(e', order', match_result) := try_match e order in
        if MatchResult.matched match_result
        then limit_loop fuel' e' order'
        else (e', order')
      else (e, order)
  end.

(** The [while] loop of [match_market_order], unrolled at most [fuel]
    times. *)
Fixpoint market_loop (fuel : nat) (e : t) (order : Order) : t * Order :=
  match fuel with
  | O => (e, order)
  | S fuel' =>
      if is_active order && can_match e order then
        let '(e', order', match_result) := try_match e order in
        if MatchResult.matched match_result
        then market_loop fuel' e' order'
        else
          let w := mkWrite order' REJECTED in
          (log_write e' w, sw_result w)
      else (e, order)
  end.

(** The books of [match_stages] for the matches that the loop of
    [match_limit_order] or of [match_market_order] makes, in order. *)
Fixpoint loop_stages (fuel : nat) (e : t) (order : Order)
    : list (OrderBook.t * OrderBook.t * OrderBook.t) :=
  match fuel with
  | O => []
  | S fuel' =>
      if is_active order && can_match e order then
        let '(e', order', match_result) := try_match e order in
        match match_stages e order with
        | Some stages =>
            stages
            :: (if MatchResult.matched match_result
                then loop_stages fuel' e' order'
                else [])
        | None => []
        end
      else []
  end.

(** A number of iterations the loops cannot exceed: every iteration but
    the last one takes an order out of the book. *)
Definition loop_bound (e : t) : nat :=
  S (S (List.length (OrderBook.book_orders (order_book_ e)))).

Definition match_limit_order (e : t) (order : Order) : t * Order :=
  let '(e1, order1) := limit_loop (loop_bound e) e order in
  if is_active order1 && (remaining_quantity order1 >? 0) then
    let '(b, order2, _) := OrderBook.add_order (order_book_ e1) order1 in
    (with_book e1 b, order2)
  else (e1, order1).

Definition match_market_order (e : t) (order : Order) : t * Order :=
  let '(e1, order1) := market_loop (loop_bound e) e order in
  if remaining_quantity order1 >? 0 then
    let w := mkWrite order1 REJECTED in
    (log_write e1 w, sw_result w)
  else (e1, order1).

Definition process_new_order (e : t) (order : Order) : t * Order :=
  let e0 :=
    with_stats e
      (mkStatistics (u64 (orders_processed (stats_ e) + 1))
                    (trades_executed (stats_ e))
                    (orders_cancelled (stats_ e))) in
  let '(e1, order1) :=
    match type order with
    | MARKET => match_market_order e0 order
    | LIMIT => match_limit_order e0 order
    end in
  (notify_update e1 order1, order1).

Definition process_cancel_order (e : t) (order_id : Z) : t :=
  match OrderBook.cancel_order (order_book_ e) order_id with
  | (b, Some w) =>
      log_write
        (with_stats (with_book e b)
           (mkStatistics (orders_processed (stats_ e))
                         (trades_executed (stats_ e))
                         (u64 (orders_cancelled (stats_ e) + 1))))
        w
  | (b, None) => with_book e b
  end.

Definition process_replace_order (e : t) (old_order_id : Z)
    (new_order : Order) : t * Order :=
  process_new_order (process_cancel_order e old_order_id) new_order.

(** [process_event]; [None] is the dereference of a null [event.order]. *)
Definition process_event (e : t) (event : OrderEvent.t) : option t :=
  match OrderEvent.type event with
  | NEW_ORDER =>
      match OrderEvent.order event with
      | Some o => Some (fst (process_new_order e o))
      | None => None
      end
  | CANCEL_ORDER =>
      Some (process_cancel_order e (OrderEvent.cancel_order_id event))
  | REPLACE_ORDER =>
      match OrderEvent.order event with
      | Some o =>
          Some (fst (process_replace_order e
                       (OrderEvent.cancel_order_id event) o))
      | None => None
      end
  | SHUTDOWN => Some e
  end.

(** The body of [run] over the events it pops, in that order. *)
Fixpoint process_events (e : t) (events : list OrderEvent.t) : option t :=
  match events with
  | [] => Some e
  | event :: events' =>
      match process_event e event with
      | Some e' => process_events e' events'
      | None => None
      end
  end.

Definition get_statistics (e : t) : Statistics := stats_ e.
Definition get_order_book (e : t) : OrderBook.t := order_book_ e.

(** The engine object as its clients see it: the state of the worker,
    the event queue and the [running_] flag. *)
Record Object : Set := mkObject {
  worker : t;
  event_queue_ : LockFreeQueue.t;
  running_ : bool
}.

(** The calls that enqueue an event.  [OrderEvent event;] leaves the
    scalar fields of the event uninitialised: the fields a call does not
    assign hold the values of [junk]. *)
Definition submit_order (g : Object) (junk : OrderEvent.t) (order : Order)
    : Object * bool :=
  if negb (String.eqb (symbol order) (symbol_ (worker g))) then (g, false)
  else
    let event :=
      OrderEvent.mk NEW_ORDER (Some order) (OrderEvent.cancel_order_id junk)
                    (OrderEvent.new_price junk)
                    (OrderEvent.new_quantity junk) in
    let '(q, r) :=
      LockFreeQueue.push EventQueue_Size (event_queue_ g) event in
    (mkObject (worker g) q (running_ g), r).

Definition cancel_order (g : Object) (junk : OrderEvent.t) (order_id : Z)
    : Object * bool :=
  let event :=
    OrderEvent.mk CANCEL_ORDER None order_id (OrderEvent.new_price junk)
                  (OrderEvent.new_quantity junk) in
  let '(q, r) := LockFreeQueue.push EventQueue_Size (event_queue_ g) event in
  (mkObject (worker g) q (running_ g), r).

(** [new_order] is a [shared_ptr] that [replace_order] does not
    dereference: it may be null. *)
Definition replace_order (g : Object) (junk : OrderEvent.t)
    (old_order_id : Z) (new_order : option Order) : Object * bool :=
  let event :=
    OrderEvent.mk REPLACE_ORDER new_order old_order_id
                  (OrderEvent.new_price junk)
                  (OrderEvent.new_quantity junk) in
  let '(q, r) := LockFreeQueue.push EventQueue_Size (event_queue_ g) event in
  (mkObject (worker g) q (running_ g), r).

(** How the loop of [run] ends: its condition is false, or
    [process_event] dereferences a null order, or the iterations allowed
    are used up with the loop still going. *)
Inductive RunOutcome : Set :=
  | Returned (g : Object)
  | NullOrder
  | StillRunning (g : Object).

(** [run], as long as no other thread touches the object: at most [fuel]
    iterations of its loop.  The iteration that finds nothing to pop
    yields and goes on. *)
Fixpoint run (fuel : nat) (g : Object) : RunOutcome :=
  match fuel with
  | O => StillRunning g
  | S fuel' =>
      if running_ g || negb (LockFreeQueue.empty (event_queue_ g)) then
        match LockFreeQueue.pop EventQueue_Size (event_queue_ g) with
        | (q, Some event) =>
            match process_event (worker g) event with
            | Some e => run fuel' (mkObject e q (running_ g))
            | None => NullOrder
            end
        | (q, None) => run fuel' (mkObject (worker g) q (running_ g))
        end
      else Returned g
  end.

End MatchingEngine.

(** ** Invariants of the book *)

Definition sum_remaining (os : list Order) : Z :=
  fold_right (fun o acc => remaining_quantity o + acc) 0 os.

(** A level holds at least one order and its total is the sum of what
    remains of its orders. *)
Definition level_ok (l : PriceLevel.t) : Prop :=
  PriceLevel.orders_ l <> [] /\
  PriceLevel.total_quantity_ l = sum_remaining (PriceLevel.orders_ l).

Definition levels_ok (m : OrderBook.SideMap) : Prop :=
  Forall (fun kl => level_ok (snd kl)) m.

Definition book_levels_ok (b : OrderBook.t) : Prop :=
  levels_ok (OrderBook.bids_ b) /\ levels_ok (OrderBook.asks_ b).

(** What holds of an order resting on side [sd] at the level of key [k]. *)
Definition resting_ok (sd : OrderSide) (k : Z) (o : Order) : Prop :=
  price o = k /\ side o = sd /\ type o = LIMIT /\ is_active o = true /\
  0 <= filled_quantity o < quantity o.

Definition level_wf (sd : OrderSide) (kl : Z * PriceLevel.t) : Prop :=
  PriceLevel.price_ (snd kl) = fst kl /\
  level_ok (snd kl) /\
  Forall (resting_ok sd (fst kl)) (PriceLevel.orders_ (snd kl)).

Definition keys (m : OrderBook.SideMap) : list Z := map fst m.

Definition side_wf (sd : OrderSide) (m : OrderBook.SideMap) : Prop :=
  StronglySorted Z.lt (keys m) /\ Forall (level_wf sd) m.

(** No bid price reaches an ask price. *)
Definition uncrossed_keys (b : OrderBook.t) : Prop :=
  forall kb ka,
    In kb (keys (OrderBook.bids_ b)) -> In ka (keys (OrderBook.asks_ b)) ->
    kb < ka.

(** The same, on the best prices as the accessors report them. *)
Definition uncrossed (b : OrderBook.t) : Prop :=
  forall bid ask,
    OrderBook.best_bid b = Some bid -> OrderBook.best_ask b = Some ask ->
    bid < ask.

Definition book_ids (b : OrderBook.t) : list Z :=
  map id (OrderBook.book_orders b).

Definition ids_unique (b : OrderBook.t) : Prop := NoDup (book_ids b).

Definition book_inv (b : OrderBook.t) : Prop :=
  side_wf BUY (OrderBook.bids_ b) /\ side_wf SELL (OrderBook.asks_ b) /\
  uncrossed_keys b /\ ids_unique b.

(** An order as its constructor makes it, with a positive quantity and an
    id that no resting order has. *)
Definition fresh_order (b : OrderBook.t) (o : Order) : Prop :=
  status o = NEW /\ filled_quantity o = 0 /\ 0 < quantity o /\
  ~ In (id o) (book_ids b).

(** The events the engine is meant to receive.  The replacement order of
    a REPLACE is fresh once the old order is gone. *)
Definition event_ok (e : MatchingEngine.t) (ev : OrderEvent.t) : Prop :=
  match OrderEvent.type ev with
  | NEW_ORDER =>
      exists o, OrderEvent.order ev = Some o /\
                fresh_order (MatchingEngine.order_book_ e) o
  | CANCEL_ORDER => True
  | REPLACE_ORDER =>
      exists o, OrderEvent.order ev = Some o /\
                fresh_order
                  (fst (OrderBook.cancel_order (MatchingEngine.order_book_ e)
                          (OrderEvent.cancel_order_id ev))) o
  | SHUTDOWN => True
  end.

(** Every event of the list is one the engine is meant to receive, in the
    state it is processed in. *)
Fixpoint events_ok (e : MatchingEngine.t) (evs : list OrderEvent.t) : Prop :=
  match evs with
  | [] => True
  | ev :: evs' =>
      event_ok e ev /\
      forall e', MatchingEngine.process_event e ev = Some e' ->
                 events_ok e' evs'
  end.

(** [process_new_order] up to the order update: the statistics are
    counted and the order is matched. *)
Definition match_new_order (e : MatchingEngine.t) (order : Order)
  : MatchingEngine.t * Order :=
  let e0 :=
    MatchingEngine.with_stats e
      (MatchingEngine.mkStatistics
         (u64 (MatchingEngine.orders_processed (MatchingEngine.stats_ e) + 1))
         (MatchingEngine.trades_executed (MatchingEngine.stats_ e))
         (MatchingEngine.orders_cancelled (MatchingEngine.stats_ e))) in
  match type order with
  | MARKET => MatchingEngine.match_market_order e0 order
  | LIMIT => MatchingEngine.match_limit_order e0 order
  end.

(** The engine as its worker starts with it: made for a symbol, with an
    order update callback installed or not. *)
Definition configured (sym : string) (callback : bool) : MatchingEngine.t :=
  MatchingEngine.set_order_update_callback (MatchingEngine.make sym) callback.

(** The states the engine reaches from its construction by processing
    events it is meant to receive. *)
Definition reachable (e : MatchingEngine.t) : Prop :=
  exists sym callback evs,
    events_ok (configured sym callback) evs /\
    MatchingEngine.process_events (configured sym callback) evs = Some e.

(** What is left at key [k] of the level [l] once the order [o] has been
    taken out and [rest] remains. *)
Definition level_without (k : Z) (l : PriceLevel.t) (o : Order)
    (rest : list Order) : OrderBook.SideMap :=
  match rest with
  | [] => []
  | _ :: _ =>
      [(k, PriceLevel.mk (PriceLevel.price_ l)
             (PriceLevel.total_quantity_ l - remaining_quantity o) rest)]
  end.

(** The incoming order while the matching loop runs. *)
Definition incoming_ok (b : OrderBook.t) (o : Order) : Prop :=
  0 <= filled_quantity o /\
  ~ In (id o) (book_ids b) /\
  ((is_active o = true /\ filled_quantity o < quantity o) \/
   (status o = FILLED /\ filled_quantity o = quantity o)).

Definition loop_inv (e : MatchingEngine.t) (o : Order) : Prop :=
  book_inv (MatchingEngine.order_book_ e) /\
  incoming_ok (MatchingEngine.order_book_ e) o.

(** ** The effect of one match, written out *)

Definition opposite (sd : OrderSide) : OrderSide :=
  match sd with BUY => SELL | SELL => BUY end.

(** The side of the book an order of side [sd] is matched against. *)
Definition opp_side (sd : OrderSide) (b : OrderBook.t) : OrderBook.SideMap :=
  match sd with
  | BUY => OrderBook.asks_ b
  | SELL => OrderBook.bids_ b
  end.

Definition own_side (sd : OrderSide) (b : OrderBook.t) : OrderBook.SideMap :=
  match sd with
  | BUY => OrderBook.bids_ b
  | SELL => OrderBook.asks_ b
  end.

Definition set_opp_side (sd : OrderSide) (b : OrderBook.t)
    (m : OrderBook.SideMap) : OrderBook.t :=
  match sd with
  | BUY => OrderBook.with_asks b m
  | SELL => OrderBook.with_bids b m
  end.

Definition set_own_side (sd : OrderSide) (b : OrderBook.t)
    (m : OrderBook.SideMap) : OrderBook.t :=
  match sd with
  | BUY => OrderBook.with_bids b m
  | SELL => OrderBook.with_asks b m
  end.

(** The write of [execute_trade] into one order. *)
Definition fill_write (o : Order) (q : Z) : StatusWrite :=
  let o1 := with_filled_quantity o (filled_quantity o + q) in
  mkWrite o1 (if is_filled o1 then FILLED else PARTIALLY_FILLED).

Definition fill (o : Order) (q : Z) : Order := sw_result (fill_write o q).

(** What is left of the best level [(k, T, r :: os)] after its front [r]
    has traded [q]. *)
Definition level_after (k T : Z) (r : Order) (os : list Order) (q : Z)
    : OrderBook.SideMap :=
  if is_filled (fill r q) then
    match os with
    | [] => []
    | _ :: _ =>
        [(k, PriceLevel.mk k (T - q - remaining_quantity (fill r q)) os)]
    end
  else [(k, PriceLevel.mk k (T - q) (fill r q :: os))].

Definition trade_of (e : MatchingEngine.t) (incoming resting : Order) (q : Z)
    : Trade.t :=
  match side incoming with
  | BUY =>
      Trade.mk (u64 (MatchingEngine.trade_id_counter_ e + 1))
               (MatchingEngine.symbol_ e) (id incoming) (id resting)
               (price resting) q
  | SELL =>
      Trade.mk (u64 (MatchingEngine.trade_id_counter_ e + 1))
               (MatchingEngine.symbol_ e) (id resting) (id incoming)
               (price resting) q
  end.

Definition writes_of (incoming resting : Order) (q : Z) : list StatusWrite :=
  match side incoming with
  | BUY => [fill_write incoming q; fill_write resting q]
  | SELL => [fill_write resting q; fill_write incoming q]
  end.

(** The engine after the incoming order [o] has traded with the front [r]
    of the level [(k, T, r :: os)], found between [pre] and [post] on the
    opposing side. *)
Definition engine_after (e : MatchingEngine.t) (o : Order)
    (pre : OrderBook.SideMap) (k T : Z) (r : Order) (os : list Order)
    (post : OrderBook.SideMap) : MatchingEngine.t :=
  let q := Z.min (remaining_quantity o) (remaining_quantity r) in
  MatchingEngine.mk
    (MatchingEngine.symbol_ e)
    (set_opp_side (side o) (MatchingEngine.order_book_ e)
       (pre ++ level_after k T r os q ++ post))
    (u64 (MatchingEngine.trade_id_counter_ e + 1))
    (MatchingEngine.mkStatistics
       (MatchingEngine.orders_processed (MatchingEngine.stats_ e))
       (u64 (MatchingEngine.trades_executed (MatchingEngine.stats_ e) + 1))
       (MatchingEngine.orders_cancelled (MatchingEngine.stats_ e)))
    (MatchingEngine.trades e ++ [trade_of e o r q])
    (MatchingEngine.order_updates e)
    (MatchingEngine.status_writes e ++ writes_of o r q)
    (MatchingEngine.order_update_callback_ e).

(** What is known of one iteration of a matching loop whose condition
    holds: the best opposing level is [(k, r :: os)], between [pre] and
    [post]. *)
Definition step_facts (e : MatchingEngine.t) (o : Order)
    (pre : OrderBook.SideMap) (k : Z) (r : Order) (os : list Order)
    (post : OrderBook.SideMap) : Prop :=
  opp_side (side o) (MatchingEngine.order_book_ e) =
    pre ++ (k, PriceLevel.mk k (remaining_quantity r + sum_remaining os)
                             (r :: os)) :: post /\
  (side o = BUY -> pre = []) /\
  (side o = SELL -> post = []) /\
  resting_ok (opposite (side o)) k r /\
  Forall (resting_ok (opposite (side o)) k) os /\
  (type o = LIMIT ->
   match side o with BUY => k <= price o | SELL => price o <= k end).

(** What the matching loops leave as it is, from [(e, o)] to [(e', o')]. *)
Definition loop_frame (e : MatchingEngine.t) (o : Order)
    (e' : MatchingEngine.t) (o' : Order) : Prop :=
  side o' = side o /\ type o' = type o /\ price o' = price o /\
  id o' = id o /\ quantity o' = quantity o /\ symbol o' = symbol o /\
  sequence_number o' = sequence_number o /\
  MatchingEngine.symbol_ e' = MatchingEngine.symbol_ e /\
  own_side (side o) (MatchingEngine.order_book_ e')
    = own_side (side o) (MatchingEngine.order_book_ e) /\
  OrderBook.symbol_ (MatchingEngine.order_book_ e')
    = OrderBook.symbol_ (MatchingEngine.order_book_ e) /\
  OrderBook.sequence_counter_ (MatchingEngine.order_book_ e')
    = OrderBook.sequence_counter_ (MatchingEngine.order_book_ e) /\
  MatchingEngine.order_updates e' = MatchingEngine.order_updates e /\
  MatchingEngine.orders_processed (MatchingEngine.stats_ e')
    = MatchingEngine.orders_processed (MatchingEngine.stats_ e) /\
  MatchingEngine.orders_cancelled (MatchingEngine.stats_ e')
    = MatchingEngine.orders_cancelled (MatchingEngine.stats_ e) /\
  (forall x, In x (book_ids (MatchingEngine.order_book_ e')) ->
             In x (book_ids (MatchingEngine.order_book_ e))) /\
  (forall x, In x (keys (opp_side (side o) (MatchingEngine.order_book_ e'))) ->
             In x (keys (opp_side (side o) (MatchingEngine.order_book_ e)))).

(** The price of [o] does not reach the opposing side of the book. *)
Definition no_cross (b : OrderBook.t) (o : Order) : Prop :=
  match side o with
  | BUY => forall ka, In ka (keys (OrderBook.asks_ b)) -> price o < ka
  | SELL => forall kb, In kb (keys (OrderBook.bids_ b)) -> kb < price o
  end.

(** The level [try_match] looks at for an incoming order of side [sd]. *)
Definition best_opposing_level (sd : OrderSide) (b : OrderBook.t)
    : option (Z * PriceLevel.t) :=
  match sd with
  | BUY => OrderBook.get_best_ask_level b
  | SELL => OrderBook.get_best_bid_level b
  end.

(** ** Order status transitions *)

(** The edges of the diagram
    NEW -> {PARTIALLY_FILLED -> {FILLED, CANCELLED}, FILLED, CANCELLED,
    REJECTED}. *)
Definition dag_edge (a b : OrderStatus) : bool :=
  match a, b with
  | NEW, PARTIALLY_FILLED | NEW, FILLED | NEW, CANCELLED | NEW, REJECTED
  | PARTIALLY_FILLED, FILLED | PARTIALLY_FILLED, CANCELLED => true
  | _, _ => false
  end.

Definition OrderStatus_eqb (a b : OrderStatus) : bool :=
  match a, b with
  | NEW, NEW | PARTIALLY_FILLED, PARTIALLY_FILLED | FILLED, FILLED
  | CANCELLED, CANCELLED | REJECTED, REJECTED => true
  | _, _ => false
  end.

(** A write that leaves the status as it is, or follows an edge. *)
Definition write_along (edge : OrderStatus -> OrderStatus -> bool)
    (w : StatusWrite) : bool :=
  OrderStatus_eqb (sw_old w) (sw_new w) || edge (sw_old w) (sw_new w).

(** The writes the engine makes: along the diagram, or the rejection of
    a partially filled MARKET order. *)
Definition write_allowed (w : StatusWrite) : bool :=
  write_along dag_edge w ||
  (OrderType_eqb (type (sw_order w)) MARKET
   && OrderStatus_eqb (sw_old w) PARTIALLY_FILLED
   && OrderStatus_eqb (sw_new w) REJECTED).

Definition writes_allowed (e : MatchingEngine.t) : Prop :=
  Forall (fun w => write_allowed w = true) (MatchingEngine.status_writes e).

(** ** Time priority *)

(** The id of the resting order of a trade made by an aggressor of side
    [sd]. *)
Definition resting_id (sd : OrderSide) (t : Trade.t) : Z :=
  match sd with
  | BUY => Trade.sell_order_id t
  | SELL => Trade.buy_order_id t
  end.

(** In some level of [m], the order with id [a] is queued ahead of the
    order with id [b]. *)
Definition queued_before (m : OrderBook.SideMap) (a b : Z) : Prop :=
  exists k l l1 oa l2 ob l3,
    In (k, l) m /\
    PriceLevel.orders_ l = l1 ++ oa :: l2 ++ ob :: l3 /\
    id oa = a /\ id ob = b.

(** In the trades [ts] made by an aggressor of side [sd], every trade
    against the order [b] comes after a trade against the order [a]. *)
Definition trades_ordered (sd : OrderSide) (a b : Z) (ts : list Trade.t)
    : Prop :=
  forall ts1 t ts2,
    ts = ts1 ++ t :: ts2 -> resting_id sd t = b ->
    exists t', In t' ts1 /\ resting_id sd t' = a.

(** While the aggressor is matched: the trades made since [e0] are
    ordered, and [a] is still queued ahead of [b] unless it has traded. *)
Definition priority_inv (e0 : MatchingEngine.t) (sd : OrderSide) (a b : Z)
    (e : MatchingEngine.t) (o : Order) : Prop :=
  side o = sd /\
  exists ts,
    MatchingEngine.trades e = MatchingEngine.trades e0 ++ ts /\
    trades_ordered sd a b ts /\
    (queued_before (opp_side sd (MatchingEngine.order_book_ e)) a b \/
     exists t, In t ts /\ resting_id sd t = a).

(** The price [k] of a resting level is within the limit of the order
    [o]; a MARKET order has no limit. *)
Definition crosses (o : Order) (k : Z) : bool :=
  match type o with
  | MARKET => true
  | LIMIT =>
      match side o with
      | BUY => k <=? price o
      | SELL => price o <=? k
      end
  end.

(** The resting orders the order [o] can trade with, in the order of
    price-time priority: the opposing levels within its limit from the
    best price on (the lowest ask, the highest bid), each level from its
    front. *)
Definition crossing_orders (o : Order) (b : OrderBook.t) : list Order :=
  OrderBook.side_orders
    (filter (fun kl => crosses o (fst kl))
       (match side o with
        | BUY => OrderBook.asks_ b
        | SELL => rev (OrderBook.bids_ b)
        end)).

(** What a quantity [q] takes from the orders [os], taken in their
    order: from each order all that remains of it, from the last one
    reached what is still wanted.  An entry gives the id and the price
    of the order and the quantity taken. *)
Fixpoint fills (q : Z) (os : list Order) : list (Z * Z * Z) :=
  match os with
  | [] => []
  | r :: os' =>
      if q <=? 0 then []
      else (id r, price r, Z.min q (remaining_quantity r))
           :: fills (q - remaining_quantity r) os'
  end.

(** The resting order, the price and the quantity of a trade made by an
    aggressor of side [sd]. *)
Definition resting_fill (sd : OrderSide) (t : Trade.t) : Z * Z * Z :=
  (resting_id sd t, Trade.price t, Trade.quantity t).

(** While the order [o0] is matched, from the engine [e0] on: the trades
    made so far and what is still to take are, together, what the order
    was to take from the orders it could trade with. *)
Definition filled_in_order (e0 : MatchingEngine.t) (o0 : Order)
    (e : MatchingEngine.t) (o : Order) : Prop :=
  side o = side o0 /\ type o = type o0 /\ price o = price o0 /\
  exists ts,
    MatchingEngine.trades e = MatchingEngine.trades e0 ++ ts /\
    fills (remaining_quantity o0)
          (crossing_orders o0 (MatchingEngine.order_book_ e0))
    = map (resting_fill (side o0)) ts
      ++ fills (remaining_quantity o)
               (crossing_orders o0 (MatchingEngine.order_book_ e)).

(** The sequence numbers [add_order] hands out record the order of
    insertion: in every level they increase from the front to the back,
    and none is above the counter of the book. *)
Definition level_seq_ok (c : Z) (l : PriceLevel.t) : Prop :=
  StronglySorted Z.lt (map sequence_number (PriceLevel.orders_ l)) /\
  Forall (fun o => sequence_number o <= c) (PriceLevel.orders_ l).

Definition side_seq_ok (c : Z) (m : OrderBook.SideMap) : Prop :=
  Forall (fun kl => level_seq_ok c (snd kl)) m.

Definition seq_inv (b : OrderBook.t) : Prop :=
  0 <= OrderBook.sequence_counter_ b /\
  side_seq_ok (OrderBook.sequence_counter_ b) (OrderBook.bids_ b) /\
  side_seq_ok (OrderBook.sequence_counter_ b) (OrderBook.asks_ b).

(** ** The event queue as a list *)

(** A capacity the 64-bit [size_t] holds and that is a power of two. *)
Definition power_of_two (Size : Z) : Prop :=
  exists n, 0 <= n < 64 /\ Size = 2 ^ n.

(** Both indices are inside the array of [Size] slots. *)
Definition queue_ok (Size : Z) (q : LockFreeQueue.t) : Prop :=
  0 <= LockFreeQueue.head_ q < Size /\
  0 <= LockFreeQueue.tail_ q < Size /\
  Z.of_nat (List.length (LockFreeQueue.buffer_ q)) = Size.

(** The [n] slots from index [start] on, wrapping at [Size]. *)
Fixpoint slots (Size : Z) (buf : list OrderEvent.t) (start : Z) (n : nat)
    : list OrderEvent.t :=
  match n with
  | O => []
  | S n' =>
      match nth_error buf (Z.to_nat start) with
      | Some e => e :: slots Size buf ((start + 1) mod Size) n'
      | None => []
      end
  end.

(** The events waiting in the queue, oldest first: the slots from [head_]
    up to [tail_]. *)
Definition contents (Size : Z) (q : LockFreeQueue.t) : list OrderEvent.t :=
  slots Size (LockFreeQueue.buffer_ q) (LockFreeQueue.head_ q)
        (Z.to_nat ((LockFreeQueue.tail_ q - LockFreeQueue.head_ q) mod Size)).

Definition shutdown_event : OrderEvent.t :=
  OrderEvent.mk SHUTDOWN None 0 0 0.

(** Calls made on the queue, and what they return. *)
Inductive QueueOp : Set :=
  | Push (event : OrderEvent.t)
  | Pop.

Inductive QueueOut : Set :=
  | Pushed (ok : bool)
  | Popped (event : option OrderEvent.t).

(** The calls run on the ring buffer, one after the other. *)
Fixpoint run_queue (Size : Z) (q : LockFreeQueue.t) (ops : list QueueOp)
    : list QueueOut :=
  match ops with
  | [] => []
  | Push ev :: ops' =>
      let '(q', ok) := LockFreeQueue.push Size q ev in
      Pushed ok :: run_queue Size q' ops'
  | Pop :: ops' =>
      let '(q', r) := LockFreeQueue.pop Size q in
      Popped r :: run_queue Size q' ops'
  end.

(** The same calls on a first-in first-out list that holds at most [cap]
    events: a push fails when the list is full and appends otherwise; a
    pop fails when the list is empty and takes the oldest event
    otherwise. *)
Fixpoint run_fifo (cap : Z) (c : list OrderEvent.t) (ops : list QueueOp)
    : list QueueOut :=
  match ops with
  | [] => []
  | Push ev :: ops' =>
      if Z.of_nat (List.length c) =? cap
      then Pushed false :: run_fifo cap c ops'
      else Pushed true :: run_fifo cap (c ++ [ev]) ops'
  | Pop :: ops' =>
      match c with
      | [] => Popped None :: run_fifo cap [] ops'
      | e :: c' => Popped (Some e) :: run_fifo cap c' ops'
      end
  end.

Definition queue_of_four : LockFreeQueue.t :=
  LockFreeQueue.make 4 shutdown_event.

(** ** Scenarios of the test suite, evaluated on the model *)

Definition AAPL : string := "AAPL"%string.

Definition run_new (e : MatchingEngine.t) (o : Order) : MatchingEngine.t :=
  fst (MatchingEngine.process_new_order e o).

Definition sell1 : Order := new_order 1 AAPL SELL LIMIT 15000 100.
Definition sell2 : Order := new_order 2 AAPL SELL LIMIT 15000 100.
Definition buy3 : Order := new_order 3 AAPL BUY LIMIT 15000 150.

(** Two asks at 15000, order 1 ahead of order 2. *)
Definition engine_two_asks : MatchingEngine.t :=
  Eval vm_compute in run_new (run_new (MatchingEngine.make AAPL) sell1) sell2.

(** One ask of 100 at 15100, and a marketable buy of 60 at 15200. *)
Definition engine_one_ask : MatchingEngine.t :=
  Eval vm_compute in
    run_new (MatchingEngine.make AAPL) (new_order 1 AAPL SELL LIMIT 15100 100).

Definition buy_15200 : Order := new_order 2 AAPL BUY LIMIT 15200 60.

(** A market buy of 150 against the single ask of 100. *)
Definition market_buy_150 : Order := new_order 2 AAPL BUY MARKET 0 150.

Definition engine_market_rejected : MatchingEngine.t :=
  Eval vm_compute in run_new engine_one_ask market_buy_150.

(** A buy at 14990, below the asks at 15000. *)
Definition buy_14990 : Order := new_order 3 AAPL BUY LIMIT 14990 10.

Definition new_order_event (o : Order) : OrderEvent.t :=
  OrderEvent.mk NEW_ORDER (Some o) 0 0 0.

Definition cancel_event (i : Z) : OrderEvent.t :=
  OrderEvent.mk CANCEL_ORDER None i 0 0.

Definition replace_event (i : Z) (o : Order) : OrderEvent.t :=
  OrderEvent.mk REPLACE_ORDER (Some o) i 0 0.

(** ** Views, accounts and the calls of the clients *)

(** The orders of a list that have the price [p]. *)
Definition orders_at (p : Z) (os : list Order) : list Order :=
  filter (fun o => price o =? p) os.

(** The book of the scenarios with a bid below the two asks. *)
Definition engine_two_sided : MatchingEngine.t :=
  Eval vm_compute in run_new engine_two_asks buy_14990.

(** A book with a bid at -2 and an ask at the largest price. *)
Definition wide_bid : Order := new_order 1 AAPL BUY LIMIT (-2) 10.
Definition wide_ask : Order := new_order 2 AAPL SELL LIMIT INT64_MAX 10.
Definition engine_wide : MatchingEngine.t :=
  Eval vm_compute in
    run_new (run_new (MatchingEngine.make AAPL) wide_bid) wide_ask.

(** The entry [get_bid_depth] and [get_ask_depth] make of one node. *)
Definition depth_entry (kl : Z * PriceLevel.t) : OrderBook.DepthLevel.t :=
  OrderBook.DepthLevel.mk (PriceLevel.price (snd kl))
    (PriceLevel.total_quantity (snd kl)) (PriceLevel.order_count (snd kl)).

(** A depth entry reports what rests at its price among the orders [os]
    of a side: their number, which is not 0, and the sum of what remains
    of them, which is positive. *)
Definition depth_entry_ok (os : list Order) (d : OrderBook.DepthLevel.t)
    : Prop :=
  OrderBook.DepthLevel.quantity d
    = sum_remaining (orders_at (OrderBook.DepthLevel.price d) os) /\
  OrderBook.DepthLevel.order_count d
    = List.length (orders_at (OrderBook.DepthLevel.price d) os) /\
  (0 < OrderBook.DepthLevel.order_count d)%nat /\
  0 < OrderBook.DepthLevel.quantity d.

(** The orders of the events that make the worker call
    [process_new_order], in the order of the events. *)
Fixpoint event_orders (evs : list OrderEvent.t) : list Order :=
  match evs with
  | [] => []
  | ev :: evs' =>
      match OrderEvent.type ev, OrderEvent.order ev with
      | NEW_ORDER, Some o | REPLACE_ORDER, Some o => o :: event_orders evs'
      | _, _ => event_orders evs'
      end
  end.

(** The quantities of the orders handed to the engine, in all. *)
Definition submitted_quantity (evs : list OrderEvent.t) : Z :=
  fold_right (fun o acc => quantity o + acc) 0 (event_orders evs).

(** The books of the matches [process_new_order] makes for an order. *)
Definition process_new_order_stages (e : MatchingEngine.t) (order : Order)
    : list (OrderBook.t * OrderBook.t * OrderBook.t) :=
  MatchingEngine.loop_stages (MatchingEngine.loop_bound e)
    (MatchingEngine.with_stats e
       (MatchingEngine.mkStatistics
          (u64 (MatchingEngine.orders_processed (MatchingEngine.stats_ e) + 1))
          (MatchingEngine.trades_executed (MatchingEngine.stats_ e))
          (MatchingEngine.orders_cancelled (MatchingEngine.stats_ e))))
    order.

(** The level [l] holds an order, what remains of its orders is not
    negative in all, and its total is that sum and [excess], within the
    range of [int64_t]. *)
Definition level_in_range (excess : Z) (l : PriceLevel.t) : Prop :=
  PriceLevel.orders_ l <> [] /\
  PriceLevel.total_quantity_ l
  = sum_remaining (PriceLevel.orders_ l) + excess /\
  0 <= sum_remaining (PriceLevel.orders_ l) /\
  PriceLevel.total_quantity_ l <= INT64_MAX.

Definition levels_in_range (m : OrderBook.SideMap) : Prop :=
  Forall (fun kl => level_in_range 0 (snd kl)) m.

(** Every level of the book holds an order, and its total is the sum of
    what remains of its orders and lies in the range of [int64_t]. *)
Definition totals_in_range (b : OrderBook.t) : Prop :=
  levels_in_range (OrderBook.bids_ b ++ OrderBook.asks_ b).

(** A fill of [q] is written into an order of one level of the book [b]
    and not yet taken off the total of that level; every other level is
    as [totals_in_range] has it. *)
Definition fill_pending (q : Z) (b : OrderBook.t) : Prop :=
  exists m1 k l m2,
    OrderBook.bids_ b ++ OrderBook.asks_ b = m1 ++ (k, l) :: m2 /\
    level_in_range q l /\ levels_in_range (m1 ++ m2).

(** The three books of one match, as [match_stages] lists them: in the
    first the fill is pending, in the second and the third every total is
    the sum again, and in the third no total is 0. *)
Definition stages_ok (stages : OrderBook.t * OrderBook.t * OrderBook.t)
    : Prop :=
  let '(b0, b1, b2) := stages in
  (exists q, 0 < q /\ fill_pending q b0) /\
  totals_in_range b1 /\
  totals_in_range b2 /\
  Forall (fun kl => 0 < PriceLevel.total_quantity_ (snd kl))
         (OrderBook.bids_ b2 ++ OrderBook.asks_ b2).

(** The totals of the levels of [b], and what remains of each of its
    orders, are values of [int64_t]. *)
Definition book_in_range (b : OrderBook.t) : Prop :=
  Forall
    (fun kl => INT64_MIN <= PriceLevel.total_quantity_ (snd kl) <= INT64_MAX)
    (OrderBook.bids_ b ++ OrderBook.asks_ b) /\
  Forall (fun o => INT64_MIN <= remaining_quantity o <= INT64_MAX)
         (OrderBook.book_orders b).

(** [o'] is the order [o] after the engine has worked on it: only the
    filled quantity, the status and the sequence number may differ. *)
Definition same_order (o o' : Order) : Prop :=
  id o' = id o /\ symbol o' = symbol o /\ side o' = side o /\
  type o' = type o /\ price o' = price o /\ quantity o' = quantity o.

(** The writes of CANCELLED among the status writes. *)
Definition cancel_writes (ws : list StatusWrite) : list StatusWrite :=
  filter (fun w => OrderStatus_eqb (sw_new w) CANCELLED) ws.

(** The ids of the trades are the numbers from 1 on, as a [uint64_t]
    counts them. *)
Definition trade_ids_from_one (ts : list Trade.t) : Prop :=
  map Trade.trade_id ts
  = map (fun k => u64 (Z.of_nat k)) (seq 1 (List.length ts)).

(** The counters of the engine agree with its effects: the trade counters
    count the trades, whose ids are the numbers from 1 on in the order of
    execution and which carry the engine's symbol, and the cancel counter
    counts the writes of CANCELLED. *)
Definition accounts_ok (sym : string) (e : MatchingEngine.t) : Prop :=
  MatchingEngine.symbol_ e = sym /\
  MatchingEngine.trade_id_counter_ e
    = u64 (Z.of_nat (List.length (MatchingEngine.trades e))) /\
  MatchingEngine.trades_executed (MatchingEngine.stats_ e)
    = u64 (Z.of_nat (List.length (MatchingEngine.trades e))) /\
  MatchingEngine.orders_cancelled (MatchingEngine.stats_ e)
    = u64 (Z.of_nat (List.length
                       (cancel_writes (MatchingEngine.status_writes e)))) /\
  trade_ids_from_one (MatchingEngine.trades e) /\
  Forall (fun t => Trade.symbol t = sym) (MatchingEngine.trades e).

(** What the matcher keeps from the engine [e] and the order [o] to the
    engine [e'] and the order [o']: the agreement of the counters, the
    update callback, the order updates made, the number of orders
    processed, and the order. *)
Definition step_keeps (sym : string) (e : MatchingEngine.t) (o : Order)
    (e' : MatchingEngine.t) (o' : Order) : Prop :=
  (accounts_ok sym e -> accounts_ok sym e') /\
  MatchingEngine.order_update_callback_ e'
    = MatchingEngine.order_update_callback_ e /\
  MatchingEngine.order_updates e' = MatchingEngine.order_updates e /\
  MatchingEngine.orders_processed (MatchingEngine.stats_ e')
    = MatchingEngine.orders_processed (MatchingEngine.stats_ e) /\
  same_order o o'.

Definition sum_quantities (ts : list Trade.t) : Z :=
  fold_right (fun t acc => Trade.quantity t + acc) 0 ts.

(** A trade made for the incoming order [o]: it has a positive quantity,
    [o] is its buyer or its seller according to the side of [o], and its
    price is not worse for [o] than the limit of [o]. *)
Definition trade_for (o : Order) (t : Trade.t) : Prop :=
  0 < Trade.quantity t /\
  match side o with
  | BUY => Trade.buy_order_id t = id o /\
           (type o = LIMIT -> Trade.price t <= price o)
  | SELL => Trade.sell_order_id t = id o /\
            (type o = LIMIT -> price o <= Trade.price t)
  end.

(** What holds while the order [o0] is matched, from the engine [e0] on:
    the trades made are trades for [o0], the filled quantity of the order
    has grown by their quantities, and what remains on the opposing side
    has shrunk by them. *)
Definition matched_so_far (e0 : MatchingEngine.t) (o0 : Order)
    (e : MatchingEngine.t) (o : Order) : Prop :=
  same_order o0 o /\
  exists ts,
    MatchingEngine.trades e = MatchingEngine.trades e0 ++ ts /\
    Forall (trade_for o0) ts /\
    filled_quantity o = filled_quantity o0 + sum_quantities ts /\
    sum_remaining
      (OrderBook.side_orders
         (opp_side (side o0) (MatchingEngine.order_book_ e)))
    + sum_quantities ts
    = sum_remaining
        (OrderBook.side_orders
           (opp_side (side o0) (MatchingEngine.order_book_ e0))).

(** For an incoming order of side [sd], the price [p1] is at least as
    good as the price [p2]: not higher when it buys, not lower when it
    sells. *)
Definition price_order (sd : OrderSide) (p1 p2 : Z) : Prop :=
  match sd with
  | BUY => p1 <= p2
  | SELL => p2 <= p1
  end.

(** What holds while the order [o0] is matched, from the engine [e0] on:
    the trades made go from the best price to worse ones, and no level
    left on the opposing side has a price better than one of them. *)
Definition best_first (e0 : MatchingEngine.t) (o0 : Order)
    (e : MatchingEngine.t) (o : Order) : Prop :=
  side o = side o0 /\
  exists ts,
    MatchingEngine.trades e = MatchingEngine.trades e0 ++ ts /\
    StronglySorted (price_order (side o0)) (map Trade.price ts) /\
    forall t k,
      In t ts ->
      In k (keys (opp_side (side o0) (MatchingEngine.order_book_ e))) ->
      price_order (side o0) (Trade.price t) k.

(** The resting order [r] is priced within the limit of the order [o]. *)
Definition within_limit (o r : Order) : bool :=
  match side o with
  | BUY => price r <=? price o
  | SELL => price o <=? price r
  end.

(** What remains, in all, of the orders on the opposing side of the book
    that are priced within the limit of [o]. *)
Definition available_within_limit (o : Order) (b : OrderBook.t) : Z :=
  sum_remaining
    (filter (within_limit o) (OrderBook.side_orders (opp_side (side o) b))).

(** While the LIMIT order [o0] is matched, from the engine [e0] on: what
    it has been filled for has been taken from what was available within
    its limit. *)
Definition filled_from_available (e0 : MatchingEngine.t) (o0 : Order)
    (e : MatchingEngine.t) (o : Order) : Prop :=
  side o = side o0 /\ price o = price o0 /\ type o = LIMIT /\
  filled_quantity o + available_within_limit o0 (MatchingEngine.order_book_ e)
  = filled_quantity o0
    + available_within_limit o0 (MatchingEngine.order_book_ e0).

(** Every resting order, the book and the engine have the symbol [sym]. *)
Definition symbols_ok (sym : string) (e : MatchingEngine.t) : Prop :=
  MatchingEngine.symbol_ e = sym /\
  OrderBook.symbol_ (MatchingEngine.order_book_ e) = sym /\
  Forall (fun o => symbol o = sym)
         (OrderBook.book_orders (MatchingEngine.order_book_ e)).

(** An engine object that has just been made: nothing waits in its
    queue and its worker does not run. *)
Definition idle_engine : MatchingEngine.Object :=
  MatchingEngine.mkObject (MatchingEngine.make AAPL)
    (LockFreeQueue.make EventQueue_Size shutdown_event) false.

(** * Properties *)

(** ** The guarded order update *)

Section NotifyUpdate.

Import MatchingEngine.

Lemma notify_update_cases e o :
  (order_update_callback_ e = false /\ notify_update e o = e) \/
  (order_update_callback_ e = true /\ notify_update e o = log_update e o).
Proof. unfold notify_update. destruct (order_update_callback_ e); auto. Qed.

(** The update touches nothing but the trace of updates. *)
Lemma notify_update_frame e o :
  symbol_ (notify_update e o) = symbol_ e /\
  order_book_ (notify_update e o) = order_book_ e /\
  trade_id_counter_ (notify_update e o) = trade_id_counter_ e /\
  stats_ (notify_update e o) = stats_ e /\
  trades (notify_update e o) = trades e /\
  status_writes (notify_update e o) = status_writes e /\
  order_update_callback_ (notify_update e o) = order_update_callback_ e.
Proof.
  destruct (notify_update_cases e o) as [[_ ->]|[_ ->]]; repeat split.
Qed.

Lemma notify_update_symbol e o : symbol_ (notify_update e o) = symbol_ e.
Proof. apply notify_update_frame. Qed.

Lemma notify_update_book e o :
  order_book_ (notify_update e o) = order_book_ e.
Proof. apply notify_update_frame. Qed.

Lemma notify_update_counter e o :
  trade_id_counter_ (notify_update e o) = trade_id_counter_ e.
Proof. apply notify_update_frame. Qed.

Lemma notify_update_stats e o : stats_ (notify_update e o) = stats_ e.
Proof. apply notify_update_frame. Qed.

Lemma notify_update_trades e o : trades (notify_update e o) = trades e.
Proof. apply notify_update_frame. Qed.

Lemma notify_update_writes e o :
  status_writes (notify_update e o) = status_writes e.
Proof. apply notify_update_frame. Qed.

Lemma notify_update_callback e o :
  order_update_callback_ (notify_update e o) = order_update_callback_ e.
Proof. apply notify_update_frame. Qed.

Lemma process_new_order_fst e o :
  fst (process_new_order e o)
  = notify_update (fst (match_new_order e o)) (snd (match_new_order e o)).
Proof.
  unfold process_new_order, match_new_order.
  destruct (type o);
    [destruct (match_limit_order _ o)|destruct (match_market_order _ o)];
    reflexivity.
Qed.

Lemma process_new_order_snd e o :
  snd (process_new_order e o) = snd (match_new_order e o).
Proof.
  unfold process_new_order, match_new_order.
  destruct (type o);
    [destruct (match_limit_order _ o)|destruct (match_market_order _ o)];
    reflexivity.
Qed.

End NotifyUpdate.

(** Goals about [process_new_order] that do not look at the updates are
    goals about [match_new_order]. *)
Ltac before_update :=
  rewrite ?process_new_order_fst, ?process_new_order_snd,
    ?notify_update_symbol, ?notify_update_book, ?notify_update_counter,
    ?notify_update_stats, ?notify_update_trades, ?notify_update_writes,
    ?notify_update_callback.

(** ** The scenarios of the specification *)

Section Scenarios.

Import MatchingEngine.

(** SELL(1, 15000, 100), then BUY(2, 15000, 50). *)
Example scenario_basic_match :
  let r := process_new_order (run_new (make AAPL) sell1)
             (new_order 2 AAPL BUY LIMIT 15000 50) in
  trades (fst r) = [Trade.mk 1 AAPL 2 1 15000 50] /\
  status (snd r) = FILLED /\
  OrderBook.book_orders (order_book_ (fst r))
    = [mkOrder 1 AAPL SELL LIMIT 15000 100 50 PARTIALLY_FILLED 1] /\
  OrderBook.best_ask (order_book_ (fst r)) = Some 15000 /\
  option_map (fun kl => PriceLevel.total_quantity (snd kl))
    (OrderBook.get_best_ask_level (order_book_ (fst r))) = Some 50 /\
  OrderBook.best_bid (order_book_ (fst r)) = None.
Proof. vm_compute. repeat split; reflexivity. Qed.

(** SELL(1, 15000, 100), SELL(2, 15000, 100), then BUY(3, 15000, 150). *)
Example scenario_time_priority :
  let r := process_new_order engine_two_asks buy3 in
  trades (fst r)
    = [Trade.mk 1 AAPL 3 1 15000 100; Trade.mk 2 AAPL 3 2 15000 50] /\
  OrderBook.book_orders (order_book_ (fst r))
    = [mkOrder 2 AAPL SELL LIMIT 15000 100 50 PARTIALLY_FILLED 2].
Proof. vm_compute. split; reflexivity. Qed.

(** A market buy on the empty book. *)
Example scenario_market_on_empty_book :
  let r := process_new_order (make AAPL) (new_order 1 AAPL BUY MARKET 0 50) in
  trades (fst r) = [] /\ status (snd r) = REJECTED.
Proof. vm_compute. split; reflexivity. Qed.

(** BUY(1, 15000, 100), cancel(1), cancel(1) again. *)
Example scenario_cancel_twice :
  let e1 := run_new (make AAPL) (new_order 1 AAPL BUY LIMIT 15000 100) in
  let e2 := process_cancel_order e1 1 in
  let e3 := process_cancel_order e2 1 in
  OrderBook.book_orders (order_book_ e2) = [] /\
  map sw_new (status_writes e2) = [CANCELLED] /\
  orders_cancelled (stats_ e2) = 1 /\
  e3 = e2.
Proof. vm_compute. repeat split; reflexivity. Qed.

(** SELL(1, 15100, 100), then BUY(2, 15200, 60): the trade is at 15100. *)
Example scenario_price_improvement :
  let r := process_new_order engine_one_ask buy_15200 in
  trades (fst r) = [Trade.mk 1 AAPL 2 1 15100 60] /\
  status (snd r) = FILLED /\
  OrderBook.book_orders (order_book_ (fst r))
    = [mkOrder 1 AAPL SELL LIMIT 15100 100 60 PARTIALLY_FILLED 1].
Proof. vm_compute. repeat split; reflexivity. Qed.

End Scenarios.

(** ** The map operations on a decomposed side *)

Section SideMapFacts.

Implicit Types (m pre post : OrderBook.SideMap) (k : Z) (l : PriceLevel.t).

Lemma keys_app m1 m2 : keys (m1 ++ m2) = keys m1 ++ keys m2.
Proof. unfold keys. apply map_app. Qed.

Lemma find_decomposed pre k l post :
  ~ In k (keys pre) ->
  OrderBook.find (pre ++ (k, l) :: post) k = Some l.
Proof.
  induction pre as [|[k' l'] pre IH]; simpl; intros Hk.
  - now rewrite Z.eqb_refl.
  - destruct (Z.eqb_spec k' k) as [->|_]; [tauto|]. apply IH. tauto.
Qed.

Lemma modify_decomposed pre k l post f :
  ~ In k (keys pre) ->
  OrderBook.modify (pre ++ (k, l) :: post) k f = pre ++ (k, f l) :: post.
Proof.
  induction pre as [|[k' l'] pre IH]; simpl; intros Hk.
  - now rewrite Z.eqb_refl.
  - destruct (Z.eqb_spec k' k) as [->|_]; [tauto|]. rewrite IH; tauto.
Qed.

Lemma erase_decomposed pre k l post :
  ~ In k (keys pre) ->
  OrderBook.erase (pre ++ (k, l) :: post) k = pre ++ post.
Proof.
  induction pre as [|[k' l'] pre IH]; simpl; intros Hk.
  - now rewrite Z.eqb_refl.
  - destruct (Z.eqb_spec k' k) as [->|_]; [tauto|]. rewrite IH; tauto.
Qed.

Lemma find_none_not_in m k : OrderBook.find m k = None <-> ~ In k (keys m).
Proof.
  induction m as [|[k' l'] m IH]; simpl.
  - tauto.
  - destruct (Z.eqb_spec k' k) as [->|Hne].
    + split; [discriminate | tauto].
    + rewrite IH. tauto.
Qed.

Lemma find_some_decompose m k l :
  OrderBook.find m k = Some l ->
  exists pre post, m = pre ++ (k, l) :: post /\ ~ In k (keys pre).
Proof.
  induction m as [|[k' l'] m IH]; simpl; [discriminate|].
  destruct (Z.eqb_spec k' k) as [->|Hne].
  - intros [= ->]. now exists [], m.
  - intros H. destruct (IH H) as (pre & post & -> & Hk).
    exists ((k', l') :: pre), post. split; [reflexivity|].
    simpl. tauto.
Qed.

Lemma last_error_app {A : Type} (xs : list A) (x : A) :
  OrderBook.last_error (xs ++ [x]) = Some x.
Proof.
  induction xs as [|y xs IH]; simpl; [reflexivity|].
  rewrite IH. destruct (xs ++ [x]) eqn:E; [|reflexivity].
  now destruct xs.
Qed.

Lemma last_error_some {A : Type} (xs : list A) (x : A) :
  OrderBook.last_error xs = Some x -> exists ys, xs = ys ++ [x].
Proof.
  destruct xs as [|y xs] using rev_ind; [discriminate|].
  rewrite last_error_app. intros [= ->]. now exists xs.
Qed.

Lemma last_error_none {A : Type} (xs : list A) :
  OrderBook.last_error xs = None -> xs = [].
Proof.
  destruct xs as [|y xs] using rev_ind; [reflexivity|].
  rewrite last_error_app. discriminate.
Qed.

Lemma sorted_app_lt (xs ys : list Z) :
  StronglySorted Z.lt (xs ++ ys) ->
  StronglySorted Z.lt xs /\ StronglySorted Z.lt ys /\
  (forall x y, In x xs -> In y ys -> x < y).
Proof.
  induction xs as [|x xs IH]; simpl; intros H.
  - repeat split; [constructor | assumption | tauto].
  - inversion H as [|? ? Hs Hf]; subst.
    destruct (IH Hs) as (H1 & H2 & H3).
    rewrite Forall_app in Hf. destruct Hf as [Hf1 Hf2].
    repeat split; [constructor; assumption | assumption |].
    intros a b [->|Ha] Hb.
    + rewrite Forall_forall in Hf2. auto.
    + auto.
Qed.

Lemma sorted_app_intro (xs ys : list Z) :
  StronglySorted Z.lt xs -> StronglySorted Z.lt ys ->
  (forall x y, In x xs -> In y ys -> x < y) ->
  StronglySorted Z.lt (xs ++ ys).
Proof.
  induction xs as [|x xs IH]; simpl; intros H1 H2 H3; [assumption|].
  inversion H1 as [|? ? Hs Hf]; subst.
  constructor.
  - apply IH; auto.
  - rewrite Forall_app. split; [assumption|].
    rewrite Forall_forall. intros y Hy. apply H3; auto.
Qed.

Lemma sorted_not_in_pre pre k l post :
  StronglySorted Z.lt (keys (pre ++ (k, l) :: post)) -> ~ In k (keys pre).
Proof.
  rewrite keys_app. intros H Hin.
  destruct (sorted_app_lt _ _ H) as (_ & _ & Hlt).
  specialize (Hlt k k Hin (or_introl eq_refl)). lia.
Qed.

Lemma sorted_drop_middle pre (x : Z * PriceLevel.t) post :
  StronglySorted Z.lt (keys (pre ++ x :: post)) ->
  StronglySorted Z.lt (keys (pre ++ post)).
Proof.
  rewrite !keys_app. simpl. intros H.
  destruct (sorted_app_lt _ _ H) as (H1 & H2 & H3).
  inversion H2; subst.
  apply sorted_app_intro; auto.
  intros a b Ha Hb. apply H3; simpl; auto.
Qed.

Lemma side_orders_app m1 m2 :
  OrderBook.side_orders (m1 ++ m2) =
  OrderBook.side_orders m1 ++ OrderBook.side_orders m2.
Proof. unfold OrderBook.side_orders. apply flat_map_app. Qed.

Lemma side_orders_cons k l m :
  OrderBook.side_orders ((k, l) :: m) =
  PriceLevel.orders_ l ++ OrderBook.side_orders m.
Proof. reflexivity. Qed.

End SideMapFacts.

(** ** One match *)

Section OneMatch.

Import MatchingEngine.

Lemma fill_id o q : id (fill o q) = id o.
Proof. reflexivity. Qed.

Lemma fill_side o q : side (fill o q) = side o.
Proof. reflexivity. Qed.

Lemma fill_price o q : price (fill o q) = price o.
Proof. reflexivity. Qed.

Lemma fill_type o q : type (fill o q) = type o.
Proof. reflexivity. Qed.

Lemma fill_quantity o q : quantity (fill o q) = quantity o.
Proof. reflexivity. Qed.

Lemma fill_filled o q :
  filled_quantity (fill o q) = filled_quantity o + q.
Proof. reflexivity. Qed.

Lemma fill_is_filled o q :
  is_filled (fill o q) = (filled_quantity o + q >=? quantity o).
Proof. reflexivity. Qed.

Lemma fill_status o q :
  status (fill o q) =
  if filled_quantity o + q >=? quantity o then FILLED else PARTIALLY_FILLED.
Proof. reflexivity. Qed.

Lemma fill_remaining o q :
  remaining_quantity (fill o q) = remaining_quantity o - q.
Proof. unfold remaining_quantity. rewrite fill_quantity, fill_filled. lia. Qed.

(** [try_match] on a book whose best opposing level is known. *)
Lemma try_match_decomposed e o pre k T r os post :
  opp_side (side o) (order_book_ e)
    = pre ++ (k, PriceLevel.mk k T (r :: os)) :: post ->
  (side o = BUY -> pre = []) ->
  (side o = SELL -> post = []) ->
  ~ In k (keys pre) ->
  price r = k -> side r = opposite (side o) -> is_active r = true ->
  (type o = LIMIT ->
   match side o with BUY => k <= price o | SELL => price o <= k end) ->
  try_match e o =
  (engine_after e o pre k T r os post,
   fill o (Z.min (remaining_quantity o) (remaining_quantity r)),
   MatchResult.mk true (price r)
     (Z.min (remaining_quantity o) (remaining_quantity r))
     (Some (fill r (Z.min (remaining_quantity o) (remaining_quantity r))))).
Proof.
  intros Hopp Hbuy Hsell Hk Hp Hs Hact Hlim.
  unfold try_match, engine_after, trade_of, writes_of.
  destruct (side o) eqn:Hside; simpl in Hopp, Hs.
  - rewrite (Hbuy eq_refl) in *. simpl in Hopp.
    unfold OrderBook.get_best_ask_level. rewrite Hopp. simpl.
    assert (Hc : OrderType_eqb (type o) LIMIT && (price o <? k) = false).
    { destruct (type o); simpl; [|reflexivity].
      specialize (Hlim eq_refl). apply Z.ltb_ge. lia. }
    rewrite Hc, Hact. simpl.
    set (q := Z.min (remaining_quantity o) (remaining_quantity r)).
    rewrite Hopp. simpl. rewrite Z.eqb_refl.
    unfold level_after.
    change (sw_result (mkWrite (with_filled_quantity r (filled_quantity r + q))
              (if is_filled (with_filled_quantity r (filled_quantity r + q))
               then FILLED else PARTIALLY_FILLED))) with (fill r q).
    change (sw_result (mkWrite (with_filled_quantity o (filled_quantity o + q))
              (if is_filled (with_filled_quantity o (filled_quantity o + q))
               then FILLED else PARTIALLY_FILLED))) with (fill o q).
    destruct (is_filled (fill r q)) eqn:Hf.
    + unfold OrderBook.remove_order. rewrite fill_side, Hs. simpl.
      unfold OrderBook.remove_from_side. simpl.
      rewrite ?fill_price, Hp, Z.eqb_refl.
      unfold PriceLevel.remove_order. simpl.
      change (id (fill r q)) with (id r).
      simpl. rewrite Z.eqb_refl. simpl.
      destruct os as [|o2 os]; simpl; rewrite ?Z.eqb_refl;
        unfold PriceLevel.update_total_quantity, OrderBook.with_asks,
          with_book; simpl; repeat f_equal; lia.
    + unfold OrderBook.with_asks, with_book,
        PriceLevel.update_total_quantity. simpl.
      repeat f_equal; lia.
  - rewrite (Hsell eq_refl) in *.
    unfold OrderBook.get_best_bid_level. rewrite Hopp.
    rewrite last_error_app. simpl.
    assert (Hc : OrderType_eqb (type o) LIMIT && (price o >? k) = false).
    { destruct (type o); simpl; [|reflexivity].
      specialize (Hlim eq_refl). rewrite Z.gtb_ltb. apply Z.ltb_ge. lia. }
    rewrite Hc, Hact. simpl.
    set (q := Z.min (remaining_quantity o) (remaining_quantity r)).
    rewrite Hopp. rewrite modify_decomposed by assumption.
    unfold level_after.
    change (sw_result (mkWrite (with_filled_quantity r (filled_quantity r + q))
              (if is_filled (with_filled_quantity r (filled_quantity r + q))
               then FILLED else PARTIALLY_FILLED))) with (fill r q).
    change (sw_result (mkWrite (with_filled_quantity o (filled_quantity o + q))
              (if is_filled (with_filled_quantity o (filled_quantity o + q))
               then FILLED else PARTIALLY_FILLED))) with (fill o q).
    destruct (is_filled (fill r q)) eqn:Hf.
    + unfold OrderBook.remove_order. rewrite fill_side, Hs. simpl.
      unfold OrderBook.remove_from_side. simpl.
      rewrite ?fill_price, Hp.
      rewrite find_decomposed by assumption.
      unfold PriceLevel.remove_order. simpl.
      change (id (fill r q)) with (id r).
      rewrite Z.eqb_refl. simpl.
      destruct os as [|o2 os]; simpl.
      * rewrite erase_decomposed by assumption. reflexivity.
      * rewrite modify_decomposed by assumption.
        unfold OrderBook.with_bids, with_book. simpl.
        repeat f_equal; lia.
    + unfold OrderBook.with_bids, with_book,
        PriceLevel.update_total_quantity. simpl.
      repeat f_equal; lia.
Qed.

End OneMatch.

(** ** The best opposing level of a well-formed book *)

Section BestLevel.

Import MatchingEngine.

Lemma sum_remaining_app (xs ys : list Order) :
  sum_remaining (xs ++ ys) = sum_remaining xs + sum_remaining ys.
Proof.
  induction xs as [|x xs IH]; simpl; [reflexivity|]. rewrite IH. lia.
Qed.

Lemma side_wf_opp sd b :
  book_inv b -> side_wf (opposite sd) (opp_side sd b).
Proof. intros (Hb & Ha & _). destruct sd; assumption. Qed.

Lemma side_wf_own sd b :
  book_inv b -> side_wf sd (own_side sd b).
Proof. intros (Hb & Ha & _). destruct sd; assumption. Qed.

Lemma level_wf_front sd k l :
  level_wf sd (k, l) ->
  exists r os,
    l = PriceLevel.mk k (remaining_quantity r + sum_remaining os) (r :: os)
    /\ resting_ok sd k r /\ Forall (resting_ok sd k) os.
Proof.
  destruct l as [p T os]. unfold level_wf, level_ok. simpl.
  intros (-> & (Hne & ->) & Hall).
  destruct os as [|r os]; [congruence|].
  inversion Hall; subst. now exists r, os.
Qed.

(** When [can_match] holds, the opposing side has a best level, its key
    is within the limit, and its front order is a resting order. *)
Lemma can_match_decompose e o :
  book_inv (order_book_ e) ->
  can_match e o = true ->
  exists pre k r os post,
    opp_side (side o) (order_book_ e) =
      pre ++ (k, PriceLevel.mk k (remaining_quantity r + sum_remaining os)
                               (r :: os)) :: post /\
    (side o = BUY -> pre = []) /\
    (side o = SELL -> post = []) /\
    ~ In k (keys pre) /\
    resting_ok (opposite (side o)) k r /\
    Forall (resting_ok (opposite (side o)) k) os /\
    (type o = LIMIT ->
     match side o with BUY => k <= price o | SELL => price o <= k end).
Proof.
  intros Hinv Hcm.
  pose proof (side_wf_opp (side o) _ Hinv) as [Hsorted Hall].
  unfold can_match in Hcm.
  destruct (side o) eqn:Hside; simpl in *.
  - unfold OrderBook.best_ask in Hcm.
    destruct (OrderBook.asks_ (order_book_ e)) as [|[k l] post] eqn:Hasks;
      simpl in Hcm; [discriminate|].
    inversion Hall as [|? ? Hl Hrest]; subst.
    destruct (level_wf_front _ _ _ Hl) as (r & os & -> & Hr & Hos).
    exists [], k, r, os, post. simpl.
    split; [reflexivity|]. split; [reflexivity|].
    split; [discriminate|]. split; [tauto|].
    split; [assumption|]. split; [assumption|].
    intros Hty. rewrite Hty in Hcm. simpl in Hcm.
    apply Z.geb_le in Hcm. assumption.
  - unfold OrderBook.best_bid in Hcm.
    destruct (OrderBook.last_error (OrderBook.bids_ (order_book_ e)))
      as [[k l]|] eqn:Hlast; simpl in Hcm; [|discriminate].
    destruct (last_error_some _ _ Hlast) as [pre Hpre].
    rewrite Hpre in Hall, Hsorted.
    apply Forall_app in Hall. destruct Hall as [_ Hl].
    inversion Hl as [|? ? Hl' _]; subst.
    destruct (level_wf_front _ _ _ Hl') as (r & os & -> & Hr & Hos).
    exists pre, k, r, os, []. rewrite Hpre.
    split; [reflexivity|]. split; [discriminate|].
    split; [reflexivity|].
    split; [eapply sorted_not_in_pre; eassumption|].
    split; [assumption|]. split; [assumption|].
    intros Hty. rewrite Hty in Hcm. simpl in Hcm.
    apply Z.leb_le in Hcm. assumption.
Qed.

(** The ids of the book, around the ids of one opposing level. *)
Lemma book_orders_decomposed sd b pre k l post :
  opp_side sd b = pre ++ (k, l) :: post ->
  exists A B,
    OrderBook.book_orders b = A ++ PriceLevel.orders_ l ++ B /\
    forall new,
      OrderBook.book_orders (set_opp_side sd b (pre ++ new ++ post)) =
      A ++ OrderBook.side_orders new ++ B.
Proof.
  intros Hopp. unfold OrderBook.book_orders.
  destruct sd; simpl in *.
  - exists (OrderBook.side_orders (OrderBook.bids_ b)
            ++ OrderBook.side_orders pre),
           (OrderBook.side_orders post).
    rewrite Hopp. split.
    + rewrite side_orders_app, side_orders_cons, <- !app_assoc. reflexivity.
    + intros new. rewrite !side_orders_app, <- !app_assoc. reflexivity.
  - exists (OrderBook.side_orders pre),
           (OrderBook.side_orders post
            ++ OrderBook.side_orders (OrderBook.asks_ b)).
    rewrite Hopp. split.
    + rewrite side_orders_app, side_orders_cons, <- !app_assoc. reflexivity.
    + intros new. rewrite !side_orders_app, <- !app_assoc. reflexivity.
Qed.

Lemma own_side_set_opp sd b m :
  own_side sd (set_opp_side sd b m) = own_side sd b.
Proof. destruct sd; reflexivity. Qed.

Lemma opp_side_set_opp sd b m : opp_side sd (set_opp_side sd b m) = m.
Proof. destruct sd; reflexivity. Qed.

End BestLevel.

(** ** One match keeps the invariants *)

Section StepInvariant.

Import MatchingEngine.

Variables (sd : OrderSide) (k : Z) (r : Order) (os : list Order) (q : Z).
Hypothesis Hr : resting_ok sd k r.
Hypothesis Hos : Forall (resting_ok sd k) os.
Hypothesis Hq : 0 < q <= remaining_quantity r.

Local Abbreviation T := (remaining_quantity r + sum_remaining os).

Lemma level_total_eq (p T1 T2 : Z) (xs : list Order) :
  T1 = T2 ->
  [(p, PriceLevel.mk p T1 xs)] = [(p, PriceLevel.mk p T2 xs)].
Proof. now intros ->. Qed.

Lemma fill_resting_filled_iff :
  is_filled (fill r q) = true <-> q = remaining_quantity r.
Proof.
  rewrite fill_is_filled. unfold remaining_quantity in *.
  rewrite Z.geb_le. lia.
Qed.

Lemma level_after_cases :
  (q = remaining_quantity r /\ os = [] /\ level_after k T r os q = []) \/
  (q = remaining_quantity r /\ os <> [] /\
   level_after k T r os q = [(k, PriceLevel.mk k (sum_remaining os) os)]) \/
  (q < remaining_quantity r /\
   level_after k T r os q =
     [(k, PriceLevel.mk k (remaining_quantity (fill r q) + sum_remaining os)
                        (fill r q :: os))]).
Proof.
  unfold level_after.
  destruct (is_filled (fill r q)) eqn:Hf.
  - apply fill_resting_filled_iff in Hf.
    destruct os as [|o2 os'].
    + left. auto.
    + right; left. split; [assumption|]. split; [discriminate|].
      rewrite fill_remaining. apply level_total_eq. lia.
  - right; right.
    assert (q <> remaining_quantity r).
    { intros Heq. apply fill_resting_filled_iff in Heq. congruence. }
    split; [lia|]. rewrite fill_remaining. apply level_total_eq. lia.
Qed.

Lemma fill_resting_ok :
  q < remaining_quantity r -> resting_ok sd k (fill r q).
Proof.
  intros Hlt. destruct Hr as (Hp & Hs & Ht & Ha & Hf).
  unfold resting_ok. rewrite fill_price, fill_side, fill_type, fill_filled,
    fill_quantity.
  repeat split; try assumption; unfold remaining_quantity in *; try lia.
  unfold is_active. rewrite fill_status.
  destruct (Z.geb_spec (filled_quantity r + q) (quantity r)); [lia|].
  reflexivity.
Qed.

Lemma level_after_wf : Forall (level_wf sd) (level_after k T r os q).
Proof.
  destruct level_after_cases as [(_ & _ & ->)|[(_ & Hne & ->)|(Hlt & ->)]].
  - constructor.
  - constructor; [|constructor].
    unfold level_wf, level_ok; simpl. auto.
  - constructor; [|constructor].
    unfold level_wf, level_ok; simpl.
    repeat split; try discriminate.
    constructor; [apply fill_resting_ok; assumption | assumption].
Qed.

Lemma level_after_ids :
  (q = remaining_quantity r /\
   map id (OrderBook.side_orders (level_after k T r os q)) = map id os) \/
  (q < remaining_quantity r /\
   map id (OrderBook.side_orders (level_after k T r os q))
     = id r :: map id os).
Proof.
  destruct level_after_cases as [(? & -> & ->)|[(? & Hne & ->)|(Hlt & ->)]];
    simpl; rewrite ?app_nil_r; auto.
Qed.

Lemma level_after_orders :
  (q = remaining_quantity r /\
   OrderBook.side_orders (level_after k T r os q) = os) \/
  (q < remaining_quantity r /\
   OrderBook.side_orders (level_after k T r os q) = fill r q :: os).
Proof.
  destruct level_after_cases as [(? & -> & ->)|[(? & Hne & ->)|(Hlt & ->)]];
    simpl; rewrite ?app_nil_r; auto.
Qed.

End StepInvariant.

Section EngineAfter.

Import MatchingEngine.

Lemma side_wf_replace sd pre k l new post :
  side_wf sd (pre ++ (k, l) :: post) ->
  Forall (level_wf sd) new ->
  new = [] \/ (exists l', new = [(k, l')]) ->
  side_wf sd (pre ++ new ++ post).
Proof.
  intros [Hs Hall] Hnew Hshape.
  apply Forall_app in Hall. destruct Hall as [Hpre Hrest].
  inversion Hrest as [|? ? _ Hpost]; subst.
  split.
  - destruct Hshape as [->|[l' ->]]; simpl.
    + eapply sorted_drop_middle; eassumption.
    + rewrite keys_app in *. exact Hs.
  - rewrite !Forall_app. auto.
Qed.

Lemma keys_replace pre k l new post x :
  new = [] \/ (exists l', new = [(k, l')]) ->
  In x (keys (pre ++ new ++ post)) -> In x (keys (pre ++ (k, l) :: post)).
Proof.
  rewrite !keys_app. simpl. rewrite !in_app_iff. simpl.
  intros [->|[l' ->]]; simpl; tauto.
Qed.

Lemma level_after_shape sd k r os q :
  resting_ok sd k r -> Forall (resting_ok sd k) os ->
  0 < q <= remaining_quantity r ->
  let new := level_after k (remaining_quantity r + sum_remaining os) r os q in
  new = [] \/ (exists l', new = [(k, l')]).
Proof.
  intros Hr Hos Hq new. subst new.
  destruct (level_after_cases sd k r os q Hos Hq)
    as [(_ & _ & ->)|[(_ & _ & ->)|(_ & ->)]]; eauto.
Qed.

Lemma uncrossed_set_opp sd b m :
  uncrossed_keys b ->
  (forall x, In x (keys m) -> In x (keys (opp_side sd b))) ->
  uncrossed_keys (set_opp_side sd b m).
Proof.
  unfold uncrossed_keys. intros Hu Hsub kb ka Hb Ha.
  destruct sd; simpl in *; auto.
Qed.

Lemma NoDup_drop_middle (A B : list Z) (x : Z) :
  NoDup (A ++ x :: B) -> NoDup (A ++ B).
Proof. apply NoDup_remove_1. Qed.

Lemma incoming_active_bounds b o :
  incoming_ok b o -> is_active o = true ->
  0 <= filled_quantity o < quantity o.
Proof.
  intros (H0 & _ & [[_ Hlt]|[Hst _]]) Hact; [lia|].
  unfold is_active in Hact. rewrite Hst in Hact. discriminate.
Qed.

(** The engine after one match satisfies the loop invariant again, and
    the book has lost an order unless the incoming order is filled. *)
Lemma engine_after_inv e o pre k r os post :
  loop_inv e o -> is_active o = true ->
  opp_side (side o) (order_book_ e) =
    pre ++ (k, PriceLevel.mk k (remaining_quantity r + sum_remaining os)
                             (r :: os)) :: post ->
  resting_ok (opposite (side o)) k r ->
  Forall (resting_ok (opposite (side o)) k) os ->
  let e' := engine_after e o pre k
              (remaining_quantity r + sum_remaining os) r os post in
  let o' := fill o (Z.min (remaining_quantity o) (remaining_quantity r)) in
  loop_inv e' o' /\
  (is_active o' = true ->
   (List.length (OrderBook.book_orders (order_book_ e'))
    < List.length (OrderBook.book_orders (order_book_ e)))%nat) /\
  (forall x, In x (book_ids (order_book_ e')) ->
             In x (book_ids (order_book_ e))).
Proof.
  intros [Hinv Hin] Hact Hopp Hr Hos e' o'.
  pose proof (incoming_active_bounds _ _ Hin Hact) as Hob.
  assert (Hrb : 0 <= filled_quantity r < quantity r) by apply Hr.
  set (q := Z.min (remaining_quantity o) (remaining_quantity r)) in *.
  assert (Hq : 0 < q <= remaining_quantity r)
    by (unfold q, remaining_quantity; lia).
  assert (Hqo : q <= remaining_quantity o)
    by (unfold q, remaining_quantity; lia).
  set (T := remaining_quantity r + sum_remaining os) in *.
  set (new := level_after k T r os q).
  pose proof (level_after_shape _ k r os q Hr Hos Hq) as Hshape.
  pose proof (level_after_wf _ k r os q Hr Hos Hq) as Hnewwf.
  pose proof (level_after_ids _ k r os q Hos Hq) as Hids.
  pose proof (level_after_orders _ k r os q Hos Hq) as Hords.
  fold T in Hshape, Hnewwf, Hids, Hords. fold new in Hshape, Hnewwf, Hids, Hords.
  destruct (book_orders_decomposed _ _ _ _ _ _ Hopp) as (A & B & HA & HB).
  cbn [PriceLevel.orders_] in HA.
  assert (Hbook : order_book_ e' =
            set_opp_side (side o) (order_book_ e) (pre ++ new ++ post))
    by reflexivity.
  assert (Hsub : forall x, In x (book_ids (order_book_ e')) ->
                           In x (book_ids (order_book_ e))).
  { intros x. unfold book_ids. rewrite Hbook, HB, HA.
    rewrite !map_app, !in_app_iff.
    destruct Hids as [[_ ->]|[_ ->]]; simpl; tauto. }
  split; [split|split].
  - (* the book *)
    destruct Hinv as (Hb & Ha & Hu & Hn).
    assert (Hoppwf : side_wf (opposite (side o)) (pre ++ new ++ post)).
    { eapply side_wf_replace; try eassumption.
      rewrite <- Hopp. destruct (side o); assumption. }
    rewrite Hbook. unfold book_inv.
    assert (Hu' : uncrossed_keys
              (set_opp_side (side o) (order_book_ e) (pre ++ new ++ post))).
    { apply uncrossed_set_opp; [assumption|].
      intros x Hx. rewrite Hopp. eapply keys_replace; eassumption. }
    assert (Hn' : ids_unique
              (set_opp_side (side o) (order_book_ e) (pre ++ new ++ post))).
    { unfold ids_unique, book_ids in *. rewrite HB. rewrite HA in Hn.
      rewrite !map_app in *. simpl in Hn.
      destruct Hids as [[_ ->]|[_ ->]].
      - eapply NoDup_drop_middle. exact Hn.
      - exact Hn. }
    destruct (side o); simpl in *; auto.
  - (* the incoming order *)
    destruct Hin as (H0 & Hfresh & _).
    unfold incoming_ok. subst o'.
    rewrite fill_filled, fill_id, fill_quantity.
    split; [lia|]. split; [auto|].
    unfold is_active. rewrite fill_status.
    unfold remaining_quantity in *.
    destruct (Z.geb_spec (filled_quantity o + q) (quantity o)).
    + right. split; [reflexivity | lia].
    + left. split; [reflexivity | lia].
  - (* the book shrinks *)
    intros Hact'. rewrite Hbook, HB, HA. rewrite !length_app. simpl.
    destruct Hords as [[_ ->]|[Hlt _]]; [lia|].
    exfalso. subst o'. unfold is_active in Hact'.
    rewrite fill_status in Hact'.
    unfold remaining_quantity in *.
    destruct (Z.geb_spec (filled_quantity o + q) (quantity o));
      [discriminate | unfold q in *; lia].
  - exact Hsub.
Qed.

End EngineAfter.

(** ** The matching loops *)

Section Loops.

Import MatchingEngine.

Lemma try_match_step e o :
  loop_inv e o -> can_match e o = true ->
  exists pre k r os post,
    step_facts e o pre k r os post /\
    try_match e o =
    (engine_after e o pre k (remaining_quantity r + sum_remaining os)
                  r os post,
     fill o (Z.min (remaining_quantity o) (remaining_quantity r)),
     MatchResult.mk true (price r)
       (Z.min (remaining_quantity o) (remaining_quantity r))
       (Some (fill r (Z.min (remaining_quantity o) (remaining_quantity r))))).
Proof.
  intros [Hinv Hin] Hcm.
  destruct (can_match_decompose _ _ Hinv Hcm)
    as (pre & k & r & os & post & Hopp & Hb & Hs & Hk & Hr & Hos & Hlim).
  exists pre, k, r, os, post. split.
  - unfold step_facts. auto 10.
  - destruct Hr as (Hp & Hsd & _ & Hact & _).
    apply try_match_decomposed; assumption.
Qed.

Lemma limit_loop_inactive fuel e o :
  is_active o = false -> limit_loop fuel e o = (e, o).
Proof. intros H. destruct fuel; simpl; [reflexivity|]. now rewrite H. Qed.

(** The rule of the loop: a property kept by every match holds of the
    result, together with the loop invariant. *)
Lemma limit_loop_rule (P : t -> Order -> Prop) :
  (forall e o pre k r os post,
     P e o -> loop_inv e o -> is_active o = true ->
     step_facts e o pre k r os post ->
     P (engine_after e o pre k (remaining_quantity r + sum_remaining os)
                     r os post)
       (fill o (Z.min (remaining_quantity o) (remaining_quantity r)))) ->
  forall fuel e o,
    loop_inv e o -> P e o ->
    loop_inv (fst (limit_loop fuel e o)) (snd (limit_loop fuel e o)) /\
    P (fst (limit_loop fuel e o)) (snd (limit_loop fuel e o)).
Proof.
  intros Hstep. induction fuel as [|fuel IH]; intros e o Hinv HP; simpl.
  - auto.
  - destruct (is_active o) eqn:Hact; simpl; [|auto].
    destruct (can_match e o) eqn:Hcm; simpl; [|auto].
    destruct (try_match_step _ _ Hinv Hcm)
      as (pre & k & r & os & post & Hf & ->). simpl.
    pose proof Hf as (Hopp & _ & _ & Hr & Hos & _).
    apply IH.
    + eapply engine_after_inv; eassumption.
    + eapply Hstep; eassumption.
Qed.

(** On a well-formed book the loop of [match_market_order] never takes
    its rejecting branch: the two loops do the same. *)
Lemma market_loop_limit_loop fuel :
  forall e o, loop_inv e o -> market_loop fuel e o = limit_loop fuel e o.
Proof.
  induction fuel as [|fuel IH]; intros e o Hinv; simpl; [reflexivity|].
  destruct (is_active o) eqn:Hact; simpl; [|reflexivity].
  destruct (can_match e o) eqn:Hcm; simpl; [|reflexivity].
  destruct (try_match_step _ _ Hinv Hcm)
    as (pre & k & r & os & post & Hf & ->). simpl.
  pose proof Hf as (Hopp & _ & _ & Hr & Hos & _).
  apply IH. eapply engine_after_inv; eassumption.
Qed.

(** With more fuel than there are orders in the book, the loop stops
    because its condition fails. *)
Lemma limit_loop_exit fuel :
  forall e o,
    loop_inv e o ->
    (List.length (OrderBook.book_orders (order_book_ e)) < fuel)%nat ->
    is_active (snd (limit_loop fuel e o))
    && can_match (fst (limit_loop fuel e o)) (snd (limit_loop fuel e o))
    = false.
Proof.
  induction fuel as [|fuel IH]; intros e o Hinv Hlen; [lia|]. simpl.
  destruct (is_active o) eqn:Hact; simpl; [|now rewrite Hact].
  destruct (can_match e o) eqn:Hcm; simpl;
    [|now rewrite Hact, Hcm].
  destruct (try_match_step _ _ Hinv Hcm)
    as (pre & k & r & os & post & Hf & ->). simpl.
  pose proof Hf as (Hopp & _ & _ & Hr & Hos & _).
  destruct (engine_after_inv _ _ _ _ _ _ _ Hinv Hact Hopp Hr Hos)
    as (Hinv' & Hshrink & _).
  destruct (is_active
              (fill o (Z.min (remaining_quantity o) (remaining_quantity r))))
    eqn:Hact'.
  - apply IH; [assumption|]. specialize (Hshrink eq_refl). lia.
  - rewrite limit_loop_inactive by assumption. simpl. now rewrite Hact'.
Qed.

(** Any two amounts of fuel above the number of resting orders give the
    same result: the bound of the model is no restriction. *)
Lemma limit_loop_fuel fuel1 :
  forall fuel2 e o,
    loop_inv e o ->
    (List.length (OrderBook.book_orders (order_book_ e)) < fuel1)%nat ->
    (List.length (OrderBook.book_orders (order_book_ e)) < fuel2)%nat ->
    limit_loop fuel1 e o = limit_loop fuel2 e o.
Proof.
  induction fuel1 as [|fuel1 IH]; intros fuel2 e o Hinv H1 H2; [lia|].
  destruct fuel2 as [|fuel2]; [lia|]. simpl.
  destruct (is_active o) eqn:Hact; simpl; [|reflexivity].
  destruct (can_match e o) eqn:Hcm; simpl; [|reflexivity].
  destruct (try_match_step _ _ Hinv Hcm)
    as (pre & k & r & os & post & Hf & ->). simpl.
  pose proof Hf as (Hopp & _ & _ & Hr & Hos & _).
  destruct (engine_after_inv _ _ _ _ _ _ _ Hinv Hact Hopp Hr Hos)
    as (Hinv' & Hshrink & _).
  destruct (is_active
              (fill o (Z.min (remaining_quantity o) (remaining_quantity r))))
    eqn:Hact'.
  - specialize (Hshrink eq_refl). apply IH; [assumption|lia|lia].
  - now rewrite !limit_loop_inactive by assumption.
Qed.

End Loops.

(** ** Searching and removing by id *)

Section ById.

Lemma erase_first_some i os found rest :
  PriceLevel.erase_first i os = Some (found, rest) ->
  exists l1 l2,
    os = l1 ++ found :: l2 /\ rest = l1 ++ l2 /\ id found = i /\
    ~ In i (map id l1).
Proof.
  revert rest. induction os as [|o os IH]; simpl; intros rest; [discriminate|].
  destruct (Z.eqb_spec (id o) i) as [Heq|Hne].
  - intros [= -> ->]. exists [], rest. simpl. auto.
  - destruct (PriceLevel.erase_first i os) as [[f r]|]; [|discriminate].
    intros [= -> <-].
    destruct (IH r eq_refl) as (l1 & l2 & -> & -> & Hid & Hnot).
    exists (o :: l1), l2. simpl. repeat split; auto. tauto.
Qed.

Lemma erase_first_none i os :
  PriceLevel.erase_first i os = None <-> ~ In i (map id os).
Proof.
  induction os as [|o os IH]; simpl; [tauto|].
  destruct (Z.eqb_spec (id o) i) as [Heq|Hne].
  - split; [discriminate | tauto].
  - destruct (PriceLevel.erase_first i os) as [[f r]|].
    + split; [discriminate|]. intros H. exfalso.
      assert (Hn : ~ In i (map id os)) by tauto.
      apply IH in Hn. discriminate.
    + split; [|reflexivity]. intros _ [H|H]; [contradiction|].
      now apply (proj1 IH).
Qed.

Lemma find_in_erase_first i os :
  PriceLevel.find_in i os = option_map fst (PriceLevel.erase_first i os).
Proof.
  induction os as [|o os IH]; simpl; [reflexivity|].
  destruct (id o =? i); [reflexivity|].
  rewrite IH. now destruct (PriceLevel.erase_first i os) as [[f r]|].
Qed.

Lemma find_in_some i os o :
  PriceLevel.find_in i os = Some o ->
  exists l1 l2,
    os = l1 ++ o :: l2 /\ id o = i /\ ~ In i (map id l1) /\
    PriceLevel.erase_first i os = Some (o, l1 ++ l2).
Proof.
  rewrite find_in_erase_first.
  destruct (PriceLevel.erase_first i os) as [[f r]|] eqn:E; [|discriminate].
  simpl. intros [= ->].
  destruct (erase_first_some _ _ _ _ E) as (l1 & l2 & -> & -> & Hid & Hn).
  exists l1, l2. auto.
Qed.

Lemma find_in_none i os :
  PriceLevel.find_in i os = None <-> ~ In i (map id os).
Proof.
  rewrite find_in_erase_first, <- erase_first_none.
  destruct (PriceLevel.erase_first i os); simpl; split; congruence.
Qed.

(** The level of [(k, l)] without the order [o], found between [l1] and
    [l2]: the node is erased when nothing is left. *)
Lemma cancel_in_side_some m i m' w :
  OrderBook.cancel_in_side m i = Some (m', w) ->
  exists pre k l post l1 o l2,
    m = pre ++ (k, l) :: post /\
    PriceLevel.orders_ l = l1 ++ o :: l2 /\
    id o = i /\
    ~ In i (map id (OrderBook.side_orders pre)) /\
    ~ In i (map id l1) /\
    w = mkWrite o CANCELLED /\
    m' = pre ++
         match l1 ++ l2 with
         | [] => []
         | _ :: _ =>
             [(k, PriceLevel.mk (PriceLevel.price_ l)
                    (PriceLevel.total_quantity_ l - remaining_quantity o)
                    (l1 ++ l2))]
         end ++ post.
Proof.
  revert m'. induction m as [|[k l] m IH]; simpl; intros m'; [discriminate|].
  unfold PriceLevel.find_order.
  destruct (PriceLevel.find_in i (PriceLevel.orders_ l)) as [o|] eqn:Hf.
  - intros [= <- <-].
    destruct (find_in_some _ _ _ Hf) as (l1 & l2 & Hl & Hid & Hn & He).
    exists [], k, l, m, l1, o, l2. simpl.
    repeat split; auto.
    unfold PriceLevel.remove_order, sw_result. simpl. rewrite Hid, He.
    unfold PriceLevel.empty. simpl.
    destruct (l1 ++ l2); reflexivity.
  - destruct (OrderBook.cancel_in_side m i) as [[m'' w']|]; [|discriminate].
    intros [= <- <-].
    destruct (IH m'' eq_refl)
      as (pre & k' & l' & post & l1 & o & l2 & -> & Hl & Hid & Hn1 & Hn2
          & Hw & ->).
    exists ((k, l) :: pre), k', l', post, l1, o, l2. simpl.
    repeat split; auto.
    rewrite map_app, in_app_iff. apply find_in_none in Hf. tauto.
Qed.

Lemma cancel_in_side_none m i :
  OrderBook.cancel_in_side m i = None <->
  ~ In i (map id (OrderBook.side_orders m)).
Proof.
  induction m as [|[k l] m IH]; simpl; [tauto|].
  unfold PriceLevel.find_order.
  rewrite map_app, in_app_iff.
  destruct (PriceLevel.find_in i (PriceLevel.orders_ l)) as [o|] eqn:Hf.
  - split; [discriminate|]. intros H. exfalso.
    assert (Hn : ~ In i (map id (PriceLevel.orders_ l))) by tauto.
    apply find_in_none in Hn. congruence.
  - apply find_in_none in Hf.
    destruct (OrderBook.cancel_in_side m i) as [[m'' w']|].
    + split; [discriminate|]. intros H. exfalso.
      assert (Hn : ~ In i (map id (OrderBook.side_orders m))) by tauto.
      apply IH in Hn. discriminate.
    + split; [|reflexivity]. intros _ [H|H]; [contradiction|].
      now apply (proj1 IH).
Qed.

End ById.

(** ** Cancelling keeps the invariants *)

Section CancelInvariant.

Lemma Forall_drop_middle {A : Type} (P : A -> Prop) (l1 l2 : list A) (x : A) :
  Forall P (l1 ++ x :: l2) -> Forall P (l1 ++ l2) /\ P x.
Proof.
  rewrite !Forall_app. intros [H1 H2]. inversion H2; subst. auto.
Qed.

Lemma NoDup_map_drop_middle (A B : list Order) (o : Order) :
  NoDup (map id (A ++ o :: B)) -> NoDup (map id (A ++ B)).
Proof. rewrite !map_app. simpl. apply NoDup_remove_1. Qed.

Lemma cancel_in_side_wf sd m i m' w :
  side_wf sd m ->
  OrderBook.cancel_in_side m i = Some (m', w) ->
  side_wf sd m' /\
  (forall x, In x (keys m') -> In x (keys m)) /\
  exists A B o,
    OrderBook.side_orders m = A ++ o :: B /\
    OrderBook.side_orders m' = A ++ B /\
    w = mkWrite o CANCELLED /\ id o = i /\ is_active o = true /\
    ~ In i (map id A).
Proof.
  intros Hwf Hc.
  destruct (cancel_in_side_some _ _ _ _ Hc)
    as (pre & k & l & post & l1 & o & l2 & -> & Hl & Hid & Hn1 & Hn2
        & -> & ->).
  pose proof Hwf as [Hs Hall].
  apply Forall_drop_middle in Hall. destruct Hall as [Hothers Hlvl].
  destruct Hlvl as (Hp & [Hne Htot] & Hro). simpl in Hp, Hne, Htot, Hro.
  rewrite Hl in Hro, Htot.
  apply Forall_drop_middle in Hro. destruct Hro as [Hro Ho].
  set (new := match l1 ++ l2 with
              | [] => []
              | _ :: _ =>
                  [(k, PriceLevel.mk (PriceLevel.price_ l)
                         (PriceLevel.total_quantity_ l - remaining_quantity o)
                         (l1 ++ l2))]
              end).
  assert (Hshape : new = [] \/ exists l', new = [(k, l')]).
  { subst new. destruct (l1 ++ l2); eauto. }
  assert (Hnew : Forall (level_wf sd) new).
  { assert (Hsum : PriceLevel.total_quantity_ l - remaining_quantity o
                   = sum_remaining (l1 ++ l2))
      by (rewrite Htot, !sum_remaining_app; simpl; lia).
    subst new. revert Hro Hsum.
    generalize (l1 ++ l2). intros [|x xs] Hro Hsum;
      constructor; [|constructor].
    unfold level_wf, level_ok. simpl.
    repeat split; try assumption. discriminate. }
  assert (Hords : OrderBook.side_orders new = l1 ++ l2).
  { subst new. destruct (l1 ++ l2); simpl; rewrite ?app_nil_r; reflexivity. }
  split; [|split].
  - eapply side_wf_replace; eassumption.
  - intros x. apply keys_replace. assumption.
  - exists (OrderBook.side_orders pre ++ l1),
           (l2 ++ OrderBook.side_orders post), o.
    rewrite !side_orders_app, side_orders_cons, Hords, Hl.
    rewrite <- !app_assoc. simpl.
    repeat split; auto.
    + apply Ho.
    + rewrite map_app, in_app_iff. tauto.
Qed.

Lemma cancel_order_none b i :
  ~ In i (book_ids b) -> OrderBook.cancel_order b i = (b, None).
Proof.
  unfold book_ids, OrderBook.book_orders, OrderBook.cancel_order.
  rewrite map_app, in_app_iff. intros H.
  assert (H1 : OrderBook.cancel_in_side (OrderBook.bids_ b) i = None)
    by (apply cancel_in_side_none; tauto).
  assert (H2 : OrderBook.cancel_in_side (OrderBook.asks_ b) i = None)
    by (apply cancel_in_side_none; tauto).
  now rewrite H1, H2.
Qed.

(** A successful cancel takes exactly one order out of the book, the
    first one with the id, and keeps the book well formed. *)
Lemma cancel_order_some b i b' w :
  book_inv b ->
  OrderBook.cancel_order b i = (b', Some w) ->
  book_inv b' /\
  OrderBook.symbol_ b' = OrderBook.symbol_ b /\
  OrderBook.sequence_counter_ b' = OrderBook.sequence_counter_ b /\
  exists A B o,
    OrderBook.book_orders b = A ++ o :: B /\
    OrderBook.book_orders b' = A ++ B /\
    w = mkWrite o CANCELLED /\ id o = i /\ is_active o = true /\
    ~ In i (map id A).
Proof.
  intros (Hb & Ha & Hu & Hn) Hc. unfold OrderBook.cancel_order in Hc.
  destruct (OrderBook.cancel_in_side (OrderBook.bids_ b) i)
    as [[m w']|] eqn:Hbids.
  - injection Hc as <- <-.
    destruct (cancel_in_side_wf _ _ _ _ _ Hb Hbids)
      as (Hwf & Hk & A & B & o & HA & HB & Hw & Hid & Hact & HnA).
    split; [|split; [reflexivity|split; [reflexivity|]]].
    + unfold book_inv. simpl. split; [exact Hwf|split; [exact Ha|split]].
      * intros kb ka Hkb Hka. apply Hu; auto.
      * unfold ids_unique, book_ids, OrderBook.book_orders in *. simpl.
        rewrite HB. rewrite HA in Hn.
        rewrite <- app_assoc in Hn. simpl in Hn. rewrite <- app_assoc.
        eapply NoDup_map_drop_middle. exact Hn.
    + exists A, (B ++ OrderBook.side_orders (OrderBook.asks_ b)), o.
      unfold OrderBook.book_orders. simpl. rewrite HA, HB.
      rewrite <- !app_assoc. simpl. auto 10.
  - destruct (OrderBook.cancel_in_side (OrderBook.asks_ b) i)
      as [[m w']|] eqn:Hasks; [|discriminate].
    injection Hc as <- <-.
    destruct (cancel_in_side_wf _ _ _ _ _ Ha Hasks)
      as (Hwf & Hk & A & B & o & HA & HB & Hw & Hid & Hact & HnA).
    apply cancel_in_side_none in Hbids.
    split; [|split; [reflexivity|split; [reflexivity|]]].
    + unfold book_inv. simpl. split; [exact Hb|split; [exact Hwf|split]].
      * intros kb ka Hkb Hka. apply Hu; auto.
      * unfold ids_unique, book_ids, OrderBook.book_orders in *. simpl.
        rewrite HB. rewrite HA in Hn.
        rewrite app_assoc in Hn. rewrite app_assoc.
        eapply NoDup_map_drop_middle. exact Hn.
    + exists (OrderBook.side_orders (OrderBook.bids_ b) ++ A), B, o.
      unfold OrderBook.book_orders. simpl. rewrite HA, HB.
      rewrite <- !app_assoc. simpl.
      repeat split; auto.
      rewrite map_app, in_app_iff. tauto.
Qed.

End CancelInvariant.

(** ** Inserting keeps the invariants *)

Section AddInvariant.

Lemma emplace_decompose m k l :
  StronglySorted Z.lt (keys m) -> ~ In k (keys m) ->
  exists pre post,
    m = pre ++ post /\
    OrderBook.emplace m k l = pre ++ (k, l) :: post /\
    (forall x, In x (keys pre) -> x < k) /\
    (forall x, In x (keys post) -> k < x).
Proof.
  induction m as [|[k' l'] m IH]; simpl; intros Hs Hn.
  - exists [], []. simpl. repeat split; tauto.
  - inversion Hs as [|? ? Hs' Hf]; subst.
    destruct (Z.ltb_spec k k') as [Hlt|Hge].
    + exists [], ((k', l') :: m). simpl. repeat split; try tauto.
      intros x [<-|Hx]; [assumption|].
      rewrite Forall_forall in Hf. specialize (Hf x Hx). lia.
    + destruct (Z.eqb_spec k k') as [->|Hne]; [tauto|].
      destruct (IH Hs') as (pre & post & -> & -> & Hpre & Hpost); [tauto|].
      exists ((k', l') :: pre), post. simpl. repeat split; auto.
      intros x [<-|Hx]; [lia | auto].
Qed.

(** [add_to_side], by whether the level is there already. *)
Lemma add_to_side_cases m o :
  StronglySorted Z.lt (keys m) ->
  (exists pre l post,
     m = pre ++ (price o, l) :: post /\ ~ In (price o) (keys pre) /\
     fst (OrderBook.add_to_side m o) =
       pre ++ (price o, PriceLevel.add_order l o) :: post) \/
  (exists pre post,
     m = pre ++ post /\ ~ In (price o) (keys m) /\
     (forall x, In x (keys pre) -> x < price o) /\
     (forall x, In x (keys post) -> price o < x) /\
     fst (OrderBook.add_to_side m o) =
       pre ++ (price o,
               PriceLevel.mk (price o) (0 + remaining_quantity o) [o])
           :: post).
Proof.
  intros Hs. unfold OrderBook.add_to_side.
  destruct (OrderBook.find m (price o)) as [l|] eqn:Hf.
  - left. destruct (find_some_decompose _ _ _ Hf) as (pre & post & -> & Hk).
    exists pre, l, post. simpl.
    rewrite modify_decomposed by assumption. auto.
  - right. apply find_none_not_in in Hf.
    destruct (emplace_decompose m (price o) (PriceLevel.make (price o)) Hs Hf)
      as (pre & post & Hm & He & Hpre & Hpost).
    exists pre, post. simpl. rewrite He.
    rewrite modify_decomposed.
    + auto 10.
    + intros Hin. specialize (Hpre _ Hin). lia.
Qed.

Lemma side_wf_add sd m o :
  side_wf sd m -> resting_ok sd (price o) o ->
  side_wf sd (fst (OrderBook.add_to_side m o)) /\
  (forall x, In x (keys (fst (OrderBook.add_to_side m o))) ->
             x = price o \/ In x (keys m)) /\
  exists A B,
    OrderBook.side_orders m = A ++ B /\
    OrderBook.side_orders (fst (OrderBook.add_to_side m o)) = A ++ o :: B.
Proof.
  intros [Hs Hall] Ho.
  destruct (add_to_side_cases m o Hs)
    as [(pre & l & post & -> & Hk & ->)
       |(pre & post & -> & Hk & Hpre & Hpost & ->)].
  - apply Forall_app in Hall. destruct Hall as [Hp Hrest].
    inversion Hrest as [|? ? Hl Hq]; subst.
    destruct Hl as (Hpl & [Hne Htot] & Hro). simpl in *.
    split; [split|split].
    + rewrite keys_app in *. exact Hs.
    + apply Forall_app. split; [assumption|]. constructor; [|assumption].
      unfold level_wf, level_ok. simpl.
      repeat split; try assumption.
      * destruct (PriceLevel.orders_ l); discriminate.
      * rewrite sum_remaining_app, Htot. simpl. lia.
      * apply Forall_app. split; [assumption|]. constructor; [|constructor].
        assumption.
    + intros x. rewrite !keys_app. simpl. rewrite !in_app_iff. simpl.
      intuition auto.
    + exists (OrderBook.side_orders pre ++ PriceLevel.orders_ l),
             (OrderBook.side_orders post).
      rewrite !side_orders_app, !side_orders_cons. simpl.
      rewrite <- !app_assoc. auto.
  - apply Forall_app in Hall. destruct Hall as [Hp Hq].
    rewrite keys_app in Hs.
    destruct (sorted_app_lt _ _ Hs) as (Hs1 & Hs2 & Hlt).
    split; [split|split].
    + rewrite keys_app. simpl. apply sorted_app_intro; [assumption| |].
      * constructor; [assumption|]. apply Forall_forall. exact Hpost.
      * intros x y Hx [<-|Hy]; auto.
    + apply Forall_app. split; [assumption|]. constructor; [|assumption].
      unfold level_wf, level_ok. simpl.
      repeat split; try discriminate; try lia.
      constructor; [assumption|constructor].
    + intros x. rewrite !keys_app. simpl. rewrite !in_app_iff. simpl.
      intuition auto.
    + exists (OrderBook.side_orders pre), (OrderBook.side_orders post).
      rewrite !side_orders_app, !side_orders_cons. simpl. auto.
Qed.

End AddInvariant.

(** ** What the loops leave alone *)

Section LoopFrame.

Import MatchingEngine.

Lemma loop_frame_refl e o : loop_frame e o e o.
Proof. unfold loop_frame. auto 20. Qed.

Lemma engine_after_frame e0 o0 e o pre k r os post :
  loop_frame e0 o0 e o -> loop_inv e o -> is_active o = true ->
  step_facts e o pre k r os post ->
  loop_frame e0 o0
    (engine_after e o pre k (remaining_quantity r + sum_remaining os)
                  r os post)
    (fill o (Z.min (remaining_quantity o) (remaining_quantity r))).
Proof.
  intros Hfr Hinv Hact Hf.
  destruct Hfr as (F1 & F2 & F3 & F4 & F5 & F6 & F7 & F8 & F9 & F10 & F11
                   & F12 & F13 & F14 & F15 & F16).
  pose proof Hf as (Hopp & _ & _ & Hr & Hos & _).
  destruct (engine_after_inv _ _ _ _ _ _ _ Hinv Hact Hopp Hr Hos)
    as (_ & _ & Hsub).
  assert (Hq : 0 < Z.min (remaining_quantity o) (remaining_quantity r)
               <= remaining_quantity r).
  { destruct Hinv as [_ Hin].
    pose proof (incoming_active_bounds _ _ Hin Hact).
    assert (0 <= filled_quantity r < quantity r) by apply Hr.
    unfold remaining_quantity. lia. }
  pose proof (level_after_shape _ k r os _ Hr Hos Hq) as Hshape.
  unfold loop_frame.
  rewrite fill_side, fill_type, fill_price, fill_id, fill_quantity.
  repeat match goal with |- _ /\ _ => split end; try assumption;
    try (simpl; congruence).
  - unfold engine_after. simpl. rewrite <- F9, <- F1.
    destruct (side o); reflexivity.
  - unfold engine_after. simpl. rewrite <- F10.
    destruct (side o); reflexivity.
  - unfold engine_after. simpl. rewrite <- F11.
    destruct (side o); reflexivity.
  - auto.
  - intros x Hx. apply F16. rewrite <- F1. rewrite Hopp.
    eapply keys_replace; [exact Hshape|].
    unfold engine_after in Hx. simpl in Hx. rewrite <- F1 in Hx.
    rewrite opp_side_set_opp in Hx. exact Hx.
Qed.

(** The loop of [match_limit_order] from a well-formed state: the
    invariant holds again, the frame is kept, and the loop has stopped
    because its condition fails. *)
Lemma limit_loop_result e o :
  loop_inv e o ->
  let e' := fst (limit_loop (loop_bound e) e o) in
  let o' := snd (limit_loop (loop_bound e) e o) in
  loop_inv e' o' /\ loop_frame e o e' o' /\
  is_active o' && can_match e' o' = false.
Proof.
  intros Hinv e' o'.
  destruct (limit_loop_rule (loop_frame e o) (engine_after_frame e o)
              (loop_bound e) e o Hinv (loop_frame_refl e o)) as [H1 H2].
  split; [exact H1|]. split; [exact H2|].
  apply limit_loop_exit; [assumption|]. unfold loop_bound. lia.
Qed.

End LoopFrame.

(** ** Processing events keeps the invariants *)

Section EventInvariant.

Import MatchingEngine.

Lemma hd_key_min (m : OrderBook.SideMap) k l :
  StronglySorted Z.lt (keys m) -> hd_error m = Some (k, l) ->
  forall x, In x (keys m) -> k <= x.
Proof.
  destruct m as [|[k' l'] m]; simpl; [discriminate|].
  intros Hs [= -> ->] x [<-|Hx]; [lia|].
  inversion Hs as [|? ? _ Hf]; subst.
  rewrite Forall_forall in Hf. specialize (Hf x Hx). lia.
Qed.

Lemma last_key_max (m : OrderBook.SideMap) k l :
  StronglySorted Z.lt (keys m) -> OrderBook.last_error m = Some (k, l) ->
  forall x, In x (keys m) -> x <= k.
Proof.
  intros Hs Hl. destruct (last_error_some _ _ Hl) as [pre ->].
  rewrite keys_app in *. simpl in *.
  destruct (sorted_app_lt _ _ Hs) as (_ & _ & Hlt).
  intros x Hx. apply in_app_iff in Hx. destruct Hx as [Hx|[<-|[]]]; [|lia].
  specialize (Hlt x k Hx (or_introl eq_refl)). lia.
Qed.

(** A limit order that cannot match stays clear of the opposing side. *)
Lemma cannot_match_no_cross e o :
  book_inv (order_book_ e) -> type o = LIMIT -> can_match e o = false ->
  no_cross (order_book_ e) o.
Proof.
  intros (Hb & Ha & _) Hty Hcm. unfold can_match, no_cross in *.
  rewrite Hty in Hcm. simpl in Hcm.
  destruct (side o).
  - unfold OrderBook.best_ask in Hcm.
    destruct (hd_error (OrderBook.asks_ (order_book_ e))) as [[k l]|] eqn:Hh;
      simpl in Hcm.
    + intros ka Hka.
      pose proof (hd_key_min _ _ _ (proj1 Ha) Hh ka Hka).
      rewrite Z.geb_leb in Hcm. apply Z.leb_gt in Hcm. lia.
    + destruct (OrderBook.asks_ (order_book_ e)); [|discriminate].
      intros ka [].
  - unfold OrderBook.best_bid in Hcm.
    destruct (OrderBook.last_error (OrderBook.bids_ (order_book_ e)))
      as [[k l]|] eqn:Hh; simpl in Hcm.
    + intros kb Hkb.
      pose proof (last_key_max _ _ _ (proj1 Hb) Hh kb Hkb).
      apply Z.leb_gt in Hcm. lia.
    + apply last_error_none in Hh. rewrite Hh. intros kb [].
Qed.

Lemma NoDup_map_insert_middle (A B : list Order) (o : Order) :
  ~ In (id o) (map id (A ++ B)) -> NoDup (map id (A ++ B)) ->
  NoDup (map id (A ++ o :: B)).
Proof.
  rewrite !map_app. simpl. intros Hn Hnd.
  apply NoDup_Add with (a := id o) (l := map id A ++ map id B).
  - apply Add_app.
  - split; assumption.
Qed.

(** [OrderBook::add_order] of an order that may rest. *)
Lemma add_order_inv b o :
  book_inv b ->
  String.eqb (symbol o) (OrderBook.symbol_ b) = true ->
  resting_ok (side o) (price o) o ->
  ~ In (id o) (book_ids b) ->
  no_cross b o ->
  exists b',
    OrderBook.add_order b o =
      (b', with_sequence_number o (u64 (OrderBook.sequence_counter_ b + 1)),
       true) /\
    book_inv b' /\
    exists A B,
      OrderBook.book_orders b = A ++ B /\
      OrderBook.book_orders b' =
        A ++ with_sequence_number o (u64 (OrderBook.sequence_counter_ b + 1))
          :: B.
Proof.
  intros (Hb & Ha & Hu & Hn) Hsym Ho Hfresh Hnc.
  unfold OrderBook.add_order. rewrite Hsym. simpl.
  set (o' := with_sequence_number o (u64 (OrderBook.sequence_counter_ b + 1))).
  assert (Ho' : resting_ok (side o) (price o') o') by exact Ho.
  unfold no_cross in Hnc.
  destruct (side o) eqn:Hside.
  - destruct (side_wf_add _ _ _ Hb Ho')
      as (Hwf & Hkeys & A & B & HA & HB).
    exists (OrderBook.with_bids
              (OrderBook.mk (OrderBook.symbol_ b) (OrderBook.bids_ b)
                 (OrderBook.asks_ b) (u64 (OrderBook.sequence_counter_ b + 1)))
              (fst (OrderBook.add_to_side (OrderBook.bids_ b) o'))).
    split; [reflexivity|].
    split.
    + unfold book_inv.
      cbn [OrderBook.bids_ OrderBook.asks_ OrderBook.with_bids OrderBook.with_asks].
      split; [exact Hwf|split; [exact Ha|split]].
      * intros kb ka Hkb Hka.
        cbn [OrderBook.bids_ OrderBook.asks_ OrderBook.with_bids OrderBook.with_asks] in *.
        destruct (Hkeys kb Hkb) as [->|Hold]; auto.
      * unfold ids_unique, book_ids, OrderBook.book_orders in *.
        cbn [OrderBook.bids_ OrderBook.asks_ OrderBook.with_bids OrderBook.with_asks].
        rewrite HB. rewrite HA in Hn, Hfresh.
        rewrite <- app_assoc in *.
        apply NoDup_map_insert_middle; assumption.
    + exists A, (B ++ OrderBook.side_orders (OrderBook.asks_ b)).
      unfold OrderBook.book_orders.
      cbn [OrderBook.bids_ OrderBook.asks_ OrderBook.with_bids OrderBook.with_asks]. rewrite HA, HB.
      rewrite <- !app_assoc. auto.
  - destruct (side_wf_add _ _ _ Ha Ho')
      as (Hwf & Hkeys & A & B & HA & HB).
    exists (OrderBook.with_asks
              (OrderBook.mk (OrderBook.symbol_ b) (OrderBook.bids_ b)
                 (OrderBook.asks_ b) (u64 (OrderBook.sequence_counter_ b + 1)))
              (fst (OrderBook.add_to_side (OrderBook.asks_ b) o'))).
    split; [reflexivity|].
    split.
    + unfold book_inv.
      cbn [OrderBook.bids_ OrderBook.asks_ OrderBook.with_bids OrderBook.with_asks].
      split; [exact Hb|split; [exact Hwf|split]].
      * intros kb ka Hkb Hka.
        cbn [OrderBook.bids_ OrderBook.asks_ OrderBook.with_bids OrderBook.with_asks] in *.
        destruct (Hkeys ka Hka) as [->|Hold]; auto.
      * unfold ids_unique, book_ids, OrderBook.book_orders in *.
        cbn [OrderBook.bids_ OrderBook.asks_ OrderBook.with_bids OrderBook.with_asks].
        rewrite HB. rewrite HA in Hn, Hfresh.
        rewrite app_assoc in *.
        apply NoDup_map_insert_middle; assumption.
    + exists (OrderBook.side_orders (OrderBook.bids_ b) ++ A), B.
      unfold OrderBook.book_orders.
      cbn [OrderBook.bids_ OrderBook.asks_ OrderBook.with_bids OrderBook.with_asks]. rewrite HA, HB.
      rewrite <- !app_assoc. auto.
Qed.

End EventInvariant.

Section ProcessInvariant.

Import MatchingEngine.

Lemma fresh_loop_inv e o :
  book_inv (order_book_ e) -> fresh_order (order_book_ e) o -> loop_inv e o.
Proof.
  intros Hinv (Hst & Hf & Hq & Hfresh). split; [assumption|].
  unfold incoming_ok. split; [lia|]. split; [assumption|].
  left. unfold is_active. rewrite Hst. split; [reflexivity|lia].
Qed.

Lemma incoming_resting_ok b o :
  incoming_ok b o -> is_active o = true -> type o = LIMIT ->
  resting_ok (side o) (price o) o.
Proof.
  intros Hin Hact Hty.
  pose proof (incoming_active_bounds _ _ Hin Hact).
  unfold resting_ok. auto.
Qed.

Lemma add_order_mismatch b o :
  String.eqb (symbol o) (OrderBook.symbol_ b) = false ->
  OrderBook.add_order b o = (b, o, false).
Proof. intros H. unfold OrderBook.add_order. now rewrite H. Qed.

Lemma match_limit_order_inv e o :
  loop_inv e o -> type o = LIMIT ->
  book_inv (order_book_ (fst (match_limit_order e o))).
Proof.
  intros Hinv Hty. unfold match_limit_order.
  pose proof (limit_loop_result e o Hinv) as (Hinv' & Hfr & Hexit).
  destruct (limit_loop (loop_bound e) e o) as [e1 o1]. simpl in *.
  destruct Hinv' as [Hb1 Hin1].
  destruct (is_active o1) eqn:Hact; simpl; [|assumption].
  destruct (remaining_quantity o1 >? 0); simpl; [|assumption].
  simpl in Hexit.
  assert (Hty1 : type o1 = LIMIT) by (rewrite <- Hty; apply Hfr).
  destruct (String.eqb (symbol o1) (OrderBook.symbol_ (order_book_ e1)))
    eqn:Hsym.
  - destruct (add_order_inv (order_book_ e1) o1 Hb1 Hsym)
      as (b' & -> & Hb' & _).
    + apply (incoming_resting_ok _ _ Hin1 Hact Hty1).
    + apply Hin1.
    + apply cannot_match_no_cross; assumption.
    + exact Hb'.
  - rewrite add_order_mismatch by assumption. exact Hb1.
Qed.

Lemma match_market_order_book e o :
  loop_inv e o ->
  order_book_ (fst (match_market_order e o))
  = order_book_ (fst (limit_loop (loop_bound e) e o)).
Proof.
  intros Hinv. unfold match_market_order.
  rewrite market_loop_limit_loop by assumption.
  destruct (limit_loop (loop_bound e) e o) as [e1 o1]. simpl.
  destruct (remaining_quantity o1 >? 0); reflexivity.
Qed.

Lemma match_market_order_inv e o :
  loop_inv e o -> book_inv (order_book_ (fst (match_market_order e o))).
Proof.
  intros Hinv. rewrite match_market_order_book by assumption.
  apply (limit_loop_result e o Hinv).
Qed.

Lemma process_new_order_book e o :
  order_book_ (fst (process_new_order e o)) =
  match type o with
  | MARKET =>
      order_book_
        (fst (match_market_order
                (with_stats e
                   (mkStatistics (u64 (orders_processed (stats_ e) + 1))
                      (trades_executed (stats_ e))
                      (orders_cancelled (stats_ e)))) o))
  | LIMIT =>
      order_book_
        (fst (match_limit_order
                (with_stats e
                   (mkStatistics (u64 (orders_processed (stats_ e) + 1))
                      (trades_executed (stats_ e))
                      (orders_cancelled (stats_ e)))) o))
  end.
Proof.
  before_update. unfold match_new_order.
  destruct (type o); reflexivity.
Qed.

Lemma process_new_order_inv e o :
  book_inv (order_book_ e) -> fresh_order (order_book_ e) o ->
  book_inv (order_book_ (fst (process_new_order e o))).
Proof.
  intros Hinv Hfresh. rewrite process_new_order_book.
  set (e0 := with_stats e _).
  assert (Hl : loop_inv e0 o) by (apply fresh_loop_inv; assumption).
  destruct (type o) eqn:Hty.
  - apply match_limit_order_inv; assumption.
  - apply match_market_order_inv; assumption.
Qed.

Lemma process_cancel_order_book e i :
  order_book_ (process_cancel_order e i)
  = fst (OrderBook.cancel_order (order_book_ e) i).
Proof.
  unfold process_cancel_order.
  destruct (OrderBook.cancel_order (order_book_ e) i) as [b [w|]];
    reflexivity.
Qed.

Lemma cancel_order_inv b i :
  book_inv b -> book_inv (fst (OrderBook.cancel_order b i)).
Proof.
  intros Hinv.
  destruct (OrderBook.cancel_order b i) as [b' [w|]] eqn:E; simpl.
  - apply (cancel_order_some _ _ _ _ Hinv E).
  - unfold OrderBook.cancel_order in E.
    destruct (OrderBook.cancel_in_side (OrderBook.bids_ b) i) as [[? ?]|];
      [discriminate|].
    destruct (OrderBook.cancel_in_side (OrderBook.asks_ b) i) as [[? ?]|];
      [discriminate|].
    now injection E as <-.
Qed.

Lemma process_cancel_order_inv e i :
  book_inv (order_book_ e) ->
  book_inv (order_book_ (process_cancel_order e i)).
Proof.
  intros Hinv. rewrite process_cancel_order_book.
  now apply cancel_order_inv.
Qed.

(** Every event the engine is meant to receive is processed, and leaves
    the book well formed. *)
Lemma process_event_inv e ev :
  book_inv (order_book_ e) -> event_ok e ev ->
  exists e', process_event e ev = Some e' /\ book_inv (order_book_ e').
Proof.
  intros Hinv Hok. unfold process_event, event_ok in *.
  destruct (OrderEvent.type ev).
  - destruct Hok as (o & -> & Hfresh).
    eexists. split; [reflexivity|]. now apply process_new_order_inv.
  - eexists. split; [reflexivity|]. now apply process_cancel_order_inv.
  - destruct Hok as (o & -> & Hfresh).
    eexists. split; [reflexivity|]. unfold process_replace_order.
    apply process_new_order_inv.
    + now apply process_cancel_order_inv.
    + now rewrite process_cancel_order_book.
  - eexists. split; [reflexivity|]. assumption.
Qed.

Lemma uncrossed_keys_uncrossed b : uncrossed_keys b -> uncrossed b.
Proof.
  unfold uncrossed_keys, uncrossed, OrderBook.best_bid, OrderBook.best_ask.
  intros Hu bid ask Hb Ha.
  destruct (OrderBook.last_error (OrderBook.bids_ b)) as [[kb lb]|] eqn:Eb;
    [|discriminate].
  destruct (hd_error (OrderBook.asks_ b)) as [[ka la]|] eqn:Ea;
    [|discriminate].
  simpl in *. injection Hb as <-. injection Ha as <-.
  apply Hu.
  - destruct (last_error_some _ _ Eb) as [pre ->].
    rewrite keys_app. simpl. apply in_app_iff. simpl. auto.
  - destruct (OrderBook.asks_ b) as [|[k l] m]; [discriminate|].
    simpl in *. injection Ea as -> _. auto.
Qed.

End ProcessInvariant.

(** * The claims *)

(** Concrete books are checked against the invariants by evaluation. *)
Ltac check_no_dup :=
  repeat (apply NoDup_cons; [simpl; intuition discriminate|]); apply NoDup_nil.

Ltac check_sorted :=
  repeat (apply SSorted_cons;
          [|repeat (apply Forall_cons; [reflexivity|]); apply Forall_nil]);
  apply SSorted_nil.

Ltac check_resting :=
  unfold resting_ok; simpl; repeat split; try reflexivity; try lia.

Ltac check_level :=
  unfold level_wf, level_ok; simpl;
  split; [reflexivity|];
  split; [split; [discriminate|reflexivity]|];
  repeat (apply Forall_cons; [check_resting|]); apply Forall_nil.

Ltac check_side :=
  unfold side_wf; simpl;
  split; [check_sorted|];
  repeat (apply Forall_cons; [check_level|]); apply Forall_nil.

Ltac check_book_inv :=
  unfold book_inv; simpl;
  split; [check_side|];
  split; [check_side|];
  split; [unfold uncrossed_keys; simpl; intros ? ?; intuition lia|];
  unfold ids_unique, book_ids, OrderBook.book_orders; simpl; check_no_dup.

Ltac check_fresh :=
  unfold fresh_order, book_ids, OrderBook.book_orders; simpl;
  split; [reflexivity|];
  split; [reflexivity|];
  split; [lia|];
  intuition discriminate.

Section Claim1.

Import MatchingEngine.

(** Read off the code of [try_match]: whenever it reports a match, the
    price is the price of the front order of the best opposing level and
    the quantity is the smaller of the two remaining quantities; the
    trade handed to the callback carries both. *)
Lemma try_match_matched e incoming e' incoming' res :
  try_match e incoming = (e', incoming', res) ->
  MatchResult.matched res = true ->
  exists k lvl resting,
    best_opposing_level (side incoming) (order_book_ e) = Some (k, lvl) /\
    PriceLevel.front_order lvl = Some resting /\
    MatchResult.price res = price resting /\
    MatchResult.quantity res =
      Z.min (remaining_quantity incoming) (remaining_quantity resting) /\
    filled_quantity incoming' =
      filled_quantity incoming + MatchResult.quantity res /\
    MatchResult.resting_order res =
      Some (fill resting (MatchResult.quantity res)) /\
    exists t,
      trades e' = trades e ++ [t] /\
      Trade.price t = price resting /\
      Trade.quantity t =
        Z.min (remaining_quantity incoming) (remaining_quantity resting) /\
      resting_id (side incoming) t = id resting.
Proof.
  unfold try_match, best_opposing_level.
  destruct (side incoming).
  - destruct (OrderBook.get_best_ask_level (order_book_ e)) as [[k lvl]|] eqn:Hbest;
      [|intros [= <- <- <-]; discriminate].
    destruct (PriceLevel.empty lvl); [intros [= <- <- <-]; discriminate|].
    destruct (OrderType_eqb (type incoming) LIMIT
              && (price incoming <? PriceLevel.price lvl));
      [intros [= <- <- <-]; discriminate|].
    destruct (PriceLevel.front_order lvl) as [resting|] eqn:Hfront;
      [|intros [= <- <- <-]; discriminate].
    destruct (negb (is_active resting));
      [intros [= <- <- <-]; discriminate|].
    simpl. intros [= <- <- <-] _.
    exists k, lvl, resting. simpl.
    repeat split; try reflexivity; try assumption.
    eexists. simpl. repeat split; reflexivity.
  - destruct (OrderBook.get_best_bid_level (order_book_ e)) as [[k lvl]|] eqn:Hbest;
      [|intros [= <- <- <-]; discriminate].
    destruct (PriceLevel.empty lvl); [intros [= <- <- <-]; discriminate|].
    destruct (OrderType_eqb (type incoming) LIMIT
              && (price incoming >? PriceLevel.price lvl));
      [intros [= <- <- <-]; discriminate|].
    destruct (PriceLevel.front_order lvl) as [resting|] eqn:Hfront;
      [|intros [= <- <- <-]; discriminate].
    destruct (negb (is_active resting));
      [intros [= <- <- <-]; discriminate|].
    simpl. intros [= <- <- <-] _.
    exists k, lvl, resting. simpl.
    repeat split; try reflexivity; try assumption.
    eexists. simpl. repeat split; reflexivity.
Qed.

(** On a well-formed book a buy limit at or above the best ask does
    trade, at the best ask. *)
Lemma marketable_buy_trades_at_best_ask e o Q :
  book_inv (order_book_ e) ->
  side o = BUY -> type o = LIMIT ->
  OrderBook.best_ask (order_book_ e) = Some Q -> Q <= price o ->
  MatchResult.matched (snd (try_match e o)) = true /\
  MatchResult.price (snd (try_match e o)) = Q /\
  exists t,
    trades (fst (fst (try_match e o))) = trades e ++ [t] /\
    Trade.price t = Q.
Proof.
  intros Hinv Hside Hty Hbest HQ.
  assert (Hcm : can_match e o = true).
  { unfold can_match. rewrite Hside, Hbest, Hty. simpl.
    apply Z.geb_le. assumption. }
  destruct (can_match_decompose _ _ Hinv Hcm)
    as (pre & k & r & os & post & Hopp & Hb & Hs & Hk & Hr & Hos & Hlim).
  pose proof Hr as (Hp & Hsd & _ & Hact & _).
  rewrite (try_match_decomposed e o pre k _ r os post Hopp Hb Hs Hk Hp Hsd
             Hact Hlim).
  rewrite (Hb Hside) in Hopp. rewrite Hside in Hopp. simpl in Hopp.
  unfold OrderBook.best_ask in Hbest. rewrite Hopp in Hbest.
  simpl in Hbest. injection Hbest as <-.
  simpl. split; [reflexivity|]. split; [assumption|].
  eexists. split; [reflexivity|].
  unfold trade_of. rewrite Hside. simpl. assumption.
Qed.

(** C1: for every match executed by [try_match], the trade price is the
    resting order's price and the matched quantity is the minimum of the
    two remaining quantities; a marketable buy limit at P against a best
    ask Q <= P trades at Q. *)
Theorem C1_match_price_and_quantity e incoming e' incoming' res :
  try_match e incoming = (e', incoming', res) ->
  (MatchResult.matched res = true ->
   exists k lvl resting t,
     best_opposing_level (side incoming) (order_book_ e) = Some (k, lvl) /\
     PriceLevel.front_order lvl = Some resting /\
     MatchResult.price res = price resting /\
     MatchResult.quantity res =
       Z.min (remaining_quantity incoming) (remaining_quantity resting) /\
     trades e' = trades e ++ [t] /\
     Trade.price t = price resting /\
     Trade.quantity t =
       Z.min (remaining_quantity incoming) (remaining_quantity resting) /\
     resting_id (side incoming) t = id resting) /\
  (forall Q,
     book_inv (order_book_ e) ->
     side incoming = BUY -> type incoming = LIMIT ->
     OrderBook.best_ask (order_book_ e) = Some Q -> Q <= price incoming ->
     MatchResult.matched res = true /\
     MatchResult.price res = Q /\
     exists t, trades e' = trades e ++ [t] /\ Trade.price t = Q).
Proof.
  intros Hrun. split.
  - intros Hm.
    destruct (try_match_matched _ _ _ _ _ Hrun Hm)
      as (k & lvl & resting & H1 & H2 & H3 & H4 & _ & _ & t & H5 & H6 & H7
          & H8).
    exists k, lvl, resting, t. auto 10.
  - intros Q Hinv Hside Hty Hbest HQ.
    pose proof (marketable_buy_trades_at_best_ask e incoming Q Hinv Hside
                  Hty Hbest HQ) as H.
    rewrite Hrun in H. exact H.
Qed.

Lemma C1_witness :
  exists e' incoming' res,
    try_match engine_one_ask buy_15200 = (e', incoming', res) /\
    MatchResult.matched res = true /\
    MatchResult.price res = 15100 /\
    MatchResult.quantity res = 60.
Proof.
  eexists _, _, _.
  assert (Hrun : try_match engine_one_ask buy_15200 =
                 (fst (fst (try_match engine_one_ask buy_15200)),
                  snd (fst (try_match engine_one_ask buy_15200)),
                  snd (try_match engine_one_ask buy_15200)))
    by reflexivity.
  split; [exact Hrun|].
  destruct (C1_match_price_and_quantity _ _ _ _ _ Hrun) as [_ H2].
  assert (Hinv : book_inv (order_book_ engine_one_ask)) by check_book_inv.
  destruct (H2 15100 Hinv eq_refl eq_refl eq_refl) as (Hm & Hp & _);
    [simpl; lia|].
  split; [exact Hm|]. split; [exact Hp|]. reflexivity.
Defined.

End Claim1.

Section Reachable.

Import MatchingEngine.

Lemma make_inv sym : book_inv (order_book_ (make sym)).
Proof.
  unfold book_inv, side_wf, uncrossed_keys, ids_unique. simpl.
  repeat split; try constructor; intros; contradiction.
Qed.

Lemma process_events_inv evs :
  forall e,
    book_inv (order_book_ e) -> events_ok e evs ->
    exists e', process_events e evs = Some e' /\ book_inv (order_book_ e').
Proof.
  induction evs as [|ev evs IH]; simpl; intros e Hinv Hok.
  - eauto.
  - destruct Hok as [Hev Hrest].
    destruct (process_event_inv e ev Hinv Hev) as (e1 & He1 & Hinv1).
    rewrite He1. apply IH; auto.
Qed.

(** Every state the engine reaches from its construction by events it
    is meant to receive is well formed. *)
Lemma reachable_inv e : reachable e -> book_inv (order_book_ e).
Proof.
  intros (sym & callback & evs & Hok & Hrun).
  destruct (process_events_inv evs (configured sym callback) (make_inv sym)
              Hok) as (e' & He' & Hinv).
  congruence.
Qed.

End Reachable.

Section Claim2.

Import MatchingEngine.

(** C2: in every state [e] the engine reaches from its construction,
    processing one event (new order, cancel or replace) ends in a
    state whose best bid, when there is one, is strictly below its best
    ask, when there is one. *)
Theorem C2_book_never_crossed e ev :
  reachable e -> event_ok e ev ->
  exists e',
    process_event e ev = Some e' /\
    forall bid ask,
      OrderBook.best_bid (order_book_ e') = Some bid ->
      OrderBook.best_ask (order_book_ e') = Some ask ->
      bid < ask.
Proof.
  intros Hreach Hev.
  pose proof (reachable_inv _ Hreach) as Hinv.
  destruct (process_event_inv e ev Hinv Hev) as (e' & He' & Hinv').
  exists e'. split; [assumption|].
  apply uncrossed_keys_uncrossed. apply Hinv'.
Qed.

End Claim2.

Ltac check_event :=
  unfold event_ok; simpl;
  lazymatch goal with
  | |- True => exact I
  | |- exists _, _ => eexists; split; [reflexivity|check_fresh]
  end.

Ltac check_events :=
  simpl events_ok;
  repeat lazymatch goal with
    | |- True => exact I
    | |- _ /\ _ => split
    | |- event_ok _ _ => check_event
    | |- forall _, _ = Some _ -> _ =>
        let H := fresh "H" in
        intros ? H; vm_compute in H; injection H as <-; simpl events_ok
    end.

Section Claim2Witness.

Import MatchingEngine.

Lemma C2_witness :
  exists e',
    process_event engine_two_asks
      (new_order_event (new_order 3 AAPL BUY LIMIT 14990 10)) = Some e' /\
    forall bid ask,
      OrderBook.best_bid (order_book_ e') = Some bid ->
      OrderBook.best_ask (order_book_ e') = Some ask ->
      bid < ask.
Proof.
  apply C2_book_never_crossed.
  - exists AAPL, false, [new_order_event sell1; new_order_event sell2].
    split; [check_events|reflexivity].
  - check_event.
Defined.

End Claim2Witness.

(** ** Levels *)

Section LevelsOk.

Lemma level_ok_add_new o :
  level_ok (PriceLevel.add_order (PriceLevel.make (price o)) o).
Proof.
  unfold level_ok, PriceLevel.add_order. simpl. split; [discriminate|lia].
Qed.

Lemma level_ok_add l o :
  level_ok l -> level_ok (PriceLevel.add_order l o).
Proof.
  unfold level_ok, PriceLevel.add_order. simpl. intros [Hne Htot]. split.
  - destruct (PriceLevel.orders_ l); discriminate.
  - rewrite sum_remaining_app, Htot. simpl. lia.
Qed.

Lemma levels_ok_add_to_side m o :
  levels_ok m -> levels_ok (fst (OrderBook.add_to_side m o)).
Proof.
  unfold OrderBook.add_to_side, levels_ok. simpl.
  induction m as [|[k l] m IH]; simpl; intros Hall.
  - rewrite Z.eqb_refl. constructor; [|constructor]. simpl.
    apply level_ok_add_new.
  - inversion Hall as [|? ? Hl Hrest]; subst. simpl in Hl.
    specialize (IH Hrest).
    destruct (Z.eqb_spec k (price o)) as [->|Hne].
    + simpl. rewrite Z.eqb_refl. constructor; [|assumption].
      simpl. now apply level_ok_add.
    + destruct (OrderBook.find m (price o)) as [l'|] eqn:Hf.
      * simpl. destruct (Z.eqb_spec k (price o)); [contradiction|].
        constructor; assumption.
      * simpl. destruct (Z.ltb_spec (price o) k).
        -- simpl. rewrite Z.eqb_refl. constructor; [|assumption].
           simpl. apply level_ok_add_new.
        -- destruct (Z.eqb_spec (price o) k); [congruence|].
           simpl. destruct (Z.eqb_spec k (price o)); [contradiction|].
           constructor; assumption.
Qed.

Lemma level_ok_remove l o :
  level_ok l ->
  PriceLevel.empty (PriceLevel.remove_order l o) = false ->
  level_ok (PriceLevel.remove_order l o).
Proof.
  unfold level_ok, PriceLevel.remove_order, PriceLevel.empty.
  intros [Hne Htot].
  destruct (PriceLevel.erase_first (id o) (PriceLevel.orders_ l))
    as [[found rest]|] eqn:E; simpl.
  - destruct (erase_first_some _ _ _ _ E) as (l1 & l2 & Hl & -> & _).
    intros Hemp. split.
    + destruct (l1 ++ l2); [discriminate|discriminate].
    + rewrite Htot, Hl, !sum_remaining_app. simpl. lia.
  - auto.
Qed.

Lemma levels_ok_remove_from_side m o :
  levels_ok m -> levels_ok (fst (OrderBook.remove_from_side m o)).
Proof.
  unfold OrderBook.remove_from_side, levels_ok. intros Hall.
  destruct (OrderBook.find m (price o)) as [l|] eqn:Hf; [|assumption].
  destruct (find_some_decompose _ _ _ Hf) as (pre & post & -> & Hk).
  apply Forall_drop_middle in Hall. destruct Hall as [Hothers Hl].
  apply Forall_app in Hothers. destruct Hothers as [Hpre Hpost].
  destruct (PriceLevel.empty (PriceLevel.remove_order l o)) eqn:He; simpl.
  - rewrite erase_decomposed by assumption. apply Forall_app. auto.
  - rewrite modify_decomposed by assumption.
    apply Forall_app. split; [assumption|].
    constructor; [|assumption]. simpl. now apply level_ok_remove.
Qed.

Lemma levels_ok_cancel_in_side m i m' w :
  levels_ok m -> OrderBook.cancel_in_side m i = Some (m', w) ->
  levels_ok m'.
Proof.
  unfold levels_ok. intros Hall Hc.
  destruct (cancel_in_side_some _ _ _ _ Hc)
    as (pre & k & l & post & l1 & o & l2 & -> & Hl & _ & _ & _ & _ & ->).
  apply Forall_drop_middle in Hall. destruct Hall as [Hothers [Hne Htot]].
  apply Forall_app in Hothers. destruct Hothers as [Hpre Hpost].
  simpl in Hne, Htot.
  assert (Hsum : PriceLevel.total_quantity_ l - remaining_quantity o
                 = sum_remaining (l1 ++ l2))
    by (rewrite Htot, Hl, !sum_remaining_app; simpl; lia).
  rewrite !Forall_app. split; [assumption|]. split; [|assumption].
  revert Hsum. generalize (l1 ++ l2). intros [|x xs] Hsum; constructor.
  - unfold level_ok. simpl. split; [discriminate|assumption].
  - constructor.
Qed.

Lemma add_order_book b o :
  String.eqb (symbol o) (OrderBook.symbol_ b) = true ->
  fst (fst (OrderBook.add_order b o)) =
  let n := u64 (OrderBook.sequence_counter_ b + 1) in
  let o' := with_sequence_number o n in
  match side o with
  | BUY =>
      OrderBook.mk (OrderBook.symbol_ b)
        (fst (OrderBook.add_to_side (OrderBook.bids_ b) o'))
        (OrderBook.asks_ b) n
  | SELL =>
      OrderBook.mk (OrderBook.symbol_ b) (OrderBook.bids_ b)
        (fst (OrderBook.add_to_side (OrderBook.asks_ b) o')) n
  end.
Proof.
  intros H. unfold OrderBook.add_order. rewrite H. simpl.
  destruct (side o); reflexivity.
Qed.

Lemma book_levels_ok_add_order b o :
  book_levels_ok b -> book_levels_ok (fst (fst (OrderBook.add_order b o))).
Proof.
  intros [Hb Ha].
  destruct (String.eqb (symbol o) (OrderBook.symbol_ b)) eqn:Hsym.
  - rewrite add_order_book by assumption. cbv zeta.
    destruct (side o); split;
      cbn [OrderBook.bids_ OrderBook.asks_]; try assumption;
      now apply levels_ok_add_to_side.
  - unfold OrderBook.add_order. rewrite Hsym. split; assumption.
Qed.

Lemma book_levels_ok_remove_order b o :
  book_levels_ok b -> book_levels_ok (fst (OrderBook.remove_order b o)).
Proof.
  intros [Hb Ha]. unfold OrderBook.remove_order.
  destruct (side o).
  - pose proof (levels_ok_remove_from_side _ o Hb) as H.
    destruct (OrderBook.remove_from_side (OrderBook.bids_ b) o).
    split; assumption.
  - pose proof (levels_ok_remove_from_side _ o Ha) as H.
    destruct (OrderBook.remove_from_side (OrderBook.asks_ b) o).
    split; assumption.
Qed.

Lemma book_levels_ok_cancel_order b i :
  book_levels_ok b -> book_levels_ok (fst (OrderBook.cancel_order b i)).
Proof.
  intros [Hb Ha]. unfold OrderBook.cancel_order.
  destruct (OrderBook.cancel_in_side (OrderBook.bids_ b) i)
    as [[m w]|] eqn:E1.
  - split; simpl; [|assumption].
    exact (levels_ok_cancel_in_side _ _ _ _ Hb E1).
  - destruct (OrderBook.cancel_in_side (OrderBook.asks_ b) i)
      as [[m w]|] eqn:E2.
    + split; simpl; [assumption|].
      exact (levels_ok_cancel_in_side _ _ _ _ Ha E2).
    + split; assumption.
Qed.

Lemma book_inv_levels_ok b : book_inv b -> book_levels_ok b.
Proof.
  intros ([_ Hb] & [_ Ha] & _). unfold book_levels_ok, levels_ok.
  split; eapply Forall_impl; try eassumption; intros [k l] H; apply H.
Qed.

End LevelsOk.

Ltac check_levels_ok :=
  unfold book_levels_ok, levels_ok, level_ok; simpl;
  split;
  repeat (apply Forall_cons; [split; [discriminate|reflexivity]|]);
  apply Forall_nil.

Section Claim6.

Import MatchingEngine.

Lemma cancel_order_result_none b i :
  snd (OrderBook.cancel_order b i) = None <-> ~ In i (book_ids b).
Proof.
  split.
  - unfold OrderBook.cancel_order, book_ids, OrderBook.book_orders.
    rewrite map_app, in_app_iff.
    destruct (OrderBook.cancel_in_side (OrderBook.bids_ b) i)
      as [[m w]|] eqn:E1; [discriminate|].
    destruct (OrderBook.cancel_in_side (OrderBook.asks_ b) i)
      as [[m w]|] eqn:E2; [discriminate|].
    apply cancel_in_side_none in E1, E2. tauto.
  - intros H. now rewrite cancel_order_none.
Qed.

(** [cancel_order] on a well-formed book, written out: the first order
    with the id is taken out of its level, and the level goes when
    nothing is left in it. *)
Lemma cancel_order_char b i w :
  book_inv b ->
  snd (OrderBook.cancel_order b i) = Some w ->
  exists sd pre k l post l1 o l2,
    own_side sd b = pre ++ (k, l) :: post /\
    PriceLevel.orders_ l = l1 ++ o :: l2 /\
    id o = i /\ is_active o = true /\
    w = mkWrite o CANCELLED /\
    fst (OrderBook.cancel_order b i) =
      set_own_side sd b (pre ++ level_without k l o (l1 ++ l2) ++ post).
Proof.
  intros (Hb & Ha & _) Hc. unfold OrderBook.cancel_order in *.
  destruct (OrderBook.cancel_in_side (OrderBook.bids_ b) i)
    as [[m w']|] eqn:E1.
  - simpl in Hc. injection Hc as ->.
    destruct (cancel_in_side_some _ _ _ _ E1)
      as (pre & k & l & post & l1 & o & l2 & Hm & Hl & Hid & _ & _ & Hw & ->).
    exists BUY, pre, k, l, post, l1, o, l2. simpl.
    repeat split; try assumption.
    destruct Hb as [_ Hall]. rewrite Hm in Hall.
    apply Forall_drop_middle in Hall. destruct Hall as [_ (_ & _ & Hro)].
    simpl in Hro. rewrite Hl in Hro.
    apply Forall_drop_middle in Hro. apply Hro.
  - destruct (OrderBook.cancel_in_side (OrderBook.asks_ b) i)
      as [[m w']|] eqn:E2; [|discriminate].
    simpl in Hc. injection Hc as ->.
    destruct (cancel_in_side_some _ _ _ _ E2)
      as (pre & k & l & post & l1 & o & l2 & Hm & Hl & Hid & _ & _ & Hw & ->).
    exists SELL, pre, k, l, post, l1, o, l2. simpl.
    repeat split; try assumption.
    destruct Ha as [_ Hall]. rewrite Hm in Hall.
    apply Forall_drop_middle in Hall. destruct Hall as [_ (_ & _ & Hro)].
    simpl in Hro. rewrite Hl in Hro.
    apply Forall_drop_middle in Hro. apply Hro.
Qed.

Lemma with_book_same e : with_book e (order_book_ e) = e.
Proof. now destruct e. Qed.

Lemma book_orders_active b o :
  book_inv b -> In o (OrderBook.book_orders b) -> is_active o = true.
Proof.
  intros ([_ Hb] & [_ Ha] & _) Hin.
  unfold OrderBook.book_orders, OrderBook.side_orders in Hin.
  rewrite in_app_iff, !in_flat_map in Hin.
  rewrite Forall_forall in Hb, Ha.
  destruct Hin as [([k l] & Hkl & Ho)|([k l] & Hkl & Ho)].
  - destruct (Hb _ Hkl) as (_ & _ & Hro).
    rewrite Forall_forall in Hro. apply (Hro _ Ho).
  - destruct (Ha _ Hkl) as (_ & _ & Hro).
    rewrite Forall_forall in Hro. apply (Hro _ Ho).
Qed.

(** C6: in a state the engine reaches, [cancel_order] of the book
    returns true exactly when an active order with the id rests in the
    book.  ([cancel_order] itself does not look at the status: on any
    book it returns true exactly when an order with the id rests in it;
    the orders the engine lets rest are all active.)  In that case the
    order is written CANCELLED, it is taken out of its level, the level
    is erased when nothing is left in it, the other side is untouched,
    and [process_cancel_order] counts one more cancelled order.
    Otherwise the engine (book, statistics, traces) is as before. *)
Theorem C6_cancel e order_id :
  reachable e ->
  let b := order_book_ e in
  let e' := process_cancel_order e order_id in
  ((exists w, snd (OrderBook.cancel_order b order_id) = Some w) <->
   (exists o, In o (OrderBook.book_orders b) /\ id o = order_id /\
              is_active o = true)) /\
  (forall b0,
     (exists w, snd (OrderBook.cancel_order b0 order_id) = Some w) <->
     In order_id (book_ids b0)) /\
  (forall w,
     snd (OrderBook.cancel_order b order_id) = Some w ->
     exists sd pre k l post l1 o l2,
       own_side sd b = pre ++ (k, l) :: post /\
       PriceLevel.orders_ l = l1 ++ o :: l2 /\
       id o = order_id /\ is_active o = true /\
       w = mkWrite o CANCELLED /\
       status (sw_result w) = CANCELLED /\
       order_book_ e' =
         set_own_side sd b (pre ++ level_without k l o (l1 ++ l2) ++ post) /\
       ~ In order_id (book_ids (order_book_ e')) /\
       book_levels_ok (order_book_ e') /\
       status_writes e' = status_writes e ++ [w] /\
       orders_cancelled (stats_ e') = u64 (orders_cancelled (stats_ e) + 1) /\
       orders_processed (stats_ e') = orders_processed (stats_ e) /\
       trades_executed (stats_ e') = trades_executed (stats_ e)) /\
  (snd (OrderBook.cancel_order b order_id) = None -> e' = e).
Proof.
  intros Hreach b e'.
  pose proof (reachable_inv _ Hreach) as Hinv. fold b in Hinv.
  split; [|split; [|split]].
  2:{ intros b0. pose proof (cancel_order_result_none b0 order_id) as Hn.
      destruct (snd (OrderBook.cancel_order b0 order_id)) as [w|].
      - split; [|eauto]. intros _.
        destruct (in_dec Z.eq_dec order_id (book_ids b0)) as [Hin|Hnin];
          [assumption|].
        apply Hn in Hnin. discriminate.
      - split; [intros [w Hw]; discriminate|].
        intros Hin. exfalso. now apply (proj1 Hn). }
  - split.
    + intros [w Hw].
      destruct (OrderBook.cancel_order b order_id) as [b' r] eqn:E.
      simpl in Hw. subst r.
      destruct (cancel_order_some _ _ _ _ Hinv E)
        as (_ & _ & _ & A & B & o & HA & _ & _ & Hid & Hact & _).
      exists o. rewrite HA. rewrite in_app_iff. simpl. auto.
    + intros (o & Hin & Hid & _).
      destruct (snd (OrderBook.cancel_order b order_id)) as [w|] eqn:E;
        [eauto|].
      apply cancel_order_result_none in E. exfalso. apply E.
      unfold book_ids. rewrite <- Hid. now apply in_map.
  - intros w Hw.
    destruct (cancel_order_char _ _ _ Hinv Hw)
      as (sd & pre & k & l & post & l1 & o & l2 & Hown & Hl & Hid & Hact
          & -> & Hbook).
    exists sd, pre, k, l, post, l1, o, l2.
    assert (Hb' : order_book_ e' = fst (OrderBook.cancel_order b order_id))
      by apply process_cancel_order_book.
    destruct (OrderBook.cancel_order b order_id) as [b' r] eqn:E.
    simpl in Hw, Hbook, Hb'. subst r.
    destruct (cancel_order_some _ _ _ _ Hinv E)
      as (Hinv' & _ & _ & A & B & o' & HA & HB & Hw' & _ & _ & HnA).
    injection Hw' as <-.
    assert (He' : e' = log_write
              (with_stats (with_book e b')
                 (mkStatistics (orders_processed (stats_ e))
                    (trades_executed (stats_ e))
                    (u64 (orders_cancelled (stats_ e) + 1))))
              (mkWrite o CANCELLED)).
    { subst e'. unfold process_cancel_order. fold b. now rewrite E. }
    repeat match goal with |- _ /\ _ => split end;
      try assumption; try reflexivity; try (rewrite He'; reflexivity).
    + congruence.
    + rewrite Hb'. unfold book_ids. rewrite HB.
      destruct Hinv as (_ & _ & _ & Hnd).
      unfold ids_unique, book_ids in Hnd. rewrite HA in Hnd.
      rewrite map_app in Hnd. simpl in Hnd.
      apply NoDup_remove_2 in Hnd. rewrite map_app, <- Hid. exact Hnd.
    + rewrite Hb'. now apply book_inv_levels_ok.
  - intros Hnone. subst e'. unfold process_cancel_order.
    apply cancel_order_result_none in Hnone.
    rewrite cancel_order_none by assumption.
    apply with_book_same.
Qed.

Lemma C6_witness :
  snd (OrderBook.cancel_order (order_book_ engine_two_asks) 2)
    = Some (mkWrite (with_sequence_number sell2 2) CANCELLED) /\
  orders_cancelled (stats_ (process_cancel_order engine_two_asks 2)) = 1 /\
  process_cancel_order engine_two_asks 999 = engine_two_asks.
Proof.
  assert (Hreach : reachable engine_two_asks).
  { exists AAPL, false, [new_order_event sell1; new_order_event sell2].
    split; [check_events|reflexivity]. }
  destruct (C6_cancel engine_two_asks 999 Hreach) as (_ & _ & _ & Hnone).
  split; [reflexivity|]. split; [reflexivity|].
  apply Hnone. reflexivity.
Defined.

End Claim6.

Section Claim4.

Import MatchingEngine.

Lemma fill_write_along_dag o q :
  is_active o = true -> write_along dag_edge (fill_write o q) = true.
Proof.
  unfold is_active, write_along, fill_write, sw_old, sw_new. simpl.
  destruct (status o); try discriminate; intros _;
    destruct (is_filled _); reflexivity.
Qed.

Lemma write_along_allowed w :
  write_along dag_edge w = true -> write_allowed w = true.
Proof. unfold write_allowed. now intros ->. Qed.

Lemma reject_allowed o :
  is_active o = true -> type o = MARKET ->
  write_allowed (mkWrite o REJECTED) = true.
Proof.
  unfold is_active, write_allowed, write_along, sw_old, sw_new. simpl.
  intros Hact ->. destruct (status o); try discriminate; reflexivity.
Qed.

Lemma cancel_allowed o :
  is_active o = true -> write_allowed (mkWrite o CANCELLED) = true.
Proof.
  unfold is_active, write_allowed, write_along, sw_old, sw_new. simpl.
  destruct (status o); try discriminate; reflexivity.
Qed.

Lemma engine_after_writes e o pre k r os post :
  writes_allowed e -> loop_inv e o -> is_active o = true ->
  step_facts e o pre k r os post ->
  writes_allowed
    (engine_after e o pre k (remaining_quantity r + sum_remaining os)
                  r os post).
Proof.
  unfold writes_allowed. intros Hw _ Hact (_ & _ & _ & Hr & _).
  assert (Hract : is_active r = true) by apply Hr.
  unfold engine_after. simpl. apply Forall_app. split; [assumption|].
  unfold writes_of.
  destruct (side o); repeat constructor;
    apply write_along_allowed, fill_write_along_dag; assumption.
Qed.

Lemma limit_loop_writes e o :
  loop_inv e o -> writes_allowed e ->
  writes_allowed (fst (limit_loop (loop_bound e) e o)).
Proof.
  intros Hinv Hw.
  apply (limit_loop_rule (fun e' _ => writes_allowed e')); try assumption.
  intros. eapply engine_after_writes; eassumption.
Qed.

Lemma process_new_order_writes e o :
  book_inv (order_book_ e) -> fresh_order (order_book_ e) o ->
  writes_allowed e -> writes_allowed (fst (process_new_order e o)).
Proof.
  intros Hinv Hfresh Hw. unfold writes_allowed. before_update.
  fold (writes_allowed (fst (match_new_order e o))). unfold match_new_order.
  set (e0 := with_stats e _).
  assert (Hl : loop_inv e0 o) by (apply fresh_loop_inv; assumption).
  assert (Hw0 : writes_allowed e0) by exact Hw.
  pose proof (limit_loop_writes e0 o Hl Hw0) as Hw1.
  pose proof (limit_loop_result e0 o Hl) as (Hinv1 & Hfr & _).
  destruct (type o) eqn:Hty.
  - unfold match_limit_order.
    destruct (limit_loop (loop_bound e0) e0 o) as [e1 o1]. simpl in *.
    destruct (is_active o1 && (remaining_quantity o1 >? 0)).
    + destruct (OrderBook.add_order (order_book_ e1) o1) as [[b o2] r].
      exact Hw1.
    + exact Hw1.
  - unfold match_market_order.
    rewrite market_loop_limit_loop by assumption.
    destruct (limit_loop (loop_bound e0) e0 o) as [e1 o1]. simpl in *.
    destruct (Z.gtb_spec (remaining_quantity o1) 0) as [Hpos|Hle].
    + unfold writes_allowed, log_write, log_update. simpl.
      apply Forall_app. split; [exact Hw1|].
      constructor; [|constructor].
      apply reject_allowed.
      * destruct Hinv1 as [_ (_ & _ & [[Hact _]|[_ Heq]])]; [assumption|].
        unfold remaining_quantity in Hpos. lia.
      * rewrite <- Hty. apply Hfr.
    + exact Hw1.
Qed.

Lemma process_cancel_order_writes e i :
  book_inv (order_book_ e) ->
  writes_allowed e -> writes_allowed (process_cancel_order e i).
Proof.
  intros Hinv Hw. unfold process_cancel_order.
  destruct (OrderBook.cancel_order (order_book_ e) i) as [b [w|]] eqn:E.
  - destruct (cancel_order_some _ _ _ _ Hinv E)
      as (_ & _ & _ & A & B & o & _ & _ & -> & _ & Hact & _).
    unfold writes_allowed, log_write. simpl.
    apply Forall_app. split; [exact Hw|].
    constructor; [|constructor]. now apply cancel_allowed.
  - exact Hw.
Qed.

Lemma process_event_writes e ev e' :
  book_inv (order_book_ e) -> event_ok e ev ->
  process_event e ev = Some e' ->
  writes_allowed e -> writes_allowed e'.
Proof.
  unfold process_event, event_ok. intros Hinv Hok Hrun Hw.
  destruct (OrderEvent.type ev).
  - destruct Hok as (o & Ho & Hfresh). rewrite Ho in Hrun.
    injection Hrun as <-. now apply process_new_order_writes.
  - injection Hrun as <-. now apply process_cancel_order_writes.
  - destruct Hok as (o & Ho & Hfresh). rewrite Ho in Hrun.
    injection Hrun as <-. unfold process_replace_order.
    apply process_new_order_writes.
    + now apply process_cancel_order_inv.
    + now rewrite process_cancel_order_book.
    + now apply process_cancel_order_writes.
  - now injection Hrun as <-.
Qed.

Lemma process_events_writes evs :
  forall e e',
    book_inv (order_book_ e) -> events_ok e evs ->
    process_events e evs = Some e' ->
    writes_allowed e -> writes_allowed e'.
Proof.
  induction evs as [|ev evs IH]; simpl; intros e e' Hinv Hok Hrun Hw.
  - now injection Hrun as <-.
  - destruct Hok as [Hev Hrest].
    destruct (process_event_inv e ev Hinv Hev) as (e1 & He1 & Hinv1).
    rewrite He1 in Hrun.
    apply (IH e1 e'); auto.
    exact (process_event_writes e ev e1 Hinv Hev He1 Hw).
Qed.

(** C4, as the code has it: every assignment to the status of an order
    that the engine has made in a state it reaches either leaves the
    status as it is or follows an edge of the diagram
    NEW -> {PARTIALLY_FILLED -> {FILLED, CANCELLED}, FILLED, CANCELLED,
    REJECTED}, except that a MARKET order goes from PARTIALLY_FILLED to
    REJECTED when the opposing side runs out. *)
Theorem C4_status_transitions e :
  reachable e ->
  Forall
    (fun w =>
       sw_old w = sw_new w \/
       dag_edge (sw_old w) (sw_new w) = true \/
       (type (sw_order w) = MARKET /\ sw_old w = PARTIALLY_FILLED /\
        sw_new w = REJECTED))
    (status_writes e).
Proof.
  intros (sym & callback & evs & Hok & Hrun).
  assert (Hw : writes_allowed e).
  { apply (process_events_writes evs (configured sym callback) e
             (make_inv sym) Hok Hrun).
    constructor. }
  unfold writes_allowed in Hw.
  eapply Forall_impl; [|exact Hw].
  intros w. unfold write_allowed, write_along.
  destruct (sw_old w), (sw_new w), (type (sw_order w)); simpl;
    intros H; try discriminate; auto.
Qed.

Lemma C4_witness :
  Forall
    (fun w =>
       sw_old w = sw_new w \/
       dag_edge (sw_old w) (sw_new w) = true \/
       (type (sw_order w) = MARKET /\ sw_old w = PARTIALLY_FILLED /\
        sw_new w = REJECTED))
    (status_writes engine_market_rejected).
Proof.
  apply C4_status_transitions.
  exists AAPL, false,
    [new_order_event (new_order 1 AAPL SELL LIMIT 15100 100);
     new_order_event market_buy_150].
  split; [check_events|reflexivity].
Defined.

(** C4 as stated fails: the market buy of 150 against the single ask of
    100 is written PARTIALLY_FILLED by the trade and REJECTED when the
    asks have run out. *)
Lemma C4_counterexample :
  reachable engine_market_rejected /\
  In (mkWrite (mkOrder 2 AAPL BUY MARKET 0 150 100 PARTIALLY_FILLED 0)
              REJECTED)
     (status_writes engine_market_rejected) /\
  dag_edge PARTIALLY_FILLED REJECTED = false /\
  ~ Forall (fun w => sw_old w = sw_new w \/
                     dag_edge (sw_old w) (sw_new w) = true)
           (status_writes engine_market_rejected).
Proof.
  split; [|split; [|split]].
  - exists AAPL, false,
      [new_order_event (new_order 1 AAPL SELL LIMIT 15100 100);
       new_order_event market_buy_150].
    split; [check_events|reflexivity].
  - simpl. auto.
  - reflexivity.
  - intros H. rewrite Forall_forall in H.
    specialize (H (mkWrite (mkOrder 2 AAPL BUY MARKET 0 150 100
                              PARTIALLY_FILLED 0) REJECTED)).
    destruct H as [H|H]; [simpl; auto | discriminate | discriminate].
Qed.

End Claim4.

Section Claim7.

Import MatchingEngine.

Lemma can_match_market_false e o :
  type o = MARKET -> can_match e o = false ->
  opp_side (side o) (order_book_ e) = [].
Proof.
  unfold can_match, OrderBook.best_ask, OrderBook.best_bid.
  intros -> H. simpl in H.
  destruct (side o); simpl.
  - destruct (OrderBook.asks_ (order_book_ e)); [reflexivity|discriminate].
  - destruct (OrderBook.last_error (OrderBook.bids_ (order_book_ e)))
      eqn:E; [discriminate|].
    now apply last_error_none.
Qed.

Lemma can_match_empty e o :
  opp_side (side o) (order_book_ e) = [] -> can_match e o = false.
Proof.
  unfold can_match, OrderBook.best_ask, OrderBook.best_bid.
  destruct (side o); simpl; intros ->; reflexivity.
Qed.

Lemma limit_loop_cannot_match fuel e o :
  can_match e o = false -> limit_loop fuel e o = (e, o).
Proof.
  intros H. destruct fuel; simpl; [reflexivity|].
  rewrite H. now rewrite andb_false_r.
Qed.

Lemma book_orders_limit b o :
  book_inv b -> In o (OrderBook.book_orders b) -> type o = LIMIT.
Proof.
  intros ([_ Hb] & [_ Ha] & _) Hin.
  unfold OrderBook.book_orders, OrderBook.side_orders in Hin.
  rewrite in_app_iff, !in_flat_map in Hin.
  rewrite Forall_forall in Hb, Ha.
  destruct Hin as [([k l] & Hkl & Ho)|([k l] & Hkl & Ho)].
  - destruct (Hb _ Hkl) as (_ & _ & Hro).
    rewrite Forall_forall in Hro. apply (Hro _ Ho).
  - destruct (Ha _ Hkl) as (_ & _ & Hro).
    rewrite Forall_forall in Hro. apply (Hro _ Ho).
Qed.

(** C7: a MARKET order processed in a state the engine reaches ends
    REJECTED whenever quantity remains, and then the opposing side is
    exhausted; with nothing remaining it ends FILLED.  On an empty
    opposing side no trade occurs, the book stays as it is and the
    order ends REJECTED.  The order is never inserted: its id is not in
    the book afterwards, every resting order is a LIMIT order, and the
    order's own side of the book is untouched. *)
Theorem C7_market_order e o :
  reachable e -> fresh_order (order_book_ e) o -> type o = MARKET ->
  let e' := fst (process_new_order e o) in
  let o' := snd (process_new_order e o) in
  (0 < remaining_quantity o' ->
   status o' = REJECTED /\ opp_side (side o) (order_book_ e') = []) /\
  (remaining_quantity o' <= 0 ->
   status o' = FILLED /\ remaining_quantity o' = 0) /\
  (opp_side (side o) (order_book_ e) = [] ->
   status o' = REJECTED /\ trades e' = trades e /\
   order_book_ e' = order_book_ e) /\
  ~ In (id o) (book_ids (order_book_ e')) /\
  (forall x, In x (OrderBook.book_orders (order_book_ e')) ->
             type x = LIMIT) /\
  own_side (side o) (order_book_ e') = own_side (side o) (order_book_ e).
Proof.
  intros Hreach Hfresh Hty e' o'.
  pose proof (reachable_inv _ Hreach) as Hinv.
  subst e' o'. before_update. unfold match_new_order. rewrite Hty.
  set (e0 := with_stats e _).
  assert (Hl : loop_inv e0 o) by (apply fresh_loop_inv; assumption).
  pose proof (limit_loop_result e0 o Hl) as (Hinv1 & Hfr & Hexit).
  assert (Hempty : opp_side (side o) (order_book_ e) = [] ->
                   limit_loop (loop_bound e0) e0 o = (e0, o)).
  { intros H. apply limit_loop_cannot_match. now apply can_match_empty. }
  unfold match_market_order.
  rewrite market_loop_limit_loop by assumption.
  destruct (limit_loop (loop_bound e0) e0 o) as [e1 o1]. simpl in *.
  destruct Hinv1 as [Hb1 Hin1].
  destruct Hfr as (F1 & F2 & F3 & F4 & F5 & F6 & F7 & F8 & F9 & F10 & F11
                   & F12 & F13 & F14 & F15 & F16).
  assert (Hbook : order_book_
            (fst (if remaining_quantity o1 >? 0
                  then (log_write e1 (mkWrite o1 REJECTED),
                        sw_result (mkWrite o1 REJECTED))
                  else (e1, o1))) = order_book_ e1)
    by (destruct (remaining_quantity o1 >? 0); reflexivity).
  destruct (Z.gtb_spec (remaining_quantity o1) 0) as [Hpos|Hle]; simpl in *.
  - assert (Hact : is_active o1 = true).
    { destruct Hin1 as (_ & _ & [[Hact _]|[_ Heq]]); [assumption|].
      unfold remaining_quantity in Hpos. lia. }
    rewrite Hact in Hexit. simpl in Hexit.
    split; [|split; [|split; [|split; [|split]]]].
    + intros _. split; [reflexivity|].
      rewrite <- F1. apply can_match_market_false; [congruence|assumption].
    + unfold remaining_quantity in *. simpl. lia.
    + intros He. specialize (Hempty He). injection Hempty as He1 Ho1.
      rewrite He1. repeat split; reflexivity.
    + intros Hin. apply F15 in Hin. apply Hfresh in Hin. exact Hin.
    + intros x Hx. eapply book_orders_limit; eassumption.
    + exact F9.
  - assert (Hfilled : status o1 = FILLED /\ filled_quantity o1 = quantity o1).
    { destruct Hin1 as (_ & _ & [[_ Hlt]|H]); [|assumption].
      unfold remaining_quantity in Hle. lia. }
    split; [|split; [|split; [|split; [|split]]]].
    + intros Hpos. lia.
    + intros _. split; [apply Hfilled|].
      unfold remaining_quantity. destruct Hfilled. lia.
    + intros He. specialize (Hempty He). injection Hempty as He1 Ho1.
      destruct Hfresh as (_ & Hf & Hq & _).
      rewrite Ho1 in Hle. unfold remaining_quantity in Hle. lia.
    + intros Hin. apply F15 in Hin. apply Hfresh in Hin. exact Hin.
    + intros x Hx. eapply book_orders_limit; eassumption.
    + exact F9.
Qed.

Lemma C7_witness :
  status (snd (process_new_order engine_one_ask market_buy_150)) = REJECTED /\
  OrderBook.asks_
    (order_book_ (fst (process_new_order engine_one_ask market_buy_150)))
  = [].
Proof.
  assert (Hreach : reachable engine_one_ask).
  { exists AAPL, false, [new_order_event (new_order 1 AAPL SELL LIMIT 15100 100)].
    split; [check_events|reflexivity]. }
  assert (Hfresh : fresh_order (order_book_ engine_one_ask) market_buy_150)
    by check_fresh.
  destruct (C7_market_order engine_one_ask market_buy_150 Hreach Hfresh
              eq_refl) as (H & _).
  apply H. vm_compute. reflexivity.
Defined.

End Claim7.

Section NewOrderCounters.

Import MatchingEngine.

Lemma try_match_stats e o :
  orders_processed (stats_ (fst (fst (try_match e o))))
    = orders_processed (stats_ e) /\
  orders_cancelled (stats_ (fst (fst (try_match e o))))
    = orders_cancelled (stats_ e).
Proof.
  unfold try_match.
  destruct (side o).
  - destruct (OrderBook.get_best_ask_level (order_book_ e)) as [[k l]|];
      [|auto].
    destruct (PriceLevel.empty l); [auto|].
    destruct (_ && _); [auto|].
    destruct (PriceLevel.front_order l); [|auto].
    destruct (negb _); auto.
  - destruct (OrderBook.get_best_bid_level (order_book_ e)) as [[k l]|];
      [|auto].
    destruct (PriceLevel.empty l); [auto|].
    destruct (_ && _); [auto|].
    destruct (PriceLevel.front_order l); [|auto].
    destruct (negb _); auto.
Qed.

Lemma limit_loop_stats fuel :
  forall e o,
    orders_processed (stats_ (fst (limit_loop fuel e o)))
      = orders_processed (stats_ e) /\
    orders_cancelled (stats_ (fst (limit_loop fuel e o)))
      = orders_cancelled (stats_ e).
Proof.
  induction fuel as [|fuel IH]; intros e o; simpl; [auto|].
  destruct (is_active o && can_match e o); [|auto].
  pose proof (try_match_stats e o) as [H1 H2].
  destruct (try_match e o) as [[e1 o1] r]. simpl in *.
  destruct (MatchResult.matched r); [|auto].
  destruct (IH e1 o1) as [H3 H4]. split; congruence.
Qed.

Lemma market_loop_stats fuel :
  forall e o,
    orders_processed (stats_ (fst (market_loop fuel e o)))
      = orders_processed (stats_ e) /\
    orders_cancelled (stats_ (fst (market_loop fuel e o)))
      = orders_cancelled (stats_ e).
Proof.
  induction fuel as [|fuel IH]; intros e o; simpl; [auto|].
  destruct (is_active o && can_match e o); [|auto].
  pose proof (try_match_stats e o) as [H1 H2].
  destruct (try_match e o) as [[e1 o1] r]. simpl in *.
  destruct (MatchResult.matched r); [|auto].
  destruct (IH e1 o1) as [H3 H4]. split; congruence.
Qed.

(** Whatever the order and the book, [process_new_order] counts one
    more processed order and no cancelled one. *)
Lemma process_new_order_stats e o :
  orders_processed (stats_ (fst (process_new_order e o)))
    = u64 (orders_processed (stats_ e) + 1) /\
  orders_cancelled (stats_ (fst (process_new_order e o)))
    = orders_cancelled (stats_ e).
Proof.
  before_update. unfold match_new_order.
  set (e0 := with_stats e _).
  destruct (type o).
  - unfold match_limit_order.
    pose proof (limit_loop_stats (loop_bound e0) e0 o) as [H1 H2].
    destruct (limit_loop (loop_bound e0) e0 o) as [e1 o1]. simpl in *.
    destruct (is_active o1 && (remaining_quantity o1 >? 0)).
    + destruct (OrderBook.add_order (order_book_ e1) o1) as [[b o2] r].
      simpl. auto.
    + simpl. auto.
  - unfold match_market_order.
    pose proof (market_loop_stats (loop_bound e0) e0 o) as [H1 H2].
    destruct (market_loop (loop_bound e0) e0 o) as [e1 o1]. simpl in *.
    destruct (remaining_quantity o1 >? 0); simpl; auto.
Qed.

End NewOrderCounters.

Section Claim8.

Import MatchingEngine.

Lemma find_in_middle i l1 o l2 :
  ~ In i (map id l1) -> id o = i ->
  PriceLevel.find_in i (l1 ++ o :: l2) = Some o.
Proof.
  intros Hn Hid. induction l1 as [|x l1 IH]; simpl in *.
  - apply Z.eqb_eq in Hid. now rewrite Hid.
  - destruct (Z.eqb_spec (id x) i); [tauto|]. apply IH. tauto.
Qed.

Lemma erase_first_middle i l1 o l2 :
  ~ In i (map id l1) -> id o = i ->
  PriceLevel.erase_first i (l1 ++ o :: l2) = Some (o, l1 ++ l2).
Proof.
  intros Hn Hid. induction l1 as [|x l1 IH]; simpl in *.
  - apply Z.eqb_eq in Hid. now rewrite Hid.
  - destruct (Z.eqb_spec (id x) i); [tauto|]. rewrite IH; tauto.
Qed.

(** [cancel_in_side] on a side where the place of the order is known. *)
Lemma cancel_in_side_decomposed pre k l post i l1 o l2 :
  ~ In i (map id (OrderBook.side_orders pre)) ->
  PriceLevel.orders_ l = l1 ++ o :: l2 ->
  ~ In i (map id l1) -> id o = i ->
  OrderBook.cancel_in_side (pre ++ (k, l) :: post) i =
  Some (pre ++ level_without k l o (l1 ++ l2) ++ post, mkWrite o CANCELLED).
Proof.
  intros Hpre Hl Hn Hid.
  induction pre as [|[k' l'] pre IH]; simpl.
  - unfold PriceLevel.find_order. rewrite Hl.
    rewrite find_in_middle by assumption.
    unfold PriceLevel.remove_order, sw_result. simpl.
    rewrite Hl, Hid, erase_first_middle by assumption.
    unfold PriceLevel.empty, level_without. simpl.
    destruct (l1 ++ l2); reflexivity.
  - rewrite side_orders_cons, map_app, in_app_iff in Hpre.
    unfold PriceLevel.find_order.
    assert (Hf : PriceLevel.find_in i (PriceLevel.orders_ l') = None)
      by (apply find_in_none; tauto).
    rewrite Hf, IH by tauto. reflexivity.
Qed.

(** Adding an order with a new id to a side and cancelling it gives the
    side back. *)
Lemma add_then_cancel_side sd m o :
  side_wf sd m ->
  ~ In (id o) (map id (OrderBook.side_orders m)) ->
  OrderBook.cancel_in_side (fst (OrderBook.add_to_side m o)) (id o)
  = Some (m, mkWrite o CANCELLED).
Proof.
  intros [Hs Hall] Hfresh.
  destruct (add_to_side_cases m o Hs)
    as [(pre & l & post & -> & Hk & ->)
       |(pre & post & -> & Hk & Hpre & Hpost & ->)].
  - rewrite side_orders_app, side_orders_cons, !map_app, !in_app_iff
      in Hfresh.
    rewrite (cancel_in_side_decomposed pre (price o)
               (PriceLevel.add_order l o) post (id o)
               (PriceLevel.orders_ l) o []); try tauto; try reflexivity.
    rewrite app_nil_r.
    apply Forall_drop_middle in Hall. destruct Hall as [_ (_ & [Hne _] & _)].
    simpl in Hne. unfold level_without.
    destruct l as [p T os]. simpl in *.
    destruct os as [|x xs]; [congruence|].
    replace (T + remaining_quantity o - remaining_quantity o) with T by lia.
    reflexivity.
  - rewrite side_orders_app, map_app, in_app_iff in Hfresh.
    rewrite (cancel_in_side_decomposed pre (price o) _ post (id o) [] o []);
      try tauto; reflexivity.
Qed.

Lemma u64_small x : 0 <= x < 2 ^ 64 -> u64 x = x.
Proof. intros H. unfold u64. now apply Z.mod_small. Qed.

Lemma cancel_in_side_fresh m i :
  ~ In i (map id (OrderBook.side_orders m)) ->
  OrderBook.cancel_in_side m i = None.
Proof. apply cancel_in_side_none. Qed.

(** Adding to the book an order that may rest there and has a new id,
    then cancelling that id, gives both sides back; the sequence
    counter has moved on. *)
Lemma add_then_cancel_book b o :
  book_inv b ->
  String.eqb (symbol o) (OrderBook.symbol_ b) = true ->
  ~ In (id o) (book_ids b) ->
  let n := u64 (OrderBook.sequence_counter_ b + 1) in
  OrderBook.cancel_order (fst (fst (OrderBook.add_order b o))) (id o) =
  (OrderBook.mk (OrderBook.symbol_ b) (OrderBook.bids_ b)
                (OrderBook.asks_ b) n,
   Some (mkWrite (with_sequence_number o n) CANCELLED)).
Proof.
  intros (Hb & Ha & _) Hsym Hfresh n.
  rewrite add_order_book by assumption. cbv zeta. fold n.
  set (o' := with_sequence_number o n).
  unfold book_ids, OrderBook.book_orders in Hfresh.
  rewrite map_app, in_app_iff in Hfresh.
  unfold OrderBook.cancel_order.
  destruct (side o); cbn [OrderBook.bids_ OrderBook.asks_].
  - change (id o) with (id o').
    rewrite (add_then_cancel_side BUY) by (assumption || tauto).
    reflexivity.
  - rewrite cancel_in_side_fresh by tauto.
    change (id o) with (id o').
    rewrite (add_then_cancel_side SELL) by (assumption || tauto).
    reflexivity.
Qed.

(** C8, as the code has it: in a state the engine reaches, processing
    a new limit order that cannot match (fresh id, the book's symbol)
    and then a cancel of its id gives back both sides of the book, with
    every level, order and total as before, and the book's symbol; the
    sequence counter of the book has advanced by one; [orders_processed]
    and [orders_cancelled] have each been incremented by one (modulo
    2^64, hence by exactly 1 below the largest value), no trade is
    made, and the order has been written CANCELLED. *)
Theorem C8_submit_then_cancel e o :
  reachable e -> fresh_order (order_book_ e) o ->
  type o = LIMIT -> can_match e o = false ->
  String.eqb (symbol o) (OrderBook.symbol_ (order_book_ e)) = true ->
  let e1 := fst (process_new_order e o) in
  let e2 := process_cancel_order e1 (id o) in
  OrderBook.bids_ (order_book_ e2) = OrderBook.bids_ (order_book_ e) /\
  OrderBook.asks_ (order_book_ e2) = OrderBook.asks_ (order_book_ e) /\
  OrderBook.symbol_ (order_book_ e2) = OrderBook.symbol_ (order_book_ e) /\
  OrderBook.sequence_counter_ (order_book_ e2)
    = u64 (OrderBook.sequence_counter_ (order_book_ e) + 1) /\
  orders_processed (stats_ e2) = u64 (orders_processed (stats_ e) + 1) /\
  orders_cancelled (stats_ e2) = u64 (orders_cancelled (stats_ e) + 1) /\
  (0 <= orders_processed (stats_ e) < 2 ^ 64 - 1 ->
   orders_processed (stats_ e2) = orders_processed (stats_ e) + 1) /\
  (0 <= orders_cancelled (stats_ e) < 2 ^ 64 - 1 ->
   orders_cancelled (stats_ e2) = orders_cancelled (stats_ e) + 1) /\
  trades_executed (stats_ e2) = trades_executed (stats_ e) /\
  trades e2 = trades e /\
  In (snd (process_new_order e o)) (OrderBook.book_orders (order_book_ e1)) /\
  status_writes e2 =
    status_writes e ++ [mkWrite (snd (process_new_order e o)) CANCELLED].
Proof.
  intros Hreach Hfresh Hty Hcm Hsym e1 e2.
  pose proof (reachable_inv _ Hreach) as Hinv.
  pose proof Hfresh as (Hst & Hf & Hq & Hid).
  assert (Hact : is_active o = true) by (unfold is_active; now rewrite Hst).
  assert (Hrem : (remaining_quantity o >? 0) = true)
    by (apply Z.gtb_lt; unfold remaining_quantity; lia).
  set (n := u64 (OrderBook.sequence_counter_ (order_book_ e) + 1)).
  set (o' := with_sequence_number o n).
  set (s1 := mkStatistics (u64 (orders_processed (stats_ e) + 1))
               (trades_executed (stats_ e)) (orders_cancelled (stats_ e))).
  set (e0 := with_book (with_stats e s1)
                (fst (fst (OrderBook.add_order (order_book_ e) o)))).
  assert (Hnew : process_new_order e o = (notify_update e0 o', o')).
  { subst e0. unfold process_new_order. rewrite Hty. fold s1.
    unfold match_limit_order.
    rewrite limit_loop_cannot_match by exact Hcm.
    rewrite Hact, Hrem. simpl andb. cbv iota.
    change (order_book_ (with_stats e s1)) with (order_book_ e).
    unfold OrderBook.add_order. rewrite Hsym. simpl negb. cbv iota zeta.
    fold n. fold o'.
    destruct (side o') eqn:Hside; reflexivity. }
  assert (Hcancel := add_then_cancel_book (order_book_ e) o Hinv Hsym Hid).
  cbv zeta in Hcancel. fold n in Hcancel. fold o' in Hcancel.
  assert (He2 : e2 =
            log_write
              (with_stats
                 (with_book e1
                    (OrderBook.mk (OrderBook.symbol_ (order_book_ e))
                       (OrderBook.bids_ (order_book_ e))
                       (OrderBook.asks_ (order_book_ e)) n))
                 (mkStatistics (orders_processed (stats_ e1))
                    (trades_executed (stats_ e1))
                    (u64 (orders_cancelled (stats_ e1) + 1))))
              (mkWrite o' CANCELLED)).
  { subst e2. unfold process_cancel_order.
    subst e1. rewrite Hnew. cbn [fst]. rewrite notify_update_book.
    subst e0. cbn [order_book_ with_book]. rewrite Hcancel. reflexivity. }
  assert (He1 : exists updates,
            e1 = mk (symbol_ e0) (order_book_ e0) (trade_id_counter_ e0)
                   (stats_ e0) (trades e0) updates (status_writes e0)
                   (order_update_callback_ e0)).
  { subst e1. rewrite Hnew. cbn [fst].
    destruct (notify_update_cases e0 o') as [[_ ->]|[_ ->]];
      eexists; reflexivity. }
  destruct He1 as [updates He1].
  assert (Hsnd : snd (process_new_order e o) = o') by now rewrite Hnew.
  rewrite Hsnd.
  assert (Hp : orders_processed (stats_ e2)
               = u64 (orders_processed (stats_ e) + 1))
    by (rewrite He2, He1; reflexivity).
  assert (Hc : orders_cancelled (stats_ e2)
               = u64 (orders_cancelled (stats_ e) + 1))
    by (rewrite He2, He1; reflexivity).
  repeat match goal with |- _ /\ _ => split end;
    try (rewrite He2; reflexivity); try assumption.
  - intros Hr. rewrite Hp. apply u64_small. lia.
  - intros Hr. rewrite Hc. apply u64_small. lia.
  - rewrite He2, He1. reflexivity.
  - rewrite He2, He1. reflexivity.
  - rewrite He1. subst e0. cbn [order_book_ log_update with_book].
    destruct (add_order_inv (order_book_ e) o Hinv Hsym)
      as (b' & Hadd & _ & A & B & _ & HB).
    + unfold resting_ok. repeat split; try assumption; lia.
    + assumption.
    + apply cannot_match_no_cross; assumption.
    + rewrite Hadd. cbn [fst]. rewrite HB. fold n. fold o'.
      apply in_app_iff. right. left. reflexivity.
  - rewrite He2, He1. reflexivity.
Qed.

Lemma C8_witness :
  let e2 :=
    process_cancel_order
      (fst (process_new_order engine_two_asks buy_14990)) 3 in
  OrderBook.bids_ (order_book_ e2) = [] /\
  OrderBook.asks_ (order_book_ e2)
    = OrderBook.asks_ (order_book_ engine_two_asks) /\
  orders_processed (stats_ e2) = 3 /\
  orders_cancelled (stats_ e2) = 1.
Proof.
  assert (Hreach : reachable engine_two_asks).
  { exists AAPL, false, [new_order_event sell1; new_order_event sell2].
    split; [check_events|reflexivity]. }
  assert (Hfresh : fresh_order (order_book_ engine_two_asks) buy_14990)
    by check_fresh.
  destruct (C8_submit_then_cancel engine_two_asks buy_14990 Hreach Hfresh
              eq_refl eq_refl eq_refl)
    as (H1 & H2 & _ & _ & _ & _ & H3 & H4 & _).
  cbv zeta. split; [exact H1|]. split; [exact H2|].
  split; [apply H3; simpl; lia | apply H4; simpl; lia].
Defined.

(** C8 as stated fails on the whole book: the sequence counter that
    [add_order] advanced is not taken back by the cancel. *)
Lemma C8_counterexample :
  reachable engine_two_asks /\
  fresh_order (order_book_ engine_two_asks) buy_14990 /\
  can_match engine_two_asks buy_14990 = false /\
  order_book_
    (process_cancel_order
       (fst (process_new_order engine_two_asks buy_14990)) 3)
  <> order_book_ engine_two_asks.
Proof.
  split; [|split; [|split]].
  - exists AAPL, false, [new_order_event sell1; new_order_event sell2].
    split; [check_events|reflexivity].
  - check_fresh.
  - reflexivity.
  - intros H. apply (f_equal OrderBook.sequence_counter_) in H.
    vm_compute in H. discriminate.
Qed.

End Claim8.

(** ** The event queue *)

Section Queue.

Import LockFreeQueue.

Lemma array_set_length b i e :
  List.length (array_set b i e) = List.length b.
Proof.
  revert i. induction b as [|x b IH]; intros [|i]; simpl; auto.
Qed.

Lemma array_set_same b i e :
  (i < List.length b)%nat -> nth_error (array_set b i e) i = Some e.
Proof.
  revert i. induction b as [|x b IH]; intros [|i]; simpl; intros H;
    try lia; [reflexivity|].
  apply IH. lia.
Qed.

Lemma array_set_other b i j e :
  i <> j -> nth_error (array_set b i e) j = nth_error b j.
Proof.
  revert i j. induction b as [|x b IH]; intros [|i] [|j] H; simpl;
    try reflexivity; try congruence.
  apply IH. congruence.
Qed.

Lemma mask_is_mod n x :
  0 <= n < 64 -> 0 <= x < 2 ^ 64 ->
  Z.land (u64 x) (u64 (2 ^ n - 1)) = x mod 2 ^ n.
Proof.
  intros Hn Hx.
  assert (H2 : 0 < 2 ^ n <= 2 ^ 63).
  { split; [apply Z.pow_pos_nonneg; lia|].
    apply Z.pow_le_mono_r; lia. }
  rewrite !u64_small by (change (2 ^ 64) with (2 * 2 ^ 63); lia).
  replace (2 ^ n - 1) with (Z.ones n)
    by (rewrite Z.ones_equiv; lia).
  apply Z.land_ones. lia.
Qed.

Lemma mask_plain n x :
  0 <= n < 64 -> 0 <= x < 2 ^ 64 ->
  Z.land x (2 ^ n - 1) = x mod 2 ^ n.
Proof.
  intros Hn Hx.
  replace (2 ^ n - 1) with (Z.ones n)
    by (rewrite Z.ones_equiv; lia).
  apply Z.land_ones. lia.
Qed.

Lemma power_of_two_bounds Size :
  power_of_two Size -> 0 < Size <= 2 ^ 63.
Proof.
  intros (n & Hn & ->). split; [apply Z.pow_pos_nonneg; lia|].
  apply Z.pow_le_mono_r; lia.
Qed.

Lemma power_of_two_accepted Size :
  power_of_two Size -> size_accepted Size = true.
Proof.
  intros Hp. pose proof (power_of_two_bounds _ Hp) as Hb.
  destruct Hp as (n & Hn & ->).
  unfold size_accepted. apply Z.eqb_eq.
  rewrite u64_small by (change (2 ^ 64) with (2 * 2 ^ 63); lia).
  replace (2 ^ n - 1) with (Z.ones n) by (rewrite Z.ones_equiv; lia).
  rewrite Z.land_ones by lia. apply Z.mod_same.
  apply Z.pow_nonzero; lia.
Qed.

(** What the [static_assert] lets through, apart from 0, are the powers
    of two. *)
Lemma accepted_power_of_two Size :
  0 < Size < 2 ^ 64 -> size_accepted Size = true -> power_of_two Size.
Proof.
  intros Hs Hacc. unfold size_accepted in Hacc. apply Z.eqb_eq in Hacc.
  rewrite u64_small in Hacc by lia.
  pose proof (Z.log2_spec Size (proj1 Hs)) as [Hlo Hhi].
  pose proof (Z.log2_nonneg Size) as Hn0.
  assert (Hn : Z.log2 Size < 64).
  { apply Z.log2_lt_pow2; lia. }
  exists (Z.log2 Size). split; [lia|].
  destruct (Z.eq_dec Size (2 ^ Z.log2 Size)) as [|Hne]; [assumption|].
  exfalso.
  assert (Hlog : Z.log2 (Size - 1) = Z.log2 Size).
  { apply Z.log2_unique; lia. }
  assert (Hb1 : Z.testbit Size (Z.log2 Size) = true)
    by (apply Z.bit_log2; lia).
  assert (Hb2 : Z.testbit (Size - 1) (Z.log2 Size) = true).
  { rewrite <- Hlog. apply Z.bit_log2.
    assert (0 < 2 ^ Z.log2 Size) by (apply Z.pow_pos_nonneg; lia). lia. }
  assert (Hb : Z.testbit (Z.land Size (Size - 1)) (Z.log2 Size) = true)
    by (rewrite Z.land_spec, Hb1, Hb2; reflexivity).
  rewrite Hacc in Hb. rewrite Z.bits_0 in Hb. discriminate.
Qed.

Lemma mod_sum S a b :
  0 <= a < S -> 0 <= b < S ->
  (a + b) mod S = if a + b <? S then a + b else a + b - S.
Proof.
  intros Ha Hb. destruct (Z.ltb_spec (a + b) S).
  - apply Z.mod_small. lia.
  - symmetry. apply (Z.mod_unique_pos _ _ 1); lia.
Qed.

Lemma mod_diff S a b :
  0 <= a < S -> 0 <= b < S ->
  (a - b) mod S = if b <=? a then a - b else a - b + S.
Proof.
  intros Ha Hb. destruct (Z.leb_spec b a).
  - apply Z.mod_small. lia.
  - symmetry. apply (Z.mod_unique_pos _ _ (-1)); lia.
Qed.

Lemma slots_S Size buf start n :
  slots Size buf start (S n) =
  match nth_error buf (Z.to_nat start) with
  | Some e => e :: slots Size buf ((start + 1) mod Size) n
  | None => []
  end.
Proof. reflexivity. Qed.

Lemma nth_error_in_range (buf : list OrderEvent.t) (Size i : Z) :
  Z.of_nat (List.length buf) = Size -> 0 <= i < Size ->
  exists e, nth_error buf (Z.to_nat i) = Some e.
Proof.
  intros Hlen Hi.
  destruct (nth_error buf (Z.to_nat i)) as [e|] eqn:E; [eauto|].
  apply nth_error_None in E. lia.
Qed.

(** Writing the slot just past the [n] slots from [start] appends. *)
Lemma slots_push Size buf ev :
  Z.of_nat (List.length buf) = Size ->
  forall n start,
    0 <= start < Size -> Z.of_nat n < Size ->
    slots Size
      (array_set buf (Z.to_nat ((start + Z.of_nat n) mod Size)) ev)
      start (S n)
    = slots Size buf start n ++ [ev].
Proof.
  intros Hlen. induction n as [|n IH]; intros start Hs Hn.
  - rewrite slots_S. simpl Z.of_nat. rewrite Z.add_0_r.
    rewrite Z.mod_small by lia.
    rewrite array_set_same by lia. reflexivity.
  - rewrite slots_S.
    set (tl := (start + Z.of_nat (S n)) mod Size).
    assert (Htl : 0 <= tl < Size /\ tl <> start).
    { unfold tl. rewrite mod_sum by lia.
      destruct (Z.ltb_spec (start + Z.of_nat (S n)) Size); lia. }
    rewrite array_set_other by lia.
    destruct (nth_error_in_range buf Size start Hlen Hs) as [x Hx].
    rewrite (slots_S Size buf start n). rewrite Hx. simpl app. f_equal.
    assert (Hs' : 0 <= (start + 1) mod Size < Size)
      by (apply Z.mod_pos_bound; lia).
    assert (Heq : tl = ((start + 1) mod Size + Z.of_nat n) mod Size).
    { unfold tl. rewrite Z.add_mod_idemp_l by lia. f_equal. lia. }
    rewrite Heq. apply IH; lia.
Qed.

Section WithSize.

Variable Size : Z.
Hypothesis Hpow : power_of_two Size.

Lemma next_index x :
  0 <= x < Size ->
  Z.land (u64 (x + 1)) (u64 (Size - 1)) = (x + 1) mod Size /\
  Z.land (x + 1) (Size - 1) = (x + 1) mod Size.
Proof.
  intros Hx. pose proof (power_of_two_bounds _ Hpow) as Hb.
  destruct Hpow as (n & Hn & HS). rewrite HS.
  assert (0 <= x + 1 < 2 ^ 64)
    by (change (2 ^ 64) with (2 * 2 ^ 63); lia).
  split.
  - rewrite <- (mask_is_mod n (x + 1)) by assumption.
    rewrite (u64_small (x + 1)) by assumption. reflexivity.
  - apply mask_plain; assumption.
Qed.

Lemma push_spec q ev :
  queue_ok Size q ->
  (snd (push Size q ev) = false <->
   Z.land (tail_ q + 1) (Size - 1) = head_ q) /\
  (snd (push Size q ev) = false -> fst (push Size q ev) = q) /\
  (snd (push Size q ev) = true ->
   queue_ok Size (fst (push Size q ev)) /\
   head_ (fst (push Size q ev)) = head_ q /\
   tail_ (fst (push Size q ev)) = Z.land (tail_ q + 1) (Size - 1) /\
   nth_error (buffer_ (fst (push Size q ev))) (Z.to_nat (tail_ q))
     = Some ev /\
   contents Size (fst (push Size q ev)) = contents Size q ++ [ev]).
Proof.
  intros (Hh & Ht & Hlen).
  pose proof (power_of_two_bounds _ Hpow) as Hb.
  destruct (next_index (tail_ q) Ht) as [Hn1 Hn2].
  unfold push. rewrite Hn1, Hn2.
  assert (Hnext : 0 <= (tail_ q + 1) mod Size < Size)
    by (apply Z.mod_pos_bound; lia).
  destruct (Z.eqb_spec ((tail_ q + 1) mod Size) (head_ q)) as [Hfull|Hfree];
    simpl.
  - split; [tauto|]. split; [reflexivity|discriminate].
  - split; [split; [discriminate|contradiction]|].
    split; [discriminate|]. intros _.
    split; [|split; [reflexivity|split; [reflexivity|split]]].
    + unfold queue_ok. simpl. rewrite array_set_length. auto.
    + apply array_set_same. lia.
    + unfold contents. simpl.
      set (d := (tail_ q - head_ q) mod Size).
      assert (Hd : 0 <= d < Size /\ tail_ q = (head_ q + d) mod Size /\
                   ((tail_ q + 1) mod Size - head_ q) mod Size = d + 1).
      { unfold d. rewrite (mod_diff Size (tail_ q)) by lia.
        rewrite (mod_sum Size (tail_ q) 1) in * by lia.
        destruct (Z.leb_spec (head_ q) (tail_ q));
          destruct (Z.ltb_spec (tail_ q + 1) Size);
          rewrite ?mod_diff, ?mod_sum by lia;
          repeat match goal with
            | |- context [Z.leb ?a ?b] => destruct (Z.leb_spec a b)
            | |- context [Z.ltb ?a ?b] => destruct (Z.ltb_spec a b)
            end; lia. }
      destruct Hd as (Hd1 & Hd2 & Hd3).
      rewrite Hd3.
      replace (Z.to_nat (d + 1)) with (S (Z.to_nat d)) by lia.
      rewrite Hd2 at 1.
      replace d with (Z.of_nat (Z.to_nat d)) at 1 by lia.
      apply slots_push; lia.
Qed.

Lemma pop_spec q :
  queue_ok Size q ->
  (snd (pop Size q) = None <-> head_ q = tail_ q) /\
  (snd (pop Size q) = None ->
   fst (pop Size q) = q /\ contents Size q = []) /\
  (head_ q <> tail_ q ->
   exists ev,
     snd (pop Size q) = Some ev /\
     nth_error (buffer_ q) (Z.to_nat (head_ q)) = Some ev /\
     contents Size q = ev :: contents Size (fst (pop Size q)) /\
     queue_ok Size (fst (pop Size q)) /\
     head_ (fst (pop Size q)) = Z.land (head_ q + 1) (Size - 1) /\
     tail_ (fst (pop Size q)) = tail_ q /\
     buffer_ (fst (pop Size q)) = buffer_ q).
Proof.
  intros (Hh & Ht & Hlen).
  pose proof (power_of_two_bounds _ Hpow) as Hb.
  destruct (next_index (head_ q) Hh) as [Hn1 Hn2].
  unfold pop. rewrite Hn1, Hn2.
  assert (Hnext : 0 <= (head_ q + 1) mod Size < Size)
    by (apply Z.mod_pos_bound; lia).
  destruct (nth_error_in_range _ _ _ Hlen Hh) as [x Hx].
  destruct (Z.eqb_spec (head_ q) (tail_ q)) as [Hempty|Hne]; simpl.
  - split; [tauto|]. split; [|contradiction].
    intros _. split; [reflexivity|].
    unfold contents. rewrite Hempty, Z.sub_diag, Z.mod_0_l by lia.
    reflexivity.
  - rewrite Hx.
    split; [split; [discriminate|contradiction]|].
    split; [discriminate|]. intros _.
    exists x. split; [reflexivity|]. split; [reflexivity|].
    split; [|split; [|split; [reflexivity|split; reflexivity]]].
    + unfold contents. simpl.
      set (d := (tail_ q - head_ q) mod Size).
      assert (Hd : 1 <= d < Size /\
                   (tail_ q - (head_ q + 1) mod Size) mod Size = d - 1).
      { unfold d. rewrite (mod_diff Size (tail_ q) (head_ q)) by lia.
        rewrite (mod_sum Size (head_ q) 1) in * by lia.
        destruct (Z.leb_spec (head_ q) (tail_ q));
          destruct (Z.ltb_spec (head_ q + 1) Size);
          rewrite ?mod_diff by lia;
          repeat match goal with
            | |- context [Z.leb ?a ?b] => destruct (Z.leb_spec a b)
            end; lia. }
      destruct Hd as (Hd1 & Hd2). rewrite Hd2.
      replace (Z.to_nat d) with (S (Z.to_nat (d - 1))) by lia.
      rewrite slots_S, Hx. reflexivity.
    + unfold queue_ok. simpl. auto.
Qed.

End WithSize.

End Queue.

Section Claim9.

Import LockFreeQueue.

Lemma mod_succ S a :
  0 <= a < S -> (a + 1) mod S = if a + 1 <? S then a + 1 else 0.
Proof.
  intros Ha. destruct (Z.ltb_spec (a + 1) S).
  - apply Z.mod_small. lia.
  - replace (a + 1) with S by lia. apply Z.mod_same. lia.
Qed.

Lemma slots_length Size buf :
  0 < Size -> Z.of_nat (List.length buf) = Size ->
  forall n start, 0 <= start < Size ->
                  List.length (slots Size buf start n) = n.
Proof.
  intros HS Hlen. induction n as [|n IH]; intros start Hs; [reflexivity|].
  rewrite slots_S.
  destruct (nth_error_in_range buf Size start Hlen Hs) as [x ->].
  simpl. f_equal. apply IH. apply Z.mod_pos_bound. lia.
Qed.

Lemma contents_length Size q :
  power_of_two Size -> queue_ok Size q ->
  Z.of_nat (List.length (contents Size q))
  = (tail_ q - head_ q) mod Size.
Proof.
  intros Hp (Hh & Ht & Hlen).
  pose proof (power_of_two_bounds _ Hp) as Hb.
  unfold contents. rewrite (slots_length Size) by (assumption || lia).
  pose proof (Z.mod_pos_bound (tail_ q - head_ q) Size). lia.
Qed.

Lemma full_iff Size q :
  power_of_two Size -> queue_ok Size q ->
  (Z.land (tail_ q + 1) (Size - 1) = head_ q <->
   Z.of_nat (List.length (contents Size q)) = Size - 1).
Proof.
  intros Hp Hok. rewrite (contents_length _ _ Hp Hok).
  destruct Hok as (Hh & Ht & Hlen).
  pose proof (power_of_two_bounds _ Hp) as Hb.
  destruct (next_index Size Hp (tail_ q) Ht) as [_ ->].
  rewrite mod_succ, mod_diff by lia.
  destruct (Z.ltb_spec (tail_ q + 1) Size);
    destruct (Z.leb_spec (head_ q) (tail_ q)); lia.
Qed.

(** The ring buffer and the first-in first-out list of capacity
    [Size - 1] answer every sequence of calls alike. *)
Lemma run_queue_fifo Size :
  power_of_two Size ->
  forall ops q,
    queue_ok Size q ->
    run_queue Size q ops = run_fifo (Size - 1) (contents Size q) ops.
Proof.
  intros Hp. induction ops as [|[ev|] ops IH]; intros q Hok; simpl.
  - reflexivity.
  - destruct (push_spec Size Hp q ev Hok) as (Hfull & Hsame & Hadd).
    pose proof (full_iff Size q Hp Hok) as Hiff.
    destruct (push Size q ev) as [q' ok] eqn:E. simpl in *.
    destruct ok.
    + destruct (Hadd eq_refl) as (Hok' & _ & _ & _ & Hc).
      destruct (Z.eqb_spec (Z.of_nat (List.length (contents Size q)))
                  (Size - 1)) as [Heq|Hne].
      * apply Hiff in Heq. apply Hfull in Heq. discriminate.
      * rewrite <- Hc. f_equal. now apply IH.
    + rewrite (Hsame eq_refl).
      destruct (Z.eqb_spec (Z.of_nat (List.length (contents Size q)))
                  (Size - 1)) as [Heq|Hne].
      * f_equal. now apply IH.
      * exfalso. apply Hne. apply Hiff. now apply Hfull.
  - destruct (pop_spec Size Hp q Hok) as (Hempty & Hnone & Hsome).
    destruct (pop Size q) as [q' r] eqn:E. simpl in *.
    destruct r as [e|].
    + assert (Hne : head_ q <> tail_ q).
      { intros Heq. apply Hempty in Heq. discriminate. }
      destruct (Hsome Hne) as (e' & He' & _ & Hc & Hok' & _).
      injection He' as <-. rewrite Hc. f_equal. now apply IH.
    + destruct (Hnone eq_refl) as [-> Hc]. rewrite Hc. f_equal.
      rewrite <- Hc. now apply IH.
Qed.

Lemma make_ok Size filler :
  power_of_two Size ->
  queue_ok Size (make Size filler) /\ contents Size (make Size filler) = [].
Proof.
  intros Hp. pose proof (power_of_two_bounds _ Hp) as Hb.
  unfold queue_ok, contents, make. simpl.
  rewrite repeat_length.
  repeat split; try lia.
Qed.

(** C9: for a capacity parameter [Size] that is a power of two (which
    is what the [static_assert] of the constructor lets through, apart
    from 0) and a queue whose indices are inside the buffer: [push]
    returns false exactly when [(tail + 1) & (Size - 1)] equals [head],
    and then changes nothing; otherwise it stores the event at [tail]
    and advances [tail], which appends the event to the events waiting.
    [pop] returns false exactly when [head] equals [tail], and then
    changes nothing; otherwise it returns the oldest waiting event and
    advances [head].  Hence every sequence of calls is answered as by a
    first-in first-out list holding at most [Size - 1] events, and the
    constructed queue is empty. *)
Theorem C9_fifo_ring_buffer Size q ev :
  power_of_two Size -> queue_ok Size q ->
  size_accepted Size = true /\
  (forall N, 0 < N < 2 ^ 64 -> size_accepted N = true -> power_of_two N) /\
  (* push *)
  (snd (push Size q ev) = false <->
   Z.land (tail_ q + 1) (Size - 1) = head_ q) /\
  (snd (push Size q ev) = false -> fst (push Size q ev) = q) /\
  (snd (push Size q ev) = true ->
   queue_ok Size (fst (push Size q ev)) /\
   head_ (fst (push Size q ev)) = head_ q /\
   tail_ (fst (push Size q ev)) = Z.land (tail_ q + 1) (Size - 1) /\
   nth_error (buffer_ (fst (push Size q ev))) (Z.to_nat (tail_ q))
     = Some ev /\
   contents Size (fst (push Size q ev)) = contents Size q ++ [ev]) /\
  (* pop *)
  (snd (pop Size q) = None <-> head_ q = tail_ q) /\
  (snd (pop Size q) = None ->
   fst (pop Size q) = q /\ contents Size q = []) /\
  (head_ q <> tail_ q ->
   exists oldest,
     snd (pop Size q) = Some oldest /\
     nth_error (buffer_ q) (Z.to_nat (head_ q)) = Some oldest /\
     contents Size q = oldest :: contents Size (fst (pop Size q)) /\
     queue_ok Size (fst (pop Size q)) /\
     head_ (fst (pop Size q)) = Z.land (head_ q + 1) (Size - 1) /\
     tail_ (fst (pop Size q)) = tail_ q /\
     buffer_ (fst (pop Size q)) = buffer_ q) /\
  (* first in, first out *)
  (forall ops,
     run_queue Size q ops = run_fifo (Size - 1) (contents Size q) ops) /\
  (forall filler ops,
     run_queue Size (make Size filler) ops = run_fifo (Size - 1) [] ops).
Proof.
  intros Hp Hok.
  destruct (push_spec Size Hp q ev Hok) as (P1 & P2 & P3).
  destruct (pop_spec Size Hp q Hok) as (Q1 & Q2 & Q3).
  split; [now apply power_of_two_accepted|].
  split; [exact accepted_power_of_two|].
  split; [exact P1|]. split; [exact P2|]. split; [exact P3|].
  split; [exact Q1|]. split; [exact Q2|]. split; [exact Q3|].
  split.
  - intros ops. now apply run_queue_fifo.
  - intros filler ops.
    destruct (make_ok Size filler Hp) as [Hmk Hc].
    rewrite run_queue_fifo by assumption. now rewrite Hc.
Qed.

Lemma C9_witness :
  run_queue 4 queue_of_four
    [Push (cancel_event 1); Push (cancel_event 2); Push (cancel_event 3);
     Push (cancel_event 4); Pop; Pop; Pop; Pop]
  = [Pushed true; Pushed true; Pushed true; Pushed false;
     Popped (Some (cancel_event 1)); Popped (Some (cancel_event 2));
     Popped (Some (cancel_event 3)); Popped None].
Proof.
  assert (Hp : power_of_two 4) by (exists 2; split; [lia|reflexivity]).
  assert (Hok : queue_ok 4 queue_of_four)
    by (unfold queue_ok; simpl; lia).
  destruct (C9_fifo_ring_buffer 4 queue_of_four shutdown_event Hp Hok)
    as (_ & _ & _ & _ & _ & _ & _ & _ & Hfifo & _).
  rewrite Hfifo. reflexivity.
Defined.

End Claim9.

(** ** Sequence numbers and the order of insertion *)

Section SequenceNumbers.

Import MatchingEngine.

Lemma sorted_Z_drop_middle (xs ys : list Z) (x : Z) :
  StronglySorted Z.lt (xs ++ x :: ys) -> StronglySorted Z.lt (xs ++ ys).
Proof.
  intros H. destruct (sorted_app_lt _ _ H) as (H1 & H2 & H3).
  inversion H2; subst. apply sorted_app_intro; auto.
  intros a b Ha Hb. apply H3; simpl; auto.
Qed.

Lemma level_seq_ok_mono c c' l :
  c <= c' -> level_seq_ok c l -> level_seq_ok c' l.
Proof.
  intros Hle [Hs Hb]. split; [assumption|].
  eapply Forall_impl; [|exact Hb]. simpl. intros. lia.
Qed.

Lemma side_seq_ok_mono c c' m :
  c <= c' -> side_seq_ok c m -> side_seq_ok c' m.
Proof.
  intros Hle H. unfold side_seq_ok in *.
  eapply Forall_impl; [|exact H]. intros kl.
  now apply level_seq_ok_mono.
Qed.

Lemma side_seq_ok_replace c pre k l new post :
  side_seq_ok c (pre ++ (k, l) :: post) -> side_seq_ok c new ->
  side_seq_ok c (pre ++ new ++ post).
Proof.
  unfold side_seq_ok. intros H Hnew.
  apply Forall_drop_middle in H. destruct H as [H _].
  apply Forall_app in H. destruct H as [Hpre Hpost].
  rewrite !Forall_app. auto.
Qed.

Lemma level_after_seq c k T r os q :
  level_seq_ok c (PriceLevel.mk k T (r :: os)) ->
  side_seq_ok c (level_after k T r os q).
Proof.
  unfold level_seq_ok, side_seq_ok, level_after. simpl. intros [Hs Hb].
  inversion Hs as [|? ? Hs' Hf]; subst.
  inversion Hb as [|? ? Hr Hb']; subst.
  destruct (is_filled (fill r q)).
  - destruct os as [|x xs]; constructor; [|constructor].
    split; assumption.
  - constructor; [|constructor]. split; simpl; constructor; assumption.
Qed.

Lemma seq_inv_set_opp sd b m :
  seq_inv b -> side_seq_ok (OrderBook.sequence_counter_ b) m ->
  seq_inv (set_opp_side sd b m).
Proof.
  intros (H0 & Hb & Ha) Hm. destruct sd; repeat split; assumption.
Qed.

Lemma seq_inv_opp sd b :
  seq_inv b -> side_seq_ok (OrderBook.sequence_counter_ b) (opp_side sd b).
Proof. intros (H0 & Hb & Ha). destruct sd; assumption. Qed.

Lemma engine_after_seq e o pre k r os post :
  seq_inv (order_book_ e) -> step_facts e o pre k r os post ->
  seq_inv
    (order_book_
       (engine_after e o pre k (remaining_quantity r + sum_remaining os)
                     r os post)).
Proof.
  intros Hseq (Hopp & _). unfold engine_after. simpl.
  apply seq_inv_set_opp; [assumption|].
  pose proof (seq_inv_opp (side o) _ Hseq) as Hside. rewrite Hopp in Hside.
  eapply side_seq_ok_replace; [exact Hside|].
  apply level_after_seq.
  unfold side_seq_ok in Hside. apply Forall_drop_middle in Hside.
  apply Hside.
Qed.

Lemma limit_loop_seq e o :
  loop_inv e o -> seq_inv (order_book_ e) ->
  seq_inv (order_book_ (fst (limit_loop (loop_bound e) e o))).
Proof.
  intros Hinv Hseq.
  apply (limit_loop_rule (fun e' _ => seq_inv (order_book_ e')));
    try assumption.
  intros. now apply engine_after_seq.
Qed.

Lemma add_to_side_seq c m o :
  StronglySorted Z.lt (keys m) ->
  side_seq_ok c m -> sequence_number o = c + 1 ->
  side_seq_ok (c + 1) (fst (OrderBook.add_to_side m o)).
Proof.
  intros Hs Hm Ho.
  destruct (add_to_side_cases m o Hs)
    as [(pre & l & post & -> & Hk & ->)
       |(pre & post & -> & Hk & _ & _ & ->)].
  - unfold side_seq_ok in *.
    apply Forall_drop_middle in Hm. destruct Hm as [Hothers [Hsl Hbl]].
    apply Forall_app in Hothers. destruct Hothers as [Hpre Hpost].
    simpl in Hsl, Hbl.
    apply Forall_app. split.
    + eapply Forall_impl; [|exact Hpre]. intros kl.
      apply level_seq_ok_mono. lia.
    + constructor.
      * unfold level_seq_ok, PriceLevel.add_order. simpl.
        rewrite map_app. simpl. split.
        -- apply sorted_app_intro; [assumption|repeat constructor|].
           intros x y Hx [<-|[]]. rewrite in_map_iff in Hx.
           destruct Hx as (z & <- & Hz). rewrite Forall_forall in Hbl.
           specialize (Hbl z Hz). lia.
        -- apply Forall_app. split.
           ++ eapply Forall_impl; [|exact Hbl]. simpl. intros. lia.
           ++ constructor; [lia|constructor].
      * eapply Forall_impl; [|exact Hpost]. intros kl.
        apply level_seq_ok_mono. lia.
  - unfold side_seq_ok in *.
    apply Forall_app in Hm. destruct Hm as [Hpre Hpost].
    apply Forall_app. split.
    + eapply Forall_impl; [|exact Hpre]. intros kl.
      apply level_seq_ok_mono. lia.
    + constructor.
      * unfold level_seq_ok. simpl. split; repeat constructor. lia.
      * eapply Forall_impl; [|exact Hpost]. intros kl.
        apply level_seq_ok_mono. lia.
Qed.

(** [add_order] below the wrap-around of the counter. *)
Lemma add_order_seq b o :
  book_inv b -> seq_inv b ->
  OrderBook.sequence_counter_ b + 1 < 2 ^ 64 ->
  seq_inv (fst (fst (OrderBook.add_order b o))) /\
  OrderBook.sequence_counter_ b
    <= OrderBook.sequence_counter_ (fst (fst (OrderBook.add_order b o)))
    <= OrderBook.sequence_counter_ b + 1.
Proof.
  intros (Hb & Ha & _) (H0 & Hsb & Hsa) Hwrap.
  destruct (String.eqb (symbol o) (OrderBook.symbol_ b)) eqn:Hsym.
  - rewrite add_order_book by assumption. cbv zeta.
    rewrite u64_small by lia.
    set (c := OrderBook.sequence_counter_ b) in *.
    destruct (side o);
      cbn [OrderBook.sequence_counter_ OrderBook.bids_ OrderBook.asks_];
      (split; [|lia]); unfold seq_inv;
      cbn [OrderBook.sequence_counter_ OrderBook.bids_ OrderBook.asks_];
      (split; [lia|]).
    + split.
      * apply add_to_side_seq; [apply Hb|assumption|reflexivity].
      * eapply side_seq_ok_mono; [|exact Hsa]. lia.
    + split.
      * eapply side_seq_ok_mono; [|exact Hsb]. lia.
      * apply add_to_side_seq; [apply Ha|assumption|reflexivity].
  - rewrite add_order_mismatch by assumption. simpl.
    split; [repeat split; assumption | lia].
Qed.

Lemma cancel_in_side_seq c m i m' w :
  side_seq_ok c m -> OrderBook.cancel_in_side m i = Some (m', w) ->
  side_seq_ok c m'.
Proof.
  intros Hm Hc.
  destruct (cancel_in_side_some _ _ _ _ Hc)
    as (pre & k & l & post & l1 & o & l2 & -> & Hl & _ & _ & _ & _ & ->).
  eapply side_seq_ok_replace; [exact Hm|].
  unfold side_seq_ok in Hm. apply Forall_drop_middle in Hm.
  destruct Hm as [_ [Hs Hb]]. simpl in Hs, Hb. rewrite Hl in Hs, Hb.
  rewrite map_app in Hs. simpl in Hs.
  apply sorted_Z_drop_middle in Hs. rewrite <- map_app in Hs.
  apply Forall_drop_middle in Hb. destruct Hb as [Hb _].
  unfold side_seq_ok.
  destruct (l1 ++ l2) as [|x xs]; constructor; [|constructor].
  split; assumption.
Qed.

Lemma cancel_order_seq b i :
  seq_inv b ->
  seq_inv (fst (OrderBook.cancel_order b i)) /\
  OrderBook.sequence_counter_ (fst (OrderBook.cancel_order b i))
    = OrderBook.sequence_counter_ b.
Proof.
  intros (H0 & Hb & Ha). unfold OrderBook.cancel_order.
  destruct (OrderBook.cancel_in_side (OrderBook.bids_ b) i)
    as [[m w]|] eqn:E1.
  - simpl. split; [|reflexivity]. repeat split; try assumption.
    exact (cancel_in_side_seq _ _ _ _ _ Hb E1).
  - destruct (OrderBook.cancel_in_side (OrderBook.asks_ b) i)
      as [[m w]|] eqn:E2; simpl.
    + split; [|reflexivity]. repeat split; try assumption.
      exact (cancel_in_side_seq _ _ _ _ _ Ha E2).
    + split; [|reflexivity]. repeat split; assumption.
Qed.

Lemma process_new_order_seq e o :
  book_inv (order_book_ e) -> fresh_order (order_book_ e) o ->
  seq_inv (order_book_ e) ->
  OrderBook.sequence_counter_ (order_book_ e) + 1 < 2 ^ 64 ->
  seq_inv (order_book_ (fst (process_new_order e o))) /\
  OrderBook.sequence_counter_ (order_book_ (fst (process_new_order e o)))
    <= OrderBook.sequence_counter_ (order_book_ e) + 1.
Proof.
  intros Hinv Hfresh Hseq Hwrap.
  rewrite process_new_order_book.
  set (e0 := with_stats e _).
  assert (Hl : loop_inv e0 o) by (apply fresh_loop_inv; assumption).
  assert (Hseq0 : seq_inv (order_book_ e0)) by exact Hseq.
  pose proof (limit_loop_seq e0 o Hl Hseq0) as Hseq1.
  pose proof (limit_loop_result e0 o Hl) as ([Hb1 _] & Hfr & _).
  assert (Hc1 : OrderBook.sequence_counter_
                  (order_book_ (fst (limit_loop (loop_bound e0) e0 o)))
                = OrderBook.sequence_counter_ (order_book_ e)) by apply Hfr.
  destruct (type o).
  - unfold match_limit_order.
    destruct (limit_loop (loop_bound e0) e0 o) as [e1 o1]. simpl in *.
    destruct (is_active o1 && (remaining_quantity o1 >? 0)).
    + pose proof (add_order_seq (order_book_ e1) o1 Hb1 Hseq1) as Hadd.
      rewrite Hc1 in Hadd. specialize (Hadd Hwrap).
      destruct (OrderBook.add_order (order_book_ e1) o1) as [[b2 o2] r2].
      simpl in *. split; [apply Hadd|lia].
    + simpl. split; [assumption|lia].
  - rewrite match_market_order_book by assumption.
    split; [assumption|]. rewrite Hc1. lia.
Qed.

Lemma process_event_seq e ev e' :
  book_inv (order_book_ e) -> event_ok e ev ->
  process_event e ev = Some e' ->
  seq_inv (order_book_ e) ->
  OrderBook.sequence_counter_ (order_book_ e) + 1 < 2 ^ 64 ->
  seq_inv (order_book_ e') /\
  OrderBook.sequence_counter_ (order_book_ e')
    <= OrderBook.sequence_counter_ (order_book_ e) + 1.
Proof.
  unfold process_event, event_ok. intros Hinv Hok Hrun Hseq Hwrap.
  destruct (OrderEvent.type ev).
  - destruct Hok as (o & Ho & Hfresh). rewrite Ho in Hrun.
    injection Hrun as <-. now apply process_new_order_seq.
  - injection Hrun as <-. rewrite process_cancel_order_book.
    destruct (cancel_order_seq (order_book_ e)
                (OrderEvent.cancel_order_id ev) Hseq) as [H1 H2].
    split; [assumption|lia].
  - destruct Hok as (o & Ho & Hfresh). rewrite Ho in Hrun.
    injection Hrun as <-. unfold process_replace_order.
    destruct (cancel_order_seq (order_book_ e)
                (OrderEvent.cancel_order_id ev) Hseq) as [H1 H2].
    rewrite <- process_cancel_order_book in H1, H2, Hfresh.
    rewrite <- H2.
    apply process_new_order_seq; try assumption.
    + now apply process_cancel_order_inv.
    + rewrite H2. assumption.
  - injection Hrun as <-. split; [assumption|lia].
Qed.

Lemma process_events_seq evs :
  forall e e' n,
    book_inv (order_book_ e) -> events_ok e evs ->
    process_events e evs = Some e' ->
    seq_inv (order_book_ e) ->
    OrderBook.sequence_counter_ (order_book_ e) <= n ->
    n + Z.of_nat (List.length evs) < 2 ^ 64 ->
    seq_inv (order_book_ e').
Proof.
  induction evs as [|ev evs IH]; simpl List.length;
    intros e e' n Hinv Hok Hrun Hseq Hn Hlen.
  - simpl in Hrun. now injection Hrun as <-.
  - simpl in Hok, Hrun. destruct Hok as [Hev Hrest].
    destruct (process_event_inv e ev Hinv Hev) as (e1 & He1 & Hinv1).
    rewrite He1 in Hrun.
    destruct (process_event_seq e ev e1 Hinv Hev He1 Hseq) as [Hseq1 Hc1];
      [lia|].
    apply (IH e1 e' (n + 1)); auto; lia.
Qed.

(** In a state reached by fewer than 2^64 events, of two orders of one
    level the one with the smaller sequence number is queued ahead. *)
Lemma inserted_before_queued_before sym callback evs e sd k l A B :
  events_ok (configured sym callback) evs ->
  process_events (configured sym callback) evs = Some e ->
  Z.of_nat (List.length evs) < 2 ^ 64 ->
  In (k, l) (own_side sd (order_book_ e)) ->
  In A (PriceLevel.orders_ l) -> In B (PriceLevel.orders_ l) ->
  sequence_number A < sequence_number B ->
  queued_before (own_side sd (order_book_ e)) (id A) (id B).
Proof.
  intros Hok Hrun Hlen Hkl HA HB Hlt.
  assert (Hseq : seq_inv (order_book_ e)).
  { apply (process_events_seq evs (configured sym callback) e 0
             (make_inv sym) Hok Hrun).
    - unfold seq_inv, side_seq_ok. simpl. repeat split; try constructor; lia.
    - simpl. lia.
    - lia. }
  assert (Hside : side_seq_ok (OrderBook.sequence_counter_ (order_book_ e))
                    (own_side sd (order_book_ e)))
    by (destruct Hseq as (_ & Hb & Ha); destruct sd; assumption).
  unfold side_seq_ok in Hside. rewrite Forall_forall in Hside.
  destruct (Hside _ Hkl) as [Hs _]. simpl in Hs.
  destruct (in_split _ _ HA) as (l1 & rest & Hl).
  rewrite Hl in HB, Hs. rewrite map_app in Hs. simpl in Hs.
  destruct (sorted_app_lt _ _ Hs) as (_ & Hs2 & Hcross).
  apply in_app_iff in HB. destruct HB as [HB|[HB|HB]].
  - exfalso.
    specialize (Hcross (sequence_number B) (sequence_number A)
                  (in_map _ _ _ HB) (or_introl eq_refl)).
    lia.
  - subst B. lia.
  - destruct (in_split _ _ HB) as (l2 & l3 & ->).
    exists k, l, l1, A, l2, B, l3. auto.
Qed.

(** The same, with the places of the two orders in the queue. *)
Lemma inserted_before_split sym callback evs e sd k l A B :
  events_ok (configured sym callback) evs ->
  process_events (configured sym callback) evs = Some e ->
  Z.of_nat (List.length evs) < 2 ^ 64 ->
  In (k, l) (own_side sd (order_book_ e)) ->
  In A (PriceLevel.orders_ l) -> In B (PriceLevel.orders_ l) ->
  sequence_number A < sequence_number B ->
  exists l1 l2 l3, PriceLevel.orders_ l = l1 ++ A :: l2 ++ B :: l3.
Proof.
  intros Hok Hrun Hlen Hkl HA HB Hlt.
  assert (Hseq : seq_inv (order_book_ e)).
  { apply (process_events_seq evs (configured sym callback) e 0
             (make_inv sym) Hok Hrun).
    - unfold seq_inv, side_seq_ok. simpl. repeat split; try constructor; lia.
    - simpl. lia.
    - lia. }
  assert (Hside : side_seq_ok (OrderBook.sequence_counter_ (order_book_ e))
                    (own_side sd (order_book_ e)))
    by (destruct Hseq as (_ & Hb & Ha); destruct sd; assumption).
  unfold side_seq_ok in Hside. rewrite Forall_forall in Hside.
  destruct (Hside _ Hkl) as [Hs _]. simpl in Hs.
  destruct (in_split _ _ HA) as (l1 & rest & Hl).
  rewrite Hl in HB, Hs. rewrite map_app in Hs. simpl in Hs.
  destruct (sorted_app_lt _ _ Hs) as (_ & Hs2 & Hcross).
  apply in_app_iff in HB. destruct HB as [HB|[HB|HB]].
  - exfalso.
    specialize (Hcross (sequence_number B) (sequence_number A)
                  (in_map _ _ _ HB) (or_introl eq_refl)).
    lia.
  - subst B. lia.
  - destruct (in_split _ _ HB) as (l2 & l3 & ->).
    exists l1, l2, l3. exact Hl.
Qed.

End SequenceNumbers.

(** ** Time priority *)

Section QueueOrder.

Import MatchingEngine.

Lemma NoDup_app_disjoint {A : Type} (l1 l2 : list A) :
  NoDup (l1 ++ l2) -> forall x, In x l1 -> ~ In x l2.
Proof.
  induction l1 as [|y l1 IH]; simpl; intros Hnd x Hx; [contradiction|].
  inversion Hnd as [|? ? Hn Hnd']; subst.
  destruct Hx as [->|Hx].
  - intros H2. apply Hn. apply in_app_iff. auto.
  - now apply IH.
Qed.

Lemma trades_ordered_nil sd a b : trades_ordered sd a b [].
Proof. intros [|? ?] t ts2 H; discriminate. Qed.

Lemma trades_ordered_snoc sd a b ts tn :
  trades_ordered sd a b ts ->
  (resting_id sd tn <> b \/ exists t', In t' ts /\ resting_id sd t' = a) ->
  trades_ordered sd a b (ts ++ [tn]).
Proof.
  intros Hord Hnew ts1 t ts2 Heq Hb.
  destruct ts2 as [|t2 ts2] using rev_ind.
  - apply app_inj_tail in Heq. destruct Heq as [-> ->].
    destruct Hnew as [Hne|Hex]; [contradiction|assumption].
  - clear IHts2.
    rewrite app_comm_cons, app_assoc in Heq.
    apply app_inj_tail in Heq. destruct Heq as [-> _].
    apply (Hord ts1 t ts2); auto.
Qed.

(** In a sorted side the level of a key is one. *)
Lemma sorted_same_level pre k l post l0 :
  StronglySorted Z.lt (keys (pre ++ (k, l) :: post)) ->
  In (k, l0) (pre ++ (k, l) :: post) -> l0 = l.
Proof.
  intros Hs Hin. rewrite keys_app in Hs. simpl in Hs.
  destruct (sorted_app_lt _ _ Hs) as (_ & Hs2 & Hlt).
  inversion Hs2 as [|? ? _ Hf]; subst. rewrite Forall_forall in Hf.
  apply in_app_iff in Hin. destruct Hin as [Hin|[Heq|Hin]].
  - exfalso. assert (Hk : In k (keys pre)) by (apply (in_map fst _ _ Hin)).
    specialize (Hlt k k Hk (or_introl eq_refl)). lia.
  - congruence.
  - exfalso. assert (Hk : In k (keys post)) by (apply (in_map fst _ _ Hin)).
    specialize (Hf k Hk). lia.
Qed.

(** The ids of the book are those of the orders of one opposing level
    and, apart from them, those of the rest of the opposing side. *)
Lemma level_ids_apart sd b pre k l post :
  ids_unique b ->
  opp_side sd b = pre ++ (k, l) :: post ->
  NoDup (map id (PriceLevel.orders_ l)) /\
  forall x y,
    In x (PriceLevel.orders_ l) ->
    In y (OrderBook.side_orders (pre ++ post)) -> id x <> id y.
Proof.
  intros Hnd Hopp.
  assert (Hside : NoDup (map id (OrderBook.side_orders (opp_side sd b)))).
  { unfold ids_unique, book_ids, OrderBook.book_orders in Hnd.
    rewrite map_app in Hnd.
    destruct sd; simpl;
      [eapply NoDup_app_remove_l | eapply NoDup_app_remove_r]; exact Hnd. }
  rewrite Hopp, side_orders_app, side_orders_cons in Hside.
  rewrite !map_app in Hside.
  split.
  - apply NoDup_app_remove_l in Hside. now apply NoDup_app_remove_r in Hside.
  - intros x y Hx Hy Heq.
    rewrite side_orders_app, in_app_iff in Hy.
    destruct Hy as [Hy|Hy].
    + apply (NoDup_app_disjoint _ _ Hside (id y)).
      * now apply in_map.
      * apply in_app_iff. left. rewrite <- Heq. now apply in_map.
    + apply NoDup_app_remove_l in Hside.
      apply (NoDup_app_disjoint _ _ Hside (id x)).
      * now apply in_map.
      * rewrite Heq. now apply in_map.
Qed.

Lemma in_drop_middle {A : Type} (x y : A) (l1 l2 : list A) :
  In x (l1 ++ y :: l2) -> x <> y -> In x (l1 ++ l2).
Proof.
  rewrite !in_app_iff. simpl. intros [H|[H|H]] Hne; auto. congruence.
Qed.

Lemma resting_id_trade_of e o r q :
  resting_id (side o) (trade_of e o r q) = id r.
Proof. unfold trade_of. destruct (side o); reflexivity. Qed.

Lemma in_side_orders k l m x :
  In (k, l) m -> In x (PriceLevel.orders_ l) ->
  In x (OrderBook.side_orders m).
Proof.
  intros Hkl Hx. unfold OrderBook.side_orders. apply in_flat_map.
  exists (k, l). auto.
Qed.

(** One match keeps the trades ordered. *)
Lemma engine_after_priority e0 a b e o pre k r os post :
  priority_inv e0 (side o) a b e o -> loop_inv e o -> is_active o = true ->
  step_facts e o pre k r os post ->
  priority_inv e0 (side o) a b
    (engine_after e o pre k (remaining_quantity r + sum_remaining os)
                  r os post)
    (fill o (Z.min (remaining_quantity o) (remaining_quantity r))).
Proof.
  intros (_ & ts & Htr & Hord & Hq) Hinv Hact
         (Hopp & _ & _ & Hr & Hos & _).
  set (q := Z.min (remaining_quantity o) (remaining_quantity r)).
  set (tn := trade_of e o r q).
  assert (Hrid : resting_id (side o) tn = id r)
    by apply resting_id_trade_of.
  assert (Hqb : 0 < q <= remaining_quantity r).
  { destruct Hinv as [_ Hin].
    pose proof (incoming_active_bounds _ _ Hin Hact).
    assert (0 <= filled_quantity r < quantity r) by apply Hr.
    unfold q, remaining_quantity. lia. }
  assert (Hopp' : opp_side (side o)
            (order_book_
               (engine_after e o pre k
                  (remaining_quantity r + sum_remaining os) r os post))
          = pre ++ level_after k (remaining_quantity r + sum_remaining os)
                     r os q ++ post)
    by (unfold engine_after; simpl; apply opp_side_set_opp).
  split; [apply fill_side|].
  exists (ts ++ [tn]).
  split; [unfold engine_after; simpl; rewrite Htr, <- app_assoc; reflexivity|].
  destruct Hq as [Hqueued|Hdone].
  - destruct Hqueued
      as (k0 & l0 & l1 & oa & l2 & ob & l3 & Hin & Hl0 & Ha & Hb).
    rewrite Hopp in Hin.
    destruct Hinv as [Hbook _].
    pose proof (side_wf_opp (side o) _ Hbook) as [Hsorted _].
    rewrite Hopp in Hsorted.
    destruct (level_ids_apart (side o) _ pre k _ post
                (proj2 (proj2 (proj2 Hbook))) Hopp) as [HndL Hapart].
    cbn [PriceLevel.orders_] in HndL, Hapart.
    destruct (Z.eq_dec k0 k) as [->|Hk].
    + pose proof (sorted_same_level _ _ _ _ _ Hsorted Hin) as ->.
      cbn [PriceLevel.orders_] in Hl0.
      destruct l1 as [|x l1]; simpl in Hl0; injection Hl0 as <- ->.
      * (* the front is [a] itself *)
        assert (Hab : a <> b).
        { simpl in HndL. apply NoDup_cons_iff in HndL. destruct HndL as [Hn _].
          intros Heq. apply Hn. rewrite Ha, Heq, <- Hb.
          apply in_map, in_app_iff. right. left. reflexivity. }
        split.
        -- apply trades_ordered_snoc; [assumption|]. left. congruence.
        -- right. exists tn. split; [|congruence].
           apply in_app_iff. right. left. reflexivity.
      * (* the front is ahead of [a] *)
        assert (Hrb : id r <> b).
        { simpl in HndL. apply NoDup_cons_iff in HndL. destruct HndL as [Hn _].
          intros Heq. apply Hn. rewrite Heq, <- Hb.
          apply in_map, in_app_iff. right. right.
          apply in_app_iff. right. left. reflexivity. }
        split.
        -- apply trades_ordered_snoc; [assumption|]. left. congruence.
        -- left. rewrite Hopp'.
           destruct (level_after_cases _ k r _ q Hos Hqb)
             as [(_ & Hnil & _)|[(_ & _ & ->)|(_ & ->)]].
           ++ destruct l1; discriminate.
           ++ exists k, (PriceLevel.mk k
                          (sum_remaining (l1 ++ oa :: l2 ++ ob :: l3))
                          (l1 ++ oa :: l2 ++ ob :: l3)),
                l1, oa, l2, ob, l3.
              repeat split; try reflexivity; try assumption.
              apply in_app_iff. right. left. reflexivity.
           ++ eexists k, _, (fill r q :: l1), oa, l2, ob, l3.
              split; [apply in_app_iff; right; left; reflexivity|].
              repeat split; try assumption; reflexivity.
    + assert (Hin' : In (k0, l0) (pre ++ post)).
      { apply in_drop_middle with (y := (k, PriceLevel.mk k
                (remaining_quantity r + sum_remaining os) (r :: os)));
          [assumption|congruence]. }
      assert (Hrb : id r <> b).
      { rewrite <- Hb. apply Hapart; [left; reflexivity|].
        apply (in_side_orders k0 l0); [assumption|].
        rewrite Hl0. apply in_app_iff. right. right.
        apply in_app_iff. right. left. reflexivity. }
      split.
      * apply trades_ordered_snoc; [assumption|]. left. congruence.
      * left. rewrite Hopp'.
        exists k0, l0, l1, oa, l2, ob, l3. repeat split; try assumption.
        apply in_app_iff in Hin'. rewrite !in_app_iff. tauto.
  - destruct Hdone as (t & Ht & Hta).
    split.
    + apply trades_ordered_snoc; [assumption|]. right. eauto.
    + right. exists t. split; [|assumption]. apply in_app_iff. auto.
Qed.

Lemma limit_loop_priority e o a b :
  loop_inv e o ->
  queued_before (opp_side (side o) (order_book_ e)) a b ->
  priority_inv e (side o) a b
    (fst (limit_loop (loop_bound e) e o))
    (snd (limit_loop (loop_bound e) e o)).
Proof.
  intros Hinv Hq.
  apply (limit_loop_rule (priority_inv e (side o) a b)); try assumption.
  - intros e1 o1 pre k r os post HP Hinv1 Hact Hf.
    pose proof HP as (Hside & _). rewrite <- Hside in *.
    now apply engine_after_priority.
  - split; [reflexivity|]. exists []. rewrite app_nil_r.
    split; [reflexivity|]. split; [apply trades_ordered_nil|]. auto.
Qed.

Lemma process_new_order_trades e o :
  loop_inv e o ->
  trades (fst (process_new_order e o))
  = trades
      (fst (limit_loop
              (loop_bound e)
              (with_stats e
                 (mkStatistics (u64 (orders_processed (stats_ e) + 1))
                    (trades_executed (stats_ e))
                    (orders_cancelled (stats_ e)))) o)).
Proof.
  intros Hinv. before_update. unfold match_new_order.
  set (e0 := with_stats e _).
  assert (Hl : loop_inv e0 o) by exact Hinv.
  change (loop_bound e) with (loop_bound e0).
  destruct (type o).
  - unfold match_limit_order.
    destruct (limit_loop (loop_bound e0) e0 o) as [e1 o1]. simpl.
    destruct (is_active o1 && (remaining_quantity o1 >? 0)).
    + destruct (OrderBook.add_order (order_book_ e1) o1) as [[b1 o2] r1].
      reflexivity.
    + reflexivity.
  - unfold match_market_order.
    rewrite market_loop_limit_loop by assumption.
    destruct (limit_loop (loop_bound e0) e0 o) as [e1 o1]. simpl.
    destruct (remaining_quantity o1 >? 0); reflexivity.
Qed.

(** A limit order that cannot match, has the book's symbol and a fresh
    id is appended to the level of its price on its own side. *)
Lemma process_new_order_rests e o :
  fresh_order (order_book_ e) o -> type o = LIMIT ->
  can_match e o = false ->
  String.eqb (symbol o) (OrderBook.symbol_ (order_book_ e)) = true ->
  own_side (side o) (order_book_ (fst (process_new_order e o)))
  = fst (OrderBook.add_to_side (own_side (side o) (order_book_ e))
           (with_sequence_number o
              (u64 (OrderBook.sequence_counter_ (order_book_ e) + 1)))).
Proof.
  intros (Hst & Hf & Hq & _) Hty Hcm Hsym.
  assert (Hact : is_active o = true) by (unfold is_active; now rewrite Hst).
  assert (Hrem : (remaining_quantity o >? 0) = true)
    by (apply Z.gtb_lt; unfold remaining_quantity; lia).
  rewrite process_new_order_book, Hty. unfold match_limit_order.
  rewrite limit_loop_cannot_match by exact Hcm.
  rewrite Hact, Hrem. simpl andb. cbv iota.
  set (e0 := with_stats e _).
  change (order_book_ e0) with (order_book_ e).
  pose proof (add_order_book (order_book_ e) o Hsym) as Hbook.
  destruct (OrderBook.add_order (order_book_ e) o) as [[b1 o1] r1].
  simpl in Hbook. cbn [fst order_book_ with_book]. rewrite Hbook.
  destruct (side o); reflexivity.
Qed.

Lemma own_side_opposite sd b : own_side (opposite sd) b = opp_side sd b.
Proof. destruct sd; reflexivity. Qed.

End QueueOrder.

(** * Further properties of the code *)

(** ** Price levels *)

Section PriceLevelProperties.

Lemma find_in_other i os o :
  i <> id o ->
  PriceLevel.find_in i (os ++ [o]) = PriceLevel.find_in i os.
Proof.
  intros Hne. induction os as [|x os IH]; simpl.
  - destruct (id o =? i) eqn:E; [apply Z.eqb_eq in E; congruence|reflexivity].
  - destruct (id x =? i); [reflexivity|exact IH].
Qed.

(** X1 ([PriceLevel::add_order], [find_order], [remove_order]).  An order
    added to a level that holds no order of its id is found by its id, is
    the one [remove_order] takes out again, giving the level as it was,
    and leaves the lookups of the other ids and the front of a non-empty
    level as they were. *)
Theorem X1_level_add_find_remove l o :
  ~ In (id o) (map id (PriceLevel.orders_ l)) ->
  PriceLevel.find_order (PriceLevel.add_order l o) (id o) = Some o /\
  PriceLevel.remove_order (PriceLevel.add_order l o) o = l /\
  PriceLevel.order_count (PriceLevel.add_order l o)
    = S (PriceLevel.order_count l) /\
  (forall i, i <> id o ->
     PriceLevel.find_order (PriceLevel.add_order l o) i
     = PriceLevel.find_order l i) /\
  (PriceLevel.empty l = false ->
   PriceLevel.front_order (PriceLevel.add_order l o)
   = PriceLevel.front_order l).
Proof.
  intros Hnin. destruct l as [p T os]. simpl in Hnin.
  split; [|split; [|split; [|split]]].
  - unfold PriceLevel.find_order, PriceLevel.add_order. simpl.
    apply find_in_middle; [exact Hnin|reflexivity].
  - unfold PriceLevel.remove_order, PriceLevel.add_order. simpl.
    rewrite (erase_first_middle (id o) os o [] Hnin eq_refl).
    rewrite app_nil_r. f_equal. lia.
  - unfold PriceLevel.order_count, PriceLevel.add_order. simpl.
    rewrite length_app. simpl. lia.
  - intros i Hi. unfold PriceLevel.find_order, PriceLevel.add_order. simpl.
    apply find_in_other. exact Hi.
  - unfold PriceLevel.empty, PriceLevel.front_order, PriceLevel.add_order.
    simpl. destruct os; [discriminate|reflexivity].
Qed.

Lemma X1_witness :
  PriceLevel.find_order
    (PriceLevel.add_order (PriceLevel.make 15000) sell1) 1 = Some sell1 /\
  PriceLevel.remove_order
    (PriceLevel.add_order (PriceLevel.make 15000) sell1) sell1
  = PriceLevel.make 15000.
Proof.
  assert (H : ~ In (id sell1)
                   (map id (PriceLevel.orders_ (PriceLevel.make 15000))))
    by (simpl; tauto).
  destruct (X1_level_add_find_remove (PriceLevel.make 15000) sell1 H)
    as (H1 & H2 & _).
  split; [exact H1|exact H2].
Defined.

Lemma sum_remaining_middle l1 (x : Order) l2 :
  sum_remaining (l1 ++ x :: l2)
  = sum_remaining (l1 ++ l2) + remaining_quantity x.
Proof.
  rewrite !sum_remaining_app. simpl. lia.
Qed.

(** X2 ([PriceLevel::remove_order]).  [remove_order] goes by the id alone:
    it takes out the first order of the level that has the id of its
    argument and lowers the total by what remains of that order; the
    other orders keep their places, and a level whose total is the sum of
    what remains of its orders stays so.  When no order has the id the
    level is unchanged. *)
Theorem X2_level_remove_by_id l o :
  PriceLevel.total_quantity_ l = sum_remaining (PriceLevel.orders_ l) ->
  let l' := PriceLevel.remove_order l o in
  PriceLevel.total_quantity_ l' = sum_remaining (PriceLevel.orders_ l') /\
  PriceLevel.price l' = PriceLevel.price l /\
  (~ In (id o) (map id (PriceLevel.orders_ l)) -> l' = l) /\
  (In (id o) (map id (PriceLevel.orders_ l)) ->
   exists l1 x l2,
     PriceLevel.orders_ l = l1 ++ x :: l2 /\ id x = id o /\
     ~ In (id o) (map id l1) /\
     PriceLevel.orders_ l' = l1 ++ l2 /\
     PriceLevel.total_quantity_ l'
       = PriceLevel.total_quantity_ l - remaining_quantity x /\
     PriceLevel.order_count l = S (PriceLevel.order_count l')).
Proof.
  intros HT l'. subst l'. unfold PriceLevel.remove_order.
  destruct (PriceLevel.erase_first (id o) (PriceLevel.orders_ l))
    as [[found rest]|] eqn:E.
  - destruct (erase_first_some _ _ _ _ E) as (l1 & l2 & Hos & Hrest & Hid & Hn).
    simpl. split; [|split; [|split]].
    + rewrite HT, Hos, Hrest, sum_remaining_middle. lia.
    + reflexivity.
    + intros Hnin. exfalso. apply Hnin. rewrite Hos, map_app. simpl.
      apply in_or_app. right. left. exact Hid.
    + intros _. exists l1, found, l2.
      repeat match goal with |- _ /\ _ => split end; auto.
      unfold PriceLevel.order_count. simpl. rewrite Hos, Hrest.
      rewrite !length_app. simpl. lia.
  - apply erase_first_none in E.
    split; [exact HT|]. split; [reflexivity|].
    split; [reflexivity|]. intros Hin. contradiction.
Qed.

Lemma X2_witness :
  PriceLevel.orders_
    (PriceLevel.remove_order
       (PriceLevel.mk 15000 200
          [with_sequence_number sell1 1; with_sequence_number sell2 2])
       sell1)
  = [with_sequence_number sell2 2].
Proof.
  pose (l := PriceLevel.mk 15000 200
               [with_sequence_number sell1 1; with_sequence_number sell2 2]).
  assert (HT : PriceLevel.total_quantity_ l
               = sum_remaining (PriceLevel.orders_ l)) by reflexivity.
  assert (Hin : In (id sell1) (map id (PriceLevel.orders_ l)))
    by (simpl; auto).
  destruct (X2_level_remove_by_id l sell1 HT) as (_ & _ & _ & H).
  destruct (H Hin) as (l1 & x & l2 & _).
  reflexivity.
Defined.





End PriceLevelProperties.

(** ** The views of the book *)

Section BookViews.

Import MatchingEngine.

Lemma hd_error_rev {A : Type} (m : list A) :
  hd_error (rev m) = OrderBook.last_error m.
Proof.
  induction m as [|a m IH]; [reflexivity|].
  simpl rev. destruct m as [|a' m'].
  - reflexivity.
  - change (OrderBook.last_error (a :: a' :: m'))
      with (OrderBook.last_error (a' :: m')).
    rewrite <- IH. simpl. destruct (rev m' ++ [a']) eqn:E.
    + destruct (rev m'); discriminate.
    + reflexivity.
Qed.

Lemma last_error_in {A : Type} (m : list A) (x : A) :
  OrderBook.last_error m = Some x -> In x m.
Proof.
  intros H. destruct (last_error_some _ _ H) as (ys & ->).
  apply in_or_app. right. left. reflexivity.
Qed.

Lemma hd_error_in {A : Type} (m : list A) (x : A) :
  hd_error m = Some x -> In x m.
Proof.
  destruct m; simpl; [discriminate|]. intros H. injection H as ->. now left.
Qed.

Lemma in_side_orders_level m o :
  In o (OrderBook.side_orders m) ->
  exists k l, In (k, l) m /\ In o (PriceLevel.orders_ l).
Proof.
  unfold OrderBook.side_orders. rewrite in_flat_map.
  intros ([k l] & Hin & Ho). exists k, l. split; assumption.
Qed.

Lemma side_wf_level sd m k l :
  side_wf sd m -> In (k, l) m -> level_wf sd (k, l).
Proof.
  intros (_ & Hf) Hin. rewrite Forall_forall in Hf. exact (Hf _ Hin).
Qed.

Lemma side_wf_resting sd m o :
  side_wf sd m -> In o (OrderBook.side_orders m) ->
  resting_ok sd (price o) o /\ In (price o) (keys m).
Proof.
  intros Hwf Hin.
  destruct (in_side_orders_level _ _ Hin) as (k & l & Hkl & Ho).
  destruct (side_wf_level _ _ _ _ Hwf Hkl) as (_ & _ & Hf).
  rewrite Forall_forall in Hf. specialize (Hf _ Ho). simpl in Hf.
  assert (Hp : price o = k) by (destruct Hf as (Hp & _); exact Hp).
  rewrite Hp. split; [exact Hf|].
  apply (in_map fst _ _ Hkl).
Qed.

Lemma level_wf_some_order sd k l :
  level_wf sd (k, l) ->
  exists o, In o (PriceLevel.orders_ l) /\ resting_ok sd k o.
Proof.
  intros Hwf. destruct (level_wf_front _ _ _ Hwf) as (r & os & -> & Hr & _).
  exists r. split; [now left|exact Hr].
Qed.

(** X4 ([OrderBook::best_bid], [best_ask]).  In every state the engine
    reaches, [best_bid] is the highest price of a resting buy order and
    [best_ask] the lowest price of a resting sell order: both are the
    price of an order resting on that side, and no order of the side
    has a better one.  They are empty exactly when the side holds no
    order. *)
Theorem X4_best_prices e :
  reachable e ->
  let b := order_book_ e in
  (forall o, In o (OrderBook.side_orders (OrderBook.bids_ b)) ->
     side o = BUY /\
     exists bid, OrderBook.best_bid b = Some bid /\ price o <= bid) /\
  (forall o, In o (OrderBook.side_orders (OrderBook.asks_ b)) ->
     side o = SELL /\
     exists ask, OrderBook.best_ask b = Some ask /\ ask <= price o) /\
  (forall bid, OrderBook.best_bid b = Some bid ->
     exists o, In o (OrderBook.side_orders (OrderBook.bids_ b)) /\
               price o = bid) /\
  (forall ask, OrderBook.best_ask b = Some ask ->
     exists o, In o (OrderBook.side_orders (OrderBook.asks_ b)) /\
               price o = ask) /\
  (OrderBook.best_bid b = None <->
   OrderBook.side_orders (OrderBook.bids_ b) = []) /\
  (OrderBook.best_ask b = None <->
   OrderBook.side_orders (OrderBook.asks_ b) = []).
Proof.
  intros Hr b. destruct (reachable_inv e Hr) as (Hb & Ha & _ & _).
  fold b in Hb, Ha.
  assert (Hbid : forall o, In o (OrderBook.side_orders (OrderBook.bids_ b)) ->
            side o = BUY /\
            exists bid, OrderBook.best_bid b = Some bid /\ price o <= bid).
  { intros o Ho. destruct (side_wf_resting _ _ _ Hb Ho) as (Hres & Hk).
    split; [apply Hres|].
    unfold OrderBook.best_bid.
    destruct (OrderBook.last_error (OrderBook.bids_ b)) as [[kb lb]|] eqn:E.
    - exists kb. split; [reflexivity|].
      exact (last_key_max _ _ _ (proj1 Hb) E _ Hk).
    - apply last_error_none in E. rewrite E in Hk. contradiction. }
  assert (Hask : forall o, In o (OrderBook.side_orders (OrderBook.asks_ b)) ->
            side o = SELL /\
            exists ask, OrderBook.best_ask b = Some ask /\ ask <= price o).
  { intros o Ho. destruct (side_wf_resting _ _ _ Ha Ho) as (Hres & Hk).
    split; [apply Hres|].
    unfold OrderBook.best_ask.
    destruct (hd_error (OrderBook.asks_ b)) as [[ka la]|] eqn:E.
    - exists ka. split; [reflexivity|].
      exact (hd_key_min _ _ _ (proj1 Ha) E _ Hk).
    - destruct (OrderBook.asks_ b); [contradiction|discriminate]. }
  assert (Hbid' : forall bid, OrderBook.best_bid b = Some bid ->
            exists o, In o (OrderBook.side_orders (OrderBook.bids_ b)) /\
                      price o = bid).
  { intros bid H. unfold OrderBook.best_bid in H.
    destruct (OrderBook.last_error (OrderBook.bids_ b)) as [[kb lb]|] eqn:E;
      [|discriminate].
    simpl in H. injection H as <-.
    apply last_error_in in E.
    destruct (level_wf_some_order _ _ _ (side_wf_level _ _ _ _ Hb E))
      as (o & Ho & Hres).
    exists o. split; [exact (in_side_orders _ _ _ _ E Ho)|apply Hres]. }
  assert (Hask' : forall ask, OrderBook.best_ask b = Some ask ->
            exists o, In o (OrderBook.side_orders (OrderBook.asks_ b)) /\
                      price o = ask).
  { intros ask H. unfold OrderBook.best_ask in H.
    destruct (hd_error (OrderBook.asks_ b)) as [[ka la]|] eqn:E;
      [|discriminate].
    simpl in H. injection H as <-.
    apply hd_error_in in E.
    destruct (level_wf_some_order _ _ _ (side_wf_level _ _ _ _ Ha E))
      as (o & Ho & Hres).
    exists o. split; [exact (in_side_orders _ _ _ _ E Ho)|apply Hres]. }
  split; [exact Hbid|]. split; [exact Hask|].
  split; [exact Hbid'|]. split; [exact Hask'|].
  split; split; intros H.
  - destruct (OrderBook.side_orders (OrderBook.bids_ b)) as [|o os] eqn:E;
      [reflexivity|].
    destruct (Hbid o (or_introl eq_refl)) as (_ & bid & Hbd & _). congruence.
  - destruct (OrderBook.best_bid b) as [bid|] eqn:E; [|reflexivity].
    destruct (Hbid' bid eq_refl) as (o & Ho & _). rewrite H in Ho.
    contradiction.
  - destruct (OrderBook.side_orders (OrderBook.asks_ b)) as [|o os] eqn:E;
      [reflexivity|].
    destruct (Hask o (or_introl eq_refl)) as (_ & ask & Hbd & _). congruence.
  - destruct (OrderBook.best_ask b) as [ask|] eqn:E; [|reflexivity].
    destruct (Hask' ask eq_refl) as (o & Ho & _). rewrite H in Ho.
    contradiction.
Qed.

Lemma engine_two_asks_reachable : reachable engine_two_asks.
Proof.
  exists AAPL, false, [new_order_event sell1; new_order_event sell2].
  split; [check_events|reflexivity].
Qed.

Lemma engine_two_sided_reachable : reachable engine_two_sided.
Proof.
  exists AAPL, false, [new_order_event sell1; new_order_event sell2;
                new_order_event buy_14990].
  split; [check_events|reflexivity].
Qed.

Lemma X4_witness :
  OrderBook.best_bid (order_book_ engine_two_sided) = Some 14990 /\
  OrderBook.best_ask (order_book_ engine_two_sided) = Some 15000 /\
  exists o,
    In o (OrderBook.side_orders
            (OrderBook.asks_ (order_book_ engine_two_sided))) /\
    price o = 15000.
Proof.
  destruct (X4_best_prices engine_two_sided engine_two_sided_reachable)
    as (_ & _ & _ & H & _).
  split; [reflexivity|]. split; [reflexivity|].
  exact (H 15000 eq_refl).
Defined.

Lemma i64_in_range x : INT64_MIN <= x <= INT64_MAX -> i64 x = x.
Proof.
  unfold i64, INT64_MIN, INT64_MAX. intros H.
  rewrite Z.mod_small by lia. lia.
Qed.

Lemma i64_above x :
  INT64_MAX < x <= INT64_MAX - INT64_MIN -> i64 x = x - 2 ^ 64.
Proof.
  unfold i64, INT64_MIN, INT64_MAX. intros H.
  assert (Hm : (x + 2 ^ 63) mod 2 ^ 64 = x + 2 ^ 63 - 2 ^ 64).
  { symmetry. apply (Z.mod_unique _ _ 1); lia. }
  rewrite Hm. lia.
Qed.

Lemma engine_wide_reachable : reachable engine_wide.
Proof.
  exists AAPL, false, [new_order_event wide_bid; new_order_event wide_ask].
  split; [check_events|reflexivity].
Qed.

(** X5 ([OrderBook::spread]).  The spread is the best ask less the best
    bid, subtracted as [int64_t], when both sides hold orders and is
    empty otherwise.  In every state the engine reaches the best bid is
    below the best ask, so the spread is that difference and positive
    whenever the difference is at most INT64_MAX.  Two prices of the
    range of [int64_t] can differ by more: the spread is then the
    difference less 2^64, a negative number, although the book is not
    crossed. *)
Theorem X5_spread_positive e :
  reachable e ->
  let b := order_book_ e in
  (forall bid ask,
     OrderBook.best_bid b = Some bid -> OrderBook.best_ask b = Some ask ->
     bid < ask /\
     OrderBook.spread b = Some (i64 (ask - bid)) /\
     (ask - bid <= INT64_MAX ->
      OrderBook.spread b = Some (ask - bid)) /\
     (INT64_MIN <= bid -> ask <= INT64_MAX -> INT64_MAX < ask - bid ->
      OrderBook.spread b = Some (ask - bid - 2 ^ 64) /\
      ask - bid - 2 ^ 64 < 0)) /\
  (forall s,
     OrderBook.spread b = Some s ->
     exists bid ask,
       OrderBook.best_bid b = Some bid /\ OrderBook.best_ask b = Some ask /\
       s = i64 (ask - bid) /\
       (ask - bid <= INT64_MAX -> s = ask - bid /\ 0 < s)) /\
  (OrderBook.spread b = None <->
   OrderBook.bid_levels b = 0%nat \/ OrderBook.ask_levels b = 0%nat).
Proof.
  intros Hr b. destruct (reachable_inv e Hr) as (_ & _ & Hu & _).
  apply uncrossed_keys_uncrossed in Hu. fold b in Hu.
  unfold OrderBook.spread.
  split; [|split].
  - intros bid ask Eb Ea. specialize (Hu bid ask Eb Ea).
    rewrite Eb, Ea.
    split; [exact Hu|]. split; [reflexivity|]. split.
    + intros Hle. rewrite i64_in_range; [reflexivity|].
      unfold INT64_MIN, INT64_MAX in *. lia.
    + intros Hlo Hhi Hgt. rewrite i64_above.
      * split; [reflexivity|]. unfold INT64_MIN, INT64_MAX in *. lia.
      * unfold INT64_MIN, INT64_MAX in *. lia.
  - intros s H.
    destruct (OrderBook.best_bid b) as [bid|] eqn:Eb; [|discriminate].
    destruct (OrderBook.best_ask b) as [ask|] eqn:Ea; [|discriminate].
    injection H as <-. specialize (Hu bid ask Eb Ea).
    exists bid, ask. split; [reflexivity|]. split; [reflexivity|].
    split; [reflexivity|].
    intros Hle. rewrite i64_in_range; [lia|].
    unfold INT64_MIN, INT64_MAX in *. lia.
  - unfold OrderBook.best_bid, OrderBook.best_ask, OrderBook.bid_levels,
      OrderBook.ask_levels.
    destruct (OrderBook.bids_ b) as [|x xs] eqn:Eb.
    + simpl. split; [intros _; now left|reflexivity].
    + destruct (OrderBook.last_error (x :: xs)) as [[kb lb]|] eqn:El.
      2:{ apply last_error_none in El. discriminate. }
      destruct (OrderBook.asks_ b) as [|y ys] eqn:Ea; simpl.
      * split; [intros _; now right|reflexivity].
      * split; [discriminate|]. intros [H|H]; discriminate.
Qed.

Lemma X5_witness :
  (OrderBook.spread (order_book_ engine_two_sided) = Some 10 /\ 0 < 10) /\
  (OrderBook.best_bid (order_book_ engine_wide) = Some (-2) /\
   OrderBook.best_ask (order_book_ engine_wide) = Some INT64_MAX /\
   OrderBook.spread (order_book_ engine_wide) = Some (- INT64_MAX)).
Proof.
  split.
  - destruct (X5_spread_positive engine_two_sided engine_two_sided_reachable)
      as (_ & H & _).
    destruct (H 10 eq_refl) as (bid & ask & Hb & Ha & _ & Hs).
    injection Hb as <-. injection Ha as <-.
    split; [reflexivity|]. apply Hs. unfold INT64_MAX. lia.
  - destruct (X5_spread_positive engine_wide engine_wide_reachable)
      as (H & _).
    destruct (H (-2) INT64_MAX eq_refl eq_refl) as (_ & _ & _ & Hw).
    split; [reflexivity|]. split; [reflexivity|].
    replace (- INT64_MAX) with (INT64_MAX - -2 - 2 ^ 64)
      by (unfold INT64_MAX; lia).
    apply Hw; unfold INT64_MIN, INT64_MAX; lia.
Defined.

Lemma orders_at_app p xs ys :
  orders_at p (xs ++ ys) = orders_at p xs ++ orders_at p ys.
Proof. apply filter_app. Qed.

Lemma orders_at_all p os :
  Forall (fun o => price o = p) os -> orders_at p os = os.
Proof.
  induction 1 as [|o os Ho _ IH]; [reflexivity|].
  simpl. rewrite Ho, Z.eqb_refl, IH. reflexivity.
Qed.

Lemma orders_at_none p os :
  Forall (fun o => price o <> p) os -> orders_at p os = [].
Proof.
  induction 1 as [|o os Ho _ IH]; [reflexivity|].
  simpl. destruct (price o =? p) eqn:E; [apply Z.eqb_eq in E; contradiction|].
  exact IH.
Qed.

Lemma side_orders_prices sd m :
  Forall (level_wf sd) m ->
  Forall (fun o => In (price o) (keys m)) (OrderBook.side_orders m).
Proof.
  induction m as [|[k l] m IH]; intros Hf; [constructor|].
  inversion Hf as [|? ? Hkl Hm]; subst.
  rewrite side_orders_cons. apply Forall_app. split.
  - destruct Hkl as (_ & _ & Hres). simpl in Hres.
    eapply Forall_impl; [|exact Hres].
    intros o (Hp & _). simpl. left. symmetry. exact Hp.
  - eapply Forall_impl; [|exact (IH Hm)].
    intros o Ho. simpl. right. exact Ho.
Qed.

(** The orders of a well-formed side that have the price [k] are the
    orders of the level of key [k]. *)
Lemma side_orders_at sd m k l :
  side_wf sd m -> In (k, l) m ->
  orders_at k (OrderBook.side_orders m) = PriceLevel.orders_ l.
Proof.
  intros (Hs & Hf) Hin.
  destruct (in_split _ _ Hin) as (pre & post & ->).
  rewrite keys_app in Hs. simpl in Hs.
  destruct (sorted_app_lt _ _ Hs) as (_ & Hs2 & Hlt).
  inversion Hs2 as [|? ? _ Hgt]; subst. rewrite Forall_forall in Hgt.
  apply Forall_app in Hf. destruct Hf as (Hpre & Hrest).
  inversion Hrest as [|? ? Hkl Hpost]; subst.
  rewrite side_orders_app, side_orders_cons, !orders_at_app.
  rewrite (orders_at_none k (OrderBook.side_orders pre)).
  2:{ eapply Forall_impl; [|exact (side_orders_prices _ _ Hpre)].
      intros o Ho Heq. simpl in Ho. rewrite Heq in Ho.
      specialize (Hlt k k Ho (or_introl eq_refl)). lia. }
  rewrite (orders_at_none k (OrderBook.side_orders post)).
  2:{ eapply Forall_impl; [|exact (side_orders_prices _ _ Hpost)].
      intros o Ho Heq. simpl in Ho. rewrite Heq in Ho.
      specialize (Hgt k Ho). lia. }
  rewrite app_nil_r. simpl. apply orders_at_all.
  destruct Hkl as (_ & _ & Hres). simpl in Hres.
  eapply Forall_impl; [|exact Hres]. intros o (Hp & _). exact Hp.
Qed.

Lemma sum_remaining_positive sd k os :
  Forall (resting_ok sd k) os -> os <> [] -> 0 < sum_remaining os.
Proof.
  intros Hf Hne.
  assert (H0 : 0 <= sum_remaining os).
  { clear Hne. induction Hf as [|o os Ho _ IH]; simpl; [lia|].
    destruct Ho as (_ & _ & _ & _ & Hq). unfold remaining_quantity. lia. }
  destruct Hf as [|o os Ho Hf]; [congruence|].
  assert (H1 : 0 <= sum_remaining os).
  { clear Hne H0. induction Hf as [|o' os Ho' _ IH]; simpl; [lia|].
    destruct Ho' as (_ & _ & _ & _ & Hq). unfold remaining_quantity. lia. }
  simpl. destruct Ho as (_ & _ & _ & _ & Hq). unfold remaining_quantity. lia.
Qed.

(** What a node of a well-formed side gives as a depth entry. *)
Lemma depth_entry_of_level sd m k l :
  side_wf sd m -> In (k, l) m ->
  OrderBook.DepthLevel.price (depth_entry (k, l)) = k /\
  depth_entry_ok (OrderBook.side_orders m) (depth_entry (k, l)).
Proof.
  intros Hwf Hin.
  destruct (side_wf_level _ _ _ _ Hwf Hin) as (Hp & (Hne & HT) & Hres).
  simpl in Hp, Hne, HT, Hres.
  unfold depth_entry_ok, depth_entry. simpl.
  unfold PriceLevel.price, PriceLevel.total_quantity, PriceLevel.order_count.
  rewrite Hp, (side_orders_at _ _ _ _ Hwf Hin).
  split; [reflexivity|]. split; [exact HT|]. split; [reflexivity|].
  split.
  - destruct (PriceLevel.orders_ l); [congruence|simpl; lia].
  - rewrite HT. exact (sum_remaining_positive _ _ _ Hres Hne).
Qed.

Lemma in_firstn {A : Type} (n : nat) (l : list A) (x : A) :
  In x (firstn n l) -> In x l.
Proof.
  intros H. rewrite <- (firstn_skipn n l). apply in_or_app. now left.
Qed.

Lemma depth_loop_map n nodes :
  OrderBook.depth_loop n nodes = map depth_entry (firstn n nodes).
Proof.
  revert nodes. induction n as [|n IH]; intros [|[k l] nodes]; simpl;
    try reflexivity.
  rewrite IH. reflexivity.
Qed.

(** X7 ([OrderBook::get_bid_depth], [get_ask_depth]).  A depth snapshot
    has one entry for each level up to [max_levels]; a shorter snapshot
    is the beginning of a longer one; and its first entry is the top of
    the book. *)
Theorem X7_depth_prefix b n :
  List.length (OrderBook.get_bid_depth b n)
    = Nat.min n (OrderBook.bid_levels b) /\
  List.length (OrderBook.get_ask_depth b n)
    = Nat.min n (OrderBook.ask_levels b) /\
  (forall m, (n <= m)%nat ->
     OrderBook.get_bid_depth b n = firstn n (OrderBook.get_bid_depth b m) /\
     OrderBook.get_ask_depth b n = firstn n (OrderBook.get_ask_depth b m)) /\
  option_map OrderBook.DepthLevel.price
    (hd_error (OrderBook.get_bid_depth b (S n)))
    = OrderBook.TopOfBook.bid_price (OrderBook.get_top_of_book b) /\
  option_map OrderBook.DepthLevel.quantity
    (hd_error (OrderBook.get_bid_depth b (S n)))
    = OrderBook.TopOfBook.bid_quantity (OrderBook.get_top_of_book b) /\
  option_map OrderBook.DepthLevel.price
    (hd_error (OrderBook.get_ask_depth b (S n)))
    = OrderBook.TopOfBook.ask_price (OrderBook.get_top_of_book b) /\
  option_map OrderBook.DepthLevel.quantity
    (hd_error (OrderBook.get_ask_depth b (S n)))
    = OrderBook.TopOfBook.ask_quantity (OrderBook.get_top_of_book b).
Proof.
  unfold OrderBook.get_bid_depth, OrderBook.get_ask_depth,
    OrderBook.bid_levels, OrderBook.ask_levels.
  rewrite !depth_loop_map.
  split; [|split; [|split]].
  - rewrite length_map, length_firstn, length_rev. reflexivity.
  - rewrite length_map, length_firstn. reflexivity.
  - intros m Hm. rewrite !depth_loop_map, <- !firstn_map.
    rewrite !firstn_firstn. rewrite (Nat.min_l n m Hm). split; reflexivity.
  - change (firstn (S n) (OrderBook.asks_ b))
      with (match OrderBook.asks_ b with
            | [] => []
            | a :: l => a :: firstn n l
            end).
    assert (Hhd : hd_error (map depth_entry (firstn (S n) (rev (OrderBook.bids_ b))))
                  = option_map depth_entry
                      (OrderBook.last_error (OrderBook.bids_ b))).
    { rewrite <- hd_error_rev.
      destruct (rev (OrderBook.bids_ b)); reflexivity. }
    rewrite Hhd. unfold OrderBook.get_top_of_book.
    destruct (OrderBook.last_error (OrderBook.bids_ b)) as [[kb lb]|];
      destruct (OrderBook.asks_ b) as [|[ka la] asks]; simpl;
      repeat split; reflexivity.
Qed.

End BookViews.

(** ** Insertion, removal and cancellation in the book *)

Section BookUpdates.

Lemma modify_same m k l :
  OrderBook.find m k = Some l -> OrderBook.modify m k (fun _ => l) = m.
Proof.
  induction m as [|[k' l'] m IH]; simpl; [discriminate|].
  destruct (k' =? k) eqn:E.
  - intros H. injection H as ->. reflexivity.
  - intros H. rewrite (IH H). reflexivity.
Qed.

Lemma find_some_in m k l : OrderBook.find m k = Some l -> In k (keys m).
Proof.
  intros H. destruct (OrderBook.find m k) eqn:E; [|discriminate].
  destruct (in_dec Z.eq_dec k (keys m)) as [Hin|Hn]; [exact Hin|].
  apply find_none_not_in in Hn. congruence.
Qed.

Lemma set_own_side_same sd b : set_own_side sd b (own_side sd b) = b.
Proof. destruct sd, b; reflexivity. Qed.

Lemma remove_order_sides b o :
  OrderBook.remove_order b o =
  (set_own_side (side o) b
     (fst (OrderBook.remove_from_side (own_side (side o) b) o)),
   snd (OrderBook.remove_from_side (own_side (side o) b) o)).
Proof.
  unfold OrderBook.remove_order.
  destruct (side o); simpl;
    match goal with
    | |- context [OrderBook.remove_from_side ?m o] =>
        destruct (OrderBook.remove_from_side m o)
    end; reflexivity.
Qed.

(** X9 ([OrderBook::remove_order], [remove_from_side]).  [remove_order]
    returns true exactly when the side of the order has a level at the
    price of the order, whether or not the order is in it: with a level
    that does not hold the id, the book is unchanged and the result is
    still true.  When it returns false the book is unchanged. *)
Theorem X9_remove_order_result b o :
  (snd (OrderBook.remove_order b o) = true <->
   In (price o) (keys (own_side (side o) b))) /\
  (snd (OrderBook.remove_order b o) = false ->
   fst (OrderBook.remove_order b o) = b) /\
  (forall l,
     OrderBook.find (own_side (side o) b) (price o) = Some l ->
     ~ In (id o) (map id (PriceLevel.orders_ l)) ->
     PriceLevel.orders_ l <> [] ->
     OrderBook.remove_order b o = (b, true)).
Proof.
  rewrite remove_order_sides. simpl.
  unfold OrderBook.remove_from_side.
  destruct (OrderBook.find (own_side (side o) b) (price o)) as [l|] eqn:E.
  - simpl. split; [|split].
    + split; [intros _; exact (find_some_in _ _ _ E)|reflexivity].
    + discriminate.
    + intros l0 H Hn Hne. injection H as <-.
      unfold PriceLevel.remove_order.
      apply erase_first_none in Hn. rewrite Hn.
      unfold PriceLevel.empty.
      destruct (PriceLevel.orders_ l) eqn:El; [congruence|].
      rewrite (modify_same _ _ _ E), set_own_side_same. reflexivity.
  - simpl. split; [|split].
    + split; [discriminate|]. intros Hin.
      apply find_none_not_in in E. contradiction.
    + intros _. apply set_own_side_same.
    + discriminate.
Qed.

Lemma find_emplace_same m k l :
  OrderBook.find m k = None -> OrderBook.find (OrderBook.emplace m k l) k = Some l.
Proof.
  induction m as [|[k' l'] m IH]; simpl.
  - intros _. rewrite Z.eqb_refl. reflexivity.
  - destruct (k' =? k) eqn:E; [discriminate|]. intros H.
    destruct (k <? k').
    + simpl. rewrite Z.eqb_refl. reflexivity.
    + rewrite Z.eqb_sym, E. simpl. rewrite E. exact (IH H).
Qed.

Lemma find_emplace_other m k l k0 :
  k0 <> k -> OrderBook.find (OrderBook.emplace m k l) k0 = OrderBook.find m k0.
Proof.
  intros Hne. induction m as [|[k' l'] m IH]; simpl.
  - destruct (k =? k0) eqn:E; [apply Z.eqb_eq in E; congruence|reflexivity].
  - destruct (k <? k').
    + simpl. destruct (k =? k0) eqn:E; [apply Z.eqb_eq in E; congruence|].
      reflexivity.
    + destruct (k =? k'); [reflexivity|].
      simpl. destruct (k' =? k0); [reflexivity|exact IH].
Qed.

Lemma find_modify_same m k f :
  OrderBook.find (OrderBook.modify m k f) k = option_map f (OrderBook.find m k).
Proof.
  induction m as [|[k' l'] m IH]; simpl; [reflexivity|].
  destruct (k' =? k) eqn:E; simpl; rewrite E; [reflexivity|exact IH].
Qed.

Lemma find_modify_other m k f k0 :
  k0 <> k -> OrderBook.find (OrderBook.modify m k f) k0 = OrderBook.find m k0.
Proof.
  intros Hne. induction m as [|[k' l'] m IH]; simpl; [reflexivity|].
  destruct (k' =? k) eqn:E; simpl.
  - apply Z.eqb_eq in E. subst k'.
    destruct (k =? k0) eqn:E0; [apply Z.eqb_eq in E0; congruence|reflexivity].
  - destruct (k' =? k0); [reflexivity|exact IH].
Qed.

(** The lookups in a side after [add_to_side]. *)
Lemma add_to_side_lookup m o :
  OrderBook.find (fst (OrderBook.add_to_side m o)) (price o)
  = Some (PriceLevel.add_order
            match OrderBook.find m (price o) with
            | Some l => l
            | None => PriceLevel.make (price o)
            end o) /\
  (forall k, k <> price o ->
     OrderBook.find (fst (OrderBook.add_to_side m o)) k = OrderBook.find m k) /\
  snd (OrderBook.add_to_side m o) = true.
Proof.
  unfold OrderBook.add_to_side. simpl.
  split; [|split; [|reflexivity]].
  - rewrite find_modify_same.
    destruct (OrderBook.find m (price o)) as [l|] eqn:E.
    + rewrite E. reflexivity.
    + rewrite (find_emplace_same _ _ _ E). reflexivity.
  - intros k Hk. rewrite (find_modify_other _ _ _ _ Hk).
    destruct (OrderBook.find m (price o)); [reflexivity|].
    apply find_emplace_other. exact Hk.
Qed.

Lemma add_order_sides b o :
  String.eqb (symbol o) (OrderBook.symbol_ b) = true ->
  let n := u64 (OrderBook.sequence_counter_ b + 1) in
  let o' := with_sequence_number o n in
  OrderBook.add_order b o =
  (set_own_side (side o)
     (OrderBook.mk (OrderBook.symbol_ b) (OrderBook.bids_ b)
                   (OrderBook.asks_ b) n)
     (fst (OrderBook.add_to_side (own_side (side o) b) o')),
   o', true).
Proof.
  intros Hsym n o'. unfold OrderBook.add_order. rewrite Hsym. simpl.
  destruct (side o); reflexivity.
Qed.

(** X10 ([OrderBook::add_order], [add_to_side]).  [add_order] returns
    true exactly when the order has the symbol of the book.  It then
    gives the order the next sequence number and appends it to the level
    found at its price on its side, a new one if there was none; the
    other levels of the side and the other side are as before.  When it
    returns false the book and the order are unchanged. *)
Theorem X10_add_order_lookup b o :
  let r := OrderBook.add_order b o in
  let b' := fst (fst r) in
  let o' := snd (fst r) in
  (snd r = true <-> symbol o = OrderBook.symbol_ b) /\
  (snd r = false -> b' = b /\ o' = o) /\
  (snd r = true ->
   o' = with_sequence_number o (u64 (OrderBook.sequence_counter_ b + 1)) /\
   OrderBook.sequence_counter_ b'
     = u64 (OrderBook.sequence_counter_ b + 1) /\
   OrderBook.symbol_ b' = OrderBook.symbol_ b /\
   opp_side (side o) b' = opp_side (side o) b /\
   OrderBook.find (own_side (side o) b') (price o)
     = Some (PriceLevel.add_order
               match OrderBook.find (own_side (side o) b) (price o) with
               | Some l => l
               | None => PriceLevel.make (price o)
               end o') /\
   (forall k, k <> price o ->
      OrderBook.find (own_side (side o) b') k
      = OrderBook.find (own_side (side o) b) k)).
Proof.
  cbv zeta.
  destruct (String.eqb (symbol o) (OrderBook.symbol_ b)) eqn:Hsym.
  - rewrite (add_order_sides b o Hsym). simpl.
    apply String.eqb_eq in Hsym.
    split; [split; [intros _; exact Hsym|reflexivity]|].
    split; [discriminate|]. intros _.
    set (o' := with_sequence_number o _).
    destruct (add_to_side_lookup (own_side (side o) b) o') as (H1 & H2 & _).
    change (price o') with (price o) in H1, H2.
    destruct (side o); simpl in *; repeat split; assumption.
  - rewrite (add_order_mismatch b o Hsym). simpl.
    apply String.eqb_neq in Hsym.
    split; [split; [discriminate|intros H; contradiction]|].
    split; [intros _; split; reflexivity|discriminate].
Qed.

(** X11 ([OrderBook::cancel_order]).  In a well-formed book,
    [cancel_order] takes out the order of the given id and no other: the
    orders left are those of the book whose id is another one, the id is
    gone, a second cancel of it returns false and changes nothing, and
    the book stays well formed. *)
Theorem X11_cancel_order_once b i :
  book_inv b ->
  let b1 := fst (OrderBook.cancel_order b i) in
  OrderBook.cancel_order b1 i = (b1, None) /\
  ~ In i (book_ids b1) /\
  (forall o, In o (OrderBook.book_orders b1) <->
             In o (OrderBook.book_orders b) /\ id o <> i) /\
  book_inv b1.
Proof.
  intros Hinv b1.
  assert (Hnin : ~ In i (book_ids b1) /\
                 (forall o, In o (OrderBook.book_orders b1) <->
                            In o (OrderBook.book_orders b) /\ id o <> i)).
  { subst b1. destruct (OrderBook.cancel_order b i) as [b' [w|]] eqn:E.
    - destruct (cancel_order_some b i b' w Hinv E)
        as (_ & _ & _ & A & B & o & HA & HB & _ & Hid & _ & _).
      simpl. destruct Hinv as (_ & _ & _ & Hu).
      unfold ids_unique, book_ids in Hu. rewrite HA in Hu.
      assert (Hn : ~ In i (map id (A ++ B))).
      { rewrite map_app in *. simpl in Hu. apply NoDup_remove_2 in Hu.
        rewrite Hid in Hu. exact Hu. }
      split; [unfold book_ids; rewrite HB; exact Hn|].
      intros x. rewrite HA, HB. split.
      + intros Hx. split.
        * apply in_app_iff in Hx. apply in_or_app.
          destruct Hx as [Hx|Hx]; [now left|right; now right].
        * intros Hix. apply Hn. rewrite <- Hix. apply in_map. exact Hx.
      + intros (Hx & Hix). apply (in_drop_middle x o); [exact Hx|].
        intros ->. contradiction.
    - assert (Hn : ~ In i (book_ids b)).
      { apply cancel_order_result_none. rewrite E. reflexivity. }
      rewrite (cancel_order_none b i Hn) in E. injection E as <-.
      simpl. split; [exact Hn|].
      intros x. split; [|tauto]. intros Hx. split; [exact Hx|].
      intros Hix. apply Hn. rewrite <- Hix. unfold book_ids.
      apply in_map. exact Hx. }
  destruct Hnin as (Hn & Hiff).
  split; [apply cancel_order_none; exact Hn|].
  split; [exact Hn|]. split; [exact Hiff|].
  apply cancel_order_inv. exact Hinv.
Qed.

Lemma X11_witness :
  OrderBook.cancel_order
    (fst (OrderBook.cancel_order (MatchingEngine.order_book_ engine_two_asks) 1))
    1
  = (fst (OrderBook.cancel_order
            (MatchingEngine.order_book_ engine_two_asks) 1), None).
Proof.
  assert (H : book_inv (MatchingEngine.order_book_ engine_two_asks))
    by check_book_inv.
  exact (proj1 (X11_cancel_order_once _ 1 H)).
Defined.

End BookUpdates.

(** ** The counters and the callbacks of the engine *)

Section Accounts.

Import MatchingEngine.

(** What [try_match] does, whatever the book: nothing, or one trade with
    the front order [r] of some level. *)
Lemma try_match_cases e o :
  try_match e o = (e, o, no_match) \/
  exists r b,
    let q := Z.min (remaining_quantity o) (remaining_quantity r) in
    try_match e o =
    (mk (symbol_ e) b (u64 (trade_id_counter_ e + 1))
        (mkStatistics (orders_processed (stats_ e))
                      (u64 (trades_executed (stats_ e) + 1))
                      (orders_cancelled (stats_ e)))
        (trades e ++ [trade_of e o r q]) (order_updates e)
        (status_writes e ++ writes_of o r q) (order_update_callback_ e),
     fill o q,
     MatchResult.mk true (price r) q (Some (fill r q))).
Proof.
  unfold try_match, trade_of, writes_of.
  destruct (side o).
  - destruct (OrderBook.get_best_ask_level (order_book_ e)) as [[k l]|];
      [|now left].
    destruct (PriceLevel.empty l); [now left|].
    destruct (_ && _); [now left|].
    destruct (PriceLevel.front_order l) as [r|]; [|now left].
    destruct (negb _); [now left|].
    right. exists r. eexists. reflexivity.
  - destruct (OrderBook.get_best_bid_level (order_book_ e)) as [[k l]|];
      [|now left].
    destruct (PriceLevel.empty l); [now left|].
    destruct (_ && _); [now left|].
    destruct (PriceLevel.front_order l) as [r|]; [|now left].
    destruct (negb _); [now left|].
    right. exists r. eexists. reflexivity.
Qed.

Lemma u64_succ x : u64 (u64 x + 1) = u64 (x + 1).
Proof. unfold u64. apply Z.add_mod_idemp_l. lia. Qed.

Lemma fill_symbol o q : symbol (fill o q) = symbol o.
Proof. reflexivity. Qed.

Lemma same_order_refl o : same_order o o.
Proof. unfold same_order. tauto. Qed.

Lemma same_order_trans o1 o2 o3 :
  same_order o1 o2 -> same_order o2 o3 -> same_order o1 o3.
Proof. unfold same_order. intuition congruence. Qed.

Lemma same_order_fill o q : same_order o (fill o q).
Proof. unfold same_order. repeat split. Qed.

Lemma trade_of_id_symbol e o r q :
  Trade.trade_id (trade_of e o r q) = u64 (trade_id_counter_ e + 1) /\
  Trade.symbol (trade_of e o r q) = symbol_ e.
Proof. unfold trade_of. destruct (side o); split; reflexivity. Qed.

Lemma cancel_writes_app ws1 ws2 :
  cancel_writes (ws1 ++ ws2) = cancel_writes ws1 ++ cancel_writes ws2.
Proof. apply filter_app. Qed.

Lemma cancel_writes_of o r q : cancel_writes (writes_of o r q) = [].
Proof.
  unfold writes_of, cancel_writes, fill_write.
  destruct (side o); simpl;
    repeat match goal with
           | |- context [if is_filled ?x then _ else _] =>
               destruct (is_filled x); simpl
           end; reflexivity.
Qed.

Lemma step_keeps_refl sym e o : step_keeps sym e o e o.
Proof.
  unfold step_keeps. split; [tauto|]. split; [reflexivity|].
  split; [reflexivity|]. split; [reflexivity|apply same_order_refl].
Qed.

Lemma step_keeps_trans sym e1 o1 e2 o2 e3 o3 :
  step_keeps sym e1 o1 e2 o2 -> step_keeps sym e2 o2 e3 o3 ->
  step_keeps sym e1 o1 e3 o3.
Proof.
  intros (A1 & K1 & B1 & C1 & D1) (A2 & K2 & B2 & C2 & D2).
  split; [tauto|]. split; [congruence|]. split; [congruence|].
  split; [congruence|]. exact (same_order_trans _ _ _ D1 D2).
Qed.

Lemma accounts_ok_trade sym e b o r q ws :
  cancel_writes ws = [] ->
  accounts_ok sym e ->
  accounts_ok sym
    (mk (symbol_ e) b (u64 (trade_id_counter_ e + 1))
        (mkStatistics (orders_processed (stats_ e))
                      (u64 (trades_executed (stats_ e) + 1))
                      (orders_cancelled (stats_ e)))
        (trades e ++ [trade_of e o r q]) (order_updates e)
        (status_writes e ++ ws) (order_update_callback_ e)).
Proof.
  intros Hws (Hsym & Hc & Ht & Hcan & Hids & Hsyms).
  destruct (trade_of_id_symbol e o r q) as (Hid & Hs).
  assert (Hlen : Z.of_nat (List.length (trades e ++ [trade_of e o r q]))
                 = Z.of_nat (List.length (trades e)) + 1).
  { rewrite length_app. simpl. lia. }
  unfold accounts_ok. simpl.
  split; [exact Hsym|].
  split; [rewrite Hlen, Hc; apply u64_succ|].
  split; [rewrite Hlen, Ht; apply u64_succ|].
  split; [rewrite cancel_writes_app, Hws, app_nil_r; exact Hcan|].
  split.
  - unfold trade_ids_from_one in *.
    rewrite map_app, length_app. simpl List.length.
    rewrite Nat.add_1_r, seq_S, map_app, Hids. simpl. f_equal.
    rewrite Hid, Hc, u64_succ. do 2 f_equal. lia.
  - apply Forall_app. split; [exact Hsyms|].
    constructor; [congruence|constructor].
Qed.

Lemma try_match_keeps sym e o :
  step_keeps sym e o (fst (fst (try_match e o))) (snd (fst (try_match e o))).
Proof.
  destruct (try_match_cases e o) as [->|(r & b & H)].
  - apply step_keeps_refl.
  - cbv zeta in H. rewrite H. simpl.
    split; [apply accounts_ok_trade; apply cancel_writes_of|].
    split; [reflexivity|]. split; [reflexivity|].
    split; [reflexivity|apply same_order_fill].
Qed.

Lemma limit_loop_keeps sym fuel :
  forall e o,
    step_keeps sym e o (fst (limit_loop fuel e o)) (snd (limit_loop fuel e o)).
Proof.
  induction fuel as [|fuel IH]; intros e o; simpl;
    [apply step_keeps_refl|].
  destruct (is_active o && can_match e o); [|apply step_keeps_refl].
  pose proof (try_match_keeps sym e o) as H.
  destruct (try_match e o) as [[e1 o1] r]. simpl in H.
  destruct (MatchResult.matched r); [|exact H].
  exact (step_keeps_trans _ _ _ _ _ _ _ H (IH e1 o1)).
Qed.

Lemma accounts_ok_log_write sym e w :
  OrderStatus_eqb (sw_new w) CANCELLED = false ->
  accounts_ok sym e -> accounts_ok sym (log_write e w).
Proof.
  intros Hw (Hsym & Hc & Ht & Hcan & Hids & Hsyms).
  unfold accounts_ok, log_write. simpl.
  rewrite cancel_writes_app. unfold cancel_writes at 2. simpl.
  rewrite Hw, app_nil_r. repeat split; assumption.
Qed.

Lemma same_order_with_status o s : same_order o (with_status o s).
Proof. unfold same_order. repeat split. Qed.

Lemma log_reject_keeps sym e o :
  step_keeps sym e o (log_write e (mkWrite o REJECTED))
    (sw_result (mkWrite o REJECTED)).
Proof.
  split; [apply accounts_ok_log_write; reflexivity|].
  split; [reflexivity|]. split; [reflexivity|]. split; [reflexivity|].
  apply same_order_with_status.
Qed.

Lemma market_loop_keeps sym fuel :
  forall e o,
    step_keeps sym e o (fst (market_loop fuel e o))
      (snd (market_loop fuel e o)).
Proof.
  induction fuel as [|fuel IH]; intros e o; simpl;
    [apply step_keeps_refl|].
  destruct (is_active o && can_match e o); [|apply step_keeps_refl].
  pose proof (try_match_keeps sym e o) as H.
  destruct (try_match e o) as [[e1 o1] r]. simpl in H.
  destruct (MatchResult.matched r).
  - exact (step_keeps_trans _ _ _ _ _ _ _ H (IH e1 o1)).
  - simpl. exact (step_keeps_trans _ _ _ _ _ _ _ H (log_reject_keeps _ _ _)).
Qed.

Lemma add_order_same b o :
  same_order o (snd (fst (OrderBook.add_order b o))).
Proof.
  unfold OrderBook.add_order.
  destruct (negb _); [apply same_order_refl|].
  simpl. destruct (side o); simpl; unfold same_order; repeat split.
Qed.

Lemma accounts_ok_with_book sym e b :
  accounts_ok sym e -> accounts_ok sym (with_book e b).
Proof. intros H. exact H. Qed.

Lemma match_limit_order_keeps sym e o :
  step_keeps sym e o (fst (match_limit_order e o))
    (snd (match_limit_order e o)).
Proof.
  unfold match_limit_order.
  pose proof (limit_loop_keeps sym (loop_bound e) e o) as H.
  destruct (limit_loop (loop_bound e) e o) as [e1 o1]. simpl in H.
  destruct (is_active o1 && (remaining_quantity o1 >? 0)); [|exact H].
  pose proof (add_order_same (order_book_ e1) o1) as Hs.
  destruct (OrderBook.add_order (order_book_ e1) o1) as [[b o2] r].
  simpl in *.
  refine (step_keeps_trans _ _ _ _ _ _ _ H _).
  split; [apply accounts_ok_with_book|].
  split; [reflexivity|]. split; [reflexivity|].
  split; [reflexivity|exact Hs].
Qed.

Lemma match_market_order_keeps sym e o :
  step_keeps sym e o (fst (match_market_order e o))
    (snd (match_market_order e o)).
Proof.
  unfold match_market_order.
  pose proof (market_loop_keeps sym (loop_bound e) e o) as H.
  destruct (market_loop (loop_bound e) e o) as [e1 o1]. simpl in H.
  destruct (remaining_quantity o1 >? 0); [|exact H].
  simpl. exact (step_keeps_trans _ _ _ _ _ _ _ H (log_reject_keeps _ _ _)).
Qed.

Lemma accounts_ok_notify sym e o :
  accounts_ok sym e -> accounts_ok sym (notify_update e o).
Proof.
  unfold accounts_ok. now before_update.
Qed.

(** [process_new_order]: one more order processed and, when an update
    callback is installed, one more update, for the order it was given;
    no update without a callback. *)
Lemma process_new_order_keeps sym e o :
  (accounts_ok sym e -> accounts_ok sym (fst (process_new_order e o))) /\
  orders_processed (stats_ (fst (process_new_order e o)))
    = u64 (orders_processed (stats_ e) + 1) /\
  order_update_callback_ (fst (process_new_order e o))
    = order_update_callback_ e /\
  order_updates (fst (process_new_order e o))
    = order_updates e ++ (if order_update_callback_ e
                          then [snd (process_new_order e o)] else []) /\
  same_order o (snd (process_new_order e o)).
Proof.
  rewrite process_new_order_fst, process_new_order_snd.
  unfold match_new_order.
  set (e0 := with_stats e _).
  assert (H : step_keeps sym e0 o
                (fst (match type o with
                      | LIMIT => match_limit_order e0 o
                      | MARKET => match_market_order e0 o
                      end))
                (snd (match type o with
                      | LIMIT => match_limit_order e0 o
                      | MARKET => match_market_order e0 o
                      end))).
  { destruct (type o);
      [apply match_limit_order_keeps|apply match_market_order_keeps]. }
  destruct (match type o with
            | LIMIT => match_limit_order e0 o
            | MARKET => match_market_order e0 o
            end) as [e1 o1].
  destruct H as (Ha & Hk & Hu & Hp & Hs). simpl in *.
  split; [|split; [|split; [|split]]].
  - intros Hok. apply accounts_ok_notify, (Ha Hok).
  - rewrite notify_update_stats. exact Hp.
  - rewrite notify_update_callback. exact Hk.
  - rewrite <- Hk, <- Hu.
    destruct (notify_update_cases e1 o1) as [[-> ->]|[-> ->]].
    + now rewrite app_nil_r.
    + reflexivity.
  - exact Hs.
Qed.

Lemma cancel_order_write b i b' w :
  OrderBook.cancel_order b i = (b', Some w) -> sw_new w = CANCELLED.
Proof.
  unfold OrderBook.cancel_order.
  destruct (OrderBook.cancel_in_side (OrderBook.bids_ b) i)
    as [[m w0]|] eqn:E1.
  - intros H. injection H as _ <-.
    destruct (cancel_in_side_some _ _ _ _ E1)
      as (? & ? & ? & ? & ? & ? & ? & _ & _ & _ & _ & _ & -> & _).
    reflexivity.
  - destruct (OrderBook.cancel_in_side (OrderBook.asks_ b) i)
      as [[m w0]|] eqn:E2; [|discriminate].
    intros H. injection H as _ <-.
    destruct (cancel_in_side_some _ _ _ _ E2)
      as (? & ? & ? & ? & ? & ? & ? & _ & _ & _ & _ & _ & -> & _).
    reflexivity.
Qed.

Lemma process_cancel_order_keeps sym e i :
  (accounts_ok sym e -> accounts_ok sym (process_cancel_order e i)) /\
  orders_processed (stats_ (process_cancel_order e i))
    = orders_processed (stats_ e) /\
  order_updates (process_cancel_order e i) = order_updates e /\
  trades (process_cancel_order e i) = trades e /\
  order_update_callback_ (process_cancel_order e i)
    = order_update_callback_ e.
Proof.
  unfold process_cancel_order.
  destruct (OrderBook.cancel_order (order_book_ e) i) as [b [w|]] eqn:E.
  - apply cancel_order_write in E.
    split; [|repeat split].
    intros (Hsym & Hc & Ht & Hcan & Hids & Hsyms).
    unfold accounts_ok. simpl.
    rewrite cancel_writes_app. unfold cancel_writes at 2. simpl.
    rewrite E. simpl. rewrite length_app. simpl.
    repeat split; try assumption.
    rewrite Hcan, u64_succ. f_equal. lia.
  - split; [intros H; exact H|repeat split].
Qed.

Lemma u64_add_l x n : u64 (u64 x + n) = u64 (x + n).
Proof. unfold u64. apply Z.add_mod_idemp_l. lia. Qed.

(** The counters along a run of events. *)
Lemma process_events_keeps sym evs :
  forall e e',
    process_events e evs = Some e' ->
    (accounts_ok sym e -> accounts_ok sym e') /\
    (forall n,
       orders_processed (stats_ e) = u64 n ->
       orders_processed (stats_ e')
         = u64 (n + Z.of_nat (List.length (event_orders evs)))) /\
    order_update_callback_ e' = order_update_callback_ e /\
    exists us,
      order_updates e' = order_updates e ++ us /\
      if order_update_callback_ e
      then Forall2 same_order (event_orders evs) us
      else us = [].
Proof.
  assert (Hlen : forall (o : Order) os,
            Z.of_nat (List.length (o :: os))
            = 1 + Z.of_nat (List.length os))
    by (intros; simpl List.length; lia).
  induction evs as [|ev evs IH]; intros e e' H.
  - simpl in H. injection H as <-. split; [tauto|].
    split; [intros n Hn; simpl; now rewrite Z.add_0_r|].
    split; [reflexivity|].
    exists []. rewrite app_nil_r. split; [reflexivity|].
    destruct (order_update_callback_ e); [constructor|reflexivity].
  - simpl in H. unfold process_event in H. simpl event_orders.
    destruct (OrderEvent.type ev).
    + destruct (OrderEvent.order ev) as [o|]; [|discriminate].
      destruct (IH _ _ H) as (Ha & Hp & Hk & us & Hu & Hf).
      destruct (process_new_order_keeps sym e o)
        as (Ha0 & Hp0 & Hk0 & Hu0 & Hs0).
      rewrite Hk0 in Hk, Hf.
      split; [tauto|]. split.
      { intros n Hn. rewrite Hlen, Z.add_assoc. apply Hp.
        now rewrite Hp0, Hn, u64_add_l. }
      split; [exact Hk|].
      destruct (order_update_callback_ e).
      * exists (snd (process_new_order e o) :: us).
        split; [rewrite Hu, Hu0, <- app_assoc; reflexivity|].
        constructor; assumption.
      * exists us. split; [|exact Hf].
        now rewrite Hu, Hu0, app_nil_r.
    + destruct (IH _ _ H) as (Ha & Hp & Hk & us & Hu & Hf).
      destruct (process_cancel_order_keeps sym e
                  (OrderEvent.cancel_order_id ev))
        as (Ha0 & Hp0 & Hu0 & _ & Hk0).
      rewrite Hk0 in Hk, Hf.
      split; [tauto|].
      split; [intros n Hn; apply Hp; now rewrite Hp0|].
      split; [exact Hk|].
      exists us. split; [rewrite Hu, Hu0; reflexivity|].
      destruct (OrderEvent.order ev); exact Hf.
    + destruct (OrderEvent.order ev) as [o|]; [|discriminate].
      destruct (IH _ _ H) as (Ha & Hp & Hk & us & Hu & Hf).
      unfold process_replace_order in *.
      set (e1 := process_cancel_order e (OrderEvent.cancel_order_id ev)) in *.
      destruct (process_cancel_order_keeps sym e
                  (OrderEvent.cancel_order_id ev))
        as (Ha1 & Hp1 & Hu1 & _ & Hk1).
      fold e1 in Ha1, Hp1, Hu1, Hk1.
      destruct (process_new_order_keeps sym e1 o)
        as (Ha0 & Hp0 & Hk0 & Hu0 & Hs0).
      rewrite Hk1 in Hk0, Hu0. rewrite Hk0 in Hk, Hf.
      split; [tauto|]. split.
      { intros n Hn. rewrite Hlen, Z.add_assoc. apply Hp.
        now rewrite Hp0, Hp1, Hn, u64_add_l. }
      split; [exact Hk|].
      destruct (order_update_callback_ e).
      * exists (snd (process_new_order e1 o) :: us).
        split; [rewrite Hu, Hu0, Hu1, <- app_assoc; reflexivity|].
        constructor; assumption.
      * exists us. split; [|exact Hf].
        now rewrite Hu, Hu0, Hu1, app_nil_r.
    + destruct (IH _ _ H) as (Ha & Hp & Hk & us & Hu & Hf).
      split; [exact Ha|]. split; [exact Hp|]. split; [exact Hk|].
      exists us. split; [exact Hu|].
      destruct (OrderEvent.order ev); exact Hf.
Qed.

Lemma accounts_ok_make sym callback :
  accounts_ok sym (configured sym callback).
Proof.
  unfold accounts_ok, trade_ids_from_one. simpl.
  repeat split; try reflexivity. constructor.
Qed.

(** X12 ([MatchingEngine::get_statistics], [execute_trade],
    [process_new_order], [process_cancel_order]).  After any run of
    events from the construction of the engine, with an order update
    callback installed or not, the statistics count what the engine did,
    modulo 2^64: [trades_executed] and the trade id counter are the
    number of trades made, [orders_processed] the number of NEW_ORDER
    and REPLACE_ORDER events, and [orders_cancelled] the number of writes
    of CANCELLED into an order.  With an update callback installed
    [orders_processed] is also the number of order updates handed to it;
    without one no update is handed over. *)
Theorem X12_statistics_count_effects sym callback evs e :
  process_events (configured sym callback) evs = Some e ->
  trades_executed (get_statistics e)
    = u64 (Z.of_nat (List.length (trades e))) /\
  trade_id_counter_ e = u64 (Z.of_nat (List.length (trades e))) /\
  orders_processed (get_statistics e)
    = u64 (Z.of_nat (List.length (event_orders evs))) /\
  (callback = true ->
   orders_processed (get_statistics e)
     = u64 (Z.of_nat (List.length (order_updates e)))) /\
  (callback = false -> order_updates e = []) /\
  orders_cancelled (get_statistics e)
    = u64 (Z.of_nat (List.length (cancel_writes (status_writes e)))).
Proof.
  intros H.
  destruct (process_events_keeps sym evs _ _ H)
    as (Ha & Hp & _ & us & Hu & Hf).
  destruct (Ha (accounts_ok_make sym callback)) as (_ & Hc & Ht & Hcan & _).
  specialize (Hp 0 eq_refl). rewrite Z.add_0_l in Hp.
  unfold get_statistics. simpl in Hu, Hf. subst us.
  split; [exact Ht|]. split; [exact Hc|]. split; [exact Hp|].
  split; [|split; [|exact Hcan]].
  - intros ->. rewrite Hp. f_equal. f_equal.
    clear -Hf. induction Hf; simpl; congruence.
  - intros ->. exact Hf.
Qed.

Lemma X12_witness :
  trades_executed (get_statistics engine_market_rejected) = 1 /\
  orders_processed (get_statistics engine_market_rejected) = 2 /\
  order_updates engine_market_rejected = [].
Proof.
  assert (H : process_events (configured AAPL false)
                [new_order_event (new_order 1 AAPL SELL LIMIT 15100 100);
                 new_order_event market_buy_150]
              = Some engine_market_rejected) by reflexivity.
  destruct (X12_statistics_count_effects _ _ _ _ H)
    as (H1 & _ & H2 & _ & H3 & _).
  split; [exact H1|]. split; [exact H2|]. exact (H3 eq_refl).
Defined.

Lemma seq_u64_small n :
  Z.of_nat n < 2 ^ 64 ->
  map (fun k => u64 (Z.of_nat k)) (seq 1 n) = map Z.of_nat (seq 1 n).
Proof.
  intros Hn. apply map_ext_in. intros k Hk. apply in_seq in Hk.
  apply u64_small. lia.
Qed.

(** X13 ([MatchingEngine::execute_trade]).  After any run of events from
    the construction of the engine, with an order update callback
    installed or not, the trades made carry the ids 1, 2, 3, ... in the
    order of execution (modulo 2^64, so without repetition below 2^64
    trades) and the symbol of the engine. *)
Theorem X13_trade_ids_count_up sym callback evs e :
  process_events (configured sym callback) evs = Some e ->
  map Trade.trade_id (trades e)
    = map (fun k => u64 (Z.of_nat k)) (seq 1 (List.length (trades e))) /\
  (Z.of_nat (List.length (trades e)) < 2 ^ 64 ->
   map Trade.trade_id (trades e)
     = map Z.of_nat (seq 1 (List.length (trades e))) /\
   NoDup (map Trade.trade_id (trades e))) /\
  Forall (fun t => Trade.symbol t = sym) (trades e) /\
  symbol_ e = sym.
Proof.
  intros H. destruct (process_events_keeps sym evs _ _ H) as (Ha & _).
  destruct (Ha (accounts_ok_make sym callback))
    as (Hsym & _ & _ & _ & Hids & Hsyms).
  unfold trade_ids_from_one in Hids.
  split; [exact Hids|]. split; [|split; assumption].
  intros Hlt. rewrite Hids, (seq_u64_small _ Hlt).
  split; [reflexivity|].
  apply NoDup_map_NoDup_ForallPairs; [|apply seq_NoDup].
  intros x y _ _ Hxy. lia.
Qed.

Lemma X13_witness :
  map Trade.trade_id
    (trades (fst (process_new_order engine_two_asks buy3))) = [1; 2].
Proof.
  assert (H : process_events (configured AAPL false)
                [new_order_event sell1; new_order_event sell2;
                 new_order_event buy3]
              = Some (fst (process_new_order engine_two_asks buy3)))
    by reflexivity.
  destruct (X13_trade_ids_count_up _ _ _ _ H) as (H1 & _).
  exact H1.
Defined.

(** X14 ([MatchingEngine::set_order_update_callback],
    [process_new_order], [process_event]).  With an order update
    callback installed, it is called once for each NEW_ORDER and each
    REPLACE_ORDER event, in the order of the events and never for a
    cancel; the order it is given is the order of the event, with only
    the filled quantity, the status and the sequence number changed.
    Without a callback no update is issued.  Processing events leaves
    the callback as it was installed. *)
Theorem X14_one_update_per_order sym callback evs e :
  process_events (configured sym callback) evs = Some e ->
  (callback = true ->
   Forall2 same_order (event_orders evs) (order_updates e) /\
   map id (order_updates e) = map id (event_orders evs)) /\
  (callback = false -> order_updates e = []) /\
  order_update_callback_ e = callback.
Proof.
  intros H.
  destruct (process_events_keeps sym evs _ _ H)
    as (_ & _ & Hk & us & Hu & Hf).
  simpl in Hu, Hf, Hk. subst us.
  split; [|split; [|exact Hk]].
  - intros ->. split; [exact Hf|].
    clear H Hk. induction Hf as [|o u os us Hou _ IH]; [reflexivity|].
    simpl. rewrite IH. f_equal. apply Hou.
  - intros ->. exact Hf.
Qed.

Lemma X14_witness :
  map id
    (order_updates
       (process_cancel_order
          (fst (process_new_order
                  (fst (process_new_order (configured AAPL true)
                          (new_order 1 AAPL SELL LIMIT 15100 100)))
                  market_buy_150)) 1))
  = [1; 2].
Proof.
  assert (H : process_events (configured AAPL true)
                [new_order_event (new_order 1 AAPL SELL LIMIT 15100 100);
                 new_order_event market_buy_150; cancel_event 1]
              = Some (process_cancel_order
                        (fst (process_new_order
                                (fst (process_new_order
                                        (configured AAPL true)
                                        (new_order 1 AAPL SELL LIMIT
                                           15100 100)))
                                market_buy_150)) 1))
    by reflexivity.
  destruct (X14_one_update_per_order _ _ _ _ H) as (H1 & _).
  exact (proj2 (H1 eq_refl)).
Defined.

End Accounts.

(** ** Matching a new order *)

Section Matching.

Import MatchingEngine.

(** X15 ([MatchingEngine::match_limit_order], [match_market_order]).  In
    every state the engine reaches, the matching loop for a new order
    ends by its own condition within one iteration more than there are
    orders in the book: iterations allowed beyond that change nothing.
    The loop of [match_market_order] does what the loop of
    [match_limit_order] does: its branch for a failed match is never
    taken. *)
Theorem X15_matching_loops_terminate e o fuel :
  reachable e -> fresh_order (order_book_ e) o ->
  (List.length (OrderBook.book_orders (order_book_ e)) < fuel)%nat ->
  limit_loop fuel e o = limit_loop (loop_bound e) e o /\
  market_loop fuel e o = limit_loop (loop_bound e) e o /\
  is_active (snd (limit_loop fuel e o))
  && can_match (fst (limit_loop fuel e o)) (snd (limit_loop fuel e o))
  = false.
Proof.
  intros Hr Hf Hlt.
  assert (Hl : loop_inv e o)
    by (apply fresh_loop_inv; [apply reachable_inv|]; assumption).
  assert (Hb : (List.length (OrderBook.book_orders (order_book_ e))
                < loop_bound e)%nat) by (unfold loop_bound; lia).
  split; [exact (limit_loop_fuel fuel (loop_bound e) e o Hl Hlt Hb)|].
  split.
  - rewrite (market_loop_limit_loop fuel e o Hl).
    exact (limit_loop_fuel fuel (loop_bound e) e o Hl Hlt Hb).
  - exact (limit_loop_exit fuel e o Hl Hlt).
Qed.

Lemma X15_witness :
  limit_loop 3 engine_two_asks buy3
  = limit_loop (loop_bound engine_two_asks) engine_two_asks buy3 /\
  market_loop 3 engine_two_asks buy3
  = limit_loop (loop_bound engine_two_asks) engine_two_asks buy3.
Proof.
  assert (Hf : fresh_order (order_book_ engine_two_asks) buy3) by check_fresh.
  assert (Hlt : (List.length
                   (OrderBook.book_orders (order_book_ engine_two_asks))
                 < 3)%nat) by (simpl; lia).
  destruct (X15_matching_loops_terminate engine_two_asks buy3 3
              engine_two_asks_reachable Hf Hlt) as (H1 & H2 & _).
  split; [exact H1|exact H2].
Defined.

Lemma sum_quantities_app ts1 ts2 :
  sum_quantities (ts1 ++ ts2) = sum_quantities ts1 + sum_quantities ts2.
Proof.
  induction ts1 as [|t ts1 IH]; simpl; [reflexivity|]. rewrite IH. lia.
Qed.

Lemma trade_of_quantity e o r q : Trade.quantity (trade_of e o r q) = q.
Proof. unfold trade_of. destruct (side o); reflexivity. Qed.

Lemma matched_so_far_refl e o : matched_so_far e o e o.
Proof.
  split; [apply same_order_refl|]. exists [].
  rewrite app_nil_r. simpl. repeat split; try constructor; lia.
Qed.

(** One match keeps [matched_so_far]. *)
Lemma engine_after_matched e0 o0 e o pre k r os post :
  matched_so_far e0 o0 e o -> loop_inv e o -> is_active o = true ->
  step_facts e o pre k r os post ->
  matched_so_far e0 o0
    (engine_after e o pre k (remaining_quantity r + sum_remaining os)
                  r os post)
    (fill o (Z.min (remaining_quantity o) (remaining_quantity r))).
Proof.
  intros (Hsame & ts & Hts & Hfor & Hfilled & Hsum) (Hb & Hin) Hact
         (Hopp & _ & _ & Hr & Hos & Hlim).
  set (q := Z.min (remaining_quantity o) (remaining_quantity r)).
  pose proof (incoming_active_bounds _ _ Hin Hact) as Hbo.
  assert (Hq : 0 < q <= remaining_quantity r).
  { destruct Hr as (_ & _ & _ & _ & Hbr).
    unfold q, remaining_quantity in *. lia. }
  destruct Hsame as (Hid & Hsy & Hsd & Hty & Hpr & Hqu).
  split.
  { unfold same_order. rewrite fill_id, fill_symbol, fill_side, fill_type,
      fill_price, fill_quantity. repeat split; assumption. }
  exists (ts ++ [trade_of e o r q]).
  split; [|split; [|split]].
  - simpl. fold q. rewrite Hts, <- app_assoc. reflexivity.
  - apply Forall_app. split; [exact Hfor|]. constructor; [|constructor].
    unfold trade_for. rewrite trade_of_quantity.
    split; [lia|].
    destruct Hr as (Hpk & _).
    unfold trade_of. rewrite <- Hsd, <- Hid, <- Hpr, <- Hty.
    destruct (side o); simpl; (split; [reflexivity|]);
      intros Hl; specialize (Hlim Hl); lia.
  - rewrite fill_filled, sum_quantities_app. simpl.
    rewrite trade_of_quantity. lia.
  - rewrite sum_quantities_app. simpl. rewrite trade_of_quantity.
    rewrite <- Hsum. rewrite <- Hsd.
    unfold engine_after. cbn [order_book_]. rewrite opp_side_set_opp, Hopp.
    fold q.
    rewrite !side_orders_app, side_orders_cons, !sum_remaining_app.
    cbn [PriceLevel.orders_].
    destruct (level_after_orders _ k r os q Hos Hq) as [(Heq & ->)|(Hlt & ->)];
      simpl; rewrite ?fill_remaining; lia.
Qed.

Lemma limit_loop_matched e o :
  loop_inv e o ->
  matched_so_far e o (fst (limit_loop (loop_bound e) e o))
    (snd (limit_loop (loop_bound e) e o)).
Proof.
  intros Hinv.
  exact (proj2 (limit_loop_rule (matched_so_far e o)
                  (engine_after_matched e o) (loop_bound e) e o Hinv
                  (matched_so_far_refl e o))).
Qed.

(** [process_new_order] in terms of the loop it runs. *)
Lemma process_new_order_shape e o :
  loop_inv e o ->
  let e0 :=
    with_stats e
      (mkStatistics (u64 (orders_processed (stats_ e) + 1))
                    (trades_executed (stats_ e))
                    (orders_cancelled (stats_ e))) in
  let e1 := fst (limit_loop (loop_bound e) e0 o) in
  let o1 := snd (limit_loop (loop_bound e) e0 o) in
  let e' := fst (process_new_order e o) in
  let o' := snd (process_new_order e o) in
  trades e' = trades e1 /\ symbol_ e' = symbol_ e1 /\
  match type o with
  | MARKET =>
      order_book_ e' = order_book_ e1 /\
      o' = (if remaining_quantity o1 >? 0 then with_status o1 REJECTED
            else o1)
  | LIMIT =>
      (order_book_ e', o') =
      if is_active o1 && (remaining_quantity o1 >? 0)
      then fst (OrderBook.add_order (order_book_ e1) o1)
      else (order_book_ e1, o1)
  end.
Proof.
  intros Hinv. cbv zeta. before_update. unfold match_new_order.
  set (e0 := with_stats e _).
  assert (Hl : loop_inv e0 o) by exact Hinv.
  change (loop_bound e) with (loop_bound e0).
  destruct (type o).
  - unfold match_limit_order.
    destruct (limit_loop (loop_bound e0) e0 o) as [e1 o1]. simpl.
    destruct (is_active o1 && (remaining_quantity o1 >? 0)).
    + destruct (OrderBook.add_order (order_book_ e1) o1) as [[b1 o2] r1].
      repeat split; reflexivity.
    + repeat split; reflexivity.
  - unfold match_market_order.
    rewrite market_loop_limit_loop by assumption.
    destruct (limit_loop (loop_bound e0) e0 o) as [e1 o1]. simpl.
    destruct (remaining_quantity o1 >? 0); repeat split; reflexivity.
Qed.

(** The opposing side after [process_new_order] is the one the loop
    leaves. *)
Lemma add_order_opp_side b o :
  opp_side (side o) (fst (fst (OrderBook.add_order b o))) = opp_side (side o) b.
Proof.
  unfold OrderBook.add_order. destruct (negb _); [reflexivity|].
  simpl. destruct (side o); reflexivity.
Qed.

Lemma add_order_filled b o :
  filled_quantity (snd (fst (OrderBook.add_order b o))) = filled_quantity o /\
  status (snd (fst (OrderBook.add_order b o))) = status o.
Proof.
  unfold OrderBook.add_order. destruct (negb _); [split; reflexivity|].
  simpl. destruct (side o); split; reflexivity.
Qed.

(** What [process_new_order] makes of a fresh order in a well-formed
    book. *)
Lemma process_new_order_matched e o :
  book_inv (order_book_ e) -> fresh_order (order_book_ e) o ->
  exists ts,
    trades (fst (process_new_order e o)) = trades e ++ ts /\
    Forall (trade_for o) ts /\
    filled_quantity (snd (process_new_order e o)) = sum_quantities ts /\
    sum_remaining
      (OrderBook.side_orders
         (opp_side (side o) (order_book_ (fst (process_new_order e o)))))
    + sum_quantities ts
    = sum_remaining
        (OrderBook.side_orders (opp_side (side o) (order_book_ e))) /\
    sum_quantities ts <= quantity o /\ 0 <= sum_quantities ts.
Proof.
  intros Hb Hf.
  assert (Hl : loop_inv e o) by (apply fresh_loop_inv; assumption).
  pose proof (process_new_order_shape e o Hl) as Hshape. cbv zeta in Hshape.
  set (e0 := with_stats e _) in *.
  assert (Hl0 : loop_inv e0 o) by exact Hl.
  change (loop_bound e) with (loop_bound e0) in Hshape.
  pose proof (limit_loop_matched e0 o Hl0) as (Hsame & ts & Hts & Hfor & Hfi & Hsum).
  pose proof (limit_loop_result e0 o Hl0) as ((_ & Hin1) & _ & _).
  cbv zeta in Hin1.
  destruct (limit_loop (loop_bound e0) e0 o) as [e1 o1]. simpl in *.
  destruct Hshape as (Htr & _ & Hrest).
  destruct Hf as (_ & Hf0 & _ & _).
  assert (Hq1 : quantity o1 = quantity o) by apply Hsame.
  assert (Hbound : 0 <= filled_quantity o1 <= quantity o).
  { destruct Hin1 as (H0 & _ & [[_ H]|[_ H]]); lia. }
  exists ts. rewrite Htr.
  split; [exact Hts|]. split; [exact Hfor|].
  assert (Hgoal :
    filled_quantity (snd (process_new_order e o)) = filled_quantity o1 /\
    opp_side (side o) (order_book_ (fst (process_new_order e o)))
    = opp_side (side o) (order_book_ e1)).
  { destruct (type o).
    - destruct (is_active o1 && (remaining_quantity o1 >? 0)).
      + rewrite surjective_pairing in Hrest. injection Hrest as -> ->.
        assert (Hsd : side o1 = side o) by apply Hsame.
        rewrite <- Hsd. split; [apply add_order_filled|apply add_order_opp_side].
      + injection Hrest as -> ->. split; reflexivity.
    - destruct Hrest as (-> & ->).
      destruct (remaining_quantity o1 >? 0); split; reflexivity. }
  destruct Hgoal as (-> & ->).
  split; [lia|]. split; [exact Hsum|]. lia.
Qed.

(** X16 ([MatchingEngine::try_match], [can_match], [execute_trade]).  In
    every state the engine reaches, every trade made for a new LIMIT
    order is at a price within its limit: at most the limit for a buy,
    at least the limit for a sell.  Every trade made for a new order has
    a positive quantity and names the order as its buyer or its seller
    according to its side. *)
Theorem X16_limit_price_protection e o :
  reachable e -> fresh_order (order_book_ e) o ->
  exists ts,
    trades (fst (process_new_order e o)) = trades e ++ ts /\
    Forall
      (fun t =>
         0 < Trade.quantity t /\
         match side o with
         | BUY => Trade.buy_order_id t = id o /\
                  (type o = LIMIT -> Trade.price t <= price o)
         | SELL => Trade.sell_order_id t = id o /\
                   (type o = LIMIT -> price o <= Trade.price t)
         end) ts.
Proof.
  intros Hr Hf.
  destruct (process_new_order_matched e o (reachable_inv e Hr) Hf)
    as (ts & Hts & Hfor & _).
  exists ts. split; [exact Hts|exact Hfor].
Qed.

Lemma X16_witness :
  exists ts,
    trades (fst (process_new_order engine_one_ask buy_15200))
    = trades engine_one_ask ++ ts /\
    Forall (fun t => Trade.price t <= 15200) ts.
Proof.
  assert (Hr : reachable engine_one_ask).
  { exists AAPL, false, [new_order_event (new_order 1 AAPL SELL LIMIT 15100 100)].
    split; [check_events|reflexivity]. }
  assert (Hf : fresh_order (order_book_ engine_one_ask) buy_15200)
    by check_fresh.
  destruct (X16_limit_price_protection engine_one_ask buy_15200 Hr Hf)
    as (ts & Hts & Hfor).
  exists ts. split; [exact Hts|].
  eapply Forall_impl; [|exact Hfor].
  intros t (_ & _ & H). exact (H eq_refl).
Defined.

(** X17 ([MatchingEngine::execute_trade], [try_match]).  In every state
    the engine reaches, the filled quantity of a new order after
    [process_new_order] is the sum of the quantities of the trades made
    for it; it is never more than the quantity of the order; and what
    remains on the opposing side of the book has gone down by the same
    sum. *)
Theorem X17_fill_accounting e o :
  reachable e -> fresh_order (order_book_ e) o ->
  let e' := fst (process_new_order e o) in
  let o' := snd (process_new_order e o) in
  exists ts,
    trades e' = trades e ++ ts /\
    filled_quantity o' = sum_quantities ts /\
    0 <= filled_quantity o' <= quantity o /\
    sum_remaining (OrderBook.side_orders (opp_side (side o) (order_book_ e')))
    = sum_remaining (OrderBook.side_orders (opp_side (side o) (order_book_ e)))
      - sum_quantities ts.
Proof.
  intros Hr Hf e' o'.
  destruct (process_new_order_matched e o (reachable_inv e Hr) Hf)
    as (ts & Hts & _ & Hfi & Hsum & Hle & Hge).
  exists ts. subst e' o'. rewrite Hfi.
  split; [exact Hts|]. split; [reflexivity|]. split; lia.
Qed.

Lemma X17_witness :
  exists ts,
    trades (fst (process_new_order engine_two_asks buy3))
    = trades engine_two_asks ++ ts /\
    filled_quantity (snd (process_new_order engine_two_asks buy3))
    = sum_quantities ts.
Proof.
  assert (Hf : fresh_order (order_book_ engine_two_asks) buy3) by check_fresh.
  destruct (X17_fill_accounting engine_two_asks buy3
              engine_two_asks_reachable Hf) as (ts & Hts & Hfi & _).
  exists ts. split; [exact Hts|exact Hfi].
Defined.

(** X18 ([MatchingEngine::match_limit_order], [OrderBook::add_order]).
    In every state the engine reaches, a new LIMIT order is, after
    [process_new_order], either FILLED in full and not in the book, or
    still active with quantity left; it then rests in the book if it has
    the symbol of the book, and otherwise it is in no book at all: the
    failure of [add_order] is not reported and its status stays
    active. *)
Theorem X18_limit_order_outcome e o :
  reachable e -> fresh_order (order_book_ e) o -> type o = LIMIT ->
  let e' := fst (process_new_order e o) in
  let o' := snd (process_new_order e o) in
  (status o' = FILLED /\ filled_quantity o' = quantity o /\
   ~ In (id o) (book_ids (order_book_ e'))) \/
  (is_active o' = true /\ 0 <= filled_quantity o' < quantity o /\
   (symbol o = OrderBook.symbol_ (order_book_ e) ->
    In o' (OrderBook.book_orders (order_book_ e')) /\
    sequence_number o'
    = u64 (OrderBook.sequence_counter_ (order_book_ e) + 1)) /\
   (symbol o <> OrderBook.symbol_ (order_book_ e) ->
    ~ In (id o) (book_ids (order_book_ e')))).
Proof.
  intros Hr Hf Hty e' o'. subst e' o'.
  assert (Hb : book_inv (order_book_ e)) by (apply reachable_inv; exact Hr).
  assert (Hl : loop_inv e o) by (apply fresh_loop_inv; assumption).
  pose proof (process_new_order_shape e o Hl) as Hshape. cbv zeta in Hshape.
  set (e0 := with_stats e _) in *.
  assert (Hl0 : loop_inv e0 o) by exact Hl.
  change (loop_bound e) with (loop_bound e0) in Hshape.
  pose proof (limit_loop_result e0 o Hl0) as ((Hb1 & Hin1) & Hfr & Hexit).
  cbv zeta in Hb1, Hin1, Hfr, Hexit.
  destruct (limit_loop (loop_bound e0) e0 o) as [e1 o1]. simpl in *.
  destruct Hshape as (_ & _ & Hrest). rewrite Hty in Hrest.
  destruct Hfr as (Hsd & Hty1 & Hpr & Hid & Hqu & Hsy & _ & _ & _ & Hbs
                   & Hbc & _).
  simpl in Hbs, Hbc.
  destruct (is_active o1) eqn:Hact.
  - pose proof (incoming_active_bounds _ _ Hin1 Hact) as Hbo.
    assert (Hrem : (remaining_quantity o1 >? 0) = true)
      by (unfold remaining_quantity; lia).
    rewrite Hrem in Hrest. simpl in Hrest, Hexit.
    rewrite surjective_pairing in Hrest. injection Hrest as Hbk Ho.
    right.
    destruct (add_order_filled (order_book_ e1) o1) as (Hfi & Hst).
    rewrite <- Ho in Hfi, Hst.
    split; [unfold is_active in *; rewrite Hst; exact Hact|].
    split; [rewrite Hfi; lia|].
    assert (Hty1' : type o1 = LIMIT) by congruence.
    split.
    + intros Hsym.
      assert (Heqb : String.eqb (symbol o1)
                       (OrderBook.symbol_ (order_book_ e1)) = true).
      { apply String.eqb_eq. congruence. }
      destruct (add_order_inv (order_book_ e1) o1 Hb1 Heqb)
        as (b' & Hadd & _ & A & B & _ & HB).
      * apply (incoming_resting_ok _ _ Hin1 Hact Hty1').
      * apply Hin1.
      * apply cannot_match_no_cross; assumption.
      * rewrite Hadd in Hbk, Ho. simpl in Hbk, Ho.
        rewrite Hbk, Ho, HB, Hbc.
        split; [apply in_or_app; right; now left|reflexivity].
    + intros Hsym.
      assert (Heqb : String.eqb (symbol o1)
                       (OrderBook.symbol_ (order_book_ e1)) = false).
      { apply String.eqb_neq. congruence. }
      rewrite (add_order_mismatch _ _ Heqb) in Hbk. simpl in Hbk.
      rewrite Hbk, <- Hid. apply Hin1.
  - simpl in Hrest. injection Hrest as Hbk Ho. left.
    destruct Hin1 as (_ & Hnin & [[Ha _]|[Hst Hfq]]); [congruence|].
    rewrite Hbk, Ho. split; [exact Hst|]. split; [congruence|].
    rewrite <- Hid. exact Hnin.
Qed.

Lemma X18_witness :
  status (snd (process_new_order engine_one_ask buy_15200)) = FILLED /\
  In (snd (process_new_order engine_two_asks buy_14990))
     (OrderBook.book_orders
        (order_book_ (fst (process_new_order engine_two_asks buy_14990)))).
Proof.
  assert (Hf : fresh_order (order_book_ engine_two_asks) buy_14990)
    by check_fresh.
  destruct (X18_limit_order_outcome engine_two_asks buy_14990
              engine_two_asks_reachable Hf eq_refl)
    as [(H & _)|(_ & _ & H & _)].
  - vm_compute in H. discriminate.
  - split; [reflexivity|]. exact (proj1 (H eq_refl)).
Defined.

Lemma best_first_refl e o : best_first e o e o.
Proof.
  split; [reflexivity|]. exists []. rewrite app_nil_r.
  split; [reflexivity|]. split; [constructor|]. intros t k [].
Qed.

Lemma sorted_snoc (R : Z -> Z -> Prop) xs x :
  StronglySorted R xs -> Forall (fun y => R y x) xs ->
  StronglySorted R (xs ++ [x]).
Proof.
  induction 1 as [|a xs Hs IH Ha]; intros Hf; simpl.
  - constructor; constructor.
  - inversion Hf; subst. constructor; [apply IH; assumption|].
    apply Forall_app. split; [exact Ha|]. constructor; [assumption|constructor].
Qed.

Lemma trade_of_price e o r q : Trade.price (trade_of e o r q) = price r.
Proof. unfold trade_of. destruct (side o); reflexivity. Qed.

(** The key of the level an incoming order of side [sd] is matched
    against is the best of its side. *)
Lemma best_key_first sd (pre : OrderBook.SideMap) k l post :
  StronglySorted Z.lt (keys (pre ++ (k, l) :: post)) ->
  (sd = BUY -> pre = []) -> (sd = SELL -> post = []) ->
  forall x, In x (keys (pre ++ (k, l) :: post)) -> price_order sd k x.
Proof.
  intros Hs Hb Hse x Hx. destruct sd; simpl.
  - rewrite (Hb eq_refl) in *. simpl in *.
    exact (hd_key_min ((k, l) :: post) k l Hs eq_refl x Hx).
  - rewrite (Hse eq_refl) in *.
    exact (last_key_max _ k l Hs (last_error_app pre (k, l)) x Hx).
Qed.

Lemma engine_after_best_first e0 o0 e o pre k r os post :
  best_first e0 o0 e o -> loop_inv e o -> is_active o = true ->
  step_facts e o pre k r os post ->
  best_first e0 o0
    (engine_after e o pre k (remaining_quantity r + sum_remaining os)
                  r os post)
    (fill o (Z.min (remaining_quantity o) (remaining_quantity r))).
Proof.
  intros (Hsd & ts & Hts & Hsorted & Hbest) (Hb & Hin) Hact
         (Hopp & Hpre & Hpost & Hr & Hos & _).
  set (q := Z.min (remaining_quantity o) (remaining_quantity r)).
  pose proof (incoming_active_bounds _ _ Hin Hact) as Hbo.
  assert (Hq : 0 < q <= remaining_quantity r).
  { destruct Hr as (_ & _ & _ & _ & Hbr).
    unfold q, remaining_quantity in *. lia. }
  assert (Hs : StronglySorted Z.lt (keys (opp_side (side o) (order_book_ e))))
    by (apply (side_wf_opp (side o) _ Hb)).
  rewrite Hopp in Hs.
  assert (Hk : forall x,
            In x (keys (pre ++ (k, PriceLevel.mk k
                              (remaining_quantity r + sum_remaining os)
                              (r :: os)) :: post)) ->
            price_order (side o0) k x).
  { rewrite <- Hsd. exact (best_key_first (side o) pre k _ post Hs Hpre Hpost). }
  assert (Hsub : forall x,
            In x (keys (pre ++ level_after k
                          (remaining_quantity r + sum_remaining os) r os q
                        ++ post)) ->
            In x (keys (pre ++ (k, PriceLevel.mk k
                              (remaining_quantity r + sum_remaining os)
                              (r :: os)) :: post))).
  { intros x. apply keys_replace.
    exact (level_after_shape _ k r os q Hr Hos Hq). }
  rewrite <- Hsd, Hopp in Hbest. rewrite Hsd in Hbest.
  split; [rewrite fill_side; exact Hsd|].
  exists (ts ++ [trade_of e o r q]).
  split; [simpl; fold q; rewrite Hts, <- app_assoc; reflexivity|].
  assert (Hpr : Trade.price (trade_of e o r q) = k).
  { rewrite trade_of_price. apply Hr. }
  split.
  - rewrite map_app. simpl. apply sorted_snoc; [exact Hsorted|].
    rewrite Forall_forall. intros p Hp. apply in_map_iff in Hp.
    destruct Hp as (t & <- & Ht). rewrite Hpr.
    apply (Hbest t k Ht). rewrite keys_app. apply in_or_app. right. now left.
  - intros t x Ht Hx.
    unfold engine_after in Hx. cbn [order_book_] in Hx. fold q in Hx.
    rewrite <- Hsd, opp_side_set_opp in Hx. apply Hsub in Hx.
    apply in_app_iff in Ht. destruct Ht as [Ht|[<-|[]]].
    + exact (Hbest t x Ht Hx).
    + rewrite Hpr. exact (Hk x Hx).
Qed.

Lemma limit_loop_best_first e o :
  loop_inv e o ->
  best_first e o (fst (limit_loop (loop_bound e) e o))
    (snd (limit_loop (loop_bound e) e o)).
Proof.
  intros Hinv.
  exact (proj2 (limit_loop_rule (best_first e o)
                  (engine_after_best_first e o) (loop_bound e) e o Hinv
                  (best_first_refl e o))).
Qed.

(** What [process_new_order] keeps of the result of its loop. *)
Lemma process_new_order_after_loop e o :
  loop_inv e o ->
  let e0 :=
    with_stats e
      (mkStatistics (u64 (orders_processed (stats_ e) + 1))
                    (trades_executed (stats_ e))
                    (orders_cancelled (stats_ e))) in
  let e1 := fst (limit_loop (loop_bound e) e0 o) in
  let o1 := snd (limit_loop (loop_bound e) e0 o) in
  let e' := fst (process_new_order e o) in
  let o' := snd (process_new_order e o) in
  trades e' = trades e1 /\
  filled_quantity o' = filled_quantity o1 /\
  opp_side (side o) (order_book_ e') = opp_side (side o) (order_book_ e1).
Proof.
  intros Hl. cbv zeta.
  pose proof (process_new_order_shape e o Hl) as Hshape. cbv zeta in Hshape.
  set (e0 := with_stats e _) in *.
  assert (Hl0 : loop_inv e0 o) by exact Hl.
  change (loop_bound e) with (loop_bound e0) in *.
  pose proof (limit_loop_result e0 o Hl0) as (_ & Hfr & _).
  cbv zeta in Hfr.
  destruct (limit_loop (loop_bound e0) e0 o) as [e1 o1]. simpl in *.
  destruct Hshape as (Htr & _ & Hrest).
  assert (Hsd : side o1 = side o) by apply Hfr.
  split; [exact Htr|].
  destruct (type o).
  - destruct (is_active o1 && (remaining_quantity o1 >? 0)).
    + rewrite surjective_pairing in Hrest. injection Hrest as -> ->.
      rewrite <- Hsd.
      split; [apply add_order_filled|apply add_order_opp_side].
    + injection Hrest as -> ->. split; reflexivity.
  - destruct Hrest as (-> & ->).
    destruct (remaining_quantity o1 >? 0); split; reflexivity.
Qed.

(** X19 ([MatchingEngine::try_match], [OrderBook::get_best_ask_level],
    [get_best_bid_level]).  In every state the engine reaches, the
    trades made for a new order go from the best opposing price to worse
    ones: their prices do not fall for a buy and do not rise for a sell;
    and no order left on the opposing side has a better price than a
    trade that was made. *)
Theorem X19_price_priority e o :
  reachable e -> fresh_order (order_book_ e) o ->
  let e' := fst (process_new_order e o) in
  exists ts,
    trades e' = trades e ++ ts /\
    StronglySorted (price_order (side o)) (map Trade.price ts) /\
    forall t r,
      In t ts ->
      In r (OrderBook.side_orders (opp_side (side o) (order_book_ e'))) ->
      price_order (side o) (Trade.price t) (price r).
Proof.
  intros Hr Hf e'. subst e'.
  assert (Hb : book_inv (order_book_ e)) by (apply reachable_inv; exact Hr).
  assert (Hl : loop_inv e o) by (apply fresh_loop_inv; assumption).
  pose proof (process_new_order_after_loop e o Hl) as Hafter.
  cbv zeta in Hafter.
  set (e0 := with_stats e _) in *.
  assert (Hl0 : loop_inv e0 o) by exact Hl.
  change (loop_bound e) with (loop_bound e0) in *.
  pose proof (limit_loop_best_first e0 o Hl0) as (_ & ts & Hts & Hsorted & Hbest).
  pose proof (limit_loop_result e0 o Hl0) as ((Hb1 & _) & _ & _).
  cbv zeta in Hb1.
  destruct (limit_loop (loop_bound e0) e0 o) as [e1 o1]. simpl in *.
  destruct Hafter as (Htr & _ & Hopp).
  exists ts. rewrite Htr, Hopp.
  split; [exact Hts|]. split; [exact Hsorted|].
  intros t r Ht Hin. apply (Hbest t (price r) Ht).
  exact (proj2 (side_wf_resting _ _ _ (side_wf_opp (side o) _ Hb1) Hin)).
Qed.

Lemma X19_witness :
  exists ts,
    trades (fst (process_new_order engine_two_asks buy3))
    = trades engine_two_asks ++ ts /\
    StronglySorted Z.le (map Trade.price ts).
Proof.
  assert (Hf : fresh_order (order_book_ engine_two_asks) buy3) by check_fresh.
  destruct (X19_price_priority engine_two_asks buy3
              engine_two_asks_reachable Hf) as (ts & Hts & Hs & _).
  exists ts. split; [exact Hts|exact Hs].
Defined.

Lemma sum_remaining_side_nonneg sd m :
  side_wf sd m -> 0 <= sum_remaining (OrderBook.side_orders m).
Proof.
  intros Hwf.
  assert (Hf : Forall (fun o => 0 < remaining_quantity o)
                      (OrderBook.side_orders m)).
  { apply Forall_forall. intros o Ho.
    destruct (side_wf_resting _ _ _ Hwf Ho) as ((_ & _ & _ & _ & Hq) & _).
    unfold remaining_quantity. lia. }
  induction Hf as [|o os Ho _ IH]; simpl; lia.
Qed.

(** X20 ([MatchingEngine::match_market_order]).  In every state the
    engine reaches, a new MARKET order is filled for the smaller of its
    quantity and the sum of what remains of the orders on the opposing
    side. *)
Theorem X20_market_order_fill e o :
  reachable e -> fresh_order (order_book_ e) o -> type o = MARKET ->
  filled_quantity (snd (process_new_order e o))
  = Z.min (quantity o)
      (sum_remaining
         (OrderBook.side_orders (opp_side (side o) (order_book_ e)))).
Proof.
  intros Hr Hf Hty.
  assert (Hb : book_inv (order_book_ e)) by (apply reachable_inv; exact Hr).
  assert (Hl : loop_inv e o) by (apply fresh_loop_inv; assumption).
  pose proof (process_new_order_after_loop e o Hl) as Hafter.
  cbv zeta in Hafter.
  set (e0 := with_stats e _) in *.
  assert (Hl0 : loop_inv e0 o) by exact Hl.
  change (loop_bound e) with (loop_bound e0) in *.
  pose proof (limit_loop_matched e0 o Hl0)
    as (Hsame & ts & _ & _ & Hfi & Hsum).
  pose proof (limit_loop_result e0 o Hl0) as ((Hb1 & Hin1) & Hfr & Hexit).
  cbv zeta in Hb1, Hin1, Hfr, Hexit.
  destruct (limit_loop (loop_bound e0) e0 o) as [e1 o1]. simpl in *.
  destruct Hafter as (_ & -> & _).
  destruct Hf as (_ & Hf0 & _ & _).
  destruct Hfr as (Hsd & Hty1 & _ & _ & Hqu & _).
  pose proof (sum_remaining_side_nonneg _ _ (side_wf_opp (side o) _ Hb1))
    as Hnn.
  destruct (is_active o1) eqn:Hact; simpl in Hexit.
  - pose proof (incoming_active_bounds _ _ Hin1 Hact) as Hbo.
    assert (Hempty : opp_side (side o1) (order_book_ e1) = []).
    { apply can_match_market_false; [congruence|exact Hexit]. }
    rewrite Hsd in Hempty. rewrite Hempty in Hsum. simpl in Hsum. lia.
  - destruct Hin1 as (_ & _ & [[Ha _]|[_ Hfq]]); [congruence|]. lia.
Qed.

Lemma X20_witness :
  filled_quantity (snd (process_new_order engine_one_ask market_buy_150))
  = Z.min 150 100.
Proof.
  assert (Hr : reachable engine_one_ask).
  { exists AAPL, false, [new_order_event (new_order 1 AAPL SELL LIMIT 15100 100)].
    split; [check_events|reflexivity]. }
  assert (Hf : fresh_order (order_book_ engine_one_ask) market_buy_150)
    by check_fresh.
  exact (X20_market_order_fill engine_one_ask market_buy_150 Hr Hf eq_refl).
Defined.

Lemma filter_all {A : Type} (f : A -> bool) (l : list A) :
  Forall (fun x => f x = true) l -> filter f l = l.
Proof.
  induction 1 as [|x l Hx _ IH]; simpl; [reflexivity|].
  rewrite Hx, IH. reflexivity.
Qed.

Lemma filter_none {A : Type} (f : A -> bool) (l : list A) :
  Forall (fun x => f x = false) l -> filter f l = [].
Proof.
  induction 1 as [|x l Hx _ IH]; simpl; [reflexivity|].
  rewrite Hx, IH. reflexivity.
Qed.

Lemma sum_remaining_filter_nonneg (f : Order -> bool) os :
  Forall (fun o => 0 < remaining_quantity o) os ->
  0 <= sum_remaining (filter f os).
Proof.
  induction 1 as [|o os Ho _ IH]; simpl; [lia|].
  destruct (f o); simpl; lia.
Qed.

Lemma engine_after_filled_from_available e0 o0 e o pre k r os post :
  filled_from_available e0 o0 e o -> loop_inv e o -> is_active o = true ->
  step_facts e o pre k r os post ->
  filled_from_available e0 o0
    (engine_after e o pre k (remaining_quantity r + sum_remaining os)
                  r os post)
    (fill o (Z.min (remaining_quantity o) (remaining_quantity r))).
Proof.
  intros (Hsd & Hpr & Hty & Hsum) (Hb & Hin) Hact
         (Hopp & _ & _ & Hr & Hos & Hlim).
  set (q := Z.min (remaining_quantity o) (remaining_quantity r)).
  pose proof (incoming_active_bounds _ _ Hin Hact) as Hbo.
  assert (Hq : 0 < q <= remaining_quantity r).
  { destruct Hr as (_ & _ & _ & _ & Hbr).
    unfold q, remaining_quantity in *. lia. }
  specialize (Hlim Hty).
  assert (Hwl : forall x, price x = k -> within_limit o0 x = true).
  { intros x Hx. unfold within_limit. rewrite <- Hsd, <- Hpr, Hx.
    destruct (side o); lia. }
  split; [rewrite fill_side; exact Hsd|].
  split; [rewrite fill_price; exact Hpr|].
  split; [rewrite fill_type; exact Hty|].
  rewrite fill_filled. fold q. rewrite <- Hsum.
  unfold available_within_limit, engine_after. cbn [order_book_]. fold q.
  rewrite <- Hsd, opp_side_set_opp, Hopp.
  rewrite !side_orders_app, side_orders_cons, !filter_app,
    !sum_remaining_app.
  cbn [PriceLevel.orders_].
  assert (Hall : Forall (fun x => within_limit o0 x = true) (r :: os)).
  { constructor; [apply Hwl, Hr|].
    eapply Forall_impl; [|exact Hos]. intros x Hx. apply Hwl, Hx. }
  rewrite (filter_all _ _ Hall).
  destruct (level_after_orders _ k r os q Hos Hq) as [(Heq & ->)|(Hlt & ->)].
  - inversion Hall; subst. rewrite (filter_all _ os) by assumption.
    simpl. lia.
  - rewrite (filter_all _ (fill r q :: os)).
    + simpl. rewrite fill_remaining. lia.
    + inversion Hall; subst. constructor; [|assumption].
      apply Hwl. rewrite fill_price. apply Hr.
Qed.

(** X21 ([MatchingEngine::match_limit_order], [can_match]).  In every
    state the engine reaches, a new LIMIT order is filled for the
    smaller of its quantity and the sum of what remains of the orders on
    the opposing side that are priced within its limit. *)
Theorem X21_limit_order_fill e o :
  reachable e -> fresh_order (order_book_ e) o -> type o = LIMIT ->
  filled_quantity (snd (process_new_order e o))
  = Z.min (quantity o) (available_within_limit o (order_book_ e)).
Proof.
  intros Hr Hf Hty.
  assert (Hb : book_inv (order_book_ e)) by (apply reachable_inv; exact Hr).
  assert (Hl : loop_inv e o) by (apply fresh_loop_inv; assumption).
  pose proof (process_new_order_after_loop e o Hl) as Hafter.
  cbv zeta in Hafter.
  set (e0 := with_stats e _) in *.
  assert (Hl0 : loop_inv e0 o) by exact Hl.
  change (loop_bound e) with (loop_bound e0) in *.
  assert (H0 : filled_from_available e0 o e0 o).
  { repeat split; try reflexivity. exact Hty. }
  pose proof (proj2 (limit_loop_rule (filled_from_available e0 o)
                       (engine_after_filled_from_available e0 o)
                       (loop_bound e0) e0 o Hl0 H0))
    as (Hsd & Hpr & Hty1 & Hsum).
  pose proof (limit_loop_result e0 o Hl0) as ((Hb1 & Hin1) & Hfr & Hexit).
  cbv zeta in Hb1, Hin1, Hfr, Hexit.
  destruct (limit_loop (loop_bound e0) e0 o) as [e1 o1]. simpl in *.
  destruct Hafter as (_ & -> & _).
  destruct Hf as (_ & Hf0 & _ & _).
  destruct Hfr as (_ & _ & _ & _ & Hqu & _).
  change (order_book_ e0) with (order_book_ e) in Hsum.
  pose proof (side_wf_opp (side o) _ Hb1) as Hwf.
  assert (Hpos : Forall (fun x => 0 < remaining_quantity x)
                   (OrderBook.side_orders (opp_side (side o) (order_book_ e1)))).
  { apply Forall_forall. intros x Hx.
    destruct (side_wf_resting _ _ _ Hwf Hx) as ((_ & _ & _ & _ & Hq) & _).
    unfold remaining_quantity. lia. }
  pose proof (sum_remaining_filter_nonneg (within_limit o) _ Hpos) as Hnn.
  fold (available_within_limit o (order_book_ e1)) in Hnn.
  destruct (is_active o1) eqn:Hact; simpl in Hexit.
  - pose proof (incoming_active_bounds _ _ Hin1 Hact) as Hbo.
    pose proof (cannot_match_no_cross e1 o1 Hb1 Hty1 Hexit) as Hnc.
    assert (Hzero : available_within_limit o (order_book_ e1) = 0).
    { unfold available_within_limit. rewrite filter_none; [reflexivity|].
      apply Forall_forall. intros x Hx.
      destruct (side_wf_resting _ _ _ Hwf Hx) as (_ & Hk).
      unfold no_cross in Hnc. unfold within_limit.
      rewrite Hsd, Hpr in Hnc. unfold opp_side in Hk.
      destruct (side o); specialize (Hnc _ Hk); lia. }
    lia.
  - destruct Hin1 as (_ & _ & [[Ha _]|[_ Hfq]]); [congruence|]. lia.
Qed.

Lemma X21_witness :
  filled_quantity (snd (process_new_order engine_two_asks buy3))
  = Z.min 150 200.
Proof.
  assert (Hf : fresh_order (order_book_ engine_two_asks) buy3) by check_fresh.
  exact (X21_limit_order_fill engine_two_asks buy3
           engine_two_asks_reachable Hf eq_refl).
Defined.

Lemma in_find_sorted m k l :
  StronglySorted Z.lt (keys m) -> In (k, l) m -> OrderBook.find m k = Some l.
Proof.
  intros Hs Hin. destruct (in_split _ _ Hin) as (pre & post & ->).
  apply find_decomposed. exact (sorted_not_in_pre _ _ _ _ Hs).
Qed.

(** X22 (the book kept by [MatchingEngine::process_event]).  In every
    state the engine reaches, the resting orders have different ids, and
    each of them is a LIMIT order that is active, has a filled quantity
    from 0 to less than its quantity, and is held by the level found at
    its price on its side. *)
Theorem X22_resting_orders e :
  reachable e ->
  let b := order_book_ e in
  NoDup (map id (OrderBook.book_orders b)) /\
  forall o,
    In o (OrderBook.book_orders b) ->
    type o = LIMIT /\ is_active o = true /\
    0 <= filled_quantity o < quantity o /\
    exists l,
      OrderBook.find (own_side (side o) b) (price o) = Some l /\
      PriceLevel.price l = price o /\
      In o (PriceLevel.get_orders l).
Proof.
  intros Hr b. destruct (reachable_inv e Hr) as (Hb & Ha & _ & Hu).
  fold b in Hb, Ha, Hu. split; [exact Hu|].
  assert (Hside : forall sd m o,
            side_wf sd m -> In o (OrderBook.side_orders m) ->
            side o = sd /\ type o = LIMIT /\ is_active o = true /\
            0 <= filled_quantity o < quantity o /\
            exists l,
              OrderBook.find m (price o) = Some l /\
              PriceLevel.price l = price o /\
              In o (PriceLevel.get_orders l)).
  { intros sd m o Hwf Hin.
    destruct (in_side_orders_level _ _ Hin) as (k & l & Hkl & Ho).
    destruct (side_wf_level _ _ _ _ Hwf Hkl) as (Hp & _ & Hf).
    rewrite Forall_forall in Hf.
    destruct (Hf _ Ho) as (Hpk & Hsd & Hty & Hact & Hq).
    simpl in Hp, Hpk. subst k.
    split; [exact Hsd|]. split; [exact Hty|]. split; [exact Hact|].
    split; [exact Hq|].
    exists l. rewrite Hpk.
    split; [exact (in_find_sorted _ _ _ (proj1 Hwf) Hkl)|].
    split; [reflexivity|exact Ho]. }
  intros o Hin. unfold OrderBook.book_orders in Hin.
  apply in_app_iff in Hin. destruct Hin as [Hin|Hin].
  - destruct (Hside BUY _ o Hb Hin) as (-> & H). exact H.
  - destruct (Hside SELL _ o Ha Hin) as (-> & H). exact H.
Qed.

Lemma X22_witness :
  NoDup (map id (OrderBook.book_orders (order_book_ engine_two_sided))).
Proof.
  exact (proj1 (X22_resting_orders engine_two_sided
                  engine_two_sided_reachable)).
Defined.

Lemma symbols_ok_make sym callback :
  symbols_ok sym (configured sym callback).
Proof. repeat split. constructor. Qed.

Lemma engine_after_symbols sym e o pre k r os post :
  symbols_ok sym e -> loop_inv e o -> is_active o = true ->
  step_facts e o pre k r os post ->
  symbols_ok sym
    (engine_after e o pre k (remaining_quantity r + sum_remaining os)
                  r os post).
Proof.
  intros (Hs1 & Hs2 & Hall) (Hb & Hin) Hact (Hopp & _ & _ & Hr & Hos & _).
  set (q := Z.min (remaining_quantity o) (remaining_quantity r)).
  pose proof (incoming_active_bounds _ _ Hin Hact) as Hbo.
  assert (Hq : 0 < q <= remaining_quantity r).
  { destruct Hr as (_ & _ & _ & _ & Hbr).
    unfold q, remaining_quantity in *. lia. }
  destruct (book_orders_decomposed _ _ _ _ _ _ Hopp) as (A & B & HAB & Hnew).
  unfold symbols_ok, engine_after. cbn [symbol_ order_book_]. fold q.
  split; [exact Hs1|].
  split; [destruct (side o); exact Hs2|].
  rewrite Hnew. rewrite HAB in Hall. cbn [PriceLevel.orders_] in Hall.
  apply Forall_app in Hall. destruct Hall as (HA & Hall).
  apply Forall_app in Hall. destruct Hall as (Hros & HB).
  inversion Hros as [|? ? Hrs Hoss]; subst.
  apply Forall_app. split; [exact HA|].
  apply Forall_app. split; [|exact HB].
  destruct (level_after_orders _ k r os q Hos Hq) as [(_ & ->)|(_ & ->)].
  - exact Hoss.
  - constructor; [rewrite fill_symbol; exact Hrs|exact Hoss].
Qed.

Lemma limit_loop_symbols sym e o :
  loop_inv e o -> symbols_ok sym e ->
  symbols_ok sym (fst (limit_loop (loop_bound e) e o)).
Proof.
  intros Hinv Hs.
  exact (proj2 (limit_loop_rule (fun e' _ => symbols_ok sym e')
                  (engine_after_symbols sym) (loop_bound e) e o Hinv Hs)).
Qed.

Lemma process_new_order_symbols sym e o :
  book_inv (order_book_ e) -> fresh_order (order_book_ e) o ->
  symbols_ok sym e -> symbols_ok sym (fst (process_new_order e o)).
Proof.
  intros Hb Hf Hs.
  assert (Hl : loop_inv e o) by (apply fresh_loop_inv; assumption).
  pose proof (process_new_order_shape e o Hl) as Hshape. cbv zeta in Hshape.
  set (e0 := with_stats e _) in *.
  assert (Hl0 : loop_inv e0 o) by exact Hl.
  assert (Hs0 : symbols_ok sym e0) by exact Hs.
  change (loop_bound e) with (loop_bound e0) in Hshape.
  pose proof (limit_loop_symbols sym e0 o Hl0 Hs0) as Hs1.
  pose proof (limit_loop_result e0 o Hl0) as ((Hb1 & Hin1) & Hfr & Hexit).
  cbv zeta in Hb1, Hin1, Hfr, Hexit.
  destruct (limit_loop (loop_bound e0) e0 o) as [e1 o1]. simpl in *.
  destruct Hshape as (_ & Hse & Hrest).
  destruct Hs1 as (Hs1 & Hs2 & Hall).
  unfold symbols_ok. rewrite Hse. split; [exact Hs1|].
  destruct (type o) eqn:Hty.
  - destruct (is_active o1) eqn:Hact; simpl in Hrest.
    2:{ injection Hrest as -> _. split; assumption. }
    destruct (remaining_quantity o1 >? 0); simpl in Hrest.
    2:{ injection Hrest as -> _. split; assumption. }
    rewrite surjective_pairing in Hrest. injection Hrest as -> _.
    simpl in Hexit.
    assert (Hty1 : type o1 = LIMIT).
    { destruct Hfr as (_ & H & _). congruence. }
    destruct (String.eqb (symbol o1) (OrderBook.symbol_ (order_book_ e1)))
      eqn:Heqb.
    + destruct (add_order_inv (order_book_ e1) o1 Hb1 Heqb)
        as (b' & Hadd & _ & A & B & HA & HB).
      * apply (incoming_resting_ok _ _ Hin1 Hact Hty1).
      * apply Hin1.
      * apply cannot_match_no_cross; assumption.
      * pose proof (add_order_sides (order_book_ e1) o1 Heqb) as Hsides.
        cbv zeta in Hsides. rewrite Hadd in Hsides.
        injection Hsides as Hb'. rewrite Hadd. simpl.
        split.
        -- rewrite Hb'. destruct (side o1); exact Hs2.
        -- rewrite HB. rewrite HA in Hall.
           apply Forall_app in Hall. destruct Hall as (HAl & HBl).
           apply Forall_app. split; [exact HAl|].
           constructor; [|exact HBl].
           apply String.eqb_eq in Heqb. simpl. congruence.
    + rewrite (add_order_mismatch _ _ Heqb). simpl. split; assumption.
  - destruct Hrest as (-> & _). split; assumption.
Qed.

Lemma process_cancel_order_symbols sym e i :
  book_inv (order_book_ e) ->
  symbols_ok sym e -> symbols_ok sym (process_cancel_order e i).
Proof.
  intros Hb (Hs1 & Hs2 & Hall).
  unfold process_cancel_order.
  destruct (OrderBook.cancel_order (order_book_ e) i) as [b' [w|]] eqn:E.
  - destruct (cancel_order_some _ _ _ _ Hb E)
      as (_ & Hsy & _ & A & B & o & HA & HB & _).
    unfold symbols_ok. simpl. rewrite Hsy, HB. rewrite HA in Hall.
    split; [exact Hs1|]. split; [exact Hs2|].
    exact (proj1 (Forall_drop_middle _ _ _ _ Hall)).
  - assert (Hn : ~ In i (book_ids (order_book_ e))).
    { apply cancel_order_result_none. rewrite E. reflexivity. }
    rewrite (cancel_order_none _ _ Hn) in E. injection E as <-.
    repeat split; assumption.
Qed.

Lemma process_event_symbols sym e ev e' :
  book_inv (order_book_ e) -> event_ok e ev ->
  process_event e ev = Some e' ->
  symbols_ok sym e -> symbols_ok sym e'.
Proof.
  unfold process_event, event_ok. intros Hinv Hok Hrun Hs.
  destruct (OrderEvent.type ev).
  - destruct Hok as (o & Ho & Hfresh). rewrite Ho in Hrun.
    injection Hrun as <-. now apply process_new_order_symbols.
  - injection Hrun as <-. now apply process_cancel_order_symbols.
  - destruct Hok as (o & Ho & Hfresh). rewrite Ho in Hrun.
    injection Hrun as <-. unfold process_replace_order.
    apply process_new_order_symbols.
    + now apply process_cancel_order_inv.
    + now rewrite process_cancel_order_book.
    + now apply process_cancel_order_symbols.
  - now injection Hrun as <-.
Qed.

Lemma process_events_symbols sym evs :
  forall e e',
    book_inv (order_book_ e) -> events_ok e evs ->
    process_events e evs = Some e' ->
    symbols_ok sym e -> symbols_ok sym e'.
Proof.
  induction evs as [|ev evs IH]; simpl; intros e e' Hinv Hok Hrun Hs.
  - now injection Hrun as <-.
  - destruct Hok as [Hev Hrest].
    destruct (process_event_inv e ev Hinv Hev) as (e1 & He1 & Hinv1).
    rewrite He1 in Hrun.
    apply (IH e1 e'); auto.
    exact (process_event_symbols sym e ev e1 Hinv Hev He1 Hs).
Qed.

(** X23 ([OrderBook::add_order], [MatchingEngine::process_new_order]).
    In every state the engine reaches, the book has the symbol the engine
    was made with and so has every order resting in it, although
    [process_new_order] itself never looks at the symbol of an order. *)
Theorem X23_resting_orders_have_the_symbol sym callback evs e :
  events_ok (configured sym callback) evs ->
  process_events (configured sym callback) evs = Some e ->
  symbol_ e = sym /\
  OrderBook.symbol (get_order_book e) = sym /\
  forall o, In o (OrderBook.book_orders (get_order_book e)) -> symbol o = sym.
Proof.
  intros Hok Hrun.
  destruct (process_events_symbols sym evs (configured sym callback) _
              (make_inv sym) Hok Hrun
              (symbols_ok_make sym callback)) as (H1 & H2 & H3).
  split; [exact H1|]. split; [exact H2|].
  rewrite Forall_forall in H3. exact H3.
Qed.

Lemma X23_witness :
  Forall (fun o => symbol o = AAPL)
         (OrderBook.book_orders (get_order_book engine_two_sided)).
Proof.
  assert (Hok : events_ok (configured AAPL false)
                  [new_order_event sell1; new_order_event sell2;
                   new_order_event buy_14990]) by check_events.
  destruct (X23_resting_orders_have_the_symbol AAPL false _ engine_two_sided
              Hok
              eq_refl) as (_ & _ & H).
  apply Forall_forall. exact H.
Defined.

Lemma seq_inv_make sym callback :
  seq_inv (order_book_ (configured sym callback)).
Proof.
  unfold seq_inv, side_seq_ok. simpl. split; [lia|]. split; constructor.
Qed.

(** X24 ([OrderBook::add_order], [PriceLevel::add_order]).  In every
    state the engine reaches with fewer than 2^64 events, the sequence
    numbers of the orders of every level rise strictly from the front of
    the queue to its back, and none is above the sequence counter of the
    book. *)
Theorem X24_sequence_numbers sym callback evs e :
  events_ok (configured sym callback) evs ->
  process_events (configured sym callback) evs = Some e ->
  Z.of_nat (List.length evs) < 2 ^ 64 ->
  forall k l,
    In (k, l) (OrderBook.bids_ (order_book_ e)
               ++ OrderBook.asks_ (order_book_ e)) ->
    StronglySorted Z.lt (map sequence_number (PriceLevel.get_orders l)) /\
    Forall (fun o => sequence_number o
                     <= OrderBook.sequence_counter_ (order_book_ e))
           (PriceLevel.get_orders l).
Proof.
  intros Hok Hrun Hlen k l Hin.
  assert (Hseq : seq_inv (order_book_ e)).
  { apply (process_events_seq evs (configured sym callback) e 0
             (make_inv sym) Hok Hrun (seq_inv_make sym callback));
      simpl; lia. }
  destruct Hseq as (_ & Hbids & Hasks).
  unfold side_seq_ok in *. rewrite Forall_forall in Hbids, Hasks.
  apply in_app_iff in Hin.
  destruct Hin as [Hin|Hin]; [exact (Hbids _ Hin)|exact (Hasks _ Hin)].
Qed.

Lemma X24_witness :
  Forall
    (fun kl =>
       StronglySorted Z.lt
         (map sequence_number (PriceLevel.get_orders (snd kl))))
    (OrderBook.bids_ (order_book_ engine_two_asks)
     ++ OrderBook.asks_ (order_book_ engine_two_asks)).
Proof.
  assert (Hok : events_ok (configured AAPL false)
                  [new_order_event sell1; new_order_event sell2])
    by check_events.
  assert (Hlen : Z.of_nat (List.length
                             [new_order_event sell1; new_order_event sell2])
                 < 2 ^ 64) by (simpl; lia).
  apply Forall_forall. intros [k l] Hin.
  exact (proj1 (X24_sequence_numbers AAPL false _ engine_two_asks Hok
                  eq_refl Hlen k l Hin)).
Defined.

End Matching.

(** ** The event queue and the calls of the clients *)

Section ClientCalls.

Import LockFreeQueue.

Lemma u64_wrap x : u64 x = u64 (x + 2 ^ 64).
Proof.
  unfold u64. rewrite <- (Z_mod_plus_full x 1 (2 ^ 64)). f_equal; lia.
Qed.

Lemma size_is_mod Size q :
  power_of_two Size -> queue_ok Size q ->
  size Size q = (tail_ q - head_ q) mod Size.
Proof.
  intros (n & Hn & ->) (Hh & Ht & _).
  assert (H2 : 0 < 2 ^ n <= 2 ^ 63).
  { split; [apply Z.pow_pos_nonneg; lia|].
    apply Z.pow_le_mono_r; lia. }
  assert (H64 : 2 ^ 64 = 2 ^ (64 - n) * 2 ^ n).
  { rewrite <- Z.pow_add_r by lia. f_equal. lia. }
  unfold size.
  destruct (Z.le_gt_cases (head_ q) (tail_ q)) as [Hle|Hgt].
  - apply mask_is_mod; [lia|]. change (2 ^ 64) with (2 * 2 ^ 63). lia.
  - rewrite u64_wrap.
    rewrite mask_is_mod; [|lia|change (2 ^ 64) with (2 * 2 ^ 63) in *; lia].
    rewrite H64. apply Z_mod_plus_full.
Qed.

Lemma empty_iff Size q :
  power_of_two Size -> queue_ok Size q ->
  (empty q = true <-> contents Size q = []).
Proof.
  intros Hp Hok. pose proof (contents_length _ _ Hp Hok) as Hlen.
  destruct Hok as (Hh & Ht & _).
  pose proof (power_of_two_bounds _ Hp) as Hb.
  rewrite mod_diff in Hlen by lia.
  unfold empty. rewrite Z.eqb_eq. split.
  - intros Heq. rewrite Heq, Z.leb_refl, Z.sub_diag in Hlen.
    destruct (contents Size q); [reflexivity|simpl in Hlen; lia].
  - intros Hc. rewrite Hc in Hlen. simpl in Hlen.
    destruct (Z.leb_spec (head_ q) (tail_ q)); lia.
Qed.

(** X25 ([LockFreeQueue::size], [empty], [push], [pop]).  For a queue of
    a power-of-two capacity with both indices in range, [size] is the
    number of events waiting, from 0 to [Size - 1]; [empty] holds
    exactly when none waits; [push] fails exactly at [Size - 1] events
    and otherwise adds one; [pop] fails exactly at 0 events and
    otherwise takes one. *)
Theorem X25_queue_size Size q ev :
  power_of_two Size -> queue_ok Size q ->
  size Size q = Z.of_nat (List.length (contents Size q)) /\
  0 <= size Size q <= Size - 1 /\
  (empty q = true <-> contents Size q = []) /\
  (empty q = true <-> size Size q = 0) /\
  (snd (push Size q ev) = false <-> size Size q = Size - 1) /\
  (snd (push Size q ev) = true ->
   size Size (fst (push Size q ev)) = size Size q + 1) /\
  (snd (pop Size q) = None <-> size Size q = 0) /\
  (snd (pop Size q) <> None ->
   size Size (fst (pop Size q)) = size Size q - 1).
Proof.
  intros Hp Hok.
  pose proof (power_of_two_bounds _ Hp) as Hb.
  assert (Hsize : forall q', queue_ok Size q' ->
            size Size q' = Z.of_nat (List.length (contents Size q'))).
  { intros q' Hok'. rewrite (size_is_mod _ _ Hp Hok').
    symmetry. apply contents_length; assumption. }
  pose proof (empty_iff _ _ Hp Hok) as Hempty.
  destruct (push_spec Size Hp q ev Hok) as (Hfull & _ & Hpush).
  destruct (pop_spec Size Hp q Hok) as (Hnone & Hnone' & Hsome).
  rewrite (Hsize q Hok).
  split; [reflexivity|].
  split.
  { rewrite (contents_length _ _ Hp Hok).
    pose proof (Z.mod_pos_bound (tail_ q - head_ q) Size). lia. }
  split; [exact Hempty|].
  split.
  { rewrite Hempty. destruct (contents Size q); simpl; split;
      intros H; try reflexivity; try discriminate; lia. }
  split; [rewrite Hfull; apply full_iff; assumption|].
  split.
  { intros Ht. destruct (Hpush Ht) as (Hok' & _ & _ & _ & Hc).
    rewrite (Hsize _ Hok'), Hc, length_app. simpl. lia. }
  split.
  { rewrite Hnone. unfold empty in Hempty. rewrite Z.eqb_eq in Hempty.
    rewrite Hempty. destruct (contents Size q); simpl; split;
      intros H; try reflexivity; try discriminate; lia. }
  intros Hne.
  assert (Hht : head_ q <> tail_ q).
  { intros Heq. apply Hne. apply Hnone. exact Heq. }
  destruct (Hsome Hht) as (x & _ & _ & Hc & Hok' & _).
  rewrite (Hsize _ Hok'), Hc. simpl List.length. lia.
Qed.

Lemma X25_witness :
  size 4 (fst (push 4 queue_of_four (cancel_event 1))) = 1.
Proof.
  assert (Hp : power_of_two 4) by (exists 2; split; [lia|reflexivity]).
  destruct (make_ok 4 shutdown_event Hp) as (Hok & _).
  destruct (X25_queue_size 4 queue_of_four (cancel_event 1) Hp Hok)
    as (_ & _ & _ & _ & _ & H & _).
  exact (H eq_refl).
Defined.

Import MatchingEngine.

Lemma EventQueue_power_of_two : power_of_two EventQueue_Size.
Proof. exists 16. split; [lia|reflexivity]. Qed.

(** A push into the event queue of the engine. *)
Lemma enqueue_spec q ev :
  queue_ok EventQueue_Size q ->
  (snd (push EventQueue_Size q ev) = true <->
   Z.of_nat (List.length (contents EventQueue_Size q)) < 65535) /\
  (snd (push EventQueue_Size q ev) = false ->
   fst (push EventQueue_Size q ev) = q) /\
  (snd (push EventQueue_Size q ev) = true ->
   queue_ok EventQueue_Size (fst (push EventQueue_Size q ev)) /\
   contents EventQueue_Size (fst (push EventQueue_Size q ev))
   = contents EventQueue_Size q ++ [ev]).
Proof.
  intros Hok.
  destruct (push_spec _ EventQueue_power_of_two q ev Hok)
    as (Hfull & Hfail & Hpush).
  pose proof (full_iff _ _ EventQueue_power_of_two Hok) as Hiff.
  pose proof (contents_length _ _ EventQueue_power_of_two Hok) as Hlen.
  pose proof (Z.mod_pos_bound (tail_ q - head_ q) EventQueue_Size eq_refl)
    as Hbound.
  change EventQueue_Size with 65536 in *.
  split; [|split; [exact Hfail|]].
  - destruct (snd (push 65536 q ev)) eqn:E.
    + split; [intros _|reflexivity].
      assert (Hn : Z.of_nat (List.length (contents 65536 q)) <> 65536 - 1).
      { intros H. apply Hiff in H. apply Hfull in H. discriminate. }
      lia.
    + split; [discriminate|]. intros Hlt.
      assert (H : Z.of_nat (List.length (contents 65536 q)) = 65536 - 1).
      { apply Hiff. apply Hfull. reflexivity. }
      lia.
  - intros Ht. destruct (Hpush Ht) as (Hok' & _ & _ & _ & Hc).
    split; assumption.
Qed.

Lemma object_eta g : mkObject (worker g) (event_queue_ g) (running_ g) = g.
Proof. destruct g; reflexivity. Qed.

(** What the three calls share: the event is pushed, and the rest of the
    object is left alone. *)
Lemma enqueue_object g ev :
  queue_ok EventQueue_Size (event_queue_ g) ->
  let r :=
    let '(q, r) := push EventQueue_Size (event_queue_ g) ev in
    (mkObject (worker g) q (running_ g), r) in
  (snd r = true <->
   Z.of_nat (List.length (contents EventQueue_Size (event_queue_ g)))
   < 65535) /\
  (snd r = false -> fst r = g) /\
  (snd r = true ->
   worker (fst r) = worker g /\ running_ (fst r) = running_ g /\
   queue_ok EventQueue_Size (event_queue_ (fst r)) /\
   contents EventQueue_Size (event_queue_ (fst r))
   = contents EventQueue_Size (event_queue_ g) ++ [ev]).
Proof.
  intros Hok. cbv zeta.
  destruct (enqueue_spec (event_queue_ g) ev Hok) as (H1 & H2 & H3).
  destruct (push EventQueue_Size (event_queue_ g) ev) as [q r]. simpl in *.
  split; [exact H1|]. split.
  - intros Hr. rewrite (H2 Hr). apply object_eta.
  - intros Hr. destruct (H3 Hr) as (Hq & Hc).
    split; [reflexivity|]. split; [reflexivity|]. split; assumption.
Qed.

(** X26 ([MatchingEngine::submit_order]).  [submit_order] returns true
    exactly when the order has the symbol of the engine and fewer than
    65535 events wait in the queue.  It then appends a NEW_ORDER event
    for the order behind the events that wait and changes nothing else;
    when it returns false it changes nothing at all. *)
Theorem X26_submit_order g junk o :
  queue_ok EventQueue_Size (event_queue_ g) ->
  let r := submit_order g junk o in
  let waiting := contents EventQueue_Size (event_queue_ g) in
  (snd r = true <->
   symbol o = symbol_ (worker g) /\
   Z.of_nat (List.length waiting) < 65535) /\
  (snd r = false -> fst r = g) /\
  (snd r = true ->
   worker (fst r) = worker g /\ running_ (fst r) = running_ g /\
   queue_ok EventQueue_Size (event_queue_ (fst r)) /\
   exists ev,
     contents EventQueue_Size (event_queue_ (fst r)) = waiting ++ [ev] /\
     OrderEvent.type ev = NEW_ORDER /\ OrderEvent.order ev = Some o).
Proof.
  intros Hok. cbv zeta. unfold submit_order.
  destruct (String.eqb (symbol o) (symbol_ (worker g))) eqn:Hsym; simpl negb;
    cbv iota.
  - apply String.eqb_eq in Hsym.
    match goal with
    | |- context [push EventQueue_Size (event_queue_ g) ?ev] =>
        destruct (enqueue_object g ev Hok) as (H1 & H2 & H3)
    end.
    cbv zeta in H1, H2, H3.
    split; [rewrite H1; tauto|]. split; [exact H2|].
    intros Hr. destruct (H3 Hr) as (Hw & Hru & Hq & Hc).
    split; [exact Hw|]. split; [exact Hru|]. split; [exact Hq|].
    eexists. split; [exact Hc|]. split; reflexivity.
  - apply String.eqb_neq in Hsym. simpl.
    split; [split; [discriminate|tauto]|].
    split; [reflexivity|discriminate].
Qed.

Lemma idle_engine_ok :
  queue_ok EventQueue_Size (event_queue_ idle_engine) /\
  contents EventQueue_Size (event_queue_ idle_engine) = [].
Proof. exact (make_ok _ shutdown_event EventQueue_power_of_two). Qed.

Lemma X26_witness :
  snd (submit_order idle_engine shutdown_event sell1) = true.
Proof.
  destruct idle_engine_ok as (Hok & Hc).
  destruct (X26_submit_order idle_engine shutdown_event sell1 Hok)
    as (H & _).
  apply H. split; [reflexivity|]. rewrite Hc. simpl. lia.
Defined.

(** X27 ([MatchingEngine::cancel_order], [replace_order]).  [cancel_order]
    and [replace_order] return true exactly when fewer than 65535 events
    wait in the queue, whatever the id, and for [replace_order] whatever
    the new order: its symbol is not looked at and it may be null.  They
    then append their event behind the events that wait, and otherwise
    change nothing. *)
Theorem X27_cancel_and_replace_enqueue g junk i new_order :
  queue_ok EventQueue_Size (event_queue_ g) ->
  let rc := cancel_order g junk i in
  let rr := replace_order g junk i new_order in
  let waiting := contents EventQueue_Size (event_queue_ g) in
  (snd rc = true <-> Z.of_nat (List.length waiting) < 65535) /\
  (snd rr = true <-> Z.of_nat (List.length waiting) < 65535) /\
  (snd rc = false -> fst rc = g) /\
  (snd rr = false -> fst rr = g) /\
  (snd rc = true ->
   worker (fst rc) = worker g /\
   exists ev,
     contents EventQueue_Size (event_queue_ (fst rc)) = waiting ++ [ev] /\
     OrderEvent.type ev = CANCEL_ORDER /\
     OrderEvent.cancel_order_id ev = i) /\
  (snd rr = true ->
   worker (fst rr) = worker g /\
   exists ev,
     contents EventQueue_Size (event_queue_ (fst rr)) = waiting ++ [ev] /\
     OrderEvent.type ev = REPLACE_ORDER /\
     OrderEvent.cancel_order_id ev = i /\
     OrderEvent.order ev = new_order).
Proof.
  intros Hok. cbv zeta. unfold cancel_order, replace_order.
  match goal with
  | |- context [push EventQueue_Size (event_queue_ g)
                  (OrderEvent.mk CANCEL_ORDER ?a ?b ?c ?d)] =>
      destruct (enqueue_object g (OrderEvent.mk CANCEL_ORDER a b c d) Hok)
        as (C1 & C2 & C3)
  end.
  match goal with
  | |- context [push EventQueue_Size (event_queue_ g)
                  (OrderEvent.mk REPLACE_ORDER ?a ?b ?c ?d)] =>
      destruct (enqueue_object g (OrderEvent.mk REPLACE_ORDER a b c d) Hok)
        as (R1 & R2 & R3)
  end.
  cbv zeta in C1, C2, C3, R1, R2, R3.
  split; [exact C1|]. split; [exact R1|].
  split; [exact C2|]. split; [exact R2|].
  split.
  - intros Hr. destruct (C3 Hr) as (Hw & _ & _ & Hc).
    split; [exact Hw|]. eexists. split; [exact Hc|]. split; reflexivity.
  - intros Hr. destruct (R3 Hr) as (Hw & _ & _ & Hc).
    split; [exact Hw|]. eexists. split; [exact Hc|].
    repeat split; reflexivity.
Qed.

Lemma X27_witness :
  snd (cancel_order idle_engine shutdown_event 7) = true /\
  snd (replace_order idle_engine shutdown_event 7 None) = true.
Proof.
  destruct idle_engine_ok as (Hok & Hc).
  destruct (X27_cancel_and_replace_enqueue idle_engine shutdown_event 7 None
              Hok) as (H1 & H2 & _).
  split; [apply H1|apply H2]; rewrite Hc; simpl; lia.
Defined.

(** The loop of [run] once [running_] is false. *)
Lemma run_drains fuel :
  forall g,
    queue_ok EventQueue_Size (event_queue_ g) -> running_ g = false ->
    (List.length (contents EventQueue_Size (event_queue_ g)) < fuel)%nat ->
    match process_events (worker g)
            (contents EventQueue_Size (event_queue_ g)) with
    | Some e' =>
        exists q',
          run fuel g = Returned (mkObject e' q' false) /\
          queue_ok EventQueue_Size q' /\
          empty q' = true /\ contents EventQueue_Size q' = []
    | None => run fuel g = NullOrder
    end.
Proof.
  induction fuel as [|fuel IH]; intros g Hok Hrun Hlt; [lia|].
  destruct (pop_spec _ EventQueue_power_of_two (event_queue_ g) Hok)
    as (Hnone & Hnone' & Hsome).
  pose proof (empty_iff _ _ EventQueue_power_of_two Hok) as Hempty.
  simpl run. rewrite Hrun. simpl orb.
  destruct (empty (event_queue_ g)) eqn:E; simpl negb; cbv iota.
  - rewrite (proj1 Hempty eq_refl). simpl.
    exists (event_queue_ g).
    split; [rewrite <- Hrun, object_eta; reflexivity|].
    split; [exact Hok|]. split; [exact E|]. apply Hempty. reflexivity.
  - assert (Hht : head_ (event_queue_ g) <> tail_ (event_queue_ g)).
    { unfold empty in E. apply Z.eqb_neq. exact E. }
    destruct (Hsome Hht) as (ev & Hpop & _ & Hc & Hok' & _).
    destruct (pop EventQueue_Size (event_queue_ g)) as [q1 r1].
    simpl in Hpop, Hc, Hok'. subst r1. rewrite Hc. simpl process_events.
    destruct (process_event (worker g) ev) as [e1|]; [|reflexivity].
    apply (IH (mkObject e1 q1 false)); simpl; [exact Hok'|reflexivity|].
    rewrite Hc in Hlt. simpl in Hlt. lia.
Qed.

Lemma run_while_running fuel :
  forall g, running_ g = true ->
            match run fuel g with Returned _ => False | _ => True end.
Proof.
  induction fuel as [|fuel IH]; intros g Hrun; simpl; [exact I|].
  rewrite Hrun. simpl.
  destruct (pop EventQueue_Size (event_queue_ g)) as [q [ev|]].
  - destruct (process_event (worker g) ev) as [e|]; [|exact I].
    apply IH. reflexivity.
  - apply IH. reflexivity.
Qed.

(** X28 ([MatchingEngine::run], [process_event]).  Once [running_] is
    false, the loop of [run] processes the events that wait in the queue,
    oldest first, and returns with the queue empty, within one iteration
    more than there are events; it stops early only at a NEW_ORDER or
    REPLACE_ORDER event whose order is null.  While [running_] is true
    the loop does not return. *)
Theorem X28_run_drains_the_queue g fuel :
  queue_ok EventQueue_Size (event_queue_ g) ->
  (running_ g = false ->
   (List.length (contents EventQueue_Size (event_queue_ g)) < fuel)%nat ->
   match process_events (worker g)
           (contents EventQueue_Size (event_queue_ g)) with
   | Some e' =>
       exists q',
         run fuel g = Returned (mkObject e' q' false) /\
         empty q' = true /\ contents EventQueue_Size q' = []
   | None => run fuel g = NullOrder
   end) /\
  (running_ g = true ->
   match run fuel g with Returned _ => False | _ => True end).
Proof.
  intros Hok. split.
  - intros Hrun Hlt. pose proof (run_drains fuel g Hok Hrun Hlt) as H.
    destruct (process_events (worker g)
                (contents EventQueue_Size (event_queue_ g))); [|exact H].
    destruct H as (q' & H1 & _ & H2 & H3). exists q'. auto.
  - apply run_while_running.
Qed.

Lemma X28_witness :
  exists q', run 1 idle_engine = Returned (mkObject (make AAPL) q' false).
Proof.
  destruct idle_engine_ok as (Hok & Hc).
  destruct (X28_run_drains_the_queue idle_engine 1 Hok) as (H & _).
  assert (Hlt : (List.length
                   (contents EventQueue_Size (event_queue_ idle_engine))
                 < 1)%nat) by (rewrite Hc; simpl; lia).
  specialize (H eq_refl Hlt). rewrite Hc in H. simpl in H.
  destruct H as (q' & H & _). exists q'. exact H.
Defined.

(** X29 ([MatchingEngine::submit_order], [run], [process_new_order]).  An
    order of the engine's symbol submitted to an engine with an empty
    queue is accepted, and the loop of [run] then hands exactly that
    order to [process_new_order] and returns with the queue empty. *)
Theorem X29_submit_then_run g junk o fuel :
  queue_ok EventQueue_Size (event_queue_ g) ->
  empty (event_queue_ g) = true -> running_ g = false ->
  symbol o = symbol_ (worker g) -> (1 < fuel)%nat ->
  snd (submit_order g junk o) = true /\
  exists q',
    run fuel (fst (submit_order g junk o))
    = Returned (mkObject (fst (process_new_order (worker g) o)) q' false) /\
    empty q' = true.
Proof.
  intros Hok He Hrun Hsym Hfuel.
  apply (empty_iff _ _ EventQueue_power_of_two Hok) in He.
  unfold submit_order.
  apply String.eqb_eq in Hsym. rewrite Hsym. simpl negb. cbv iota.
  match goal with
  | |- context [push EventQueue_Size (event_queue_ g) ?ev] =>
      destruct (enqueue_object g ev Hok) as (H1 & _ & H3);
      set (event := ev) in *
  end.
  cbv zeta in H1, H3.
  destruct (push EventQueue_Size (event_queue_ g) event) as [q r].
  simpl in *.
  assert (Hr : r = true) by (apply H1; rewrite He; simpl; lia).
  split; [exact Hr|].
  destruct (H3 Hr) as (_ & _ & Hq & Hc). rewrite He in Hc. simpl in Hc.
  pose proof (run_drains fuel (mkObject (worker g) q (running_ g))) as Hd.
  simpl in Hd. rewrite Hc in Hd. simpl in Hd.
  specialize (Hd Hq Hrun Hfuel).
  destruct Hd as (q' & Hd & _ & Hd' & _). exists q'. split; assumption.
Qed.

Lemma X29_witness :
  snd (submit_order idle_engine shutdown_event sell1) = true /\
  exists q',
    run 2 (fst (submit_order idle_engine shutdown_event sell1))
    = Returned
        (mkObject (fst (process_new_order (make AAPL) sell1)) q' false) /\
    empty q' = true.
Proof.
  destruct idle_engine_ok as (Hok & _).
  assert (Hfuel : (1 < 2)%nat) by lia.
  exact (X29_submit_then_run idle_engine shutdown_event sell1 2 Hok
           eq_refl eq_refl eq_refl Hfuel).
Defined.

End ClientCalls.

(** * The claims that rest on the further properties *)

(** ** The totals of the levels *)

Section LevelTotals.

Import MatchingEngine.

Lemma modify_modify m k f g :
  OrderBook.modify (OrderBook.modify m k f) k g
  = OrderBook.modify m k (fun l => g (f l)).
Proof.
  induction m as [|[k' l] m IH]; simpl; [reflexivity|].
  destruct (k' =? k) eqn:E; simpl; rewrite E; [reflexivity|].
  now rewrite IH.
Qed.

(** [match_stages] follows [try_match]: it lists books exactly when
    [try_match] makes a match, and the last of them is the book
    [try_match] leaves. *)
Lemma match_stages_try_match e o :
  match match_stages e o with
  | None => try_match e o = (e, o, no_match)
  | Some (b0, b1, b2) =>
      order_book_ (fst (fst (try_match e o))) = b2 /\
      MatchResult.matched (snd (try_match e o)) = true
  end.
Proof.
  unfold match_stages, try_match.
  destruct (side o).
  - destruct (OrderBook.get_best_ask_level (order_book_ e)) as [[k l]|];
      [|reflexivity].
    destruct (PriceLevel.empty l); [reflexivity|].
    destruct (_ && _); [reflexivity|].
    destruct (PriceLevel.front_order l) as [r|]; [|reflexivity].
    destruct (negb _); [reflexivity|].
    simpl. rewrite modify_modify. split; reflexivity.
  - destruct (OrderBook.get_best_bid_level (order_book_ e)) as [[k l]|];
      [|reflexivity].
    destruct (PriceLevel.empty l); [reflexivity|].
    destruct (_ && _); [reflexivity|].
    destruct (PriceLevel.front_order l) as [r|]; [|reflexivity].
    destruct (negb _); [reflexivity|].
    simpl. rewrite modify_modify. split; reflexivity.
Qed.

(** [match_stages] on a book whose best opposing level is known. *)
Lemma match_stages_decomposed e o pre k T r os post :
  opp_side (side o) (order_book_ e)
    = pre ++ (k, PriceLevel.mk k T (r :: os)) :: post ->
  (side o = BUY -> pre = []) ->
  (side o = SELL -> post = []) ->
  ~ In k (keys pre) ->
  price r = k -> side r = opposite (side o) -> is_active r = true ->
  (type o = LIMIT ->
   match side o with BUY => k <= price o | SELL => price o <= k end) ->
  let q := Z.min (remaining_quantity o) (remaining_quantity r) in
  match_stages e o =
  Some (set_opp_side (side o) (order_book_ e)
          (pre ++ (k, PriceLevel.mk k T (fill r q :: os)) :: post),
        set_opp_side (side o) (order_book_ e)
          (pre ++ (k, PriceLevel.mk k (T - q) (fill r q :: os)) :: post),
        order_book_ (engine_after e o pre k T r os post)).
Proof.
  intros Hopp Hbuy Hsell Hk Hp Hs Hact Hlim q.
  pose proof (match_stages_try_match e o) as Hlink.
  rewrite (try_match_decomposed e o pre k T r os post) in Hlink
    by assumption.
  fold q in Hlink. simpl in Hlink.
  revert Hlink. unfold match_stages.
  destruct (side o) eqn:Hside; simpl in Hopp, Hs.
  - rewrite (Hbuy eq_refl) in *. simpl in Hopp.
    unfold OrderBook.get_best_ask_level. rewrite Hopp. simpl.
    assert (Hc : OrderType_eqb (type o) LIMIT && (price o <? k) = false).
    { destruct (type o); simpl; [|reflexivity].
      specialize (Hlim eq_refl). apply Z.ltb_ge. lia. }
    rewrite Hc, Hact. simpl. fold q.
    rewrite Hopp. simpl. rewrite Z.eqb_refl. simpl. rewrite Z.eqb_refl.
    change (sw_result (mkWrite (with_filled_quantity r (filled_quantity r + q))
              (if is_filled (with_filled_quantity r (filled_quantity r + q))
               then FILLED else PARTIALLY_FILLED))) with (fill r q).
    intros [<- _].
    unfold PriceLevel.update_total_quantity, PriceLevel.store_front,
      OrderBook.with_asks. simpl.
    replace (T + - q) with (T - q) by lia.
    unfold engine_after. simpl. rewrite ?Hside. reflexivity.
  - rewrite (Hsell eq_refl) in *.
    unfold OrderBook.get_best_bid_level. rewrite Hopp.
    rewrite last_error_app. simpl.
    assert (Hc : OrderType_eqb (type o) LIMIT && (price o >? k) = false).
    { destruct (type o); simpl; [|reflexivity].
      specialize (Hlim eq_refl). rewrite Z.gtb_ltb. apply Z.ltb_ge. lia. }
    rewrite Hc, Hact. simpl. fold q.
    rewrite Hopp. rewrite !modify_decomposed by assumption.
    simpl. rewrite ?modify_decomposed by assumption.
    change (sw_result (mkWrite (with_filled_quantity r (filled_quantity r + q))
              (if is_filled (with_filled_quantity r (filled_quantity r + q))
               then FILLED else PARTIALLY_FILLED))) with (fill r q).
    intros [<- _].
    unfold PriceLevel.update_total_quantity, PriceLevel.store_front,
      OrderBook.with_bids. simpl.
    replace (T + - q) with (T - q) by lia.
    unfold engine_after. simpl. rewrite ?Hside. reflexivity.
Qed.

Lemma level_sum_le_side sd m k l :
  side_wf sd m -> In (k, l) m ->
  0 < sum_remaining (PriceLevel.orders_ l)
  <= sum_remaining (OrderBook.side_orders m).
Proof.
  intros [_ Hall]. induction m as [|[k' l'] m IH]; intros Hin; [destruct Hin|].
  inversion Hall as [|? ? Hl Hrest]; subst.
  unfold OrderBook.side_orders in *. simpl. rewrite sum_remaining_app.
  assert (Hpos : 0 < sum_remaining (PriceLevel.orders_ l')).
  { destruct Hl as (_ & (Hne & _) & Hr). simpl in *.
    eapply sum_remaining_positive; eassumption. }
  assert (Hrestpos : 0 <= sum_remaining
                            (flat_map (fun kl => PriceLevel.orders_ (snd kl)) m)).
  { clear -Hrest. induction Hrest as [|[k2 l2] m Hl _ IH]; simpl; [lia|].
    rewrite sum_remaining_app.
    destruct Hl as (_ & (Hne & _) & Hr). simpl in *.
    pose proof (sum_remaining_positive _ _ _ Hr Hne). lia. }
  destruct Hin as [Heq|Hin].
  - injection Heq as -> ->. lia.
  - specialize (IH Hrest Hin). lia.
Qed.

Lemma sum_remaining_book b :
  sum_remaining (OrderBook.book_orders b)
  = sum_remaining (OrderBook.side_orders (OrderBook.bids_ b))
    + sum_remaining (OrderBook.side_orders (OrderBook.asks_ b)).
Proof. unfold OrderBook.book_orders. apply sum_remaining_app. Qed.

(** In a well-formed book that holds no more than INT64_MAX in all, the
    total of every level is the sum of its orders, positive and in
    range. *)
Lemma book_inv_totals b :
  book_inv b -> sum_remaining (OrderBook.book_orders b) <= INT64_MAX ->
  forall k l,
    In (k, l) (OrderBook.bids_ b ++ OrderBook.asks_ b) ->
    level_in_range 0 l /\ 0 < PriceLevel.total_quantity_ l.
Proof.
  intros (Hb & Ha & _) Hsum k l Hin. rewrite sum_remaining_book in Hsum.
  pose proof (sum_remaining_side_nonneg _ _ Hb) as Hnb.
  pose proof (sum_remaining_side_nonneg _ _ Ha) as Hna.
  assert (Hgen : forall sd m,
            side_wf sd m -> In (k, l) m ->
            sum_remaining (OrderBook.side_orders m) <= INT64_MAX ->
            level_in_range 0 l /\ 0 < PriceLevel.total_quantity_ l).
  { intros sd m Hwf Hkl Hm.
    pose proof (level_sum_le_side _ _ _ _ Hwf Hkl) as Hle.
    destruct (side_wf_level _ _ _ _ Hwf Hkl) as (_ & (Hne & Htot) & _).
    simpl in *. unfold level_in_range. rewrite Htot.
    repeat split; try assumption; lia. }
  apply in_app_iff in Hin. destruct Hin as [Hin|Hin].
  - apply (Hgen BUY _ Hb Hin). lia.
  - apply (Hgen SELL _ Ha Hin). lia.
Qed.

Lemma book_inv_totals_in_range b :
  book_inv b -> sum_remaining (OrderBook.book_orders b) <= INT64_MAX ->
  totals_in_range b /\
  Forall (fun kl => 0 < PriceLevel.total_quantity_ (snd kl))
         (OrderBook.bids_ b ++ OrderBook.asks_ b).
Proof.
  intros Hinv Hsum. unfold totals_in_range, levels_in_range.
  split; apply Forall_forall; intros [k l] Hin;
    apply (book_inv_totals b Hinv Hsum k l Hin).
Qed.

(** The levels of a book around a level of the opposing side. *)
Lemma levels_decomposed sd b pre k l post :
  opp_side sd b = pre ++ (k, l) :: post ->
  exists m1 m2,
    OrderBook.bids_ b ++ OrderBook.asks_ b = m1 ++ (k, l) :: m2 /\
    forall new,
      OrderBook.bids_ (set_opp_side sd b (pre ++ new :: post))
      ++ OrderBook.asks_ (set_opp_side sd b (pre ++ new :: post))
      = m1 ++ new :: m2.
Proof.
  intros Hopp. destruct sd; simpl in *.
  - exists (OrderBook.bids_ b ++ pre), post. rewrite Hopp.
    split; [now rewrite <- app_assoc|]. intros new. now rewrite <- app_assoc.
  - exists pre, (post ++ OrderBook.asks_ b). rewrite Hopp.
    split; [now rewrite <- app_assoc|]. intros new. now rewrite <- app_assoc.
Qed.

(** One match: the books it goes through, and what it leaves. *)
Lemma match_step_stages e o :
  loop_inv e o -> is_active o = true -> can_match e o = true ->
  sum_remaining (OrderBook.book_orders (order_book_ e)) <= INT64_MAX ->
  exists stages e' o' res,
    match_stages e o = Some stages /\
    try_match e o = (e', o', res) /\ MatchResult.matched res = true /\
    List.length (trades e') = S (List.length (trades e)) /\
    stages_ok stages /\ loop_inv e' o' /\
    sum_remaining (OrderBook.book_orders (order_book_ e'))
    <= sum_remaining (OrderBook.book_orders (order_book_ e)).
Proof.
  intros Hl Hact Hcm Hsum. pose proof Hl as [Hinv Hin].
  destruct (can_match_decompose _ _ Hinv Hcm)
    as (pre & k & r & os & post & Hopp & Hb & Hs & Hk & Hr & Hos & Hlim).
  pose proof Hr as (Hp & Hsd & _ & Hract & Hrb).
  set (T := remaining_quantity r + sum_remaining os) in *.
  set (q := Z.min (remaining_quantity o) (remaining_quantity r)).
  pose proof (incoming_active_bounds _ _ Hin Hact) as Hob.
  assert (Hq : 0 < q <= remaining_quantity r)
    by (unfold q, remaining_quantity; lia).
  eexists _, _, _, _.
  split; [apply (match_stages_decomposed e o pre k T r os post); assumption|].
  split; [apply (try_match_decomposed e o pre k T r os post); assumption|].
  split; [reflexivity|]. fold q.
  split; [unfold engine_after; simpl; rewrite length_app; simpl; lia|].
  destruct (engine_after_inv e o pre k r os post Hl Hact Hopp Hr Hos)
    as (Hl' & _ & _). fold T q in Hl'.
  assert (Hsum' :
    sum_remaining
      (OrderBook.book_orders (order_book_ (engine_after e o pre k T r os post)))
    <= sum_remaining (OrderBook.book_orders (order_book_ e))).
  { destruct (book_orders_decomposed _ _ _ _ _ _ Hopp) as (A & B & HA & HB).
    unfold engine_after. simpl. fold q. rewrite HB, HA.
    rewrite !sum_remaining_app. simpl. unfold T.
    destruct (level_after_orders (opposite (side o)) k r os q Hos Hq)
      as [(_ & ->)|(_ & ->)]; simpl; [lia|].
    rewrite fill_remaining. lia. }
  split; [|split; [exact Hl'|exact Hsum']].
  destruct (book_inv_totals_in_range _ Hinv Hsum) as (Hrange & _).
  destruct (levels_decomposed _ _ _ _ _ _ Hopp) as (m1 & m2 & Hm & Hnew).
  unfold totals_in_range, levels_in_range in Hrange. rewrite Hm in Hrange.
  apply Forall_app in Hrange. destruct Hrange as [H1 H2].
  apply Forall_cons_iff in H2. destruct H2 as [Hlev H3]. simpl in Hlev.
  destruct Hlev as (_ & HT & _ & HTmax). simpl in HT, HTmax.
  assert (Hos0 : 0 <= sum_remaining os).
  { destruct os as [|x os']; [simpl; lia|].
    assert (Hne : x :: os' <> []) by discriminate.
    pose proof (sum_remaining_positive _ _ _ Hos Hne). lia. }
  unfold stages_ok. split; [|split].
  - exists q. split; [lia|]. unfold fill_pending.
    eexists m1, k, _, m2. split; [apply Hnew|].
    split; [|apply Forall_app; split; assumption].
    unfold level_in_range. simpl. rewrite fill_remaining.
    split; [discriminate|]. split; [lia|]. split; lia.
  - unfold totals_in_range, levels_in_range. rewrite Hnew.
    apply Forall_app. split; [assumption|]. constructor; [|assumption].
    unfold level_in_range. simpl. rewrite fill_remaining.
    split; [discriminate|]. split; [lia|]. split; lia.
  - apply book_inv_totals_in_range; [apply Hl'|lia].
Qed.

Lemma loop_stages_ok fuel :
  forall e o,
    loop_inv e o ->
    sum_remaining (OrderBook.book_orders (order_book_ e)) <= INT64_MAX ->
    Forall stages_ok (loop_stages fuel e o).
Proof.
  induction fuel as [|fuel IH]; intros e o Hl Hsum; simpl; [constructor|].
  destruct (is_active o) eqn:Hact; simpl; [|constructor].
  destruct (can_match e o) eqn:Hcm; simpl; [|constructor].
  destruct (match_step_stages e o Hl Hact Hcm Hsum)
    as (st & e' & o' & res & Hst & Htm & Hm & _ & Hok & Hl' & Hsum').
  rewrite Htm, Hst, Hm. constructor; [exact Hok|].
  apply IH; [exact Hl'|lia].
Qed.

(** The loop makes one trade for each triple of books listed. *)
Lemma loop_stages_trades fuel :
  forall e o,
    loop_inv e o ->
    sum_remaining (OrderBook.book_orders (order_book_ e)) <= INT64_MAX ->
    List.length (trades (fst (limit_loop fuel e o)))
    = (List.length (trades e) + List.length (loop_stages fuel e o))%nat.
Proof.
  induction fuel as [|fuel IH]; intros e o Hl Hsum; simpl; [lia|].
  destruct (is_active o) eqn:Hact; simpl; [|lia].
  destruct (can_match e o) eqn:Hcm; simpl; [|lia].
  destruct (match_step_stages e o Hl Hact Hcm Hsum)
    as (st & e' & o' & res & Hst & Htm & Hm & Hlen & _ & Hl' & Hsum').
  rewrite Htm, Hst, Hm. simpl. rewrite IH by (assumption || lia). lia.
Qed.

Lemma engine_after_sum e0 e o pre k r os post :
  sum_remaining (OrderBook.book_orders (order_book_ e))
  <= sum_remaining (OrderBook.book_orders (order_book_ e0)) ->
  loop_inv e o -> is_active o = true ->
  step_facts e o pre k r os post ->
  sum_remaining
    (OrderBook.book_orders
       (order_book_
          (engine_after e o pre k (remaining_quantity r + sum_remaining os)
             r os post)))
  <= sum_remaining (OrderBook.book_orders (order_book_ e0)).
Proof.
  intros Hle [Hinv Hin] Hact (Hopp & _ & _ & Hr & Hos & _).
  pose proof (incoming_active_bounds _ _ Hin Hact) as Hob.
  assert (Hrb : 0 <= filled_quantity r < quantity r) by apply Hr.
  set (q := Z.min (remaining_quantity o) (remaining_quantity r)).
  assert (Hq : 0 < q <= remaining_quantity r)
    by (unfold q, remaining_quantity; lia).
  destruct (book_orders_decomposed _ _ _ _ _ _ Hopp) as (A & B & HA & HB).
  unfold engine_after. simpl. fold q. rewrite HB. rewrite HA in Hle.
  rewrite !sum_remaining_app in *. simpl in Hle.
  destruct (level_after_orders (opposite (side o)) k r os q Hos Hq)
    as [(_ & ->)|(_ & ->)]; simpl; [lia|].
  rewrite fill_remaining. lia.
Qed.

Lemma limit_loop_sum e o :
  loop_inv e o ->
  sum_remaining
    (OrderBook.book_orders (order_book_ (fst (limit_loop (loop_bound e) e o))))
  <= sum_remaining (OrderBook.book_orders (order_book_ e)).
Proof.
  intros Hinv.
  refine (proj2 (limit_loop_rule
                   (fun e' _ =>
                      sum_remaining (OrderBook.book_orders (order_book_ e'))
                      <= sum_remaining (OrderBook.book_orders (order_book_ e)))
                   _ (loop_bound e) e o Hinv (Z.le_refl _))).
  intros e1 o1 pre k r os post. apply engine_after_sum.
Qed.

(** A new order adds at most its quantity to what rests in the book. *)
Lemma process_new_order_sum e o :
  book_inv (order_book_ e) -> fresh_order (order_book_ e) o ->
  sum_remaining
    (OrderBook.book_orders (order_book_ (fst (process_new_order e o))))
  <= sum_remaining (OrderBook.book_orders (order_book_ e)) + quantity o.
Proof.
  intros Hb Hf.
  assert (Hl : loop_inv e o) by (apply fresh_loop_inv; assumption).
  pose proof (process_new_order_shape e o Hl) as Hshape. cbv zeta in Hshape.
  set (e0 := with_stats e _) in *.
  assert (Hl0 : loop_inv e0 o) by exact Hl.
  change (loop_bound e) with (loop_bound e0) in Hshape.
  pose proof (limit_loop_sum e0 o Hl0) as Hsum.
  pose proof (limit_loop_result e0 o Hl0) as ((Hb1 & Hin1) & Hfr & Hexit).
  cbv zeta in Hb1, Hin1, Hfr, Hexit.
  destruct (limit_loop (loop_bound e0) e0 o) as [e1 o1]. simpl in *.
  destruct Hshape as (_ & _ & Hrest).
  destruct Hfr as (Hsd & Hty1 & Hpr & Hid & Hqu & Hsy & _).
  assert (Hq : 0 < quantity o) by apply Hf.
  destruct (type o) eqn:Hty.
  - destruct (is_active o1) eqn:Hact.
    + pose proof (incoming_active_bounds _ _ Hin1 Hact) as Hbo.
      assert (Hrem : (remaining_quantity o1 >? 0) = true)
        by (unfold remaining_quantity; lia).
      rewrite Hrem in Hrest. simpl in Hrest, Hexit.
      rewrite surjective_pairing in Hrest. injection Hrest as Hbk Ho.
      rewrite Hbk.
      destruct (String.eqb (symbol o1) (OrderBook.symbol_ (order_book_ e1)))
        eqn:Heqb.
      * destruct (add_order_inv (order_book_ e1) o1 Hb1 Heqb)
          as (b' & Hadd & _ & A & B & HA & HB).
        -- apply (incoming_resting_ok _ _ Hin1 Hact). congruence.
        -- apply Hin1.
        -- apply cannot_match_no_cross; [assumption|congruence|assumption].
        -- rewrite Hadd. simpl. rewrite HB. rewrite HA in Hsum.
           rewrite sum_remaining_app in *. simpl.
           unfold remaining_quantity at 1. simpl. lia.
      * rewrite (add_order_mismatch _ _ Heqb). simpl. lia.
    + simpl in Hrest. injection Hrest as Hbk Ho. rewrite Hbk. lia.
  - destruct Hrest as (-> & _). lia.
Qed.

Lemma process_cancel_order_sum e i :
  book_inv (order_book_ e) ->
  sum_remaining
    (OrderBook.book_orders (order_book_ (process_cancel_order e i)))
  <= sum_remaining (OrderBook.book_orders (order_book_ e)).
Proof.
  intros Hinv. rewrite process_cancel_order_book.
  destruct (OrderBook.cancel_order (order_book_ e) i) as [b' [w|]] eqn:E.
  - destruct (cancel_order_some _ _ _ _ Hinv E)
      as (Hinv' & _ & _ & A & B & o & HA & HB & _ & _ & Hact & _).
    simpl. rewrite HA, HB. rewrite sum_remaining_middle.
    assert (Hin : In o (OrderBook.book_orders (order_book_ e)))
      by (rewrite HA; apply in_app_iff; right; now left).
    assert (0 < remaining_quantity o); [|lia].
    unfold OrderBook.book_orders in Hin. apply in_app_iff in Hin.
    destruct Hinv as (Hwb & Hwa & _).
    destruct Hin as [Hin|Hin];
      [destruct (side_wf_resting _ _ _ Hwb Hin) as [(_ & _ & _ & _ & H) _]
      |destruct (side_wf_resting _ _ _ Hwa Hin) as [(_ & _ & _ & _ & H) _]];
      unfold remaining_quantity; lia.
  - unfold OrderBook.cancel_order in E.
    destruct (OrderBook.cancel_in_side (OrderBook.bids_ (order_book_ e)) i)
      as [[? ?]|]; [discriminate|].
    destruct (OrderBook.cancel_in_side (OrderBook.asks_ (order_book_ e)) i)
      as [[? ?]|]; [discriminate|].
    injection E as <-. simpl. lia.
Qed.

Lemma process_event_sum e ev e' :
  book_inv (order_book_ e) -> event_ok e ev ->
  process_event e ev = Some e' ->
  sum_remaining (OrderBook.book_orders (order_book_ e'))
  <= sum_remaining (OrderBook.book_orders (order_book_ e))
     + submitted_quantity [ev].
Proof.
  unfold process_event, event_ok, submitted_quantity. simpl.
  intros Hinv Hok Hrun.
  destruct (OrderEvent.type ev).
  - destruct Hok as (o & Ho & Hfresh). rewrite Ho in *.
    injection Hrun as <-. simpl.
    pose proof (process_new_order_sum e o Hinv Hfresh). lia.
  - injection Hrun as <-.
    pose proof (process_cancel_order_sum e (OrderEvent.cancel_order_id ev)
                  Hinv).
    destruct (OrderEvent.order ev); simpl; lia.
  - destruct Hok as (o & Ho & Hfresh). rewrite Ho in *.
    injection Hrun as <-. unfold process_replace_order. simpl.
    pose proof (process_cancel_order_sum e (OrderEvent.cancel_order_id ev)
                  Hinv) as Hc.
    rewrite <- process_cancel_order_book in Hfresh.
    pose proof (process_new_order_sum _ o
                  (process_cancel_order_inv e _ Hinv) Hfresh).
    lia.
  - injection Hrun as <-. destruct (OrderEvent.order ev); simpl; lia.
Qed.

Lemma submitted_quantity_cons ev evs :
  submitted_quantity (ev :: evs)
  = submitted_quantity [ev] + submitted_quantity evs.
Proof.
  unfold submitted_quantity. simpl.
  destruct (OrderEvent.type ev), (OrderEvent.order ev); simpl; lia.
Qed.

(** What rests in the book is at most what was submitted. *)
Lemma process_events_sum evs :
  forall e e',
    book_inv (order_book_ e) -> events_ok e evs ->
    process_events e evs = Some e' ->
    sum_remaining (OrderBook.book_orders (order_book_ e'))
    <= sum_remaining (OrderBook.book_orders (order_book_ e))
       + submitted_quantity evs.
Proof.
  induction evs as [|ev evs IH]; intros e e' Hinv Hok Hrun.
  - simpl in Hrun. injection Hrun as <-. unfold submitted_quantity. simpl.
    lia.
  - simpl in Hok, Hrun. destruct Hok as [Hev Hrest].
    destruct (process_event_inv e ev Hinv Hev) as (e1 & He1 & Hinv1).
    rewrite He1 in Hrun.
    pose proof (process_event_sum e ev e1 Hinv Hev He1).
    pose proof (IH e1 e' Hinv1 (Hrest e1 He1) Hrun).
    rewrite submitted_quantity_cons. lia.
Qed.

Lemma configured_sum sym callback evs e :
  events_ok (configured sym callback) evs ->
  process_events (configured sym callback) evs = Some e ->
  sum_remaining (OrderBook.book_orders (order_book_ e))
  <= submitted_quantity evs.
Proof.
  intros Hok Hrun.
  exact (process_events_sum evs (configured sym callback) _ (make_inv sym)
           Hok Hrun).
Qed.

Lemma configured_reachable sym callback evs e :
  events_ok (configured sym callback) evs ->
  process_events (configured sym callback) evs = Some e ->
  reachable e.
Proof. intros Hok Hrun. exists sym, callback, evs. auto. Qed.

(** After a run of events that submitted no more than INT64_MAX in all,
    every level of the book holds an order and has a total that is the
    sum of what remains of its orders, positive and in range. *)
Lemma configured_totals sym callback evs e :
  events_ok (configured sym callback) evs ->
  process_events (configured sym callback) evs = Some e ->
  submitted_quantity evs <= INT64_MAX ->
  forall k l,
    In (k, l) (OrderBook.bids_ (order_book_ e)
               ++ OrderBook.asks_ (order_book_ e)) ->
    PriceLevel.orders_ l <> [] /\
    PriceLevel.total_quantity_ l = sum_remaining (PriceLevel.orders_ l) /\
    0 < PriceLevel.total_quantity_ l <= INT64_MAX.
Proof.
  intros Hok Hrun Hsub k l Hin.
  pose proof (reachable_inv _ (configured_reachable _ _ _ _ Hok Hrun)) as Hinv.
  pose proof (configured_sum _ _ _ _ Hok Hrun) as Hsum.
  destruct (book_inv_totals _ Hinv (Z.le_trans _ _ _ Hsum Hsub) k l Hin)
    as ((Hne & Htot & _ & Hmax) & Hpos).
  rewrite Z.add_0_r in Htot. auto.
Qed.

(** C5, as the code has it.  Let the engine process events that submit
    no more than INT64_MAX in all, so that every total is a value of
    [int64_t].  After every event, every level present in either map
    holds at least one order and has a total equal to the sum of the
    remaining quantities of its orders, which is positive (so no key maps
    to an empty level).  While the next order [x] is matched, be it the
    order of a NEW_ORDER or that of a REPLACE_ORDER after its cancel,
    the same holds after each [update_total_quantity] and after each
    [remove_order] of [try_match], except that a filled front order may
    make a total 0 until it is removed; but between the fill that
    [execute_trade] writes into the resting order, which is when the
    trade callback runs, and [update_total_quantity], the total of the
    matched level exceeds the sum by the quantity of the trade; this
    happens once for each trade made.  After
    each of [add_order], [remove_order] and [cancel_order] called on any
    book [b] whose levels are so, they are so again, whenever the totals
    the call computes are values of [int64_t]. *)
Theorem C5_levels_nonempty_and_totalled sym callback evs e b o i :
  events_ok (configured sym callback) evs ->
  process_events (configured sym callback) evs = Some e ->
  submitted_quantity evs <= INT64_MAX ->
  book_levels_ok b -> book_in_range b ->
  (forall k l,
     In (k, l) (OrderBook.bids_ (order_book_ e)
                ++ OrderBook.asks_ (order_book_ e)) ->
     PriceLevel.orders_ l <> [] /\
     PriceLevel.total_quantity_ l = sum_remaining (PriceLevel.orders_ l) /\
     0 < PriceLevel.total_quantity_ l <= INT64_MAX) /\
  (forall x,
     fresh_order (order_book_ e) x ->
     Forall stages_ok (process_new_order_stages e x) /\
     List.length (trades (fst (process_new_order e x)))
     = (List.length (trades e)
        + List.length (process_new_order_stages e x))%nat) /\
  (INT64_MIN <= remaining_quantity o <= INT64_MAX ->
   book_in_range (fst (fst (OrderBook.add_order b o))) ->
   book_levels_ok (fst (fst (OrderBook.add_order b o)))) /\
  (book_in_range (fst (OrderBook.remove_order b o)) ->
   book_levels_ok (fst (OrderBook.remove_order b o))) /\
  (book_in_range (fst (OrderBook.cancel_order b i)) ->
   book_levels_ok (fst (OrderBook.cancel_order b i))).
Proof.
  intros Hok Hrun Hsub Hb _.
  pose proof (reachable_inv _ (configured_reachable _ _ _ _ Hok Hrun)) as Hinv.
  pose proof (configured_sum _ _ _ _ Hok Hrun) as Hsum.
  split; [exact (configured_totals _ _ _ _ Hok Hrun Hsub)|].
  split; [|split; [|split]].
  - intros x Hfresh.
    pose proof (fresh_loop_inv e x Hinv Hfresh) as Hl.
    rewrite (process_new_order_trades e x Hl).
    unfold process_new_order_stages.
    set (e0 := with_stats e _).
    assert (Hl0 : loop_inv e0 x) by exact Hl.
    assert (Hsum0 : sum_remaining (OrderBook.book_orders (order_book_ e0))
                    <= INT64_MAX) by (simpl; lia).
    split; [apply loop_stages_ok; assumption|].
    change (loop_bound e) with (loop_bound e0).
    exact (loop_stages_trades (loop_bound e0) e0 x Hl0 Hsum0).
  - intros _ _. now apply book_levels_ok_add_order.
  - intros _. now apply book_levels_ok_remove_order.
  - intros _. now apply book_levels_ok_cancel_order.
Qed.

Ltac check_range :=
  unfold book_in_range; split;
  lazymatch goal with
  | |- Forall ?P ?l =>
      let l' := eval vm_compute in l in
      change (Forall P l');
      repeat (apply Forall_cons; [vm_compute; split; discriminate|]);
      apply Forall_nil
  end.

Lemma C5_witness :
  (forall k l,
     In (k, l) (OrderBook.bids_ (order_book_ engine_two_asks)
                ++ OrderBook.asks_ (order_book_ engine_two_asks)) ->
     PriceLevel.orders_ l <> [] /\
     PriceLevel.total_quantity_ l = sum_remaining (PriceLevel.orders_ l) /\
     0 < PriceLevel.total_quantity_ l <= INT64_MAX) /\
  Forall stages_ok (process_new_order_stages engine_two_asks buy3) /\
  book_levels_ok
    (fst (fst (OrderBook.add_order (order_book_ engine_two_asks) sell1))) /\
  book_levels_ok
    (fst (OrderBook.remove_order (order_book_ engine_two_asks) sell1)) /\
  book_levels_ok
    (fst (OrderBook.cancel_order (order_book_ engine_two_asks) 2)).
Proof.
  assert (Hok : events_ok (configured AAPL false)
                  [new_order_event sell1; new_order_event sell2])
    by check_events.
  assert (Hsub : submitted_quantity
                   [new_order_event sell1; new_order_event sell2]
                 <= INT64_MAX) by (vm_compute; discriminate).
  assert (Hfresh : fresh_order (order_book_ engine_two_asks) buy3)
    by check_fresh.
  assert (Hb : book_levels_ok (order_book_ engine_two_asks))
    by check_levels_ok.
  assert (Hr : book_in_range (order_book_ engine_two_asks)) by check_range.
  destruct (C5_levels_nonempty_and_totalled AAPL false _ engine_two_asks
              (order_book_ engine_two_asks) sell1 2 Hok eq_refl Hsub Hb Hr)
    as (H1 & H2 & H3 & H4 & H5).
  split; [exact H1|]. split; [exact (proj1 (H2 buy3 Hfresh))|].
  split; [apply H3; [vm_compute; split; discriminate|check_range]|].
  split; [apply H4; check_range|apply H5; check_range].
Defined.

(** C5 as stated fails inside a match: when [execute_trade] has written
    a fill of 60 into the order resting at 15100 and calls the trade
    callback, the total of the level is still 100 while 40 remain. *)
Lemma C5_counterexample :
  exists b0 b1 b2 l,
    reachable engine_one_ask /\
    fresh_order (order_book_ engine_one_ask) buy_15200 /\
    process_new_order_stages engine_one_ask buy_15200 = [(b0, b1, b2)] /\
    OrderBook.asks_ b0 = [(15100, l)] /\
    PriceLevel.total_quantity_ l = 100 /\
    sum_remaining (PriceLevel.orders_ l) = 40 /\
    PriceLevel.total_quantity_ l <> sum_remaining (PriceLevel.orders_ l).
Proof.
  eexists _, _, _, _.
  split.
  { exists AAPL, false,
      [new_order_event (new_order 1 AAPL SELL LIMIT 15100 100)].
    split; [check_events|reflexivity]. }
  split; [check_fresh|].
  split; [vm_compute; reflexivity|].
  split; [reflexivity|].
  split; [reflexivity|]. split; [reflexivity|]. discriminate.
Qed.

(** X6 ([OrderBook::get_top_of_book]).  After a run of events that
    submitted no more than INT64_MAX in all, the prices of the top of the
    book are [best_bid] and [best_ask], and each quantity is the sum of
    what remains of the orders resting at that price on that side, which
    is positive and a value of [int64_t]. *)
Theorem X6_top_of_book sym callback evs e :
  events_ok (configured sym callback) evs ->
  process_events (configured sym callback) evs = Some e ->
  submitted_quantity evs <= INT64_MAX ->
  let b := order_book_ e in
  let top := OrderBook.get_top_of_book b in
  OrderBook.TopOfBook.bid_price top = OrderBook.best_bid b /\
  OrderBook.TopOfBook.ask_price top = OrderBook.best_ask b /\
  OrderBook.TopOfBook.bid_quantity top
    = option_map
        (fun p => sum_remaining
                    (orders_at p (OrderBook.side_orders (OrderBook.bids_ b))))
        (OrderBook.best_bid b) /\
  OrderBook.TopOfBook.ask_quantity top
    = option_map
        (fun p => sum_remaining
                    (orders_at p (OrderBook.side_orders (OrderBook.asks_ b))))
        (OrderBook.best_ask b) /\
  (forall q, OrderBook.TopOfBook.bid_quantity top = Some q ->
             0 < q <= INT64_MAX) /\
  (forall q, OrderBook.TopOfBook.ask_quantity top = Some q ->
             0 < q <= INT64_MAX).
Proof.
  intros Hok Hrun Hsub b top.
  pose proof (configured_totals _ _ _ _ Hok Hrun Hsub) as Htot.
  destruct (reachable_inv e (configured_reachable _ _ _ _ Hok Hrun))
    as (Hb & Ha & _ & _).
  fold b in Hb, Ha, Htot. subst top.
  unfold OrderBook.get_top_of_book, OrderBook.best_bid, OrderBook.best_ask.
  assert (HB : forall k l, OrderBook.last_error (OrderBook.bids_ b)
                           = Some (k, l) ->
                 PriceLevel.price l = k /\
                 PriceLevel.total_quantity l
                 = sum_remaining
                     (orders_at k (OrderBook.side_orders (OrderBook.bids_ b)))
                 /\ 0 < PriceLevel.total_quantity l <= INT64_MAX).
  { intros k l E. apply last_error_in in E.
    destruct (depth_entry_of_level _ _ _ _ Hb E) as (Hp & Hq & _ & _ & Hpos).
    simpl in Hp, Hq, Hpos. rewrite Hp in Hq.
    split; [exact Hp|]. split; [exact Hq|].
    apply (Htot k l). apply in_app_iff. now left. }
  assert (HA : forall k l, hd_error (OrderBook.asks_ b) = Some (k, l) ->
                 PriceLevel.price l = k /\
                 PriceLevel.total_quantity l
                 = sum_remaining
                     (orders_at k (OrderBook.side_orders (OrderBook.asks_ b)))
                 /\ 0 < PriceLevel.total_quantity l <= INT64_MAX).
  { intros k l E. apply hd_error_in in E.
    destruct (depth_entry_of_level _ _ _ _ Ha E) as (Hp & Hq & _ & _ & Hpos).
    simpl in Hp, Hq, Hpos. rewrite Hp in Hq.
    split; [exact Hp|]. split; [exact Hq|].
    apply (Htot k l). apply in_app_iff. now right. }
  destruct (OrderBook.last_error (OrderBook.bids_ b)) as [[kb lb]|];
    [destruct (HB kb lb eq_refl) as (Hpb & Hqb & Hposb)|];
    (destruct (hd_error (OrderBook.asks_ b)) as [[ka la]|];
     [destruct (HA ka la eq_refl) as (Hpa & Hqa & Hposa)|]);
    simpl;
    repeat match goal with |- _ /\ _ => split end;
    try congruence;
    try (intros q Hq; injection Hq as <-; assumption);
    try discriminate.
Qed.

Lemma engine_two_sided_events :
  events_ok (configured AAPL false)
    [new_order_event sell1; new_order_event sell2;
     new_order_event buy_14990] /\
  process_events (configured AAPL false)
    [new_order_event sell1; new_order_event sell2;
     new_order_event buy_14990] = Some engine_two_sided /\
  submitted_quantity
    [new_order_event sell1; new_order_event sell2;
     new_order_event buy_14990] <= INT64_MAX.
Proof.
  split; [check_events|]. split; [reflexivity|].
  vm_compute. discriminate.
Qed.

Lemma X6_witness :
  OrderBook.get_top_of_book (order_book_ engine_two_sided)
  = OrderBook.TopOfBook.mk (Some 14990) (Some 10) (Some 15000) (Some 200) /\
  0 < 200 <= INT64_MAX.
Proof.
  destruct engine_two_sided_events as (Hok & Hrun & Hsub).
  destruct (X6_top_of_book AAPL false _ engine_two_sided Hok Hrun Hsub)
    as (_ & _ & _ & _ & _ & H).
  split; [reflexivity|]. exact (H 200 eq_refl).
Defined.

(** X8 ([OrderBook::get_bid_depth], [get_ask_depth]).  After a run of
    events that submitted no more than INT64_MAX in all, the bid depth
    lists strictly falling prices and the ask depth strictly rising
    ones, best price first, and each entry gives the number of orders
    resting at its price on its side and the sum of what remains of
    them, both positive, the sum a value of [int64_t]. *)
Theorem X8_depth_snapshot sym callback evs e n :
  events_ok (configured sym callback) evs ->
  process_events (configured sym callback) evs = Some e ->
  submitted_quantity evs <= INT64_MAX ->
  let b := order_book_ e in
  StronglySorted Z.gt
    (map OrderBook.DepthLevel.price (OrderBook.get_bid_depth b n)) /\
  StronglySorted Z.lt
    (map OrderBook.DepthLevel.price (OrderBook.get_ask_depth b n)) /\
  Forall (depth_entry_ok (OrderBook.side_orders (OrderBook.bids_ b)))
         (OrderBook.get_bid_depth b n) /\
  Forall (depth_entry_ok (OrderBook.side_orders (OrderBook.asks_ b)))
         (OrderBook.get_ask_depth b n) /\
  Forall (fun d => OrderBook.DepthLevel.quantity d <= INT64_MAX)
         (OrderBook.get_bid_depth b n ++ OrderBook.get_ask_depth b n).
Proof.
  intros Hok Hrun Hsub b.
  pose proof (configured_totals _ _ _ _ Hok Hrun Hsub) as Htot.
  destruct (reachable_inv e (configured_reachable _ _ _ _ Hok Hrun))
    as (Hb & Ha & _ & _).
  fold b in Hb, Ha, Htot.
  unfold OrderBook.get_bid_depth, OrderBook.get_ask_depth.
  rewrite !depth_loop_map.
  assert (Hprices : forall sd m nodes,
            side_wf sd m -> (forall x, In x nodes -> In x m) ->
            map OrderBook.DepthLevel.price (map depth_entry nodes)
            = keys nodes /\
            Forall (depth_entry_ok (OrderBook.side_orders m))
                   (map depth_entry nodes)).
  { intros sd m nodes Hwf. induction nodes as [|[k l] nodes IH]; intros Hsub'.
    - split; [reflexivity|constructor].
    - destruct IH as (IH1 & IH2); [intros x Hx; apply Hsub'; now right|].
      destruct (depth_entry_of_level _ _ _ _ Hwf (Hsub' _ (or_introl eq_refl)))
        as (Hp & Hok').
      split.
      + change (OrderBook.DepthLevel.price (depth_entry (k, l))
                :: map OrderBook.DepthLevel.price (map depth_entry nodes)
                = k :: keys nodes).
        rewrite Hp, IH1. reflexivity.
      + constructor; assumption. }
  assert (Hfirst_sorted : forall R (xs : list Z) k,
            StronglySorted R xs -> StronglySorted R (firstn k xs)).
  { intros R xs k Hs. revert k.
    induction Hs as [|a xs Hs IH Hall]; intros [|k]; simpl;
      try constructor.
    - apply IH.
    - rewrite Forall_forall in *. intros x Hx. apply Hall.
      exact (in_firstn _ _ _ Hx). }
  assert (Hrev_sorted : forall xs : list Z,
            StronglySorted Z.lt xs -> StronglySorted Z.gt (rev xs)).
  { induction 1 as [|a xs Hs IH Hall]; simpl; [constructor|].
    assert (Hsnoc : forall ys, StronglySorted Z.gt ys ->
                      Forall (fun y => a < y) ys ->
                      StronglySorted Z.gt (ys ++ [a])).
    { induction 1 as [|y ys Hys IHys Hy]; intros Hlt; simpl.
      - constructor; constructor.
      - inversion Hlt; subst. constructor; [apply IHys; assumption|].
        apply Forall_app. split; [exact Hy|]. constructor; [lia|constructor]. }
    apply Hsnoc; [exact IH|].
    rewrite Forall_forall in *. intros y Hy. apply Hall.
    apply in_rev. exact Hy. }
  assert (Hmax : forall nodes,
            (forall x, In x nodes ->
                       In x (OrderBook.bids_ b ++ OrderBook.asks_ b)) ->
            Forall (fun d => OrderBook.DepthLevel.quantity d <= INT64_MAX)
                   (map depth_entry nodes)).
  { intros nodes Hin. apply Forall_forall. intros d Hd.
    apply in_map_iff in Hd. destruct Hd as ([k l] & <- & Hkl).
    apply (Htot k l). apply Hin. exact Hkl. }
  destruct (Hprices BUY (OrderBook.bids_ b)
              (firstn n (rev (OrderBook.bids_ b))) Hb) as (Hpb & Hokb).
  { intros x Hx. apply in_rev. exact (in_firstn _ _ _ Hx). }
  destruct (Hprices SELL (OrderBook.asks_ b)
              (firstn n (OrderBook.asks_ b)) Ha) as (Hpa & Hoka).
  { intros x Hx. exact (in_firstn _ _ _ Hx). }
  rewrite Hpb, Hpa.
  split; [|split; [|split; [|split]]]; try assumption.
  - unfold keys. rewrite <- firstn_map, map_rev.
    apply Hfirst_sorted, Hrev_sorted. exact (proj1 Hb).
  - unfold keys. rewrite <- firstn_map.
    apply Hfirst_sorted. exact (proj1 Ha).
  - apply Forall_app. split; apply Hmax; intros x Hx; apply in_app_iff.
    + left. apply in_rev. exact (in_firstn _ _ _ Hx).
    + right. exact (in_firstn _ _ _ Hx).
Qed.

Lemma X8_witness :
  map OrderBook.DepthLevel.price
    (OrderBook.get_ask_depth (order_book_ engine_two_sided) 10) = [15000] /\
  Forall (depth_entry_ok
            (OrderBook.side_orders
               (OrderBook.asks_ (order_book_ engine_two_sided))))
         (OrderBook.get_ask_depth (order_book_ engine_two_sided) 10) /\
  Forall (fun d => OrderBook.DepthLevel.quantity d <= INT64_MAX)
         (OrderBook.get_bid_depth (order_book_ engine_two_sided) 10
          ++ OrderBook.get_ask_depth (order_book_ engine_two_sided) 10).
Proof.
  destruct engine_two_sided_events as (Hok & Hrun & Hsub).
  destruct (X8_depth_snapshot AAPL false _ engine_two_sided 10 Hok Hrun Hsub)
    as (_ & _ & _ & H & Hmax).
  split; [reflexivity|]. split; [exact H|exact Hmax].
Defined.

End LevelTotals.

(** ** Price-time priority *)

Section Claim3.

Import MatchingEngine.

Lemma crossing_orders_same o0 o b :
  side o = side o0 -> type o = type o0 -> price o = price o0 ->
  crossing_orders o b = crossing_orders o0 b.
Proof.
  intros Hs Ht Hp. unfold crossing_orders, crosses. now rewrite Hs, Ht, Hp.
Qed.

Lemma filter_level_after (f : Z * PriceLevel.t -> bool) sd k r os q l :
  resting_ok sd k r -> Forall (resting_ok sd k) os ->
  0 < q <= remaining_quantity r ->
  f (k, l) = true ->
  (forall l1 l2, f (k, l1) = f (k, l2)) ->
  filter f (level_after k (remaining_quantity r + sum_remaining os) r os q)
  = level_after k (remaining_quantity r + sum_remaining os) r os q.
Proof.
  intros Hr Hos Hq Hf Hext.
  destruct (level_after_shape sd k r os q Hr Hos Hq) as [->|[l' ->]];
    [reflexivity|].
  simpl. now rewrite (Hext l' l), Hf.
Qed.

(** The orders an aggressor can trade with, before and after one
    match. *)
Lemma crossing_orders_step e o pre k r os post :
  is_active o = true -> loop_inv e o ->
  step_facts e o pre k r os post ->
  let q := Z.min (remaining_quantity o) (remaining_quantity r) in
  exists rest,
    crossing_orders o (order_book_ e) = r :: os ++ rest /\
    crossing_orders o
      (order_book_
         (engine_after e o pre k (remaining_quantity r + sum_remaining os)
            r os post))
    = OrderBook.side_orders
        (level_after k (remaining_quantity r + sum_remaining os) r os q)
      ++ rest.
Proof.
  intros Hact [Hinv Hin] (Hopp & Hbuy & Hsell & Hr & Hos & Hlim) q.
  pose proof (incoming_active_bounds _ _ Hin Hact) as Hob.
  assert (Hrb : 0 <= filled_quantity r < quantity r) by apply Hr.
  assert (Hq : 0 < q <= remaining_quantity r)
    by (unfold q, remaining_quantity; lia).
  assert (Hk : crosses o k = true).
  { unfold crosses. destruct (type o); [|reflexivity].
    specialize (Hlim eq_refl). destruct (side o); apply Z.leb_le; lia. }
  set (f := fun kl : Z * PriceLevel.t => crosses o (fst kl)).
  set (T := remaining_quantity r + sum_remaining os) in *.
  assert (Hfl : filter f (level_after k T r os q) = level_after k T r os q).
  { apply (filter_level_after f (opposite (side o)) k r os q
             (PriceLevel.mk k T (r :: os))); auto. }
  unfold crossing_orders, engine_after. fold f q. simpl order_book_.
  destruct (side o) eqn:Hside; simpl in Hopp.
  - rewrite (Hbuy eq_refl) in *. simpl in Hopp. simpl set_opp_side.
    simpl OrderBook.asks_. rewrite Hopp.
    exists (OrderBook.side_orders (filter f post)).
    simpl filter. unfold f at 1. simpl fst. rewrite Hk.
    split; [reflexivity|].
    rewrite filter_app, Hfl, side_orders_app. reflexivity.
  - rewrite (Hsell eq_refl) in *. simpl set_opp_side.
    simpl OrderBook.bids_. rewrite Hopp.
    exists (OrderBook.side_orders (filter f (rev pre))).
    rewrite rev_app_distr. simpl rev. simpl app.
    simpl filter. unfold f at 1. simpl fst. rewrite Hk.
    split; [reflexivity|].
    rewrite app_nil_r, rev_app_distr, filter_app, side_orders_app.
    assert (Hrev : rev (level_after k T r os q) = level_after k T r os q).
    { destruct (level_after_shape (opposite SELL) k r os q) as [E|[l' E]];
        try assumption; fold T in E; rewrite E; reflexivity. }
    rewrite Hrev, Hfl. reflexivity.
Qed.

Lemma resting_fill_trade_of e o r q :
  resting_fill (side o) (trade_of e o r q) = (id r, price r, q).
Proof. unfold resting_fill, resting_id, trade_of. now destruct (side o). Qed.

Lemma filled_in_order_refl e o : filled_in_order e o e o.
Proof.
  repeat split. exists []. now rewrite app_nil_r.
Qed.

Lemma engine_after_filled_in_order e0 o0 e o pre k r os post :
  filled_in_order e0 o0 e o -> loop_inv e o -> is_active o = true ->
  step_facts e o pre k r os post ->
  filled_in_order e0 o0
    (engine_after e o pre k (remaining_quantity r + sum_remaining os)
                  r os post)
    (fill o (Z.min (remaining_quantity o) (remaining_quantity r))).
Proof.
  intros (Hs & Ht & Hp & ts & Hts & Hfills) Hl Hact Hf.
  pose proof Hl as [Hinv Hin].
  pose proof Hf as (_ & _ & _ & Hr & Hos & _).
  pose proof (incoming_active_bounds _ _ Hin Hact) as Hob.
  assert (Hrb : 0 <= filled_quantity r < quantity r) by apply Hr.
  set (q := Z.min (remaining_quantity o) (remaining_quantity r)) in *.
  assert (Hq : 0 < q <= remaining_quantity r)
    by (unfold q, remaining_quantity; lia).
  destruct (crossing_orders_step e o pre k r os post Hact Hl Hf)
    as (rest & Hc & Hc').
  fold q in Hc'.
  rewrite <- (crossing_orders_same o0 o (order_book_ e)) in Hfills
    by assumption.
  split; [exact Hs|]. split; [exact Ht|]. split; [exact Hp|].
  exists (ts ++ [trade_of e o r q]).
  split; [unfold engine_after; simpl; fold q; rewrite Hts;
          now rewrite app_assoc|].
  rewrite Hfills, Hc. rewrite map_app, <- app_assoc. f_equal.
  rewrite <- (crossing_orders_same o0 o) by assumption.
  rewrite Hc'. simpl map. rewrite <- Hs, resting_fill_trade_of.
  rewrite fill_remaining.
  assert (Hro : 0 < remaining_quantity o) by (unfold remaining_quantity; lia).
  simpl fills.
  destruct (Z.leb_spec (remaining_quantity o) 0) as [Hle|_]; [lia|].
  fold q. simpl app. f_equal.
  destruct (level_after_orders (opposite (side o)) k r os q Hos Hq)
    as [(Hfull & ->)|(Hpart & ->)].
  - rewrite Hfull. reflexivity.
  - assert (Hqo : q = remaining_quantity o) by (unfold q; lia).
    assert (Hneg : remaining_quantity o - remaining_quantity r <= 0) by lia.
    assert (Hzero : remaining_quantity o - q <= 0) by lia.
    simpl app. simpl fills.
    apply Z.leb_le in Hzero. rewrite Hzero.
    destruct (os ++ rest); simpl; [reflexivity|].
    apply Z.leb_le in Hneg. now rewrite Hneg.
Qed.

Lemma limit_loop_filled_in_order e o :
  loop_inv e o ->
  filled_in_order e o (fst (limit_loop (loop_bound e) e o))
    (snd (limit_loop (loop_bound e) e o)).
Proof.
  intros Hinv.
  exact (proj2 (limit_loop_rule (filled_in_order e o)
                  (engine_after_filled_in_order e o) (loop_bound e) e o Hinv
                  (filled_in_order_refl e o))).
Qed.

Lemma fills_nothing q os : q <= 0 -> fills q os = [].
Proof.
  intros Hq. destruct os; simpl; [reflexivity|].
  apply Z.leb_le in Hq. now rewrite Hq.
Qed.

(** An aggressor that cannot match has no order left to trade with. *)
Lemma cannot_match_crossing e o :
  book_inv (order_book_ e) -> can_match e o = false ->
  crossing_orders o (order_book_ e) = [].
Proof.
  intros Hinv Hcm. unfold crossing_orders.
  destruct (type o) eqn:Hty.
  - pose proof (cannot_match_no_cross e o Hinv Hty Hcm) as Hnc.
    unfold no_cross in Hnc.
    assert (Hnone : forall m : OrderBook.SideMap,
              (forall kl, In kl m -> crosses o (fst kl) = false) ->
              filter (fun kl => crosses o (fst kl)) m = []).
    { induction m as [|kl m IH]; intros H; simpl; [reflexivity|].
      rewrite (H kl (or_introl eq_refl)). apply IH.
      intros x Hx. apply H. now right. }
    rewrite Hnone; [reflexivity|].
    intros [k l] Hin. unfold crosses. rewrite Hty. simpl.
    destruct (side o).
    + apply Z.leb_gt. apply Hnc. unfold keys. now apply (in_map fst) in Hin.
    + apply Z.leb_gt. apply Hnc. apply in_rev in Hin. unfold keys.
      now apply (in_map fst) in Hin.
  - pose proof (can_match_market_false e o Hty Hcm) as Hempty.
    destruct (side o); simpl in Hempty; rewrite Hempty; reflexivity.
Qed.

Lemma no_more_fills e o :
  loop_inv e o -> is_active o && can_match e o = false ->
  fills (remaining_quantity o) (crossing_orders o (order_book_ e)) = [].
Proof.
  intros [Hinv Hin] Hexit.
  destruct (is_active o) eqn:Hact; simpl in Hexit.
  - now rewrite cannot_match_crossing.
  - apply fills_nothing.
    destruct Hin as (_ & _ & [[Ha _]|[_ Hq]]); [congruence|].
    unfold remaining_quantity. lia.
Qed.

(** The trades made for a new order are the fills of its quantity from
    the orders it can trade with, in the order of price-time priority. *)
Lemma process_new_order_fills e o :
  book_inv (order_book_ e) -> fresh_order (order_book_ e) o ->
  exists ts,
    trades (fst (process_new_order e o)) = trades e ++ ts /\
    map (resting_fill (side o)) ts
    = fills (quantity o) (crossing_orders o (order_book_ e)).
Proof.
  intros Hb Hf.
  assert (Hl : loop_inv e o) by (apply fresh_loop_inv; assumption).
  rewrite (process_new_order_trades e o Hl).
  set (e0 := with_stats e _).
  assert (Hl0 : loop_inv e0 o) by exact Hl.
  change (loop_bound e) with (loop_bound e0).
  pose proof (limit_loop_filled_in_order e0 o Hl0)
    as (Hs & Ht & Hp & ts & Hts & Hfills).
  pose proof (limit_loop_result e0 o Hl0) as (Hl1 & _ & Hexit).
  cbv zeta in Hl1, Hexit.
  destruct (limit_loop (loop_bound e0) e0 o) as [e1 o1]. simpl in *.
  pose proof (no_more_fills e1 o1 Hl1 Hexit) as Hnone.
  rewrite (crossing_orders_same o o1) in Hnone by assumption.
  rewrite Hnone, app_nil_r in Hfills.
  exists ts. split; [exact Hts|].
  rewrite <- Hfills. f_equal.
  destruct Hf as (_ & Hf0 & _). unfold remaining_quantity. lia.
Qed.

Lemma fills_app ahead :
  forall q rest,
    Forall (fun r => 0 < remaining_quantity r) ahead ->
    sum_remaining ahead < q ->
    fills q (ahead ++ rest)
    = map (fun r => (id r, price r, remaining_quantity r)) ahead
      ++ fills (q - sum_remaining ahead) rest.
Proof.
  induction ahead as [|a ahead IH]; intros q rest Hpos Hq; simpl in *.
  - now rewrite Z.sub_0_r.
  - inversion Hpos as [|? ? Ha Hrest]; subst.
    assert (Hnn : 0 <= sum_remaining ahead).
    { clear -Hrest. induction Hrest; simpl; lia. }
    destruct (Z.leb_spec q 0) as [Hle|_]; [lia|].
    rewrite Z.min_r by lia. f_equal.
    rewrite IH by (assumption || lia). f_equal. f_equal. lia.
Qed.

Lemma crossing_orders_resting o b :
  book_inv b ->
  Forall (fun r => 0 < remaining_quantity r) (crossing_orders o b).
Proof.
  intros (Hwb & Hwa & _). apply Forall_forall. intros r Hr.
  unfold crossing_orders in Hr.
  destruct (in_side_orders_level _ _ Hr) as (k & l & Hkl & Hin).
  apply filter_In in Hkl. destruct Hkl as [Hkl _].
  assert (Hres : exists sd, resting_ok sd k r).
  { destruct (side o).
    - destruct (side_wf_level _ _ _ _ Hwa Hkl) as (_ & _ & Hall).
      rewrite Forall_forall in Hall. exists SELL. apply (Hall _ Hin).
    - apply in_rev in Hkl.
      destruct (side_wf_level _ _ _ _ Hwb Hkl) as (_ & _ & Hall).
      rewrite Forall_forall in Hall. exists BUY. apply (Hall _ Hin). }
  destruct Hres as (sd & _ & _ & _ & _ & H).
  unfold remaining_quantity. lia.
Qed.

(** The order reached after [ahead] gets the trade that comes after the
    trades with the orders of [ahead]. *)
Lemma fills_reach sd (ts : list Trade.t) q ahead x behind :
  Forall (fun r => 0 < remaining_quantity r) ahead ->
  map (resting_fill sd) ts = fills q (ahead ++ x :: behind) ->
  sum_remaining ahead < q ->
  exists ts1 t ts2,
    ts = ts1 ++ t :: ts2 /\
    List.length ts1 = List.length ahead /\
    resting_fill sd t
    = (id x, price x, Z.min (q - sum_remaining ahead) (remaining_quantity x)).
Proof.
  intros Hpos Hmap Hq. rewrite fills_app in Hmap by assumption.
  simpl in Hmap.
  destruct (Z.leb_spec (q - sum_remaining ahead) 0) as [Hle|_]; [lia|].
  apply map_eq_app in Hmap. destruct Hmap as (ts1 & ts2' & -> & H1 & H2).
  apply map_eq_cons in H2. destruct H2 as (t & ts2 & -> & Ht & _).
  exists ts1, t, ts2. split; [reflexivity|]. split; [|exact Ht].
  apply (f_equal (@List.length _)) in H1. now rewrite !length_map in H1.
Qed.

(** Two orders of a crossed level, one queued ahead of the other, come
    in that order among the orders the aggressor can trade with. *)
Lemma crossing_orders_level o b k l l1 A l2 B l3 :
  In (k, l) (opp_side (side o) b) -> crosses o k = true ->
  PriceLevel.orders_ l = l1 ++ A :: l2 ++ B :: l3 ->
  exists ahead behind,
    crossing_orders o b = ahead ++ A :: l2 ++ B :: behind.
Proof.
  intros Hkl Hk Hl. unfold crossing_orders.
  set (f := fun kl : Z * PriceLevel.t => crosses o (fst kl)).
  assert (Hin : In (k, l)
                  (filter f (match side o with
                             | BUY => OrderBook.asks_ b
                             | SELL => rev (OrderBook.bids_ b)
                             end))).
  { apply filter_In. split; [|exact Hk].
    destruct (side o); simpl in Hkl; [exact Hkl|now apply in_rev in Hkl]. }
  destruct (in_split _ _ Hin) as (m1 & m2 & ->).
  rewrite side_orders_app. unfold OrderBook.side_orders at 2. simpl.
  fold (OrderBook.side_orders m2). rewrite Hl.
  exists (OrderBook.side_orders m1 ++ l1), (l3 ++ OrderBook.side_orders m2).
  rewrite <- !app_assoc. simpl. rewrite <- !app_assoc. reflexivity.
Qed.

(** A crossing aggressor trades first with the front order of the best
    opposing level. *)
Lemma crossing_orders_front e o :
  book_inv (order_book_ e) -> can_match e o = true ->
  exists k lvl oldest rest others,
    best_opposing_level (side o) (order_book_ e) = Some (k, lvl) /\
    PriceLevel.orders_ lvl = oldest :: rest /\
    crossing_orders o (order_book_ e) = oldest :: others.
Proof.
  intros Hinv Hcm.
  destruct (can_match_decompose _ _ Hinv Hcm)
    as (pre & k & r & os & post & Hopp & Hb & Hs & Hk & Hr & Hos & Hlim).
  assert (Hcr : crosses o k = true).
  { unfold crosses. destruct (type o); [|reflexivity].
    specialize (Hlim eq_refl). destruct (side o); apply Z.leb_le; lia. }
  unfold best_opposing_level, crossing_orders.
  destruct (side o) eqn:Hside; simpl in Hopp.
  - rewrite (Hb eq_refl) in Hopp. simpl in Hopp.
    unfold OrderBook.get_best_ask_level. rewrite Hopp. simpl.
    rewrite Hcr. eexists k, _, r, os, _.
    split; [reflexivity|]. split; reflexivity.
  - rewrite (Hs eq_refl) in Hopp.
    unfold OrderBook.get_best_bid_level. rewrite Hopp.
    rewrite last_error_app, rev_app_distr. simpl. rewrite Hcr.
    eexists k, _, r, os, _.
    split; [reflexivity|]. split; reflexivity.
Qed.

(** What becomes of a new LIMIT order. *)
Lemma limit_order_outcome e o :
  book_inv (order_book_ e) -> fresh_order (order_book_ e) o ->
  type o = LIMIT ->
  let e' := fst (process_new_order e o) in
  let o' := snd (process_new_order e o) in
  (status o' = FILLED /\ filled_quantity o' = quantity o /\
   ~ In (id o) (book_ids (order_book_ e'))) \/
  (is_active o' = true /\ 0 <= filled_quantity o' < quantity o /\
   (symbol o = OrderBook.symbol_ (order_book_ e) ->
    In o' (OrderBook.book_orders (order_book_ e')) /\
    sequence_number o'
    = u64 (OrderBook.sequence_counter_ (order_book_ e) + 1)) /\
   (symbol o <> OrderBook.symbol_ (order_book_ e) ->
    ~ In (id o) (book_ids (order_book_ e')))).
Proof.
  intros Hb Hf Hty e' o'. subst e' o'.
  assert (Hl : loop_inv e o) by (apply fresh_loop_inv; assumption).
  pose proof (process_new_order_shape e o Hl) as Hshape. cbv zeta in Hshape.
  set (e0 := with_stats e _) in *.
  assert (Hl0 : loop_inv e0 o) by exact Hl.
  change (loop_bound e) with (loop_bound e0) in Hshape.
  pose proof (limit_loop_result e0 o Hl0) as ((Hb1 & Hin1) & Hfr & Hexit).
  cbv zeta in Hb1, Hin1, Hfr, Hexit.
  destruct (limit_loop (loop_bound e0) e0 o) as [e1 o1]. simpl in *.
  destruct Hshape as (_ & _ & Hrest). rewrite Hty in Hrest.
  destruct Hfr as (Hsd & Hty1 & Hpr & Hid & Hqu & Hsy & _ & _ & _ & Hbs
                   & Hbc & _).
  simpl in Hbs, Hbc.
  destruct (is_active o1) eqn:Hact.
  - pose proof (incoming_active_bounds _ _ Hin1 Hact) as Hbo.
    assert (Hrem : (remaining_quantity o1 >? 0) = true)
      by (unfold remaining_quantity; lia).
    rewrite Hrem in Hrest. simpl in Hrest, Hexit.
    rewrite surjective_pairing in Hrest. injection Hrest as Hbk Ho.
    right.
    destruct (add_order_filled (order_book_ e1) o1) as (Hfi & Hst).
    rewrite <- Ho in Hfi, Hst.
    split; [unfold is_active in *; rewrite Hst; exact Hact|].
    split; [rewrite Hfi; lia|].
    assert (Hty1' : type o1 = LIMIT) by congruence.
    split.
    + intros Hsym.
      assert (Heqb : String.eqb (symbol o1)
                       (OrderBook.symbol_ (order_book_ e1)) = true).
      { apply String.eqb_eq. congruence. }
      destruct (add_order_inv (order_book_ e1) o1 Hb1 Heqb)
        as (b' & Hadd & _ & A & B & _ & HB).
      * apply (incoming_resting_ok _ _ Hin1 Hact Hty1').
      * apply Hin1.
      * apply cannot_match_no_cross; assumption.
      * rewrite Hadd in Hbk, Ho. simpl in Hbk, Ho.
        rewrite Hbk, Ho, HB, Hbc.
        split; [apply in_or_app; right; now left|reflexivity].
    + intros Hsym.
      assert (Heqb : String.eqb (symbol o1)
                       (OrderBook.symbol_ (order_book_ e1)) = false).
      { apply String.eqb_neq. congruence. }
      rewrite (add_order_mismatch _ _ Heqb) in Hbk. simpl in Hbk.
      rewrite Hbk, <- Hid. apply Hin1.
  - simpl in Hrest. injection Hrest as Hbk Ho. left.
    destruct Hin1 as (_ & Hnin & [[Ha _]|[Hst Hfq]]); [congruence|].
    rewrite Hbk, Ho. split; [exact Hst|]. split; [congruence|].
    rewrite <- Hid. exact Hnin.
Qed.

(** What becomes of a new MARKET order. *)
Lemma market_order_outcome e o :
  book_inv (order_book_ e) -> fresh_order (order_book_ e) o ->
  type o = MARKET ->
  let e' := fst (process_new_order e o) in
  let o' := snd (process_new_order e o) in
  ((status o' = FILLED /\ filled_quantity o' = quantity o) \/
   (status o' = REJECTED /\ 0 <= filled_quantity o' < quantity o /\
    opp_side (side o) (order_book_ e') = [])) /\
  ~ In (id o) (book_ids (order_book_ e')).
Proof.
  intros Hb Hf Hty e' o'. subst e' o'.
  assert (Hl : loop_inv e o) by (apply fresh_loop_inv; assumption).
  pose proof (process_new_order_shape e o Hl) as Hshape. cbv zeta in Hshape.
  set (e0 := with_stats e _) in *.
  assert (Hl0 : loop_inv e0 o) by exact Hl.
  change (loop_bound e) with (loop_bound e0) in Hshape.
  pose proof (limit_loop_result e0 o Hl0) as ((Hb1 & Hin1) & Hfr & Hexit).
  cbv zeta in Hb1, Hin1, Hfr, Hexit.
  destruct (limit_loop (loop_bound e0) e0 o) as [e1 o1]. simpl in *.
  destruct Hshape as (_ & _ & Hrest). rewrite Hty in Hrest.
  destruct Hrest as (Hbk & Ho).
  destruct Hfr as (Hsd & Hty1 & Hpr & Hid & Hqu & _).
  rewrite Hbk, Ho. split; [|rewrite <- Hid; apply Hin1].
  destruct (Z.gtb_spec (remaining_quantity o1) 0) as [Hpos|Hle].
  - right. simpl.
    assert (Hact : is_active o1 = true).
    { destruct Hin1 as (_ & _ & [[Hact _]|[_ Heq]]); [assumption|].
      unfold remaining_quantity in Hpos. lia. }
    rewrite Hact in Hexit. simpl in Hexit.
    pose proof (incoming_active_bounds _ _ Hin1 Hact) as Hbo.
    split; [reflexivity|]. split; [lia|].
    rewrite <- Hsd. apply can_match_market_false; [congruence|assumption].
  - left. destruct Hin1 as (H0 & _ & [[_ Hlt]|[Hst Hfq]]).
    + unfold remaining_quantity in Hle. lia.
    + split; [exact Hst|congruence].
Qed.

(** C3: price-time priority.  Let the engine be in a state it reaches
    (by fewer than 2^64 events, so that sequence numbers have not wrapped
    around), and let [A] and [B] rest in the same level, [A] inserted
    before [B], that is with the smaller sequence number.  Then [A] is
    queued ahead of [B].  The trades an incoming order [o] of the other
    side makes are exactly the fills of its quantity from the orders it
    can trade with, taken in the order of price-time priority: best
    price first, and within a level from the front.  So an aggressor
    that crosses trades first with the front, that is the oldest, order
    of the best opposing level; when it crosses the price of [A] and
    [B], it trades with [A] as soon as its quantity exceeds what rests
    ahead of [A], and with [B] only when its quantity exceeds what rests
    ahead of [B], [A] included, and then in a later trade; and every
    trade against [B] comes after a trade against [A].  The same order
    of the trades holds of any two orders [a], [b] queued in that order.
    Every match is made with the front order of the best opposing level.
    And an order that comes to rest is queued behind every order already
    resting at its price on its side. *)
Theorem C3_time_priority sym callback evs e o k l A B :
  events_ok (configured sym callback) evs ->
  process_events (configured sym callback) evs = Some e ->
  Z.of_nat (List.length evs) < 2 ^ 64 ->
  fresh_order (order_book_ e) o ->
  In (k, l) (opp_side (side o) (order_book_ e)) ->
  In A (PriceLevel.orders_ l) -> In B (PriceLevel.orders_ l) ->
  sequence_number A < sequence_number B ->
  queued_before (opp_side (side o) (order_book_ e)) (id A) (id B) /\
  (exists ts,
     trades (fst (process_new_order e o)) = trades e ++ ts /\
     map (resting_fill (side o)) ts
     = fills (quantity o) (crossing_orders o (order_book_ e)) /\
     (can_match e o = true ->
      exists k1 lvl oldest rest t ts',
        best_opposing_level (side o) (order_book_ e) = Some (k1, lvl) /\
        PriceLevel.orders_ lvl = oldest :: rest /\
        ts = t :: ts' /\
        resting_fill (side o) t
        = (id oldest, price oldest,
           Z.min (quantity o) (remaining_quantity oldest))) /\
     (crosses o k = true ->
      exists ahead between behind,
        crossing_orders o (order_book_ e)
        = ahead ++ A :: between ++ B :: behind /\
        (sum_remaining ahead < quantity o ->
         exists ts1 t ts2,
           ts = ts1 ++ t :: ts2 /\
           List.length ts1 = List.length ahead /\
           resting_fill (side o) t
           = (id A, price A,
              Z.min (quantity o - sum_remaining ahead)
                    (remaining_quantity A))) /\
        (sum_remaining (ahead ++ A :: between) < quantity o ->
         exists ts1 t ts2,
           ts = ts1 ++ t :: ts2 /\
           List.length ts1 = List.length (ahead ++ A :: between) /\
           resting_fill (side o) t
           = (id B, price B,
              Z.min (quantity o - sum_remaining (ahead ++ A :: between))
                    (remaining_quantity B)))) /\
     forall ts1 t ts2,
       ts = ts1 ++ t :: ts2 -> resting_id (side o) t = id B ->
       exists t', In t' ts1 /\ resting_id (side o) t' = id A) /\
  (forall a b,
     queued_before (opp_side (side o) (order_book_ e)) a b ->
     exists ts,
       trades (fst (process_new_order e o)) = trades e ++ ts /\
       forall ts1 t ts2,
         ts = ts1 ++ t :: ts2 -> resting_id (side o) t = b ->
         exists t', In t' ts1 /\ resting_id (side o) t' = a) /\
  (forall e1 e2 o2 res,
     try_match e1 o = (e2, o2, res) -> MatchResult.matched res = true ->
     exists k1 lvl oldest rest t,
       best_opposing_level (side o) (order_book_ e1) = Some (k1, lvl) /\
       PriceLevel.orders_ lvl = oldest :: rest /\
       MatchResult.resting_order res
         = Some (fill oldest (MatchResult.quantity res)) /\
       trades e2 = trades e1 ++ [t] /\
       resting_id (side o) t = id oldest) /\
  (forall N l0 R,
     fresh_order (order_book_ e) N -> type N = LIMIT ->
     can_match e N = false ->
     String.eqb (symbol N) (OrderBook.symbol_ (order_book_ e)) = true ->
     OrderBook.find (own_side (side N) (order_book_ e)) (price N) = Some l0 ->
     In R (PriceLevel.orders_ l0) ->
     queued_before
       (own_side (side N) (order_book_ (fst (process_new_order e N))))
       (id R) (id N)).
Proof.
  intros Hok Hrun Hlen Hfresh Hkl HA HB Hlt.
  assert (Hreach : reachable e) by (exists sym, callback, evs; auto).
  pose proof (reachable_inv _ Hreach) as Hinv.
  assert (Hl : loop_inv e o) by (apply fresh_loop_inv; assumption).
  assert (Hgen : forall a b,
            queued_before (opp_side (side o) (order_book_ e)) a b ->
            exists ts,
              trades (fst (process_new_order e o)) = trades e ++ ts /\
              forall ts1 t ts2,
                ts = ts1 ++ t :: ts2 -> resting_id (side o) t = b ->
                exists t', In t' ts1 /\ resting_id (side o) t' = a).
  { intros a b Hq.
    rewrite process_new_order_trades by assumption.
    set (e0 := with_stats e _).
    destruct (limit_loop_priority e0 o a b Hl Hq)
      as (_ & ts & Htr & Hord & _).
    exists ts. split; [exact Htr|]. exact Hord. }
  assert (Hsplit : exists l1 l2 l3,
            PriceLevel.orders_ l = l1 ++ A :: l2 ++ B :: l3).
  { rewrite <- own_side_opposite in Hkl.
    exact (inserted_before_split sym callback evs e (opposite (side o)) k l
             A B Hok Hrun Hlen Hkl HA HB Hlt). }
  destruct Hsplit as (l1 & l2 & l3 & Hsplit).
  assert (Hq : queued_before (opp_side (side o) (order_book_ e))
                 (id A) (id B)).
  { exists k, l, l1, A, l2, B, l3. auto. }
  split; [exact Hq|]. split; [|split; [exact Hgen|]].
  { destruct (process_new_order_fills e o Hinv Hfresh) as (ts & Hts & Hfills).
    pose proof (crossing_orders_resting o _ Hinv) as Hpos.
    exists ts. split; [exact Hts|]. split; [exact Hfills|].
    split; [|split].
    - intros Hcm.
      destruct (crossing_orders_front e o Hinv Hcm)
        as (k1 & lvl & oldest & rest & others & Hbest & Hlvl & Hc).
      rewrite Hc in Hfills. simpl in Hfills.
      assert (Hqo : 0 < quantity o) by apply Hfresh.
      destruct (Z.leb_spec (quantity o) 0) as [Hle|_]; [lia|].
      apply map_eq_cons in Hfills.
      destruct Hfills as (t & ts' & -> & Ht & _).
      exists k1, lvl, oldest, rest, t, ts'. auto.
    - intros Hk.
      destruct (crossing_orders_level o _ k l l1 A l2 B l3 Hkl Hk Hsplit)
        as (ahead & behind & Hc).
      exists ahead, l2, behind. split; [exact Hc|].
      rewrite Hc in Hfills, Hpos. split.
      + intros Hsum.
        apply (fills_reach (side o) ts (quantity o) ahead A
                 (l2 ++ B :: behind)); try assumption.
        apply Forall_app in Hpos. apply Hpos.
      + intros Hsum.
        apply (fills_reach (side o) ts (quantity o) (ahead ++ A :: l2) B
                 behind); try assumption.
        * replace (ahead ++ A :: l2 ++ B :: behind)
            with ((ahead ++ A :: l2) ++ B :: behind) in Hpos
            by (rewrite <- app_assoc; reflexivity).
          apply Forall_app in Hpos. apply Hpos.
        * rewrite <- app_assoc. exact Hfills.
    - destruct (Hgen _ _ Hq) as (ts0 & Hts0 & Hord).
      rewrite Hts in Hts0. apply app_inv_head in Hts0. subst ts0.
      exact Hord. }
  split.
  - intros e1 e2 o2 res Hrun1 Hm.
    destruct (try_match_matched _ _ _ _ _ Hrun1 Hm)
      as (k1 & lvl & resting & H1 & H2 & _ & _ & _ & H6 & t & H7 & _ & _
          & H10).
    unfold PriceLevel.front_order in H2.
    destruct (PriceLevel.orders_ lvl) as [|x rest] eqn:Hlvl; [discriminate|].
    simpl in H2. injection H2 as ->.
    exists k1, lvl, resting, rest, t. auto 10.
  - intros N l0 R HfN Hty Hcm Hsym Hfind HR.
    rewrite process_new_order_rests by assumption.
    set (N' := with_sequence_number N _).
    pose proof (side_wf_own (side N) _ Hinv) as [Hs _].
    destruct (add_to_side_cases (own_side (side N) (order_book_ e)) N' Hs)
      as [(pre & l' & post & Hm & Hk & ->)
         |(pre & post & Hm & Hk & _)].
    + change (price N') with (price N) in *.
      rewrite Hm in Hfind. rewrite find_decomposed in Hfind by assumption.
      injection Hfind as ->.
      destruct (in_split _ _ HR) as (r1 & r2 & Hl0).
      exists (price N), (PriceLevel.add_order l0 N'), r1, R, r2, N', [].
      split; [apply in_app_iff; right; left; reflexivity|].
      split; [|split; reflexivity].
      unfold PriceLevel.add_order. simpl. rewrite Hl0, <- app_assoc.
      reflexivity.
    + change (price N') with (price N) in *.
      apply find_none_not_in in Hk. congruence.
Qed.

Lemma C3_witness :
  exists ts,
    trades (fst (process_new_order engine_two_asks buy3))
      = trades engine_two_asks ++ ts /\
    map (resting_fill BUY) ts = [(1, 15000, 100); (2, 15000, 50)] /\
    forall ts1 t ts2,
      ts = ts1 ++ t :: ts2 -> resting_id BUY t = 2 ->
      exists t', In t' ts1 /\ resting_id BUY t' = 1.
Proof.
  assert (Hok : events_ok (configured AAPL false)
                  [new_order_event sell1; new_order_event sell2])
    by check_events.
  assert (Hfresh : fresh_order (order_book_ engine_two_asks) buy3)
    by check_fresh.
  assert (Hlen : Z.of_nat (List.length
                             [new_order_event sell1; new_order_event sell2])
                 < 2 ^ 64) by (simpl; lia).
  destruct (C3_time_priority AAPL false
              [new_order_event sell1; new_order_event sell2]
              engine_two_asks buy3 15000
              (PriceLevel.mk 15000 200
                 [with_sequence_number sell1 1; with_sequence_number sell2 2])
              (with_sequence_number sell1 1) (with_sequence_number sell2 2)
              Hok eq_refl Hlen Hfresh)
    as (_ & (ts & Hts & Hfills & _ & _ & Hord) & _).
  - left. reflexivity.
  - left. reflexivity.
  - right. left. reflexivity.
  - simpl. lia.
  - exists ts. split; [exact Hts|]. split; [exact Hfills|exact Hord].
Defined.

End Claim3.

(** ** A REPLACE of an unknown order *)

Section Claim10.

Import MatchingEngine.

(** C10: in a state the engine reaches, a REPLACE whose old id belongs
    to no active resting order does exactly what a NEW_ORDER of the
    replacement does: the cancel half changes nothing, one more order
    is counted as processed and none as cancelled, and the order update
    is issued if a callback is installed.  The replacement, an order of
    a fresh id, is matched: the trades made are the fills of its
    quantity from the orders it can trade with, in the order of
    price-time priority, and its filled quantity is their sum.  And it
    is rested: a LIMIT order ends FILLED and out of the book, or active
    and in the book (when it has the symbol of the book); a MARKET order
    ends FILLED, or REJECTED with the opposing side exhausted, and is not
    in the book. *)
Theorem C10_replace_unknown_id e old_order_id new_order :
  reachable e ->
  (forall x, In x (OrderBook.book_orders (order_book_ e)) ->
             id x = old_order_id -> is_active x = false) ->
  let e' := fst (process_replace_order e old_order_id new_order) in
  let o' := snd (process_replace_order e old_order_id new_order) in
  process_cancel_order e old_order_id = e /\
  process_replace_order e old_order_id new_order
    = process_new_order e new_order /\
  orders_processed (stats_ e') = u64 (orders_processed (stats_ e) + 1) /\
  orders_cancelled (stats_ e') = orders_cancelled (stats_ e) /\
  order_updates e'
    = order_updates e ++ (if order_update_callback_ e then [o'] else []) /\
  same_order new_order o' /\
  (fresh_order (order_book_ e) new_order ->
   (exists ts,
      trades e' = trades e ++ ts /\
      map (resting_fill (side new_order)) ts
      = fills (quantity new_order)
              (crossing_orders new_order (order_book_ e)) /\
      Forall (trade_for new_order) ts /\
      filled_quantity o' = sum_quantities ts) /\
   (type new_order = LIMIT ->
    (status o' = FILLED /\ filled_quantity o' = quantity new_order /\
     ~ In (id new_order) (book_ids (order_book_ e'))) \/
    (is_active o' = true /\
     0 <= filled_quantity o' < quantity new_order /\
     (symbol new_order = OrderBook.symbol_ (order_book_ e) ->
      In o' (OrderBook.book_orders (order_book_ e')) /\
      sequence_number o'
      = u64 (OrderBook.sequence_counter_ (order_book_ e) + 1)) /\
     (symbol new_order <> OrderBook.symbol_ (order_book_ e) ->
      ~ In (id new_order) (book_ids (order_book_ e'))))) /\
   (type new_order = MARKET ->
    ((status o' = FILLED /\ filled_quantity o' = quantity new_order) \/
     (status o' = REJECTED /\
      0 <= filled_quantity o' < quantity new_order /\
      opp_side (side new_order) (order_book_ e') = [])) /\
    ~ In (id new_order) (book_ids (order_book_ e')))).
Proof.
  intros Hreach Hnone e' o'. subst e' o'.
  pose proof (reachable_inv _ Hreach) as Hinv.
  assert (Hnot : ~ In old_order_id (book_ids (order_book_ e))).
  { unfold book_ids. rewrite in_map_iff. intros (x & Hid & Hin).
    pose proof (book_orders_active _ _ Hinv Hin) as Hact.
    rewrite (Hnone x Hin Hid) in Hact. discriminate. }
  assert (Hc : process_cancel_order e old_order_id = e).
  { unfold process_cancel_order. rewrite cancel_order_none by assumption.
    apply with_book_same. }
  unfold process_replace_order. rewrite Hc.
  split; [reflexivity|]. split; [reflexivity|].
  destruct (process_new_order_stats e new_order) as (Hp & Hcan).
  split; [exact Hp|]. split; [exact Hcan|].
  destruct (process_new_order_keeps (symbol_ e) e new_order)
    as (_ & _ & _ & Hu & Hsame).
  split; [exact Hu|]. split; [exact Hsame|].
  intros Hfresh. split; [|split].
  - destruct (process_new_order_fills e new_order Hinv Hfresh)
      as (ts & Hts & Hfills).
    destruct (process_new_order_matched e new_order Hinv Hfresh)
      as (ts0 & Hts0 & Hfor & Hfi & _).
    rewrite Hts in Hts0. apply app_inv_head in Hts0. subst ts0.
    exists ts. auto.
  - intros Hty. exact (limit_order_outcome e new_order Hinv Hfresh Hty).
  - intros Hty. exact (market_order_outcome e new_order Hinv Hfresh Hty).
Qed.

Lemma C10_witness :
  process_replace_order engine_two_asks 999 buy3
  = process_new_order engine_two_asks buy3 /\
  map (resting_fill BUY)
      (trades (fst (process_replace_order engine_two_asks 999 buy3)))
  = [(1, 15000, 100); (2, 15000, 50)] /\
  status (snd (process_replace_order engine_two_asks 999 buy3)) = FILLED.
Proof.
  destruct (C10_replace_unknown_id engine_two_asks 999 buy3)
    as (_ & Heq & _ & _ & _ & _ & Hnew).
  - exists AAPL, false, [new_order_event sell1; new_order_event sell2].
    split; [check_events|reflexivity].
  - simpl. intros x [<-|[<-|[]]]; discriminate.
  - split; [exact Heq|].
    assert (Hfresh : fresh_order (order_book_ engine_two_asks) buy3)
      by check_fresh.
    destruct (Hnew Hfresh) as ((ts & Hts & Hfills & _) & _ & _).
    rewrite Hts. split; [exact Hfills|reflexivity].
Defined.

End Claim10.
